(* ===== verification/_CoqProject ===== *)
-Q . S2P
Prelude.v
Float.v
Text.v
Json.v
Redis.v
Zset.v
Keyspace.v
Scripts.v
Window.v
State.v
Store.v
Consume.v
Schedule.v
Lease.v
System.v
Safety.v
Md5.v
Py.v
Base.v
Importing.v
Loop.v
Heartbeat.v
Dist.v
Managed.v
Distributed.v
Limiter.v
Prometheus.v
ManagedDist.v
Rely.v
Worker.v
Asgi.v
AsyncLoop.v
AsyncDistributed.v
AsyncSim.v
Pool.v
Registry.v
Methods.v
Fleet.v
Cycle.v
Kills.v
Regex.v
Mirrors.v
Report.v
Classify.v
Run.v
Superfluity.v
Timeline.v
