(* ===== verification/Prelude.v ===== *)
(** * Verification of redis-rate-limiter

    The package limits the rate and the concurrency of tasks, or the rate of
    HTTP requests, across any number of processes that share one Redis.  All
    shared state is in Redis and is changed by atomic Lua scripts
    (src/src/redis_rate_limiter/lua); the Python side
    (src/src/redis_rate_limiter) schedules tasks, runs a drain loop that asks
    the scripts for admission, hands admitted tasks to an execution backend,
    and keeps their leases alive.  Paths below are relative to
    src/src/redis_rate_limiter.

    ** Parts of the program and files of the development

    Foundations.  [Float]: doubles as rationals with a rounding after every
    operation; the laws of the rounding are a class, binary64 and exact
    arithmetic are instances.  [Text], [Json], [Md5]: numerals, json.dumps and
    json.loads, hashlib.md5 (standard library of Python and of Lua in Redis).
    [Redis]: the server is a parameter, a state with an executable effect per
    command; [RedisSpec] is the documented behaviour relied on, given by a
    view as a keyspace, and the keyspace itself is an instance.  [Zset],
    [Keyspace], [Store]: sorted sets, typed keys and the effect of one write.

    The scripts.  [Scripts] holds consume.lua, schedule.lua, acquire.lua,
    health.lua, renew.lua and release.lua, one definition each, command by
    command.  [State] abstracts the keys of a limiter to counters, leases,
    buffer, dead letter queue, fairness marks and deduplication marks, with
    the invariant [wt] of their types.  [Window], [Consume], [Schedule] and
    [Lease] state the contract of each script on this abstract state and
    prove it.  [System] is the fleet: every interleaving of script calls and
    of the passing of time from a fresh limiter, with a history; [Safety] has
    the theorems.

    The Python side.  [Py] is a state monad with exceptions over a world: the
    server behind a network whose every round trip may be preceded by the
    acts of other clients, fail before or after the command takes effect, or
    find the script cache flushed.  [Base] is core/base.py and
    core/scripts.py; [Importing] is core/importing.py; [Loop] is DrainLoop and
    BackendHealthMonitor, [Heartbeat] is HeartbeatScheduler, [Dist] is
    DistributedRateLimiterMixin and [Distributed] the rest of
    core/limiters.py, with the theorems in [Limiter].  [AsyncLoop] and
    [AsyncDistributed] translate core/async_limiters.py from its own text,
    and [AsyncSim] relates it to the synchronous classes.  [Managed] is
    core/managed.py for any class of limiters, [ManagedDist] its use by the
    distributed limiters.  [Worker] is core/decorators.py and the Celery, RQ,
    Huey and Dramatiq backends with their workers; [Pool] is the thread pool,
    process pool and asyncio backends; [Asgi] is backends/asgi; [Prometheus]
    is integrations/prometheus.py.  [Registry] is the store of limiter objects
    a process keeps and the steps that may change it.

    The two together.  [Rely] is a rely-guarantee logic of Python methods: a
    guarantee on the server, respected by the other processes, and the orders
    a method earns by admissions.  [Methods] proves every synchronous and
    asynchronous method in it, and the refresh of a managed limiter; [Fleet]
    discharges the interfaces with the reachable states of [System] and the
    concrete backends, defines the states a fleet of Python processes can
    reach and has the end-to-end theorems; [Cycle] follows one task through a
    drain.

    The tooling.  scripts/ of the repository holds the mutation testing tools;
    their computations are modelled, their processes and reports are not.
    [Kills] is the collector and the accumulator of
    src/scripts/mutmut_shared.py, which record the tests that kill each
    mutant; [Superfluity] is src/scripts/analyze_superfluity.py, which finds
    the tests whose kills another test subsumes.  [Classify] is the classifier
    of src/scripts/classify_mutants.py, on the matcher of [Regex] for the
    fragment of Python's re it uses, and [Mirrors] its pairing of synchronous
    and asynchronous mutants.  [Report], [Run] and [Timeline] are
    src/scripts/generate_mutmut_report.py: the counts and lists of a report,
    the report of a run, and the intervals of the tests, rebuilt from the
    events of their processes, with those that overlap.

    ** What is shown

    Scripts: consume, acquire, health, renew and release compute exactly
    their contracts; in every reachable state of a fleet no script fails, the
    keys keep their types, at most max_concurrency leases are held, a window
    admits at most the limit, every scheduled task is buffered, admitted or
    dropped and each at most as often as it was scheduled; the estimate stays
    within bounds of the exact sliding window; the head of the buffer is
    served by priority; workers take turns and a lone worker never waits for
    another; what was scheduled is what is read back.

    Limiters: scheduling claims a task once and releases the claim on
    failure; the evaluation of a script survives a lost script cache; a drain
    leaves a follow-up behind wherever something can run, and its failures
    are absorbed with exponential backoff until the 1025th in a row overflows;
    the drain loop loses no wake and stops when told to; live tasks always
    have a heartbeat pending, due before the lease runs out; tasks have the
    same signature exactly when they are the same call, up to the order of
    keys; leaving a task frees its slot; the lifetimes and delays have the bounds their
    comments claim; the asynchronous classes refine the synchronous ones.

    Fleets: whatever a fleet of synchronous and asynchronous limiters of one
    configuration does, with failing connections, flushed script caches,
    crashes and commands of others on their own keys, the limits of the
    scripts hold; what reaches the backends was admitted, admitted at most as
    often as it was scheduled, and is handed over once.  A fleet neither
    creates, retrieves nor updates limiters, and its limiters over task queues
    do not call [acquire].  On an undisturbed network the drain of a limiter
    that may drain serves the head of the queue, and a task its backend
    refuses is lost, while the drain counts a failure and backs off.

    Registry and backends: an update reaches every process; what one process
    creates another retrieves, except for the settings that are not persisted;
    whatever a process calls, its registry maps
    identifiers to live limiters of that identifier and retrievals keep
    returning the same one; what is scheduled is what a worker runs, in the
    lifecycle of the same task; a thread, process or asyncio pool is never
    overcommitted, and its count is exact up to the leaks the theorem names,
    refused submissions and work cancelled before its first step;
    the middleware enforces the window, handles every request
    once whatever Redis does, and tells refused clients the exact delay.

    Tooling: every kill a child observes is recorded under its mutant;
    deleting every test reported as subsumed keeps every mutant killed; the
    report of any run lists every mutant in its one place and its counts are
    exact; a diff is read back; a search finds the leftmost
    match and none only where there is none; the reported overlaps are exactly
    those of the intervals.

    Where the code does not do what it means to, the behaviour is a theorem:
    an expired head that stalls the queue, a refused dispatch that loses the
    task, a lost answer that duplicates a task, the overflow of the backoff,
    the inline acquisition of the queue backends, which makes consume.lua
    raise after it took a token, a lease and the signal, settings that a
    retrieval resets to their defaults, a refused submission or a
    cancelled future that leaks a slot, the race of a retrieval with an
    update, two overlapping first retrievals that start two limiters, a window
    that is no whole number of half milliseconds, reports of test files of the
    same name that overwrite each other, a test restarted under the same
    process number, fork-immune mutants that the printed classification never
    counts, method swaps that are taken for cosmetic string mutations.

    ** Bounds and fuel

    Windows are a whole number of milliseconds below 10^13 and clocks lie
    before the year 5138 ([clock_max]), where the window arithmetic of the
    scripts is exact in doubles; limits are at most 2^50, so that counts are
    exact.  Overflow and subnormals of doubles are not represented, except
    for the overflow of the backoff.  [loads] spends one unit of fuel per
    call and a document needs no more than its length, which is the fuel it is
    given; printing a float tries the seventeen significant digits a double
    needs; a greedy repetition of a pattern is tried once per character left,
    which is enough since it must consume.  Every other recursion is
    structural.

    ** Not modelled

    The content of log messages; the memory and scheduling of threads beyond
    the interleaving of their critical sections; the client libraries of
    Redis, the task queues and Prometheus, the executors and the ASGI server,
    which are parameters or the state they are documented to keep; the
    package's re-exports.  Strings are sequences of code points below 256;
    payloads arrive decoded.  A digest stands for the script it is evaluated
    with: that a server answers a digest with the source it was computed from
    is Redis's part, not the client's.  The name in a message is not resolved
    to a registered worker: a message and the worker of its backend are
    compared.  [time.time()] is read once where a line reads it twice, and
    neighbouring critical sections of the heartbeat's renewal are one step.  A
    child of a mutation run ends between two events, not while it writes its
    file.
    Of scripts/, what drives or patches the mutation testing program, reads
    files and lays out text is left out, as are the benchmarks, examples, demo
    and tests of the repository. *)

From Stdlib Require Export Ascii Setoid Morphisms ZArith QArith Qround Qabs Qpower Lqa Lia.
From stdpp Require Export base strings gmap option list.

#[global] Set Default Goal Selector "!".

(** Rationals stand for the numbers of Lua and Python; the scope is opened
    explicitly where a file computes with them. *)
#[global] Close Scope Q_scope.
Coercion inject_Z : Z >-> Q.

(** The notations of the development live in a scope of their own. *)
Declare Scope rl_scope.
Delimit Scope rl_scope with rl.

(** The hint database of the development: closing facts about the shared
    containers and numbers. *)
Create HintDb rl.

(** ** Tactics *)

(** Case analysis on the scrutinee of the outermost match of the goal. *)
Ltac case_goal :=
  match goal with
  | |- context [match ?x with _ => _ end] =>
      lazymatch x with
      | context [match _ with _ => _ end] => fail
      | _ => destruct x eqn:?
      end
  end.

(** Case analysis on the scrutinee of a match in a hypothesis. *)
Ltac case_hyp H :=
  match type of H with
  | context [match ?x with _ => _ end] =>
      lazymatch x with
      | context [match _ with _ => _ end] => fail
      | _ => destruct x eqn:?
      end
  end.

(** Reflect boolean comparisons of rationals and integers. *)
Ltac reflect_bools :=
  repeat match goal with
  | H : Qle_bool _ _ = true |- _ => apply Qle_bool_iff in H
  | H : Qle_bool _ _ = false |- _ =>
      let H' := fresh in
      rename H into H';
      assert (H := proj1 (Bool.not_true_iff_false _) H');
      rewrite Qle_bool_iff in H; apply Qnot_le_lt in H; clear H'
  | H : (_ <? _)%Z = true |- _ => apply Z.ltb_lt in H
  | H : (_ <? _)%Z = false |- _ => apply Z.ltb_ge in H
  | H : (_ <=? _)%Z = true |- _ => apply Z.leb_le in H
  | H : (_ <=? _)%Z = false |- _ => apply Z.leb_gt in H
  | H : (_ =? _)%Z = true |- _ => apply Z.eqb_eq in H
  | H : (_ =? _)%Z = false |- _ => apply Z.eqb_neq in H
  | H : andb _ _ = true |- _ => apply andb_prop in H; destruct H
  | H : negb _ = true |- _ => apply negb_true_iff in H
  | H : negb _ = false |- _ => apply negb_false_iff in H
  end.
