(* ===== verification/Float.v ===== *)
(** * Floating point numbers

    Lua numbers and Python floats are IEEE doubles.  A double is represented
    by the rational it denotes, and every arithmetic operation of the source
    is the exact rational operation followed by a rounding.  The interface
    [Rounding]/[RoundingLaws] states what the rest of the development uses of
    the rounding; [binary64] is round-to-nearest-even with a 53-bit
    significand (overflow and subnormals are out of range of the program's
    values and not represented) and [exact_rounding] is the identity, used to
    state what the formulas compute in exact arithmetic. *)

From S2P Require Import Prelude.

Open Scope Q_scope.

(** ** Interface *)

Class Rounding := rnd : Q -> Q.

Definition two53 : Z := (2 ^ 53)%Z.

Class RoundingLaws (R : Rounding) : Prop := {
  rnd_mono : forall x y, x <= y -> rnd x <= rnd y;
  rnd_int : forall n : Z, (Z.abs n <= two53)%Z -> rnd n == n;
  rnd_err : forall x, Qabs (rnd x - x) <= Qabs x * (1 # 2 ^ 53);
}.

(** ** Exact arithmetic *)

Definition exact_rounding : Rounding := fun x => x.

Lemma exact_laws : RoundingLaws exact_rounding.
Proof.
  split; unfold rnd, exact_rounding; [done|reflexivity|].
  intros x. assert (x - x == 0) as -> by ring. rewrite (Qabs_pos 0) by lra.
  apply Qmult_le_0_compat; [apply Qabs_nonneg|done].
Qed.

(** ** Round half to even on rationals *)

Definition Qrne (q : Q) : Z :=
  let f := Qfloor q in
  match Qcompare (q - f) (1 # 2) with
  | Lt => f
  | Gt => (f + 1)%Z
  | Eq => if Z.even f then f else (f + 1)%Z
  end.

Lemma Qfloor_bounds q : Qfloor q <= q < Qfloor q + 1.
Proof.
  split; [apply Qfloor_le|]. pose proof (Qlt_floor q) as H.
  rewrite inject_Z_plus in H. exact H.
Qed.

Lemma Qfloor_unique q (n : Z) : n <= q -> q < n + 1 -> Qfloor q = n.
Proof.
  intros H1 H2. apply Z.le_antisymm.
  - apply Zlt_succ_le. rewrite Zlt_Qlt, <-Z.add_1_r, inject_Z_plus.
    eapply Qle_lt_trans; [apply Qfloor_le|done].
  - rewrite <-(Qfloor_Z n). by apply Qfloor_resp_le.
Qed.

Lemma Qrne_cases q :
  (Qrne q = Qfloor q /\ q - Qfloor q <= 1 # 2) \/
  (Qrne q = (Qfloor q + 1)%Z /\ 1 # 2 <= q - Qfloor q).
Proof.
  unfold Qrne. destruct (Qcompare_spec (q - Qfloor q) (1 # 2)).
  - destruct (Z.even _); [left|right]; split; (done || lra).
  - left; split; [done|lra].
  - right; split; [done|lra].
Qed.

Lemma Qrne_mono x y : x <= y -> (Qrne x <= Qrne y)%Z.
Proof.
  intros Hxy. pose proof (Qfloor_resp_le _ _ Hxy) as Hf.
  destruct (Z.eq_dec (Qfloor x) (Qfloor y)) as [E|NE].
  - unfold Qrne. rewrite <-E.
    destruct (Qcompare_spec (x - Qfloor x) (1 # 2));
      destruct (Qcompare_spec (y - Qfloor x) (1 # 2));
      try destruct (Z.even _); try lia; lra.
  - destruct (Qrne_cases x) as [[-> _]|[-> _]];
      destruct (Qrne_cases y) as [[-> _]|[-> _]]; lia.
Qed.

Lemma Qrne_Z (n : Z) : Qrne n = n.
Proof.
  unfold Qrne. rewrite Qfloor_Z.
  destruct (Qcompare_spec (n - n) (1 # 2)); [|done|]; lra.
Qed.

Lemma Qrne_comp x y : x == y -> Qrne x = Qrne y.
Proof. intros E. apply Z.le_antisymm; apply Qrne_mono; lra. Qed.

Lemma Qrne_err q : Qabs (Qrne q - q) <= 1 # 2.
Proof.
  pose proof (Qfloor_bounds q). apply Qabs_Qle_condition.
  destruct (Qrne_cases q) as [[-> ?]|[-> ?]];
    rewrite ?inject_Z_plus; change (1%Z : Q) with 1; lra.
Qed.

(** ** Binary exponent *)

Definition pow2 (e : Z) : Q := (2 # 1) ^ e.

Lemma pow2_pos e : 0 < pow2 e.
Proof. apply Qpower_0_lt. lra. Qed.
#[export] Hint Resolve pow2_pos : rl.

Lemma pow2_nonneg e : 0 <= pow2 e.
Proof. apply Qlt_le_weak, pow2_pos. Qed.
#[export] Hint Resolve pow2_nonneg : rl.

Lemma pow2_plus a b : pow2 (a + b) == pow2 a * pow2 b.
Proof. apply Qpower_plus. lra. Qed.

Lemma pow2_Z (e : Z) : (0 <= e)%Z -> pow2 e == (2 ^ e)%Z.
Proof. intros He. symmetry. by apply Zpower_Qpower. Qed.

Lemma pow2_mono a b : (a <= b)%Z -> pow2 a <= pow2 b.
Proof.
  intros Hab. destruct (Z.eq_dec a b) as [->|NE]; [lra|].
  apply Qlt_le_weak, Qpower_lt_compat_l; [lia|lra].
Qed.

Lemma pow2_lt_inv a b : pow2 a < pow2 b -> (a < b)%Z.
Proof. intros H. eapply Qpower_lt_compat_l_inv; [exact H|lra]. Qed.

Lemma pow2_inv e : pow2 (- e) * pow2 e == 1.
Proof. rewrite <-pow2_plus, Z.add_opp_diag_l. reflexivity. Qed.

(** The exponent [e] with [2^e <= x < 2^(e+1)], for a positive [x]. *)
Definition Qlog2 (x : Q) : Z :=
  let l := (Z.log2 (Qnum x) - Z.log2 (Z.pos (Qden x)))%Z in
  if Qle_bool (pow2 l) x then l else (l - 1)%Z.

Lemma Zlog2_Q (n : positive) :
  pow2 (Z.log2 (Z.pos n)) <= Z.pos n /\ Z.pos n < pow2 (Z.log2 (Z.pos n) + 1).
Proof.
  destruct (Z.log2_spec (Z.pos n)) as [H1 H2]; [lia|].
  pose proof (Z.log2_nonneg (Z.pos n)).
  rewrite !pow2_Z by lia. rewrite <-Zle_Qle, <-Zlt_Qlt. split; [done|].
  by rewrite Z.add_1_r.
Qed.

Lemma Qlog2_spec x : 0 < x -> pow2 (Qlog2 x) <= x /\ x < pow2 (Qlog2 x + 1).
Proof.
  intros Hx. destruct x as [n d]. destruct n as [|n|n]; [done| |done].
  unfold Qlog2. cbn [Qnum Qden].
  destruct (Zlog2_Q n) as [Hn1 Hn2]. destruct (Zlog2_Q d) as [Hd1 Hd2].
  set (a := Z.log2 (Z.pos n)) in *. set (b := Z.log2 (Z.pos d)) in *.
  assert (Hd : 0 < Z.pos d) by done.
  assert (Hsplit : forall k, pow2 (a + k) == pow2 (a - b + k) * pow2 b).
  { intros k. rewrite <-pow2_plus. by replace (a - b + k + b)%Z with (a + k)%Z by lia. }
  pose proof (pow2_pos b). pose proof (pow2_pos (a - b)).
  assert (Hup : Z.pos n # d < pow2 (a - b + 1)).
  { rewrite (Qmake_Qdiv (Z.pos n) d). apply Qlt_shift_div_r; [done|]. eapply Qlt_le_trans; [exact Hn2|].
    rewrite (Hsplit 1%Z). apply Qmult_le_l; [apply pow2_pos|done]. }
  assert (Hlo : pow2 (a - b - 1) <= Z.pos n # d).
  { rewrite (Qmake_Qdiv (Z.pos n) d). apply Qle_shift_div_l; [done|]. eapply Qle_trans; [|exact Hn1].
    eapply Qle_trans.
    { apply Qmult_le_l; [apply pow2_pos|]. apply Qlt_le_weak, Hd2. }
    rewrite <-pow2_plus. replace (a - b - 1 + (b + 1))%Z with a by lia. lra. }
  destruct (Qle_bool (pow2 (a - b)) (Z.pos n # d)) eqn:E.
  - apply Qle_bool_iff in E. split; [done|exact Hup].
  - split; [exact Hlo|]. replace (a - b - 1 + 1)%Z with (a - b)%Z by lia.
    apply Qnot_le_lt. rewrite <-Qle_bool_iff, E. done.
Qed.

(** ** binary64 *)

(** Rounding onto the grid of multiples of [2^e]. *)
Definition grid (e : Z) (x : Q) : Q := Qrne (x * pow2 (- e)) * pow2 e.

Definition ulp_exp (x : Q) : Z := (Qlog2 x - 52)%Z.

Definition rnd64_pos (x : Q) : Q := grid (ulp_exp x) x.

Definition rnd64 (x : Q) : Q :=
  match Qcompare x 0 with
  | Lt => Qred (- rnd64_pos (- x))
  | Eq => 0
  | Gt => Qred (rnd64_pos x)
  end.

Definition binary64 : Rounding := rnd64.

Lemma grid_mono e x y : x <= y -> grid e x <= grid e y.
Proof.
  intros H. unfold grid. apply Qmult_le_compat_r; [|auto with rl].
  rewrite <-Zle_Qle. apply Qrne_mono.
  apply Qmult_le_compat_r; auto with rl.
Qed.

(** Points of the grid are fixed. *)
Lemma grid_fixed e x (n : Z) : x == n * pow2 e -> grid e x == x.
Proof.
  intros Hx. unfold grid. rewrite (Qrne_comp _ n); [rewrite Qrne_Z; symmetry; exact Hx|].
  rewrite Hx. transitivity (n * (pow2 (- e) * pow2 e)); [ring|].
  rewrite pow2_inv. ring.
Qed.

Lemma grid_fixed_pow2 e k : (e <= k)%Z -> grid e (pow2 k) == pow2 k.
Proof.
  intros Hk. apply (grid_fixed e _ (2 ^ (k - e))%Z).
  rewrite <-pow2_Z, <-pow2_plus by lia.
  by replace (k - e + e)%Z with k by lia.
Qed.

Lemma grid_err e x : Qabs (grid e x - x) <= pow2 e * (1 # 2).
Proof.
  pose proof (Qrne_err (x * pow2 (- e))) as H.
  apply Qabs_Qle_condition in H. apply Qabs_Qle_condition.
  pose proof (pow2_pos e). pose proof (pow2_inv e) as Hi.
  assert (Hx : x == x * pow2 (- e) * pow2 e) by (rewrite <-Qmult_assoc, Hi; ring).
  unfold grid. set (y := x * pow2 (- e)) in *.
  assert (Qrne y * pow2 e - x == (Qrne y - y) * pow2 e) as ->
    by (rewrite Hx; ring).
  nra.
Qed.

Lemma rnd64_pos_mono x y : 0 < x -> x <= y -> rnd64_pos x <= rnd64_pos y.
Proof.
  intros Hx Hxy. unfold rnd64_pos, ulp_exp.
  destruct (Qlog2_spec x Hx) as [Hx1 Hx2].
  destruct (Qlog2_spec y) as [Hy1 Hy2]; [lra|].
  set (a := Qlog2 x) in *. set (b := Qlog2 y) in *.
  assert (Hab : (a < b + 1)%Z) by (apply pow2_lt_inv; lra).
  destruct (Z.eq_dec a b) as [->|NE]; [by apply grid_mono|].
  eapply Qle_trans; [apply grid_mono, Qlt_le_weak, Hx2|].
  rewrite grid_fixed_pow2 by lia.
  eapply Qle_trans; [apply (pow2_mono _ b); lia|].
  rewrite <-(grid_fixed_pow2 (b - 52) b) by lia. by apply grid_mono.
Qed.

Lemma rnd64_pos_ge0 x : 0 < x -> 0 <= rnd64_pos x.
Proof.
  intros Hx. unfold rnd64_pos.
  rewrite <-(grid_fixed (ulp_exp x) 0 0%Z) by (change (0%Z : Q) with 0; ring).
  apply grid_mono. lra.
Qed.

Lemma rnd64_neg x : x < 0 -> rnd64 x == - rnd64_pos (- x).
Proof. intros H. unfold rnd64. rewrite (proj1 (Qlt_alt _ _) H). apply Qred_correct. Qed.

Lemma rnd64_zero x : x == 0 -> rnd64 x == 0.
Proof. intros H. unfold rnd64. rewrite (proj1 (Qeq_alt _ _) H). reflexivity. Qed.

Lemma rnd64_gt x : 0 < x -> rnd64 x == rnd64_pos x.
Proof. intros H. unfold rnd64. rewrite (proj1 (Qgt_alt _ _) H). apply Qred_correct. Qed.

Lemma rnd64_mono x y : x <= y -> rnd64 x <= rnd64 y.
Proof.
  intros Hxy.
  assert (Hp : forall z, 0 < z -> 0 <= rnd64_pos z) by apply rnd64_pos_ge0.
  destruct (Q_dec x 0) as [[Hx|Hx]|Hx]; destruct (Q_dec y 0) as [[Hy|Hy]|Hy];
    try lra;
    rewrite ?(rnd64_neg x), ?(rnd64_neg y), ?(rnd64_zero x), ?(rnd64_zero y),
      ?(rnd64_gt x), ?(rnd64_gt y) by done.
  - assert (rnd64_pos (- y) <= rnd64_pos (- x)) by (apply rnd64_pos_mono; lra). lra.
  - pose proof (Hp (- x)). pose proof (Hp y). lra.
  - specialize (Hp (- x)). lra.
  - by apply rnd64_pos_mono.
  - specialize (Hp y). lra.
  - lra.
Qed.

Lemma rnd64_pos_int (n : Z) : (0 < n <= two53)%Z -> rnd64_pos n == n.
Proof.
  intros Hn. unfold rnd64_pos, ulp_exp.
  assert (Hq : 0 < n) by (rewrite (Zlt_Qlt 0) in Hn; apply Hn).
  destruct (Qlog2_spec n Hq) as [H1 H2]. set (a := Qlog2 n) in *.
  assert (Ha : (a < 54)%Z).
  { apply pow2_lt_inv. eapply Qle_lt_trans; [exact H1|].
    rewrite pow2_Z, <-Zlt_Qlt by lia. unfold two53 in Hn. lia. }
  destruct (Z.eq_dec a 53%Z) as [Ha'|Ha'].
  - assert (Hn53 : (n = two53)%Z).
    { rewrite Ha', pow2_Z, <-Zle_Qle in H1 by lia. unfold two53 in *. lia. }
    rewrite Ha'. assert (Hp : n == pow2 53%Z).
    { rewrite pow2_Z, Hn53 by lia. reflexivity. }
    apply (grid_fixed _ _ (2 ^ 52)%Z). rewrite Hp. reflexivity.
  - apply (grid_fixed _ _ (n * 2 ^ (52 - a))%Z).
    rewrite inject_Z_mult, <-pow2_Z, <-Qmult_assoc, <-pow2_plus by lia.
    replace (52 - a + (a - 52))%Z with 0%Z by lia. change (pow2 0%Z) with 1. ring.
Qed.

Lemma rnd64_pos_err x : 0 < x -> Qabs (rnd64_pos x - x) <= x * (1 # 2 ^ 53).
Proof.
  intros Hx. eapply Qle_trans; [apply grid_err|]. unfold ulp_exp.
  destruct (Qlog2_spec x Hx) as [H1 H2].
  unfold Z.sub. rewrite pow2_plus.
  assert (pow2 (Qlog2 x) * pow2 (- (52)) * (1 # 2) == pow2 (Qlog2 x) * (1 # 2 ^ 53))
    as -> by (rewrite <-Qmult_assoc; reflexivity).
  apply Qmult_le_compat_r; [done|discriminate].
Qed.

Lemma Qabs_opp_swap x y : Qabs (- x - y) == Qabs (x - - y).
Proof. rewrite <-(Qabs_opp (x - - y)). apply Qabs_wd. ring. Qed.

(** binary64 satisfies the interface. *)
Lemma binary64_laws : RoundingLaws binary64.
Proof.
  split; unfold rnd, binary64.
  - apply rnd64_mono.
  - intros n Hn. destruct (Z.lt_trichotomy n 0%Z) as [H|[->|H]].
    + rewrite rnd64_neg by (rewrite (Zlt_Qlt n 0) in H; exact H).
      rewrite <-inject_Z_opp, rnd64_pos_int, inject_Z_opp by lia. ring.
    + by apply rnd64_zero.
    + rewrite rnd64_gt by (rewrite (Zlt_Qlt 0 n) in H; exact H).
      apply rnd64_pos_int. lia.
  - intros x. destruct (Q_dec x 0) as [[H|H]|H].
    + rewrite rnd64_neg, Qabs_opp_swap by done.
      rewrite (Qabs_neg x) by lra.
      apply rnd64_pos_err. lra.
    + rewrite rnd64_gt by done. rewrite (Qabs_pos x) by lra. by apply rnd64_pos_err.
    + rewrite rnd64_zero by done. rewrite H. discriminate.
Qed.

(** ** Rounded arithmetic *)

Definition fadd `{Rounding} (x y : Q) : Q := rnd (x + y).
Definition fsub `{Rounding} (x y : Q) : Q := rnd (x - y).
Definition fmul `{Rounding} (x y : Q) : Q := rnd (x * y).
Definition fdiv `{Rounding} (x y : Q) : Q := rnd (x / y).

Infix "⊕" := fadd (at level 50, left associativity) : rl_scope.
Infix "⊖" := fsub (at level 50, left associativity) : rl_scope.
Infix "⊗" := fmul (at level 40, left associativity) : rl_scope.
Infix "⊘" := fdiv (at level 40, left associativity) : rl_scope.

(** Comparisons as the source writes them. *)
Definition Qltb (x y : Q) : bool := negb (Qle_bool y x).

Lemma Qltb_lt x y : Qltb x y = true <-> x < y.
Proof.
  unfold Qltb. rewrite negb_true_iff, <-not_true_iff_false, Qle_bool_iff.
  split; [apply Qnot_le_lt|apply Qlt_not_le].
Qed.

Lemma Qltb_ge x y : Qltb x y = false <-> y <= x.
Proof. unfold Qltb. by rewrite negb_false_iff, Qle_bool_iff. Qed.

(** [max] of Lua and Python: the larger of the two. *)
#[export] Instance Qle_decision (x y : Q) : Decision (x <= y).
Proof. destruct (Qlt_le_dec y x); [right; lra|by left]. Defined.

Definition fmax (x y : Q) : Q := if Qltb x y then y else x.

(** Python's [min]: the first of the smallest arguments. *)
Definition fmin (x y : Q) : Q := if Qltb y x then y else x.

Lemma fmax_spec x y : x <= fmax x y /\ y <= fmax x y /\ (fmax x y = x \/ fmax x y = y).
Proof.
  unfold fmax. destruct (Qltb x y) eqn:E.
  - apply Qltb_lt in E. split_and!; [lra|lra|by right].
  - apply Qltb_ge in E. split_and!; [lra|lra|by left].
Qed.

Lemma fmin_spec x y : fmin x y <= x /\ fmin x y <= y /\ (fmin x y = x \/ fmin x y = y).
Proof.
  unfold fmin. destruct (Qltb y x) eqn:E.
  - apply Qltb_lt in E. split_and!; [lra|lra|by right].
  - apply Qltb_ge in E. split_and!; [lra|lra|by left].
Qed.

(** Python's [round(x, 3)]: the decimal with three digits nearest to the exact
    value, ties to even, read back as a double. *)
Definition round3 `{Rounding} (x : Q) : Q := rnd (Qrne (x * 1000) / 1000).

Lemma Qdiv_Z (n : Z) (d : Z) : (0 < d)%Z -> (n / d)%Z <= n / d.
Proof.
  intros Hd. rewrite Zdiv_Qdiv. apply Qfloor_le.
Qed.

Section Laws.
Context {R : Rounding} {RL : RoundingLaws R}.

#[export] Instance rnd_proper : Proper (Qeq ==> Qeq) (rnd (Rounding := R)).
Proof. intros x y E. apply Qle_antisym; apply rnd_mono; rewrite E; lra. Qed.

Lemma rnd_ge_int (n : Z) x : (Z.abs n <= two53)%Z -> n <= x -> n <= rnd x.
Proof. intros Hn H. rewrite <-(rnd_int n) by done. by apply rnd_mono. Qed.

Lemma rnd_le_int (n : Z) x : (Z.abs n <= two53)%Z -> x <= n -> rnd x <= n.
Proof. intros Hn H. rewrite <-(rnd_int n) by done. by apply rnd_mono. Qed.

Lemma rnd_nonneg x : 0 <= x -> 0 <= rnd x.
Proof. intros H. by apply (rnd_ge_int 0%Z). Qed.

Lemma rnd_le_1 x : x <= 1 -> rnd x <= 1.
Proof. intros H. by apply (rnd_le_int 1%Z). Qed.

(** A value that is already a double is not changed. *)
Lemma rnd_le_fixed x y : rnd y == y -> x <= y -> rnd x <= y.
Proof. intros Hy H. rewrite <-Hy. by apply rnd_mono. Qed.

Lemma rnd_ge_fixed x y : rnd y == y -> y <= x -> y <= rnd x.
Proof. intros Hy H. rewrite <-Hy. by apply rnd_mono. Qed.

(** Sums, differences and products of integers below [2^53] are exact. *)
Lemma fadd_int (a b : Z) : (Z.abs (a + b) <= two53)%Z -> fadd a b == (a + b)%Z.
Proof. intros H. unfold fadd. rewrite <-inject_Z_plus. by apply rnd_int. Qed.

Lemma fsub_int (a b : Z) : (Z.abs (a - b) <= two53)%Z -> fsub a b == (a - b)%Z.
Proof.
  intros H. unfold fsub, Qminus. rewrite <-inject_Z_opp, <-inject_Z_plus. by apply rnd_int.
Qed.

Lemma fmul_int (a b : Z) : (Z.abs (a * b) <= two53)%Z -> fmul a b == (a * b)%Z.
Proof. intros H. unfold fmul. rewrite <-inject_Z_mult. by apply rnd_int. Qed.

(** The quotient of two integers, rounded, has the exact floor: the quotient
    of [a] by [b] is further than [2^-53] (relatively) below the next integer. *)
Lemma floor_fdiv (a b : Z) :
  (0 <= a < two53)%Z -> (0 < b)%Z -> Qfloor (fdiv a b) = (a / b)%Z.
Proof.
  intros Ha Hb. set (k := (a / b)%Z).
  assert (Hk : (0 <= k <= a)%Z).
  { split; [apply Z.div_pos; lia|]. apply Z.div_le_upper_bound; nia. }
  assert (Hbq : 0 < b) by (rewrite (Zlt_Qlt 0) in Hb; exact Hb).
  assert (Haq : 0 <= a) by (destruct Ha as [Ha _]; rewrite Zle_Qle in Ha; exact Ha).
  assert (Hmod : a < (k + 1) * b).
  { change 1 with (inject_Z 1). rewrite <-inject_Z_plus, <-inject_Z_mult, <-Zlt_Qlt.
    pose proof (Z.mod_pos_bound a b Hb). pose proof (Z.div_mod a b). subst k. lia. }
  assert (Hx : a / b * b == a) by (field; lra).
  set (x := a / b) in *.
  apply Qfloor_unique.
  - unfold fdiv. apply rnd_ge_int; [lia|]. apply Qle_shift_div_l; [done|].
    rewrite <-inject_Z_mult, <-Zle_Qle. pose proof (Z.mul_div_le a b Hb). lia.
  - unfold fdiv. fold x. pose proof (rnd_err x) as He.
    assert (Hx0 : 0 <= x) by (apply Qle_shift_div_l; lra).
    rewrite (Qabs_pos x) in He by done.
    apply Qabs_Qle_condition in He. destruct He as [_ He].
    assert (Hbx : x * (1 # 2 ^ 53) * b < 1).
    { assert (x * (1 # 2 ^ 53) * b == a * (1 # 2 ^ 53)) as ->
        by (rewrite <-Hx; ring).
      destruct Ha as [_ Ha]. rewrite Zlt_Qlt in Ha.
      change (a / inject_Z two53 < 1).
      apply Qlt_shift_div_r; [done|]. rewrite Qmult_1_l. exact Ha. }
    assert (Hint : (a + 1 <= (k + 1) * b)%Z).
    { pose proof (Z.mod_pos_bound a b Hb). pose proof (Z.div_mod a b). subst k. lia. }
    rewrite Zle_Qle, inject_Z_mult, !inject_Z_plus in Hint.
    change (inject_Z 1) with 1 in Hint.
    apply (Qmult_lt_r _ _ b); [done|]. nra.
Qed.
End Laws.
