(* ===== verification/Text.v ===== *)
(** * Text: decimal numerals, number formatting and key names

    Redis keys and JSON documents are strings.  A [string] is a list of code
    points below 256.  This file holds the decimal printing and scanning of
    integers with its round trip, the number formats of Lua ([%.14g] for
    [..], integrality of [%.17g] for arguments of [redis.call]) and the facts
    on prefixes and suffixes by which key names are told apart. *)

From S2P Require Import Prelude Float.

Open Scope Z_scope.

Abbreviation estr := EmptyString.

(** ** Concatenation *)

Lemma str_app_cons c s t : (String c s +:+ t) = String c (s +:+ t).
Proof. done. Qed.

Lemma str_app_nil_l s : estr +:+ s = s.
Proof. done. Qed.

Lemma str_app_nil_r s : s +:+ estr = s.
Proof. induction s as [|c s IH]; [done|]. by rewrite str_app_cons, IH. Qed.

Lemma str_app_assoc s t u : (s +:+ t) +:+ u = s +:+ (t +:+ u).
Proof. induction s as [|c s IH]; [done|]. by rewrite !str_app_cons, IH. Qed.

Create Rewrite HintDb text.
#[export] Hint Rewrite str_app_cons str_app_nil_l str_app_nil_r str_app_assoc : text.

Lemma str_app_inj_l s t u : s +:+ t = s +:+ u -> t = u.
Proof. intros H. by apply (inj (String.append s)). Qed.

Lemma str_length_app s t : String.length (s +:+ t) = (String.length s + String.length t)%nat.
Proof. induction s as [|c s IH]; [done|]. rewrite str_app_cons. simpl. by rewrite IH. Qed.

(** ** Digits *)

Definition digit (d : Z) : ascii := ascii_of_N (Z.to_N (48 + d)).

Definition digit_val (c : ascii) : option Z :=
  let n := Z.of_N (N_of_ascii c) in
  if (48 <=? n) && (n <=? 57) then Some (n - 48) else None.

Lemma digit_val_digit d : 0 <= d < 10 -> digit_val (digit d) = Some d.
Proof.
  intros Hd. unfold digit_val, digit. rewrite N_ascii_embedding by lia.
  rewrite Z2N.id by lia.
  rewrite (proj2 (Z.leb_le _ _)), (proj2 (Z.leb_le _ _)) by lia. simpl. f_equal. lia.
Qed.

Lemma mod10 n : 0 <= n `mod` 10 < 10.
Proof. apply Z.mod_pos_bound. lia. Qed.
#[export] Hint Resolve mod10 : rl.

(** Scan a maximal run of digits: value, number of digits, remaining text. *)
Fixpoint scan (acc : Z) (cnt : nat) (s : string) : Z * nat * string :=
  match s with
  | String c s' =>
      match digit_val c with
      | Some d => scan (10 * acc + d) (S cnt) s'
      | None => (acc, cnt, s)
      end
  | EmptyString => (acc, cnt, s)
  end.

Definition starts_digit (s : string) : bool :=
  match s with
  | String c _ => match digit_val c with Some _ => true | None => false end
  | EmptyString => false
  end.

Lemma scan_stop acc cnt s : starts_digit s = false -> scan acc cnt s = (acc, cnt, s).
Proof. destruct s as [|c s]; simpl; [done|]. by destruct (digit_val c). Qed.

Lemma scan_digit acc cnt d s :
  0 <= d < 10 -> scan acc cnt (String (digit d) s) = scan (10 * acc + d) (S cnt) s.
Proof. intros Hd. simpl. by rewrite digit_val_digit. Qed.

(** The lowest [k] digits of [n]. *)
Fixpoint print_pad (k : nat) (n : Z) (acc : string) : string :=
  match k with
  | O => acc
  | S k' => print_pad k' (n / 10) (String (digit (n `mod` 10)) acc)
  end.

Lemma scan_print_pad k a cnt n acc :
  scan a cnt (print_pad k n acc)
  = scan (a * 10 ^ Z.of_nat k + n `mod` 10 ^ Z.of_nat k) (k + cnt) acc.
Proof.
  revert a cnt n acc. induction k as [|k IH]; intros a cnt n acc; cbn [print_pad].
  - rewrite Z.mod_1_r. simpl. f_equal. lia.
  - rewrite IH, scan_digit by auto with rl.
    rewrite Nat2Z.inj_succ, Z.pow_succ_r, Z.rem_mul_r by lia.
    replace (S (k + cnt)) with (S k + cnt)%nat by lia. f_equal. lia.
Qed.

Lemma print_pad_app k n acc rest :
  print_pad k n acc +:+ rest = print_pad k n (acc +:+ rest).
Proof. revert n acc. induction k as [|k IH]; intros n acc; simpl; [done|]. by rewrite IH. Qed.

(** Number of decimal digits of a non-negative integer, with fuel its number
    of bits: a quotient by ten has at least one bit less. *)
Fixpoint ndigits_fuel (f : nat) (n : Z) : nat :=
  match f with
  | O => 1
  | S f' => if n <? 10 then 1 else S (ndigits_fuel f' (n / 10))
  end.

Definition ndigits (n : Z) : nat := ndigits_fuel (Z.to_nat (Z.log2 n)) n.

Lemma ndigits_fuel_spec f n :
  0 <= n < 2 ^ (Z.of_nat f + 1) -> n < 10 ^ Z.of_nat (ndigits_fuel f n).
Proof.
  revert n. induction f as [|f IH]; intros n Hn; cbn [ndigits_fuel].
  - simpl in *. lia.
  - destruct (Z.ltb_spec n 10); [simpl; lia|].
    rewrite Nat2Z.inj_succ, Z.pow_succ_r by lia.
    rewrite Nat2Z.inj_succ, <-Z.add_1_l, <-Z.add_assoc, Z.pow_add_r in Hn by lia.
    assert (n / 10 < 10 ^ Z.of_nat (ndigits_fuel f (n / 10))).
    { apply IH. pose proof (Z.div_pos n 10). split; [lia|].
      apply Z.div_lt_upper_bound; lia. }
    pose proof (Z.div_mod n 10). pose proof (mod10 n). lia.
Qed.

Lemma ndigits_spec n : 0 <= n -> n < 10 ^ Z.of_nat (ndigits n).
Proof.
  intros Hn. apply ndigits_fuel_spec. split; [done|].
  rewrite Z2Nat.id by apply Z.log2_nonneg.
  destruct (Z.eq_dec n 0) as [->|]; [done|]. apply Z.log2_spec. lia.
Qed.

Lemma ndigits_pos n : exists k, ndigits n = S k.
Proof. unfold ndigits. destruct (Z.to_nat _); simpl; [by eexists|]. case_match; by eexists. Qed.

Definition print_nat (n : Z) : string := print_pad (ndigits n) n estr.

Definition minus_char : ascii := "-".

Definition print_Z (n : Z) : string :=
  if n <? 0 then String minus_char (print_nat (- n)) else print_nat n.

Lemma scan_print_nat n rest :
  0 <= n -> starts_digit rest = false ->
  scan 0 0 (print_nat n +:+ rest) = (n, ndigits n, rest).
Proof.
  intros Hn Hr. unfold print_nat. rewrite print_pad_app, scan_print_pad.
  rewrite str_app_nil_l, scan_stop, Nat.add_0_r, Z.mod_small by
    (first [done | split; [done|by apply ndigits_spec]]). done.
Qed.

Lemma print_pad_starts k n acc :
  exists d s, 0 <= d < 10 /\ print_pad (S k) n acc = String (digit d) s.
Proof.
  revert n acc. induction k as [|k IH]; intros n acc.
  - exists (n `mod` 10), acc. split; [auto with rl|done].
  - exact (IH (n / 10) _).
Qed.

Lemma print_nat_starts n : exists d s, 0 <= d < 10 /\ print_nat n = String (digit d) s.
Proof. unfold print_nat. destruct (ndigits_pos n) as [k ->]. apply print_pad_starts. Qed.

(** Reading an optionally signed numeral that makes up the whole text
    ([tonumber] of a counter, the argument of [INCR], [int(...)]). *)
Definition read_Z (s : string) : option Z :=
  match s with
  | EmptyString => None
  | String c r =>
      let '(neg, body) := if Ascii.eqb c minus_char then (true, r) else (false, s) in
      match scan 0 0 body with
      | (n, S _, EmptyString) => Some (if neg then - n else n)
      | _ => None
      end
  end.


Lemma digit_not_minus d : 0 <= d < 10 -> Ascii.eqb (digit d) minus_char = false.
Proof.
  intros Hd. destruct (Ascii.eqb_spec (digit d) minus_char) as [E|]; [|done].
  pose proof (digit_val_digit d Hd) as H. rewrite E in H. discriminate.
Qed.

(** Printing and reading an integer is a round trip. *)
Lemma read_print_Z n : read_Z (print_Z n) = Some n.
Proof.
  unfold print_Z. destruct (Z.ltb_spec n 0) as [H|H].
  - unfold read_Z. rewrite Ascii.eqb_refl.
    rewrite <-(str_app_nil_r (print_nat (- n))), scan_print_nat by (simpl; lia || done).
    destruct (ndigits_pos (- n)) as [k ->]. f_equal. lia.
  - pose proof (scan_print_nat n estr H eq_refl) as Hs.
    rewrite str_app_nil_r in Hs.
    destruct (print_nat_starts n) as (d & s & Hd & Es). rewrite Es in *.
    unfold read_Z. rewrite digit_not_minus, Hs by done.
    by destruct (ndigits_pos n) as [k ->].
Qed.

#[export] Instance print_Z_inj : Inj (=) (=) print_Z.
Proof. intros a b E. pose proof (read_print_Z a) as H. rewrite E, read_print_Z in H. by inv H. Qed.

Lemma print_Z_starts n :
  exists c s, print_Z n = String c s /\ (c = minus_char \/ is_Some (digit_val c)).
Proof.
  unfold print_Z. case_match; [by eauto|].
  destruct (print_nat_starts n) as (d & s & Hd & ->).
  exists (digit d), s. split; [done|]. right. rewrite digit_val_digit by done. eauto.
Qed.

(** ** Number formats of Lua *)

(** The argument conversion of [redis.call] prints a number with [%.17g]; the
    server reads it back with [string2ll].  The integers below [10^17] are the
    numbers that survive. *)
Definition arg_int (q : Q) : option Z :=
  let n := Qfloor q in
  if Qeq_bool n q && (Z.abs n <? 10 ^ 17) then Some n else None.

Lemma arg_int_Z (n : Z) : Z.abs n < 10 ^ 17 -> arg_int n = Some n.
Proof.
  intros Hn. unfold arg_int. rewrite Qfloor_Z.
  rewrite (proj2 (Qeq_bool_iff _ _)) by reflexivity.
  by rewrite (proj2 (Z.ltb_lt _ _)).
Qed.

Lemma arg_int_comp (q : Q) (n : Z) : Qeq q n -> Z.abs n < 10 ^ 17 -> arg_int q = Some n.
Proof.
  intros E Hn. unfold arg_int. rewrite (Qfloor_comp _ _ E), Qfloor_Z.
  rewrite (proj2 (Qeq_bool_iff _ _)) by (by symmetry).
  by rewrite (proj2 (Z.ltb_lt _ _)).
Qed.

(** Decimal exponent of a positive rational: [10^e <= x < 10^(e+1)], by
    scaling at most [f] times (a double needs at most 308). *)
Fixpoint dec_exp_up (f : nat) (x : Q) (e : Z) : Z :=
  match f with
  | O => e
  | S f' => if Qle_bool 10 x then dec_exp_up f' (Qred (x / 10)) (e + 1) else e
  end.

Fixpoint dec_exp_down (f : nat) (x : Q) (e : Z) : Z :=
  match f with
  | O => e
  | S f' => if Qle_bool 1 x then e else dec_exp_down f' (Qred (x * 10)) (e - 1)
  end.

Definition dec_exp (x : Q) : Z :=
  if Qle_bool 1 x then dec_exp_up 310 x 0 else dec_exp_down 340 x 0.

Definition zero_char : ascii := "0".
Definition dot_char : ascii := ".".

Fixpoint string_take (n : nat) (s : string) : string :=
  match n, s with
  | S n', String c s' => String c (string_take n' s')
  | _, _ => estr
  end.

Fixpoint string_drop (n : nat) (s : string) : string :=
  match n, s with
  | S n', String _ s' => string_drop n' s'
  | _, _ => s
  end.

(** Remove the trailing zeros of a fraction. *)
Fixpoint strip_zeros (s : string) : string :=
  match s with
  | EmptyString => estr
  | String c s' =>
      match strip_zeros s' with
      | EmptyString => if Ascii.eqb c zero_char then estr else String c estr
      | r => String c r
      end
  end.

Definition with_fraction (ip fp : string) : string :=
  match strip_zeros fp with
  | EmptyString => ip
  | f => ip +:+ String dot_char f
  end.

(** C's [%.{P}g] for a non-zero rational. *)
Definition fmt_g (P : Z) (q : Q) : string :=
  let x := Qabs q in
  let e0 := dec_exp x in
  let m0 := Qrne (x * (10 # 1) ^ (P - 1 - e0)) in
  let '(m, e) := if m0 =? 10 ^ P then (10 ^ (P - 1), e0 + 1) else (m0, e0) in
  let ds := print_nat m in
  let body :=
    if (-4 <=? e) && (e <? P) then
      if 0 <=? e then
        with_fraction (string_take (Z.to_nat (e + 1)) ds) (string_drop (Z.to_nat (e + 1)) ds)
      else with_fraction (String zero_char estr) (print_pad (Z.to_nat (- e - 1)) 0 ds)
    else
      with_fraction (string_take 1 ds) (string_drop 1 ds)
      +:+ String "e" (String (if e <? 0 then "-"%char else "+"%char)
           (print_pad (Nat.max 2 (ndigits (Z.abs e))) (Z.abs e) estr)) in
  if Qltb q 0 then String minus_char body else body.

(** Lua's [tostring] of a number ([%.14g]), as used by [..]: an integer below
    [10^14] prints as its decimal numeral. *)
Definition lua_tostring (q : Q) : string :=
  let n := Qfloor q in
  if Qeq_bool n q && (Z.abs n <? 10 ^ 14) then print_Z n else fmt_g 14 q.

Lemma lua_tostring_int (q : Q) (n : Z) :
  Qeq q n -> Z.abs n < 10 ^ 14 -> lua_tostring q = print_Z n.
Proof.
  intros E Hn. unfold lua_tostring. rewrite (Qfloor_comp _ _ E), Qfloor_Z.
  rewrite (proj2 (Qeq_bool_iff _ _)) by (by symmetry).
  by rewrite (proj2 (Z.ltb_lt _ _)).
Qed.

Example lua_tostring_half : lua_tostring (3 # 2) = "1.5".
Proof. vm_compute. reflexivity. Qed.
Example lua_tostring_big : lua_tostring (10 ^ 15)%Z = "1e+15".
Proof. vm_compute. reflexivity. Qed.
Example lua_tostring_small : lua_tostring (- 1 # 3) = "-0.33333333333333".
Proof. vm_compute. reflexivity. Qed.

(** ** Key names *)

(** The name of a sub-key: [base .. ':' .. suffix]. *)
Definition subkey (base suffix : string) : string := base +:+ ":" +:+ suffix.

Lemma subkey_inj base s t : subkey base s = subkey base t -> s = t.
Proof. intros H. apply str_app_inj_l in H. by apply str_app_inj_l in H. Qed.

Lemma subkey_ne base s t : s <> t -> subkey base s <> subkey base t.
Proof. intros Hne H. by apply subkey_inj in H. Qed.

(** A window start, printed, differs from every suffix that starts with a
    letter. *)
Definition alphabetic (s : string) : bool :=
  match s with
  | EmptyString => false
  | String c _ =>
      negb (Ascii.eqb c minus_char) && match digit_val c with Some _ => false | None => true end
  end.

Lemma print_Z_not_alphabetic n s : alphabetic s = true -> print_Z n <> s.
Proof.
  intros Ha <-. destruct (print_Z_starts n) as (c & t & Hs & Hc). rewrite Hs in Ha.
  simpl in Ha. destruct Hc as [->|[d Hd]].
  - by rewrite Ascii.eqb_refl in Ha.
  - rewrite Hd, andb_false_r in Ha. done.
Qed.

(** A printed number never looks like a word. *)
Lemma with_fraction_starts c s fp : exists t, with_fraction (String c s) fp = String c t.
Proof. unfold with_fraction. destruct (strip_zeros fp); by eexists. Qed.

Lemma fmt_g_starts P q : exists c t, fmt_g P q = String c t /\ (c = minus_char \/ exists d, digit_val c = Some d).
Proof.
  unfold fmt_g. cbn zeta. destruct (if _ =? 10 ^ P then _ else _) as [m e].
  destruct (print_nat_starts m) as (d & s & Hd & Em). rewrite Em.
  assert (Hdig : digit_val (digit d) = Some d) by (by apply digit_val_digit).
  match goal with |- exists c t, (if _ then String minus_char ?b else ?b) = _ /\ _ =>
    assert (Hb : exists c t, b = String c t /\ exists d, digit_val c = Some d) end.
  { destruct ((-4 <=? e) && (e <? P)); [destruct (Z.leb_spec 0 e) as [He|He]|].
    - assert (Z.to_nat (e + 1) = S (Z.to_nat e)) as -> by lia. cbn [string_take].
      destruct (with_fraction_starts (digit d) (string_take (Z.to_nat e) s) (string_drop (S (Z.to_nat e)) (String (digit d) s)))
        as [t ->]. do 2 eexists. split; [done|]. by exists d.
    - match goal with |- context [with_fraction (String zero_char estr) ?f] =>
        destruct (with_fraction_starts zero_char estr f) as [t ->] end.
      do 2 eexists. split; [done|]. by exists 0.
    - cbn [string_take]. match goal with |- context [with_fraction (String (digit d) ?r) ?f] =>
        destruct (with_fraction_starts (digit d) r f) as [t ->] end.
      do 2 eexists. split; [apply str_app_cons|]. by exists d. }
  destruct Hb as (c & t & -> & Hc). destruct (Qltb q 0); do 2 eexists; (split; [done|]); auto.
Qed.

Lemma lua_tostring_not_alphabetic q s : alphabetic s = true -> lua_tostring q <> s.
Proof.
  intros Ha. unfold lua_tostring. case_match; [by apply print_Z_not_alphabetic|]. intros <-.
  destruct (fmt_g_starts 14 q) as (c & t & Hs & Hc). rewrite Hs in Ha. simpl in Ha. destruct Hc as [->|[d Hd]].
  - by rewrite Ascii.eqb_refl in Ha.
  - by rewrite Hd, andb_false_r in Ha.
Qed.
