(* ===== verification/Json.v ===== *)
(** * JSON: the documents the program writes and reads

    [dumps] is Python's [json.dumps] with its default separators (a comma or
    a colon followed by a blank) and [ensure_ascii]; [loads] reads any JSON
    document whose strings stay below code point 256, with any white space.
    Keys of an object keep their order and may repeat; a look-up returns the
    last occurrence, as Python's [dict] and Lua tables do after decoding.  A
    float is kept as its decimal literal. *)

From S2P Require Import Prelude Float Text.

Open Scope Z_scope.

#[local] Unset Elimination Schemes.
Inductive json :=
  | JNull
  | JBool (b : bool)
  | JInt (z : Z)
  | JDec (m : Z) (s : nat)   (* the literal of m * 10^-s *)
  | JStr (s : string)
  | JArr (l : list json)
  | JObj (l : list (string * json)).
#[local] Set Elimination Schemes.

(** Induction over the nested lists. *)
Lemma json_induction (P : json -> Prop) :
  P JNull -> (forall b, P (JBool b)) -> (forall z, P (JInt z)) ->
  (forall m s, P (JDec m s)) -> (forall s, P (JStr s)) ->
  (forall l, Forall P l -> P (JArr l)) ->
  (forall l, Forall (fun kv => P (snd kv)) l -> P (JObj l)) ->
  forall v, P v.
Proof.
  intros Hnull Hbool Hint Hdec Hstr Harr Hobj.
  refine (fix IH v := match v with
    | JNull => Hnull | JBool b => Hbool b | JInt z => Hint z
    | JDec m s => Hdec m s | JStr s => Hstr s
    | JArr l => Harr l _ | JObj l => Hobj l _ end).
  - induction l as [|x l IHl]; constructor; [apply IH|exact IHl].
  - induction l as [|[k x] l IHl]; constructor; [apply IH|exact IHl].
Qed.

(** ** Look-ups *)

(** Look-up of a key: the last occurrence wins. *)
Fixpoint assoc_last (k : string) (l : list (string * json)) : option json :=
  match l with
  | [] => None
  | (k', v) :: l' =>
      match assoc_last k l' with
      | Some w => Some w
      | None => if String.eqb k k' then Some v else None
      end
  end.

Definition jfield (k : string) (v : json) : option json :=
  match v with JObj l => assoc_last k l | _ => None end.

Definition jstr (v : json) : option string :=
  match v with JStr s => Some s | _ => None end.

(** The number a literal denotes. *)
Definition jnum `{Rounding} (v : json) : option Q :=
  match v with
  | JInt z => Some (rnd z)
  | JDec m s => Some (rnd (m / (10 ^ Z.of_nat s)%Z)%Q)
  | _ => None
  end.

Definition jfield_str (k : string) (v : json) : option string := jfield k v ≫= jstr.
Definition jfield_num `{Rounding} (k : string) (v : json) : option Q := jfield k v ≫= jnum.

(** ** Printing *)

Definition dquote : ascii := "034".
Definition backslash : ascii := "092".

Definition hex_digit (n : Z) : ascii :=
  if n <? 10 then digit n else ascii_of_N (Z.to_N (87 + n)).

Definition code (c : ascii) : Z := Z.of_N (N_of_ascii c).

(** One character inside a string literal ([ensure_ascii]). *)
Definition esc (c : ascii) (s : string) : string :=
  if Ascii.eqb c dquote then String backslash (String dquote s)
  else if Ascii.eqb c backslash then String backslash (String backslash s)
  else if code c =? 10 then String backslash (String "n" s)
  else if code c =? 13 then String backslash (String "r" s)
  else if code c =? 9 then String backslash (String "t" s)
  else if code c =? 12 then String backslash (String "f" s)
  else if code c =? 8 then String backslash (String "b" s)
  else if (32 <=? code c) && (code c <=? 126) then String c s
  else String backslash (String "u" (String zero_char (String zero_char
         (String (hex_digit (code c / 16)) (String (hex_digit (code c `mod` 16)) s))))).

Fixpoint quote_body (s tail : string) : string :=
  match s with
  | EmptyString => String dquote tail
  | String c s' => esc c (quote_body s' tail)
  end.

(** [quote s tail]: the literal of [s] followed by [tail]. *)
Definition quote (s tail : string) : string := String dquote (quote_body s tail).

(** The decimal literal of [m * 10^-s], for [s > 0]. *)
Definition print_dec (m : Z) (s : nat) (tail : string) : string :=
  let a := Z.abs m in
  let body := print_nat (a / 10 ^ Z.of_nat s)
              +:+ String dot_char (print_pad s (a `mod` 10 ^ Z.of_nat s) tail) in
  if m <? 0 then String minus_char body else body.

(** Documents are printed in front of a tail. *)
Fixpoint print_json (v : json) (tail : string) : string :=
  match v with
  | JNull => "null" +:+ tail
  | JBool true => "true" +:+ tail
  | JBool false => "false" +:+ tail
  | JInt z => print_Z z +:+ tail
  | JDec m s => print_dec m s tail
  | JStr s => quote s tail
  | JArr l =>
      String "[" ((fix elems l :=
        match l with
        | [] => String "]" tail
        | [x] => print_json x (String "]" tail)
        | x :: l' => print_json x (", " +:+ elems l')
        end) l)
  | JObj l =>
      String "{" ((fix members l :=
        match l with
        | [] => String "}" tail
        | [(k, x)] => quote k (": " +:+ print_json x (String "}" tail))
        | (k, x) :: l' => quote k (": " +:+ print_json x (", " +:+ members l'))
        end) l)
  end.

Definition dumps (v : json) : string := print_json v estr.

(** The members of an object up to its closing brace. *)
Fixpoint print_members (l : list (string * json)) (tail : string) : string :=
  match l with
  | [] => tail
  | [(k, x)] => quote k (": " +:+ print_json x tail)
  | (k, x) :: l' => quote k (": " +:+ print_json x (", " +:+ print_members l' tail))
  end.

Fixpoint print_elems (l : list json) (tail : string) : string :=
  match l with
  | [] => tail
  | [x] => print_json x tail
  | x :: l' => print_json x (", " +:+ print_elems l' tail)
  end.

Lemma print_json_arr l tail :
  print_json (JArr l) tail = String "[" (print_elems l (String "]" tail)).
Proof.
  cbn [print_json]. f_equal. induction l as [|x [|y l] IH]; [done|done|].
  cbn [print_elems]. f_equal. f_equal. exact IH.
Qed.

Lemma print_json_obj l tail :
  print_json (JObj l) tail = String "{" (print_members l (String "}" tail)).
Proof.
  cbn [print_json]. f_equal. induction l as [|[k x] [|y l] IH]; [done|done|].
  cbn [print_members]. do 3 f_equal. f_equal. exact IH.
Qed.

(** ** Parsing *)

Definition is_ws (c : ascii) : bool :=
  (code c =? 32) || (code c =? 9) || (code c =? 10) || (code c =? 13).

Fixpoint skip_ws (s : string) : string :=
  match s with
  | String c s' => if is_ws c then skip_ws s' else s
  | EmptyString => estr
  end.

Definition hex_val (c : ascii) : option Z :=
  let n := code c in
  if (48 <=? n) && (n <=? 57) then Some (n - 48)
  else if (97 <=? n) && (n <=? 102) then Some (n - 87)
  else if (65 <=? n) && (n <=? 70) then Some (n - 55)
  else None.

(** The character of a two-character escape. *)
Definition unesc (c : ascii) : option ascii :=
  if Ascii.eqb c dquote then Some dquote
  else if Ascii.eqb c backslash then Some backslash
  else if Ascii.eqb c "/" then Some ("/"%char)
  else if Ascii.eqb c "n" then Some ("010"%char)
  else if Ascii.eqb c "r" then Some ("013"%char)
  else if Ascii.eqb c "t" then Some ("009"%char)
  else if Ascii.eqb c "f" then Some ("012"%char)
  else if Ascii.eqb c "b" then Some ("008"%char)
  else None.

(** The four hexadecimal digits after [\u], for a code point below 256. *)
Definition unesc_u (a b c d : ascii) : option ascii :=
  x ← hex_val a; y ← hex_val b; z ← hex_val c; w ← hex_val d;
  let n := 4096 * x + 256 * y + 16 * z + w in
  if n <? 256 then Some (ascii_of_N (Z.to_N n)) else None.

(** The characters of a string literal after its opening quote. *)
Fixpoint parse_str (s : string) : option (string * string) :=
  match s with
  | EmptyString => None
  | String c s1 =>
      if Ascii.eqb c dquote then Some (estr, s1)
      else if Ascii.eqb c backslash then
        match s1 with
        | String e s2 =>
            if Ascii.eqb e "u" then
              match s2 with
              | String a (String b (String c' (String d s3))) =>
                  x ← unesc_u a b c' d;
                  '(t, r) ← parse_str s3;
                  Some (String x t, r)
              | _ => None
              end
            else
              x ← unesc e;
              '(t, r) ← parse_str s2;
              Some (String x t, r)
        | EmptyString => None
        end
      else if code c <? 32 then None
      else '(t, r) ← parse_str s1; Some (String c t, r)
  end.

(** An optional fraction: digits after the point. *)
Definition parse_frac (n : Z) (s : string) : option (Z * nat * string) :=
  match s with
  | String c s' =>
      if Ascii.eqb c dot_char then
        match scan n 0 s' with
        | (_, O, _) => None
        | (m, k, r) => Some (m, k, r)
        end
      else Some (n, O, s)
  | EmptyString => Some (n, O, s)
  end.

(** An optional exponent. *)
Definition parse_exp (s : string) : option (option Z * string) :=
  match s with
  | String c s' =>
      if Ascii.eqb c "e" || Ascii.eqb c "E" then
        let '(neg, b) :=
          match s' with
          | String c2 s2 =>
              if Ascii.eqb c2 minus_char then (true, s2)
              else if Ascii.eqb c2 "+" then (false, s2) else (false, s')
          | EmptyString => (false, s')
          end in
        match scan 0 0 b with
        | (_, O, _) => None
        | (e, _, r) => Some (Some (if neg then - e else e), r)
        end
      else Some (None, s)
  | EmptyString => Some (None, s)
  end.

Definition mk_number (neg : bool) (m : Z) (k : nat) (e : option Z) : json :=
  let sm := if neg then - m else m in
  match k, e with
  | O, None => JInt sm
  | _, None => JDec sm k
  | _, Some e =>
      let k' := Z.of_nat k - e in
      if 0 <=? k' then JDec sm (Z.to_nat k') else JDec (sm * 10 ^ (- k')) 0
  end.

Definition parse_number (s : string) : option (json * string) :=
  let '(neg, b) :=
    match s with
    | String c s' => if Ascii.eqb c minus_char then (true, s') else (false, s)
    | EmptyString => (false, s)
    end in
  match scan 0 0 b with
  | (_, O, _) => None
  | (n, _, r) =>
      '(m, k, r1) ← parse_frac n r;
      '(e, r2) ← parse_exp r1;
      Some (mk_number neg m k e, r2)
  end.

(** Remove a prefix. *)
Fixpoint strip_prefix (p s : string) : option string :=
  match p, s with
  | EmptyString, _ => Some s
  | String a p', String b s' => if Ascii.eqb a b then strip_prefix p' s' else None
  | _, _ => None
  end.

(** Each call spends one unit of fuel; a document of [n] characters needs at
    most [n + 1] ([loads_dumps] below). *)
Fixpoint parse_value (f : nat) (s : string) : option (json * string) :=
  match f with
  | O => None
  | S f =>
      match skip_ws s with
      | EmptyString => None
      | String c r =>
          if Ascii.eqb c "{" then
            match skip_ws r with
            | EmptyString => None
            | String c2 r2 =>
                if Ascii.eqb c2 "}" then Some (JObj [], r2)
                else '(l, r3) ← parse_members f (String c2 r2); Some (JObj l, r3)
            end
          else if Ascii.eqb c "[" then
            match skip_ws r with
            | EmptyString => None
            | String c2 r2 =>
                if Ascii.eqb c2 "]" then Some (JArr [], r2)
                else '(l, r3) ← parse_elems f (String c2 r2); Some (JArr l, r3)
            end
          else if Ascii.eqb c dquote then '(t, r1) ← parse_str r; Some (JStr t, r1)
          else if Ascii.eqb c "t" then r1 ← strip_prefix "rue" r; Some (JBool true, r1)
          else if Ascii.eqb c "f" then r1 ← strip_prefix "alse" r; Some (JBool false, r1)
          else if Ascii.eqb c "n" then r1 ← strip_prefix "ull" r; Some (JNull, r1)
          else parse_number (String c r)
      end
  end
with parse_members (f : nat) (s : string) : option (list (string * json) * string) :=
  match f with
  | O => None
  | S f =>
      match skip_ws s with
      | EmptyString => None
      | String q r =>
          if Ascii.eqb q dquote then
            '(k, r1) ← parse_str r;
            match skip_ws r1 with
            | EmptyString => None
            | String c r2 =>
                if Ascii.eqb c ":" then
                  '(v, r3) ← parse_value f r2;
                  match skip_ws r3 with
                  | EmptyString => None
                  | String d r4 =>
                      if Ascii.eqb d "," then
                        '(l, r5) ← parse_members f r4; Some ((k, v) :: l, r5)
                      else if Ascii.eqb d "}" then Some ([(k, v)], r4) else None
                  end
                else None
            end
          else None
      end
  end
with parse_elems (f : nat) (s : string) : option (list json * string) :=
  match f with
  | O => None
  | S f =>
      '(v, r) ← parse_value f s;
      match skip_ws r with
      | EmptyString => None
      | String d r2 =>
          if Ascii.eqb d "," then '(l, r3) ← parse_elems f r2; Some (v :: l, r3)
          else if Ascii.eqb d "]" then Some ([v], r2) else None
      end
  end.

(** A whole document. *)
Definition loads (s : string) : option json :=
  '(v, r) ← parse_value (S (String.length s)) s;
  match skip_ws r with EmptyString => Some v | _ => None end.

Example loads_ex :
  loads "{ }" = Some (JObj []) /\ loads "[1, -2.50, true , null,1e3]"
  = Some (JArr [JInt 1; JDec (-250) 2; JBool true; JNull; JDec 1000 0]).
Proof. split; vm_compute; reflexivity. Qed.

(** ** Round trip *)

(** The literals [dumps] prints: a float has at least one fraction digit. *)
Fixpoint jwf (v : json) : bool :=
  match v with
  | JDec _ s => negb (Nat.eqb s 0)
  | JArr l => forallb jwf l
  | JObj l => forallb (fun kv => jwf (snd kv)) l
  | _ => true
  end.

(** A text that ends a number. *)
Definition num_end (s : string) : bool :=
  match s with
  | EmptyString => true
  | String c _ =>
      match digit_val c with Some _ => false | None => true end
      && negb (Ascii.eqb c dot_char) && negb (Ascii.eqb c "e" || Ascii.eqb c "E")
  end.

Fixpoint need (v : json) : nat :=
  match v with
  | JArr l => S (length l + sum_list_with need l)
  | JObj l => S (length l + sum_list_with (fun kv => need (snd kv)) l)
  | _ => 1
  end.

Lemma parse_str_esc c r :
  parse_str (esc c r) = ('(t, r') ← parse_str r; Some (String c t, r')).
Proof. destruct c as [[] [] [] [] [] [] [] []]; reflexivity. Qed.

Lemma parse_quote_body s tail : parse_str (quote_body s tail) = Some (s, tail).
Proof.
  induction s as [|c s IH]; cbn [quote_body]; [done|].
  by rewrite parse_str_esc, IH.
Qed.

Lemma num_end_digit s : num_end s = true -> starts_digit s = false.
Proof. destruct s as [|c s]; simpl; [done|]. by destruct (digit_val c). Qed.

Lemma num_end_frac n s : num_end s = true -> parse_frac n s = Some (n, O, s).
Proof.
  destruct s as [|c s]; simpl; [done|]. intros H.
  apply andb_prop in H as [H _]. apply andb_prop in H as [_ H].
  apply negb_true_iff in H. by rewrite H.
Qed.

Lemma num_end_exp s : num_end s = true -> parse_exp s = Some (None, s).
Proof.
  destruct s as [|c s]; simpl; [done|]. intros H.
  apply andb_prop in H as [_ H]. apply negb_true_iff in H. by rewrite H.
Qed.

(** A number whose integer part is a printed natural. *)
Lemma parse_number_nat neg n rest m k e r1 r2 :
  0 <= n -> starts_digit rest = false ->
  parse_frac n rest = Some (m, k, r1) -> parse_exp r1 = Some (e, r2) ->
  parse_number ((if neg : bool then String minus_char else fun s => s) (print_nat n +:+ rest))
  = Some (mk_number neg m k e, r2).
Proof.
  intros Hn Hr Hf He. pose proof (scan_print_nat n rest Hn Hr) as Hs.
  destruct (ndigits_pos n) as [d Hd]. rewrite Hd in Hs.
  destruct (print_nat_starts n) as (d0 & s & Hd0 & Es). rewrite Es, str_app_cons in *.
  unfold parse_number. destruct neg.
  - rewrite Ascii.eqb_refl, Hs. cbn. rewrite Hf. cbn. by rewrite He.
  - rewrite digit_not_minus, Hs by done. cbn. rewrite Hf. cbn. by rewrite He.
Qed.

Lemma parse_number_int z tail :
  num_end tail = true -> parse_number (print_Z z +:+ tail) = Some (JInt z, tail).
Proof.
  intros Ht. pose proof (num_end_digit _ Ht). unfold print_Z.
  destruct (Z.ltb_spec z 0).
  - rewrite str_app_cons.
    rewrite (parse_number_nat true (- z) tail (- z) O None tail tail)
      by (lia || auto using num_end_frac, num_end_exp).
    simpl. do 3 f_equal. lia.
  - by rewrite (parse_number_nat false z tail z O None tail tail)
      by (lia || auto using num_end_frac, num_end_exp).
Qed.

Lemma parse_frac_dec n k a tail :
  k <> O -> num_end tail = true -> 0 <= a < 10 ^ Z.of_nat k ->
  parse_frac n (String dot_char (print_pad k a tail))
  = Some (n * 10 ^ Z.of_nat k + a, k, tail).
Proof.
  intros Hk Ht Ha. unfold parse_frac. rewrite Ascii.eqb_refl, scan_print_pad.
  rewrite scan_stop, Z.mod_small, Nat.add_0_r by (auto using num_end_digit).
  by destruct k.
Qed.

Lemma parse_number_dec m k tail :
  k <> O -> num_end tail = true ->
  parse_number (print_dec m k tail) = Some (JDec m k, tail).
Proof.
  intros Hk Ht. unfold print_dec. set (p := 10 ^ Z.of_nat k).
  assert (Hp : 0 < p) by (subst p; apply Z.pow_pos_nonneg; lia).
  pose proof (Z.div_mod (Z.abs m) p). pose proof (Z.mod_pos_bound (Z.abs m) p).
  pose proof (Z.div_pos (Z.abs m) p).
  assert (Hf : parse_frac (Z.abs m / p) (String dot_char (print_pad k (Z.abs m `mod` p) tail))
    = Some (Z.abs m, k, tail)).
  { rewrite parse_frac_dec by (done || lia). fold p. do 3 f_equal. lia. }
  assert (Hq : 0 <= Z.abs m / p) by lia.
  pose proof (num_end_exp tail Ht) as He.
  assert (Hd : forall t, starts_digit (String dot_char t) = false) by done.
  destruct (Z.ltb_spec m 0).
  - rewrite (parse_number_nat true _ _ _ _ _ _ _ Hq (Hd _) Hf He).
    destruct k; [done|]. simpl. do 3 f_equal. lia.
  - rewrite (parse_number_nat false _ _ _ _ _ _ _ Hq (Hd _) Hf He).
    destruct k; [done|]. simpl. do 3 f_equal. lia.
Qed.

(** A number text is read by [parse_number]: it starts with no other
    document's first character. *)
Lemma parse_value_number f c s :
  (c = minus_char \/ is_Some (digit_val c)) ->
  parse_value (S f) (String c s) = parse_number (String c s).
Proof.
  intros Hc. cbn [parse_value].
  assert (Hws : is_ws c = false /\ Ascii.eqb c "{" = false /\ Ascii.eqb c "[" = false
    /\ Ascii.eqb c dquote = false /\ Ascii.eqb c "t" = false /\ Ascii.eqb c "f" = false
    /\ Ascii.eqb c "n" = false).
  { destruct Hc as [->|[d Hd]]; [by vm_compute|]. revert Hd.
    destruct c as [[] [] [] [] [] [] [] []]; vm_compute; done. }
  destruct Hws as (H1 & H2 & H3 & H4 & H5 & H6 & H7).
  cbn [skip_ws]. rewrite H1. by rewrite H2, H3, H4, H5, H6, H7.
Qed.

(** Leading blanks are skipped. *)
Lemma parse_value_space f s : parse_value f (String " " s) = parse_value f s.
Proof. by destruct f. Qed.

Lemma parse_members_space f s : parse_members f (String " " s) = parse_members f s.
Proof. by destruct f. Qed.

Lemma parse_elems_space f s : parse_elems f (String " " s) = parse_elems f s.
Proof. destruct f; [done|]. cbn [parse_elems]. by rewrite parse_value_space. Qed.

(** What follows a member: the rest of the object. *)
Definition members_tail (f : nat) (s : string) : option (list (string * json) * string) :=
  match skip_ws s with
  | EmptyString => None
  | String d r =>
      if Ascii.eqb d "," then parse_members f r
      else if Ascii.eqb d "}" then Some ([], r) else None
  end.

Definition elems_tail (f : nat) (s : string) : option (list json * string) :=
  match skip_ws s with
  | EmptyString => None
  | String d r =>
      if Ascii.eqb d "," then parse_elems f r
      else if Ascii.eqb d "]" then Some ([], r) else None
  end.

Lemma parse_members_step f k x s s' v :
  s = quote k (": " +:+ s') -> parse_value f s' = Some (v, x) ->
  parse_members (S f) s = ('(l, r) ← members_tail f x; Some ((k, v) :: l, r)).
Proof.
  intros -> Hv. unfold quote. rewrite !str_app_cons, str_app_nil_l.
  cbn [parse_members skip_ws]. change (is_ws dquote) with false. cbn match.
  rewrite Ascii.eqb_refl, parse_quote_body. cbn [mbind option_bind].
  cbn [skip_ws]. change (is_ws ":") with false. cbn match.
  rewrite Ascii.eqb_refl, parse_value_space, Hv. cbn [mbind option_bind].
  unfold members_tail. destruct (skip_ws x) as [|d r]; [done|].
  by destruct (Ascii.eqb d ","), (Ascii.eqb d "}").
Qed.

Lemma parse_elems_step f s x v :
  parse_value f s = Some (v, x) ->
  parse_elems (S f) s = ('(l, r) ← elems_tail f x; Some (v :: l, r)).
Proof.
  intros Hv. cbn [parse_elems]. rewrite Hv. cbn [mbind option_bind].
  unfold elems_tail. destruct (skip_ws x) as [|d r]; [done|].
  by destruct (Ascii.eqb d ","), (Ascii.eqb d "]").
Qed.

Definition parses (v : json) : Prop :=
  forall f tail, (need v <= f)%nat -> num_end tail = true ->
  parse_value f (print_json v tail) = Some (v, tail).

(** A printed list of members is read back in front of any continuation. *)
Lemma parse_print_members l f tail :
  l <> [] -> Forall (fun kv => parses (snd kv)) l ->
  (sum_list_with (fun kv => need (snd kv)) l <= f)%nat -> num_end tail = true ->
  parse_members (length l + f) (print_members l tail)
  = ('(l', r) ← members_tail f tail; Some (l ++ l', r)).
Proof.
  intros Hne HP Hf Ht. induction l as [|[k x] l IH]; [done|]. clear Hne.
  apply Forall_cons_1 in HP as [Hx HP]. cbn [sum_list_with fst snd] in *.
  destruct l as [|y l].
  - cbn [length Nat.add print_members].
    by rewrite (parse_members_step f k tail _ _ x eq_refl) by (apply Hx; [simpl in *; lia|done]).
  - cbn [length Nat.add]. change (print_members ((k, x) :: y :: l) tail) with
      (quote k (": " +:+ print_json x (", " +:+ print_members (y :: l) tail))).
    rewrite (parse_members_step _ k _ _ _ x eq_refl) by (apply Hx; [simpl in *; lia|done]).
    unfold members_tail at 1. rewrite !str_app_cons, str_app_nil_l.
    cbn [skip_ws]. change (is_ws ",") with false. cbn match.
    rewrite Ascii.eqb_refl, parse_members_space.
    change (S (length l + f)) with (length (y :: l) + f)%nat.
    rewrite IH by (done || lia). by destruct (members_tail f tail) as [[l' r]|].
Qed.

Lemma parse_print_elems l f tail :
  l <> [] -> Forall parses l -> (sum_list_with need l <= f)%nat -> num_end tail = true ->
  parse_elems (length l + f) (print_elems l tail)
  = ('(l', r) ← elems_tail f tail; Some (l ++ l', r)).
Proof.
  intros Hne HP Hf Ht. induction l as [|x l IH]; [done|]. clear Hne.
  apply Forall_cons_1 in HP as [Hx HP]. cbn [sum_list_with] in *.
  destruct l as [|y l].
  - cbn [length Nat.add print_elems].
    by rewrite (parse_elems_step f _ tail x) by (apply Hx; [simpl in *; lia|done]).
  - cbn [length Nat.add]. change (print_elems (x :: y :: l) tail) with
      (print_json x (", " +:+ print_elems (y :: l) tail)).
    rewrite (parse_elems_step _ _ _ x) by (apply Hx; [simpl in *; lia|done]).
    unfold elems_tail at 1. rewrite !str_app_cons, str_app_nil_l.
    cbn [skip_ws]. change (is_ws ",") with false. cbn match.
    rewrite Ascii.eqb_refl, parse_elems_space.
    change (S (length l + f)) with (length (y :: l) + f)%nat.
    rewrite IH by (done || lia). by destruct (elems_tail f tail) as [[l' r]|].
Qed.

(** A printed document starts with a character that is neither blank nor a
    closing bracket. *)
Lemma print_json_starts v tail :
  exists c s, print_json v tail = String c s /\ is_ws c = false /\ Ascii.eqb c "]" = false.
Proof.
  assert (Hnat : forall n s, exists c s', print_nat n +:+ s = String c s'
                  /\ is_ws c = false /\ Ascii.eqb c "]" = false).
  { intros n s. destruct (print_nat_starts n) as (d & s' & Hd & ->).
    exists (digit d), (s' +:+ s). split; [done|].
    assert (is_Some (digit_val (digit d))) as [x Hx] by (by rewrite digit_val_digit).
    revert Hx. generalize (digit d). intros c.
    destruct c as [[] [] [] [] [] [] [] []]; vm_compute; done. }
  destruct v as [|[]|z|m k|s|l|l]; try (by eexists _, _).
  - cbn [print_json]. unfold print_Z. case_match; [by eexists _, _|apply Hnat].
  - cbn [print_json]. unfold print_dec. case_match; [by eexists _, _|apply Hnat].
Qed.

Lemma print_members_starts l tail :
  l <> [] -> exists s, print_members l tail = String dquote s.
Proof. destruct l as [|[k x] [|y l]]; [done|..]; intros _; by eexists. Qed.

Lemma print_elems_starts l tail :
  l <> [] -> exists c s, print_elems l tail = String c s /\ is_ws c = false /\ Ascii.eqb c "]" = false.
Proof. destruct l as [|x [|y l]]; [done|..]; intros _; apply print_json_starts. Qed.

Lemma parse_obj f l tail :
  Forall (fun kv => parses (snd kv)) l ->
  (length l + sum_list_with (fun kv => need (snd kv)) l <= f)%nat ->
  parse_value (S f) (String "{" (print_members l (String "}" tail))) = Some (JObj l, tail).
Proof.
  intros HP Hf. cbn [parse_value skip_ws]. change (is_ws "{") with false. cbn match.
  rewrite Ascii.eqb_refl. destruct (decide (l = [])) as [->|Hne]; [done|].
  pose proof (parse_print_members l (f - length l) (String "}" tail) Hne HP
    ltac:(lia) eq_refl) as Hm.
  replace (length l + (f - length l))%nat with f in Hm by lia.
  destruct (print_members_starts l (String "}" tail) Hne) as [s Es]. rewrite Es in *.
  cbn [skip_ws]. change (is_ws dquote) with false. cbn match.
  change (Ascii.eqb dquote "}") with false. cbn match. rewrite Hm.
  change (members_tail (f - length l) (String "}" tail)) with (Some (@nil (string * json), tail)).
  cbn [mbind option_bind]. by rewrite app_nil_r.
Qed.

Lemma parse_arr f l tail :
  Forall parses l -> (length l + sum_list_with need l <= f)%nat ->
  parse_value (S f) (String "[" (print_elems l (String "]" tail))) = Some (JArr l, tail).
Proof.
  intros HP Hf. cbn [parse_value skip_ws]. change (is_ws "[") with false. cbn match.
  change (Ascii.eqb "[" "{") with false. cbn match.
  rewrite Ascii.eqb_refl. destruct (decide (l = [])) as [->|Hne]; [done|].
  pose proof (parse_print_elems l (f - length l) (String "]" tail) Hne HP
    ltac:(lia) eq_refl) as Hm.
  replace (length l + (f - length l))%nat with f in Hm by lia.
  destruct (print_elems_starts l (String "]" tail) Hne) as (c & s & Es & Hw & Hc).
  rewrite Es in *. cbn [skip_ws]. rewrite Hw. cbn match. rewrite Hc, Hm.
  change (elems_tail (f - length l) (String "]" tail)) with (Some (@nil json, tail)).
  cbn [mbind option_bind]. by rewrite app_nil_r.
Qed.

Lemma print_nat_split z rest :
  exists c s, print_Z z +:+ rest = String c s /\ (c = minus_char \/ is_Some (digit_val c)).
Proof.
  destruct (print_Z_starts z) as (c & s & -> & Hc). by exists c, (s +:+ rest).
Qed.

Lemma print_dec_split m k rest :
  exists c s, print_dec m k rest = String c s /\ (c = minus_char \/ is_Some (digit_val c)).
Proof.
  unfold print_dec. case_match; [by eauto|].
  destruct (print_nat_starts (Z.abs m / 10 ^ Z.of_nat k)) as (d & s & Hd & ->).
  eexists _, _. split; [done|]. right. rewrite digit_val_digit by done. eauto.
Qed.

(** Every document in front of a text that ends a number is read back. *)
Lemma parse_print v : jwf v = true -> parses v.
Proof.
  induction v as [|b|z|m k|s|l IH|l IH] using json_induction; intros Hwf f tail Hf Ht;
    (destruct f as [|f]; [cbn in Hf; lia|]).
  - done.
  - by destruct b.
  - cbn [print_json]. pose proof (parse_number_int z tail Ht) as Hn.
    destruct (print_nat_split z tail) as (c & s & Es & Hc). rewrite Es in *.
    by rewrite parse_value_number.
  - cbn [print_json]. cbn in Hwf.
    assert (Hk : k <> 0%nat) by (by destruct k).
    pose proof (parse_number_dec m k tail Hk Ht) as Hn.
    destruct (print_dec_split m k tail) as (c & s & Es & Hc). rewrite Es in *.
    by rewrite parse_value_number.
  - cbn [print_json]. unfold quote. cbn [parse_value skip_ws].
    change (is_ws dquote) with false. cbn match.
    change (Ascii.eqb dquote "{") with false. change (Ascii.eqb dquote "[") with false.
    cbn match. by rewrite Ascii.eqb_refl, parse_quote_body.
  - rewrite print_json_arr. apply parse_arr; [|cbn in Hf; lia].
    cbn in Hwf. rewrite forallb_forall in Hwf. rewrite Forall_forall in *.
    intros x Hx. apply (IH x Hx), Hwf, list_elem_of_In, Hx.
  - rewrite print_json_obj. apply parse_obj; [|cbn in Hf; lia].
    cbn in Hwf. rewrite forallb_forall in Hwf. rewrite Forall_forall in *.
    intros x Hx. apply (IH x Hx), Hwf, list_elem_of_In, Hx.
Qed.

(** The fuel a document needs is at most its length. *)
Lemma length_esc c s : (String.length s < String.length (esc c s))%nat.
Proof. unfold esc. repeat case_match; simpl; lia. Qed.

Lemma length_quote s tail : (2 + String.length tail <= String.length (quote s tail))%nat.
Proof.
  unfold quote. cbn [String.length]. apply le_n_S.
  induction s as [|c s IH]; cbn [quote_body]; [simpl; lia|].
  pose proof (length_esc c (quote_body s tail)). lia.
Qed.

Lemma length_print_pad k n acc : String.length (print_pad k n acc) = (k + String.length acc)%nat.
Proof. revert n acc. induction k as [|k IH]; intros n acc; [done|]. cbn. rewrite IH. cbn. lia. Qed.

Lemma length_print_nat n : (1 <= String.length (print_nat n))%nat.
Proof. unfold print_nat. rewrite length_print_pad. destruct (ndigits_pos n) as [k ->]. lia. Qed.

Lemma length_print v tail :
  (need v + String.length tail <= String.length (print_json v tail))%nat.
Proof.
  revert tail. induction v as [|b|z|m k|s|l IH|l IH] using json_induction; intros tail.
  - cbn [print_json need]. rewrite str_length_app. cbn [String.length]. lia.
  - destruct b; cbn [print_json need]; rewrite str_length_app; cbn [String.length]; lia.
  - cbn [print_json need]. rewrite str_length_app. unfold print_Z.
    case_match; [cbn; pose proof (length_print_nat (- z))|pose proof (length_print_nat z)]; lia.
  - cbn [print_json need]. unfold print_dec.
    pose proof (length_print_nat (Z.abs m / 10 ^ Z.of_nat k)).
    case_match; cbn [String.length]; rewrite str_length_app; cbn [String.length];
      rewrite length_print_pad; lia.
  - cbn [print_json need]. pose proof (length_quote s tail). lia.
  - rewrite print_json_arr. cbn [String.length].
    change (need (JArr l)) with (S (length l + sum_list_with need l)).
    rewrite Nat.add_succ_l. apply le_n_S.
    induction IH as [|x l Hx _ IHl]; [cbn; lia|]. destruct l as [|y l].
    + cbn [print_elems sum_list_with length]. specialize (Hx (String "]" tail)).
      cbn [String.length] in *. lia.
    + change (print_elems (x :: y :: l) (String "]" tail)) with
        (print_json x (", " +:+ print_elems (y :: l) (String "]" tail))).
      specialize (Hx (", " +:+ print_elems (y :: l) (String "]" tail))).
      rewrite str_length_app in Hx. cbn [sum_list_with length String.length] in *. lia.
  - rewrite print_json_obj. cbn [String.length].
    change (need (JObj l)) with (S (length l + sum_list_with (fun kv => need (snd kv)) l)).
    rewrite Nat.add_succ_l. apply le_n_S.
    induction IH as [|[k x] l Hx _ IHl]; [cbn; lia|]. cbn [snd] in Hx.
    destruct l as [|y l].
    + cbn [print_members sum_list_with length snd]. specialize (Hx (String "}" tail)).
      pose proof (length_quote k (": " +:+ print_json x (String "}" tail))) as Hq.
      rewrite str_length_app in Hq. cbn [String.length] in *. lia.
    + change (print_members ((k, x) :: y :: l) (String "}" tail)) with
        (quote k (": " +:+ print_json x (", " +:+ print_members (y :: l) (String "}" tail)))).
      specialize (Hx (", " +:+ print_members (y :: l) (String "}" tail))).
      pose proof (length_quote k (": " +:+ print_json x (", " +:+ print_members (y :: l) (String "}" tail)))) as Hq.
      rewrite !str_length_app in Hq, Hx.
      cbn [sum_list_with length snd String.length] in *. lia.
Qed.

(** [loads] inverts [dumps]. *)
Lemma loads_dumps v : jwf v = true -> loads (dumps v) = Some v.
Proof.
  intros Hwf. unfold loads, dumps.
  pose proof (length_print v estr) as Hl. cbn [String.length] in Hl.
  by rewrite (parse_print v Hwf) by (lia || done).
Qed.
