(* ===== verification/Redis.v ===== *)
(** * The Redis server: commands, atomic scripts, and what is relied on

    Redis is not part of the repository.  A server is a parameter: the class
    [RedisServer] is a state type with an executable effect for each command
    the program issues, and [RedisSpec] states the documented behaviour the
    program relies on, by a view of the server's state as a keyspace [db] on
    which every command acts as its documentation says.  The keyspace with
    these documented effects is itself an instance, so the specification is
    satisfiable and every model can be evaluated.

    A Lua script is a [prog]: a tree of commands run without interleaving.
    [run_view] carries a fact about a script from the keyspace to any server. *)

From S2P Require Import Prelude Float Text Json.

Open Scope Z_scope.

(** ** The keyspace *)

(** A sorted set: scores and members in the order of ZRANGE (ascending score,
    then lexicographic member). *)
Abbreviation zset := (list (Q * string)).

Inductive value :=
  | VStr (s : string)
  | VZset (z : zset)
  | VList (l : list string)
  | VHash (h : gmap string string).

(** A key holds a value and, possibly, the time in milliseconds at which it
    expires. *)
Record entry := Entry { e_val : value; e_exp : option Z }.

Record db := Db {
  db_us : Z;                          (* the server clock, in microseconds *)
  db_keys : gmap string entry;
  db_pub : list (string * string);    (* published messages, oldest first *)
}.

Definition db_ms (d : db) : Z := db_us d / 1000.
Definition db_sec (d : db) : Z := db_us d / 1000000.

(** A key is dropped once the clock is past its expiry time. *)
Definition live (now : Z) (e : entry) : bool :=
  match e_exp e with Some t => now <=? t | None => true end.

Definition key_entry (k : string) (d : db) : option entry :=
  match db_keys d !! k with
  | Some e => if live (db_ms d) e then Some e else None
  | None => None
  end.

Definition key_val (k : string) (d : db) : option value := e_val <$> key_entry k d.

Definition set_entry (k : string) (e : entry) (d : db) : db :=
  Db (db_us d) (<[k := e]> (db_keys d)) (db_pub d).

Definition del_key (k : string) (d : db) : db :=
  Db (db_us d) (delete k (db_keys d)) (db_pub d).

(** Writing a value keeps the expiry time of a live key. *)
Definition set_val (k : string) (v : value) (d : db) : db :=
  set_entry k (Entry v (key_entry k d ≫= e_exp)) d.

(** Aggregates that become empty are removed. *)
Definition set_zset (k : string) (z : zset) (d : db) : db :=
  match z with [] => del_key k d | _ => set_val k (VZset z) d end.

Definition set_list (k : string) (l : list string) (d : db) : db :=
  match l with [] => del_key k d | _ => set_val k (VList l) d end.

(** ** Sorted sets *)

Definition zlt (a b : Q * string) : bool :=
  match Qcompare (fst a) (fst b) with
  | Lt => true
  | Eq => String.ltb (snd a) (snd b)
  | Gt => false
  end.

Fixpoint zins (a : Q * string) (z : zset) : zset :=
  match z with
  | [] => [a]
  | b :: z' => if zlt a b then a :: z else b :: zins a z'
  end.

Definition zrem (m : string) (z : zset) : zset :=
  filter (fun a => snd a <> m) z.

(** A stored score is a number: [ZADD] keeps its reduced fraction. *)
Definition zadd (s : Q) (m : string) (z : zset) : zset := zins (s, m) (zrem m z).

Fixpoint zscore (m : string) (z : zset) : option Q :=
  match z with
  | [] => None
  | (s, m') :: z' => if bool_decide (m' = m) then Some s else zscore m z'
  end.

(** Members whose score is above [mx]. *)
Definition zabove (mx : Q) (z : zset) : zset := filter (fun a => Qltb mx (fst a) = true) z.

(** ** Commands *)

Inductive set_ttl := NoTtl | Px (ms : Q) | Ex (sec : Z).

Inductive rcmd : Type -> Type :=
  | TIME : rcmd (Z * Z)
  | GET (k : string) : rcmd (option string)
  | SET (k v : string) (ttl : set_ttl) (nx : bool) : rcmd bool
  | INCR (k : string) : rcmd Z
  | PEXPIRE (k : string) (ms : Q) : rcmd bool
  | DEL (k : string) : rcmd Z
  | ZCARD (k : string) : rcmd Z
  | ZADD (k : string) (s : Q) (m : string) : rcmd Z
  | ZREM (k m : string) : rcmd Z
  | ZSCORE (k m : string) : rcmd (option Q)
  | ZRANGE0 (k : string) : rcmd (list string)   (* ZRANGE k 0 0 *)
  | ZREMRANGEBYSCORE (k : string) (mx : Q) : rcmd Z   (* from -inf *)
  | RPUSH (k v : string) : rcmd Z
  | LPOP (k : string) : rcmd (option string)
  | PUBLISH (ch msg : string) : rcmd unit   (* the number of receivers is not used *)
  | HGET (k f : string) : rcmd (option string)
  | HSET (k f v : string) : rcmd Z
  | HINCRBY (k f : string) : rcmd Z
  | CJSON_DECODE (s : string) : rcmd json.   (* the cjson library of the server *)

Definition wrongtype : string :=
  "WRONGTYPE Operation against a key holding the wrong kind of value".
Definition not_int : string := "ERR value is not an integer or out of range".

Definition as_str (v : option value) : string + option string :=
  match v with
  | None => inr None
  | Some (VStr s) => inr (Some s)
  | _ => inl wrongtype
  end.

Definition as_zset (v : option value) : string + zset :=
  match v with
  | None => inr []
  | Some (VZset z) => inr z
  | _ => inl wrongtype
  end.

Definition as_list (v : option value) : string + list string :=
  match v with
  | None => inr []
  | Some (VList l) => inr l
  | _ => inl wrongtype
  end.

Definition as_hash (v : option value) : string + gmap string string :=
  match v with
  | None => inr ∅
  | Some (VHash h) => inr h
  | _ => inl wrongtype
  end.

Definition max_int64 : Z := 2 ^ 63 - 1.

Definition ok {B} (b : B) (d : db) : (string + B) * db := (inr b, d).
Definition err {B} (e : string) (d : db) : (string + B) * db := (inl e, d).

(** Continue with a typed value, or answer the type error. *)
Definition typed {T B} (v : string + T) (d : db) (k : T -> (string + B) * db) : (string + B) * db :=
  match v with inl e => err e d | inr x => k x end.

(** The expiry time of SET, in milliseconds. *)
Definition ttl_ms (now : Z) (t : set_ttl) : string + option Z :=
  match t with
  | NoTtl => inr None
  | Px q =>
      match arg_int q with
      | None => inl not_int
      | Some ms => if ms <=? 0 then inl "ERR invalid expire time in 'set' command"
                   else inr (Some (now + ms))
      end
  | Ex s => if s <=? 0 then inl "ERR invalid expire time in 'set' command"
            else inr (Some (now + 1000 * s))
  end.

Definition incr_reply (n : Z) (d : db) (w : string -> db) : (string + Z) * db :=
  if n <? max_int64 then ok (n + 1) (w (print_Z (n + 1)))
  else err "ERR increment or decrement would overflow" d.

(** The documented effect of each command on the keyspace; [cj] is the JSON
    decoder of the scripting engine. *)
Definition db_exec (cj : string -> option json) {B} (c : rcmd B) (d : db) : (string + B) * db :=
  match c in rcmd B return (string + B) * db with
  | TIME => ok (db_us d / 1000000, db_us d mod 1000000) d
  | GET k => typed (as_str (key_val k d)) d (fun s => ok s d)
  | SET k v t nx =>
      if nx && bool_decide (is_Some (key_val k d)) then ok false d
      else typed (ttl_ms (db_ms d) t) d (fun ex => ok true (set_entry k (Entry (VStr v) ex) d))
  | INCR k =>
      typed (as_str (key_val k d)) d (fun s =>
        match s with
        | None => ok 1 (set_val k (VStr (print_Z 1)) d)
        | Some s =>
            match read_Z s with
            | None => err not_int d
            | Some n => incr_reply n d (fun s' => set_val k (VStr s') d)
            end
        end)
  | PEXPIRE k q =>
      match arg_int q with
      | None => err not_int d
      | Some ms =>
          match key_entry k d with
          | None => ok false d
          | Some e =>
              if ms <=? 0 then ok true (del_key k d)
              else ok true (set_entry k (Entry (e_val e) (Some (db_ms d + ms))) d)
          end
      end
  | DEL k => ok (if bool_decide (is_Some (key_val k d)) then 1 else 0) (del_key k d)
  | ZCARD k => typed (as_zset (key_val k d)) d (fun z => ok (Z.of_nat (length z)) d)
  | ZADD k s m =>
      typed (as_zset (key_val k d)) d (fun z =>
        ok (if bool_decide (is_Some (zscore m z)) then 0 else 1) (set_zset k (zadd (Qred s) m z) d))
  | ZREM k m =>
      typed (as_zset (key_val k d)) d (fun z =>
        ok (if bool_decide (is_Some (zscore m z)) then 1 else 0) (set_zset k (zrem m z) d))
  | ZSCORE k m => typed (as_zset (key_val k d)) d (fun z => ok (zscore m z) d)
  | ZRANGE0 k => typed (as_zset (key_val k d)) d (fun z => ok (snd <$> take 1 z) d)
  | ZREMRANGEBYSCORE k mx =>
      typed (as_zset (key_val k d)) d (fun z =>
        ok (Z.of_nat (length z) - Z.of_nat (length (zabove mx z))) (set_zset k (zabove mx z) d))
  | RPUSH k v =>
      typed (as_list (key_val k d)) d (fun l =>
        ok (Z.of_nat (S (length l))) (set_list k (l ++ [v]) d))
  | LPOP k =>
      typed (as_list (key_val k d)) d (fun l =>
        match l with
        | [] => ok None d
        | x :: l' => ok (Some x) (set_list k l' d)
        end)
  | PUBLISH ch msg => ok tt (Db (db_us d) (db_keys d) (db_pub d ++ [(ch, msg)]))
  | HGET k f => typed (as_hash (key_val k d)) d (fun h => ok (h !! f) d)
  | HSET k f v =>
      typed (as_hash (key_val k d)) d (fun h =>
        ok (if bool_decide (is_Some (h !! f)) then 0 else 1) (set_val k (VHash (<[f := v]> h)) d))
  | HINCRBY k f =>
      typed (as_hash (key_val k d)) d (fun h =>
        match h !! f with
        | None => ok 1 (set_val k (VHash (<[f := print_Z 1]> h)) d)
        | Some s =>
            match read_Z s with
            | None => err "ERR hash value is not an integer" d
            | Some n => incr_reply n d (fun s' => set_val k (VHash (<[f := s']> h)) d)
            end
        end)
  | CJSON_DECODE s =>
      match cj s with
      | Some v => ok v d
      | None => err "ERR cjson: invalid document" d
      end
  end.

(** ** Atomic programs *)

(** A script: commands in sequence, an error of a command ends the script and
    leaves the effects of the commands before it ([redis.call] raises, and
    Redis does not roll back). *)
Inductive prog (A : Type) : Type :=
  | Ret (a : A)
  | Fail (e : string)
  | Call {B : Type} (c : rcmd B) (k : B -> prog A).
Arguments Ret {A} a.
Arguments Fail {A} e.
Arguments Call {A B} c k.

Fixpoint pbind {A B} (m : prog A) (f : A -> prog B) : prog B :=
  match m with
  | Ret a => f a
  | Fail e => Fail e
  | Call c k => Call c (fun b => pbind (k b) f)
  end.

#[export] Instance prog_ret : MRet prog := @Ret.
#[export] Instance prog_bind : MBind prog := fun A B f m => pbind m f.

Definition call {B} (c : rcmd B) : prog B := Call c Ret.

(** A value that must be present, as Lua raises when it indexes or computes
    with [nil]. *)
Definition need_some {A} (o : option A) : prog A :=
  match o with Some a => Ret a | None => Fail "attempt to use a nil value" end.

(** ** Servers *)

Class RedisServer (R : Type) :=
  rexec : forall B : Type, rcmd B -> R -> (string + B) * R.

Fixpoint run `{RedisServer R} {A} (p : prog A) (r : R) : (string + A) * R :=
  match p with
  | Ret a => (inr a, r)
  | Fail e => (inl e, r)
  | Call c k =>
      match rexec _ c r with
      | (inl e, r') => (inl e, r')
      | (inr b, r') => run (k b) r'
      end
  end.

(** What the program relies on. *)
Class RedisSpec (R : Type) `{RedisServer R} := {
  rview : R -> db;
  rcjson : string -> option json;
  rcjson_spec : forall s v, loads s = Some v -> rcjson s = Some v;
  rexec_fst : forall B (c : rcmd B) r,
    fst (rexec B c r) = fst (db_exec rcjson c (rview r));
  rexec_snd : forall B (c : rcmd B) r,
    rview (snd (rexec B c r)) = snd (db_exec rcjson c (rview r));
}.

(** The keyspace is a server, for any decoder that reads JSON. *)
Definition db_server (cj : string -> option json) : RedisServer db := fun B c d => db_exec cj c d.

#[export] Instance ref_server : RedisServer db := db_server loads.

#[export, refine] Instance ref_spec : RedisSpec db := {
  rview := fun d => d;
  rcjson := loads;
}.
Proof. all: done. Defined.

(** Running on the keyspace. *)
Definition drun (cj : string -> option json) {A} (p : prog A) (d : db) : (string + A) * db :=
  @run db (db_server cj) A p d.

(** A script has on every server the result and the effect it has on the
    keyspace. *)
Lemma run_view `{RedisSpec R} {A} (p : prog A) (r : R) :
  fst (run p r) = fst (drun rcjson p (rview r)) /\
  rview (snd (run p r)) = snd (drun rcjson p (rview r)).
Proof.
  unfold drun. revert r. induction p as [a|e|B c k IH]; intros r; [done|done|]. cbn [run].
  pose proof (rexec_fst B c r) as Hf. pose proof (rexec_snd B c r) as Hs.
  unfold rexec at 2 4, db_server.
  destruct (rexec B c r) as [o r'], (db_exec rcjson c (rview r)) as [o' d'].
  cbn [fst snd] in *. subst. destruct o' as [e|b]; [done|apply IH].
Qed.

Lemma run_pbind `{RedisServer R} {A B} (m : prog A) (f : A -> prog B) (r : R) :
  run (pbind m f) r =
    match run m r with
    | (inl e, r') => (inl e, r')
    | (inr a, r') => run (f a) r'
    end.
Proof.
  revert r. induction m as [a|e|C c k IH]; intros r; [done|done|]. cbn [pbind run].
  destruct (rexec C c r) as [[e|b] r']; [done|apply IH].
Qed.
