(* ===== verification/Zset.v ===== *)
(** * Sorted sets

    The order of ZRANGE and the operations on sorted sets keep a well-formed
    set well formed: its members are distinct and in ascending order of score,
    then member. *)

From Stdlib Require Import OrdersEx Sorted.
From S2P Require Import Prelude Float Text Json Redis.

Open Scope Z_scope.

(** ** The order *)

Lemma string_compare_ot s t : String.compare s t = String_as_OT.compare s t.
Proof. revert t. induction s as [|c s IH]; intros [|c' t]; cbn; [done..|]. by rewrite IH. Qed.

Lemma string_ltb_lt s t : String.ltb s t = true <-> String_as_OT.lt s t.
Proof.
  unfold String.ltb, String_as_OT.lt. rewrite string_compare_ot.
  by destruct (String_as_OT.compare s t).
Qed.

Lemma string_ltb_trans s t u :
  String.ltb s t = true -> String.ltb t u = true -> String.ltb s u = true.
Proof. rewrite !string_ltb_lt. apply transitivity. Qed.

Lemma string_ltb_irrefl s : String.ltb s s = false.
Proof.
  destruct (String.ltb s s) eqn:E; [|done]. apply string_ltb_lt in E.
  by apply (irreflexivity String_as_OT.lt) in E.
Qed.

Lemma string_ltb_total s t : String.ltb s t = false -> s = t \/ String.ltb t s = true.
Proof.
  rewrite <-!not_true_iff_false, !string_ltb_lt.
  destruct (String_as_OT.compare_spec s t) as [->|H|H]; auto. done.
Qed.

Lemma zlt_true a b :
  zlt a b = true <->
  (fst a < fst b)%Q \/ (fst a == fst b)%Q /\ String.ltb (snd a) (snd b) = true.
Proof.
  unfold zlt. destruct (Qcompare (fst a) (fst b)) eqn:E.
  - apply Qeq_alt in E. split; [auto|]. intros [H|[_ H]]; [lra|done].
  - apply Qlt_alt in E. split; auto.
  - apply Qgt_alt in E. split; [done|]. intros [H|[H _]]; lra.
Qed.

Lemma zlt_trans a b c : zlt a b = true -> zlt b c = true -> zlt a c = true.
Proof.
  rewrite !zlt_true. intros [H|[H H']] [K|[K K']]; try (left; lra).
  right. split; [lra|]. by eapply string_ltb_trans.
Qed.

Lemma zlt_irrefl a : zlt a a = false.
Proof.
  apply not_true_iff_false. rewrite zlt_true, string_ltb_irrefl. intros [H|[_ H]]; [lra|done].
Qed.

Lemma zlt_total a b : snd a <> snd b -> zlt a b = false -> zlt b a = true.
Proof.
  intros Hne. rewrite <-not_true_iff_false, !zlt_true. intros H.
  destruct (Q_dec (fst a) (fst b)) as [[?|?]|E]; [tauto|tauto|].
  right. split; [lra|]. destruct (String.ltb (snd a) (snd b)) eqn:Hl; [tauto|].
  by apply string_ltb_total in Hl as [?|?].
Qed.

(** ** Well-formed sets *)

Definition members (z : zset) : list string := snd <$> z.

Definition zordered : zset -> Prop := StronglySorted (fun a b => zlt a b = true).

Record zwf (z : zset) : Prop := {
  zwf_nodup : NoDup (members z);
  zwf_ordered : zordered z;
}.

Lemma zwf_nil : zwf [].
Proof. split; constructor. Qed.

Lemma elem_of_members m (z : zset) : m ∈ members z <-> exists s, (s, m) ∈ z.
Proof.
  unfold members. rewrite list_elem_of_fmap. split.
  - intros ([s m'] & -> & H). eauto.
  - intros [s H]. exists (s, m). done.
Qed.

Lemma zins_elem a b (z : zset) : b ∈ zins a z <-> b = a \/ b ∈ z.
Proof.
  induction z as [|c z IH]; cbn [zins].
  - rewrite list_elem_of_singleton. split; [auto|]. by intros [?|?%elem_of_nil].
  - destruct (zlt a c); rewrite !elem_of_cons, ?IH; tauto.
Qed.

Lemma zins_perm a z : zins a z ≡ₚ a :: z.
Proof.
  induction z as [|b z IH]; cbn [zins]; [done|]. destruct (zlt a b); [done|].
  rewrite IH. constructor.
Qed.

Lemma zins_ordered a z :
  (snd a) ∉ members z -> zordered z -> zordered (zins a z).
Proof.
  unfold zordered. induction z as [|b z IH]; intros Hm Hs; cbn [zins].
  { repeat constructor. }
  cbn in Hm. apply not_elem_of_cons in Hm as [Hne Hm].
  apply StronglySorted_inv in Hs as [Hs Hb]. destruct (zlt a b) eqn:E.
  - constructor; [by constructor|]. constructor; [done|].
    rewrite Forall_forall in Hb |- *. intros c Hc. by eapply zlt_trans; [|apply Hb].
  - constructor; [auto|]. apply Forall_forall. intros c Hc. apply zins_elem in Hc as [->|Hc].
    + by apply zlt_total.
    + rewrite Forall_forall in Hb. auto.
Qed.

Lemma filter_ordered (P : Q * string -> Prop) `{!forall x, Decision (P x)} z :
  zordered z -> zordered (filter P z).
Proof.
  unfold zordered. induction z as [|b z IH]; intros Hs; [done|].
  apply StronglySorted_inv in Hs as [Hs Hb]. rewrite filter_cons. case_decide; [|auto].
  constructor; [auto|]. apply Forall_forall. intros c Hc.
  apply list_elem_of_filter in Hc as [_ Hc]. rewrite Forall_forall in Hb. auto.
Qed.

Lemma filter_members_nodup (P : Q * string -> Prop) `{!forall x, Decision (P x)} z :
  NoDup (members z) -> NoDup (members (filter P z)).
Proof.
  unfold members. intros Hn. eapply sublist_NoDup; [exact Hn|].
  apply fmap_sublist. apply sublist_filter.
Qed.

Lemma zrem_elem a m z : a ∈ zrem m z <-> a ∈ z /\ snd a <> m.
Proof. unfold zrem. rewrite list_elem_of_filter. tauto. Qed.

Lemma zrem_members m m' z : m' ∈ members (zrem m z) <-> m' ∈ members z /\ m' <> m.
Proof.
  rewrite !elem_of_members. setoid_rewrite zrem_elem. naive_solver.
Qed.

Lemma zrem_wf m z : zwf z -> zwf (zrem m z).
Proof. intros [H1 H2]. split; [by apply filter_members_nodup|by apply filter_ordered]. Qed.

Lemma zabove_wf x z : zwf z -> zwf (zabove x z).
Proof. intros [H1 H2]. split; [by apply filter_members_nodup|by apply filter_ordered]. Qed.

Lemma zadd_wf s m z : zwf z -> zwf (zadd s m z).
Proof.
  intros [H1 H2]. assert (Hm : m ∉ members (zrem m z)) by (rewrite zrem_members; naive_solver).
  split; unfold zadd.
  - unfold members. rewrite zins_perm. cbn. constructor; [done|]. by apply filter_members_nodup.
  - apply zins_ordered; [done|]. by apply filter_ordered.
Qed.

Lemma zadd_elem a s m z : a ∈ zadd s m z <-> a = (s, m) \/ a ∈ z /\ snd a <> m.
Proof. unfold zadd. by rewrite zins_elem, zrem_elem. Qed.

Lemma zadd_members m' s m z : m' ∈ members (zadd s m z) <-> m' = m \/ m' ∈ members z.
Proof.
  rewrite !elem_of_members. setoid_rewrite zadd_elem.
  destruct (decide (m' = m)) as [->|]; naive_solver.
Qed.

(** ** Sizes *)

Lemma zrem_absent m z : m ∉ members z -> zrem m z = z.
Proof.
  unfold zrem, members. induction z as [|a z IH]; intros Hm; [done|]. cbn in Hm.
  apply not_elem_of_cons in Hm as [Hne Hm]. rewrite filter_cons_True by congruence.
  by rewrite IH.
Qed.

Lemma zrem_head s m z : NoDup (members ((s, m) :: z)) -> zrem m ((s, m) :: z) = z.
Proof.
  intros Hn. apply NoDup_cons in Hn as [Hm _]. unfold zrem.
  rewrite filter_cons_False by naive_solver. by apply zrem_absent.
Qed.

Lemma length_zrem m z :
  NoDup (members z) ->
  length z = (length (zrem m z) + (if bool_decide (m ∈ members z) then 1 else 0))%nat.
Proof.
  induction z as [|[s k] z IH]; intros Hn; [done|]. pose proof Hn as Hn'.
  apply NoDup_cons in Hn' as [Hk Hz]. destruct (decide (k = m)) as [->|Hne].
  - rewrite zrem_head by done. rewrite bool_decide_true by set_solver. cbn. lia.
  - unfold zrem. rewrite filter_cons_True by done. cbn [length]. change (filter _ z) with (zrem m z).
    rewrite IH by done.
    rewrite (bool_decide_ext (m ∈ members ((s, k) :: z)) (m ∈ members z)); [lia|].
    cbn. rewrite elem_of_cons. naive_solver.
Qed.

Lemma length_zins a z : length (zins a z) = S (length z).
Proof. by rewrite zins_perm. Qed.

(** Adding a member grows the set by one unless the member was present. *)
Lemma length_zadd s m z :
  NoDup (members z) ->
  length (zadd s m z) = (length z + (if bool_decide (m ∈ members z) then 0 else 1))%nat.
Proof.
  intros Hn. unfold zadd. rewrite length_zins, (length_zrem m z Hn). case_bool_decide; lia.
Qed.

Lemma length_zrem_le m z : (length (zrem m z) <= length z)%nat.
Proof. apply length_filter. Qed.

Lemma length_zabove_le x z : (length (zabove x z) <= length z)%nat.
Proof. apply length_filter. Qed.

Lemma length_zadd_le s m z : (length (zadd s m z) <= S (length z))%nat.
Proof. unfold zadd. rewrite length_zins. pose proof (length_zrem_le m z). lia. Qed.

(** ** Scores *)

Lemma zscore_some m z : is_Some (zscore m z) <-> m ∈ members z.
Proof.
  induction z as [|[s k] z IH]; cbn.
  - split; [by intros [? ?]|]. set_solver.
  - rewrite elem_of_cons. case_bool_decide; [naive_solver|]. rewrite IH. naive_solver.
Qed.

Lemma zscore_elem m s z : zscore m z = Some s -> (s, m) ∈ z.
Proof.
  induction z as [|[t k] z IH]; cbn; [done|]. rewrite elem_of_cons.
  case_bool_decide; intros E; simplify_eq; auto.
Qed.

Lemma zscore_zadd s m z : zwf z -> zscore m (zadd s m z) = Some s.
Proof.
  intros Hw. destruct (zadd_wf s m z Hw) as [Hn _].
  destruct (zscore m (zadd s m z)) as [t|] eqn:E.
  - apply zscore_elem in E. apply zadd_elem in E as [?|[_ ?]]; naive_solver.
  - assert (H : is_Some (zscore m (zadd s m z))) by (apply zscore_some, zadd_members; auto).
    rewrite E in H. by destruct H.
Qed.

(** The first member has the least score. *)
Lemma zordered_head a b z : zordered (a :: z) -> b ∈ z -> (fst a <= fst b)%Q.
Proof.
  intros Hs Hb. apply StronglySorted_inv in Hs as [_ Hf]. rewrite Forall_forall in Hf.
  specialize (Hf b Hb). apply zlt_true in Hf as [?|[? _]]; lra.
Qed.

#[export] Hint Resolve zwf_nil zrem_wf zabove_wf zadd_wf : rl.
