(* ===== verification/Keyspace.v ===== *)
(** * Keyspace: reading what commands wrote

    Typed views of keys, the equations of the commands on keys of the expected
    type, the frame of a command (a command changes at most the key it names
    and never the clock), and the facts on sorted sets the scripts need. *)

From S2P Require Import Prelude Float Text Json Redis.

Open Scope Z_scope.

(** ** Typed views *)

Definition zset_at (k : string) (d : db) : zset :=
  match key_val k d with Some (VZset z) => z | _ => [] end.
Definition list_at (k : string) (d : db) : list string :=
  match key_val k d with Some (VList l) => l | _ => [] end.
Definition str_at (k : string) (d : db) : option string :=
  match key_val k d with Some (VStr s) => Some s | _ => None end.
Definition hash_at (k : string) (d : db) : gmap string string :=
  match key_val k d with Some (VHash h) => h | _ => ∅ end.
(** A counter that is absent counts zero. *)
Definition count_at (k : string) (d : db) : Z :=
  match str_at k d with Some s => default 0 (read_Z s) | None => 0 end.

Definition is_zset (k : string) (d : db) : Prop :=
  match key_val k d with None | Some (VZset _) => True | _ => False end.
Definition is_list (k : string) (d : db) : Prop :=
  match key_val k d with None | Some (VList _) => True | _ => False end.
Definition is_str (k : string) (d : db) : Prop :=
  match key_val k d with None | Some (VStr _) => True | _ => False end.
Definition is_hash (k : string) (d : db) : Prop :=
  match key_val k d with None | Some (VHash _) => True | _ => False end.
(** A counter holds the numeral of a number the scripts compute with
    exactly. *)
Definition is_count (k : string) (d : db) : Prop :=
  match key_val k d with
  | None => True
  | Some (VStr s) => exists n, s = print_Z n /\ 0 <= n < 2 ^ 52
  | _ => False
  end.

(** ** Writing and reading *)

Lemma key_entry_set_ne k k' e d : k <> k' -> key_entry k (set_entry k' e d) = key_entry k d.
Proof. intros Hne. unfold key_entry. cbn. by rewrite lookup_insert_ne by done. Qed.

Lemma key_entry_set_eq k e d :
  live (db_ms d) e = true -> key_entry k (set_entry k e d) = Some e.
Proof.
  intros Hl. unfold key_entry. cbn. rewrite lookup_insert_eq. change (db_ms (set_entry k e d)) with (db_ms d). by rewrite Hl.
Qed.

Lemma key_entry_del_ne k k' d : k <> k' -> key_entry k (del_key k' d) = key_entry k d.
Proof. intros Hne. unfold key_entry. cbn. by rewrite lookup_delete_ne by done. Qed.

Lemma key_entry_del_eq k d : key_entry k (del_key k d) = None.
Proof. unfold key_entry. cbn. by rewrite lookup_delete_eq. Qed.

Lemma key_entry_live k d e : key_entry k d = Some e -> live (db_ms d) e = true.
Proof. unfold key_entry. intros H. repeat case_match; by simplify_eq. Qed.

Lemma live_kept k v d : live (db_ms d) (Entry v (key_entry k d ≫= e_exp)) = true.
Proof.
  destruct (key_entry k d) as [e|] eqn:E; [|done]. apply key_entry_live in E.
  unfold live in *. cbn. by destruct (e_exp e).
Qed.

Lemma key_val_set_val k v d : key_val k (set_val k v d) = Some v.
Proof. unfold key_val, set_val. by rewrite key_entry_set_eq by apply live_kept. Qed.

Lemma key_val_set_val_ne k k' v d : k <> k' -> key_val k (set_val k' v d) = key_val k d.
Proof. intros Hne. unfold key_val, set_val. by rewrite key_entry_set_ne. Qed.

Lemma key_val_set_entry k e d :
  live (db_ms d) e = true -> key_val k (set_entry k e d) = Some (e_val e).
Proof. intros Hl. unfold key_val. by rewrite key_entry_set_eq. Qed.

Lemma key_val_set_entry_ne k k' e d : k <> k' -> key_val k (set_entry k' e d) = key_val k d.
Proof. intros Hne. unfold key_val. by rewrite key_entry_set_ne. Qed.

Lemma key_val_del k d : key_val k (del_key k d) = None.
Proof. unfold key_val. by rewrite key_entry_del_eq. Qed.

Lemma key_val_del_ne k k' d : k <> k' -> key_val k (del_key k' d) = key_val k d.
Proof. intros Hne. unfold key_val. by rewrite key_entry_del_ne. Qed.

Lemma key_val_set_zset k z d :
  key_val k (set_zset k z d) = match z with [] => None | _ => Some (VZset z) end.
Proof. destruct z; [apply key_val_del|apply key_val_set_val]. Qed.

Lemma key_val_set_zset_ne k k' z d : k <> k' -> key_val k (set_zset k' z d) = key_val k d.
Proof. intros Hne. destruct z; [by apply key_val_del_ne|by apply key_val_set_val_ne]. Qed.

Lemma key_val_set_list k l d :
  key_val k (set_list k l d) = match l with [] => None | _ => Some (VList l) end.
Proof. destruct l; [apply key_val_del|apply key_val_set_val]. Qed.

Lemma key_val_set_list_ne k k' l d : k <> k' -> key_val k (set_list k' l d) = key_val k d.
Proof. intros Hne. destruct l; [by apply key_val_del_ne|by apply key_val_set_val_ne]. Qed.

(** Keys of a keyspace after a write, in one rewriting base. *)
Create Rewrite HintDb kv.
#[export] Hint Rewrite key_val_set_val key_val_del key_val_set_zset key_val_set_list : kv.
#[export] Hint Rewrite key_val_set_val_ne key_val_del_ne key_val_set_zset_ne
  key_val_set_list_ne key_val_set_entry_ne using (done || congruence) : kv.

Lemma zset_at_set k z d : zset_at k (set_zset k z d) = z.
Proof. unfold zset_at. rewrite key_val_set_zset. by destruct z. Qed.

Lemma list_at_set k l d : list_at k (set_list k l d) = l.
Proof. unfold list_at. rewrite key_val_set_list. by destruct l. Qed.

Lemma is_zset_set k z d : is_zset k (set_zset k z d).
Proof. unfold is_zset. rewrite key_val_set_zset. by destruct z. Qed.

Lemma is_list_set k l d : is_list k (set_list k l d).
Proof. unfold is_list. rewrite key_val_set_list. by destruct l. Qed.

(** The views depend on the value of their key only. *)
Section SameKey.
Variables (k : string) (d d' : db).
Hypothesis E : key_val k d' = key_val k d.
Lemma zset_at_same : zset_at k d' = zset_at k d. Proof. unfold zset_at. by rewrite E. Qed.
Lemma list_at_same : list_at k d' = list_at k d. Proof. unfold list_at. by rewrite E. Qed.
Lemma str_at_same : str_at k d' = str_at k d. Proof. unfold str_at. by rewrite E. Qed.
Lemma count_at_same : count_at k d' = count_at k d.
Proof. unfold count_at. by rewrite str_at_same. Qed.
Lemma is_zset_same : is_zset k d -> is_zset k d'. Proof. unfold is_zset. by rewrite E. Qed.
Lemma is_list_same : is_list k d -> is_list k d'. Proof. unfold is_list. by rewrite E. Qed.
Lemma is_str_same : is_str k d -> is_str k d'. Proof. unfold is_str. by rewrite E. Qed.
Lemma is_count_same : is_count k d -> is_count k d'. Proof. unfold is_count. by rewrite E. Qed.
End SameKey.

(** ** Commands on keys of the expected type *)

Section Exec.
Context (cj : string -> option json).

Lemma as_zset_at k d : is_zset k d -> as_zset (key_val k d) = inr (zset_at k d).
Proof. unfold is_zset, zset_at. destruct (key_val k d) as [[]|]; done. Qed.
Lemma as_list_at k d : is_list k d -> as_list (key_val k d) = inr (list_at k d).
Proof. unfold is_list, list_at. destruct (key_val k d) as [[]|]; done. Qed.
Lemma as_str_at k d : is_str k d -> as_str (key_val k d) = inr (str_at k d).
Proof. unfold is_str, str_at. destruct (key_val k d) as [[]|]; done. Qed.
Lemma as_hash_at k d : is_hash k d -> as_hash (key_val k d) = inr (hash_at k d).
Proof. unfold is_hash, hash_at. destruct (key_val k d) as [[]|]; done. Qed.

Lemma is_count_str k d : is_count k d -> is_str k d.
Proof. unfold is_count, is_str. destruct (key_val k d) as [[]|]; done. Qed.

(** A counter reads as its number. *)
Lemma count_at_read k d :
  is_count k d ->
  0 <= count_at k d < 2 ^ 52 /\
  (str_at k d = None /\ count_at k d = 0 \/ exists s, str_at k d = Some s /\ read_Z s = Some (count_at k d)).
Proof.
  unfold is_count, count_at, str_at. destruct (key_val k d) as [[s| | |]|]; try done.
  - intros (n & -> & Hn). rewrite read_print_Z. cbn [default]. split; [done|]. right.
    exists (print_Z n). by rewrite read_print_Z.
  - intros _. split; [done|by left].
Qed.

Lemma exec_zcard k d :
  is_zset k d -> db_exec cj (ZCARD k) d = ok (Z.of_nat (length (zset_at k d))) d.
Proof. intros H. cbn [db_exec]. by rewrite as_zset_at. Qed.

Lemma exec_zadd k s m d :
  is_zset k d -> db_exec cj (ZADD k s m) d =
    ok (if bool_decide (is_Some (zscore m (zset_at k d))) then 0 else 1)
       (set_zset k (zadd (Qred s) m (zset_at k d)) d).
Proof. intros H. cbn [db_exec]. by rewrite as_zset_at. Qed.

Lemma exec_zrem k m d :
  is_zset k d -> db_exec cj (ZREM k m) d =
    ok (if bool_decide (is_Some (zscore m (zset_at k d))) then 1 else 0)
       (set_zset k (zrem m (zset_at k d)) d).
Proof. intros H. cbn [db_exec]. by rewrite as_zset_at. Qed.

Lemma exec_zscore k m d :
  is_zset k d -> db_exec cj (ZSCORE k m) d = ok (zscore m (zset_at k d)) d.
Proof. intros H. cbn [db_exec]. by rewrite as_zset_at. Qed.

Lemma exec_zrange0 k d :
  is_zset k d -> db_exec cj (ZRANGE0 k) d = ok (snd <$> take 1 (zset_at k d)) d.
Proof. intros H. cbn [db_exec]. by rewrite as_zset_at. Qed.

Lemma exec_zremrange k mx d :
  is_zset k d -> exists n,
  db_exec cj (ZREMRANGEBYSCORE k mx) d = ok n (set_zset k (zabove mx (zset_at k d)) d).
Proof. intros H. eexists. cbn [db_exec]. by rewrite as_zset_at. Qed.

Lemma exec_rpush k v d :
  is_list k d -> exists n, db_exec cj (RPUSH k v) d = ok n (set_list k (list_at k d ++ [v]) d).
Proof. intros H. eexists. cbn [db_exec]. by rewrite as_list_at. Qed.

Lemma exec_get k d : is_str k d -> db_exec cj (GET k) d = ok (str_at k d) d.
Proof. intros H. cbn [db_exec]. by rewrite as_str_at. Qed.

Lemma exec_incr k d :
  is_count k d -> db_exec cj (INCR k) d =
    ok (count_at k d + 1) (set_val k (VStr (print_Z (count_at k d + 1))) d).
Proof.
  intros H. destruct (count_at_read k d H) as [Hb Hr]. cbn [db_exec].
  rewrite as_str_at by by apply is_count_str. cbn [typed].
  destruct Hr as [[-> ->]|(s & -> & ->)]; [done|].
  unfold incr_reply. rewrite (proj2 (Z.ltb_lt _ _)); [done|].
  unfold max_int64. lia.
Qed.

Lemma exec_pexpire k q (ms : Z) d e :
  (q == ms)%Q -> 0 < ms < 10 ^ 17 -> key_entry k d = Some e ->
  db_exec cj (PEXPIRE k q) d = ok true (set_entry k (Entry (e_val e) (Some (db_ms d + ms))) d).
Proof.
  intros Eq Hms He. cbn [db_exec]. rewrite (arg_int_comp q ms), He by (done || lia).
  by rewrite (proj2 (Z.leb_gt _ _)) by lia.
Qed.

Lemma exec_set_px k v q (ms : Z) d :
  (q == ms)%Q -> 0 < ms < 10 ^ 17 ->
  db_exec cj (SET k v (Px q) false) d
  = ok true (set_entry k (Entry (VStr v) (Some (db_ms d + ms))) d).
Proof.
  intros Eq Hms. cbn [db_exec andb]. unfold ttl_ms. rewrite (arg_int_comp q ms) by (done || lia).
  by rewrite (proj2 (Z.leb_gt _ _)) by lia.
Qed.

(** ** Frame *)

(** The key a command may change. *)
Definition cmd_key {B} (c : rcmd B) : option string :=
  match c with
  | SET k _ _ _ | INCR k | PEXPIRE k _ | DEL k | ZADD k _ _ | ZREM k _
  | ZREMRANGEBYSCORE k _ | RPUSH k _ | LPOP k | HSET k _ _ | HINCRBY k _ => Some k
  | TIME | GET _ | ZCARD _ | ZSCORE _ _ | ZRANGE0 _ | PUBLISH _ _ | HGET _ _ | CJSON_DECODE _ => None
  end.

Lemma key_entry_set_zset_ne k k' z d : k <> k' -> key_entry k (set_zset k' z d) = key_entry k d.
Proof. intros Hne. destruct z; [by apply key_entry_del_ne|by apply key_entry_set_ne]. Qed.

Lemma key_entry_set_list_ne k k' l d : k <> k' -> key_entry k (set_list k' l d) = key_entry k d.
Proof. intros Hne. destruct l; [by apply key_entry_del_ne|by apply key_entry_set_ne]. Qed.

Lemma db_us_set_zset k z d : db_us (set_zset k z d) = db_us d.
Proof. by destruct z. Qed.
Lemma db_us_set_list k l d : db_us (set_list k l d) = db_us d.
Proof. by destruct l. Qed.

Lemma exec_clock {B} (c : rcmd B) d : db_us (snd (db_exec cj c d)) = db_us d.
Proof.
  destruct c; cbn [db_exec]; unfold typed, incr_reply, ok, err; repeat case_match; cbn [snd];
    try done; auto using db_us_set_zset, db_us_set_list.
Qed.

Lemma exec_frame {B} (c : rcmd B) d k :
  cmd_key c <> Some k -> key_entry k (snd (db_exec cj c d)) = key_entry k d.
Proof.
  intros Hk. assert (Hne : forall k', Some k' <> Some k -> k <> k') by congruence.
  destruct c; cbn [cmd_key] in Hk; cbn [db_exec]; unfold typed, incr_reply, ok, err, set_val;
    repeat case_match; cbn [snd]; try done;
    rewrite ?key_entry_set_zset_ne, ?key_entry_set_list_ne, ?key_entry_set_ne, ?key_entry_del_ne
      by eauto; done.
Qed.
End Exec.

(** Every key a program may change satisfies [P]. *)
Fixpoint writes_in (P : string -> Prop) {A} (p : prog A) : Prop :=
  match p with
  | Ret _ | Fail _ => True
  | Call c k => (forall key, cmd_key c = Some key -> P key) /\ forall b, writes_in P (k b)
  end.

Lemma drun_frame cj (P : string -> Prop) {A} (p : prog A) d k :
  writes_in P p -> ~ P k -> key_entry k (snd (drun cj p d)) = key_entry k d.
Proof.
  unfold drun. revert d. induction p as [a|e|B c q IH]; intros d Hw Hk; [done|done|].
  destruct Hw as [Hc Hq]. cbn [run].
  change (@rexec db (db_server cj) B c d) with (db_exec cj c d).
  pose proof (exec_frame cj c d k) as Hf.
  destruct (db_exec cj c d) as [[e|b] d'] eqn:E; cbn [snd] in *.
  - apply Hf. intros Heq. by apply Hk, Hc.
  - rewrite IH by done. apply Hf. intros Heq. by apply Hk, Hc.
Qed.

Lemma drun_clock cj {A} (p : prog A) d : db_us (snd (drun cj p d)) = db_us d.
Proof.
  unfold drun. revert d. induction p as [a|e|B c q IH]; intros d; [done|done|]. cbn [run].
  change (@rexec db (db_server cj) B c d) with (db_exec cj c d).
  pose proof (exec_clock cj c d) as Hc.
  destruct (db_exec cj c d) as [[e|b] d'] eqn:E; cbn [snd] in *; [done|]. by rewrite IH.
Qed.
