(* ===== verification/Scripts.v ===== *)
(** * The Lua scripts (src/src/redis_rate_limiter/lua)

    Each script is a [prog], its commands in the order of the source.  The
    arguments arrive as numbers: the client prints an integer or a float and
    [tonumber] reads the same double back.  Numbers computed by Lua are
    rounded at each operation; the numbers of a reply are truncated to
    integers, as Redis converts Lua numbers. *)

From S2P Require Import Prelude Float Text Json Redis.

Open Scope Z_scope.
Open Scope rl_scope.

(** The function path that marks an inline [acquire] in the buffer. *)
Definition marker_path : string := "__redis_rate_limiter_acquire_marker__".

(** Conversion of a Lua number in a reply: truncation towards zero. *)
Definition reply_int (q : Q) : Z := if Qle_bool 0 q then Qfloor q else - Qfloor (- q)%Q.

Section Scripts.
Context {F : Rounding}.

(** [tonumber] of a printed integer. *)
Definition num (n : Z) : Q := rnd n.

(** Milliseconds of the server clock. *)
Definition lua_now_ms (t : Z * Z) : Q :=
  (num (fst t) ⊗ 1000) ⊕ Qfloor (num (snd t) ⊘ 1000).

(** [math.floor(now_ms / window_size_ms) * window_size_ms] *)
Definition window_start (now_ms window_ms : Q) : Q := Qfloor (now_ms ⊘ window_ms) ⊗ window_ms.

(** [base_key .. ':' .. window_start] *)
Definition window_key (base_key : string) (start : Q) : string :=
  subkey base_key (lua_tostring start).

(** [tonumber(redis.call('GET', key) or 0)], used as a number. *)
Definition lua_count (v : option string) : prog Q :=
  match v with
  | None => Ret (0 : Q)
  | Some s => match read_Z s with Some n => Ret (num n) | None => Fail "attempt to perform arithmetic on a nil value" end
  end.

(** The sliding window estimate. *)
Definition estimate (current previous now_ms start window_ms : Q) : Q :=
  let time_passed_in_current := now_ms ⊖ start in
  let weight := (window_ms ⊖ time_passed_in_current) ⊘ window_ms in
  current ⊕ (previous ⊗ weight).

(** [math.max(0, math.floor(rate_limit - estimated_count))] *)
Definition remaining_tokens (limit est : Q) : Q := fmax 0 (Qfloor (limit ⊖ est)).

(** [math.max(0, current_window_start + window_size_ms - now_ms)] *)
Definition reset_ms (start window_ms now_ms : Q) : Q := fmax 0 ((start ⊕ window_ms) ⊖ now_ms).

(** Time to live of counters and fairness keys. *)
Definition counter_ttl (window_ms : Q) : Q := (2 ⊗ window_ms) ⊕ 10000.

(** ** acquire.lua *)

Record acquire_reply := AcquireReply {
  aq_allowed : Z;
  aq_remaining : Z;
  aq_reset_in_ms : Z;
  aq_previous : Z;
  aq_current : Z;
}.

Definition acquire_lua (base_key : string) (window_size : Q) (limit : Z) : prog acquire_reply :=
  let window_ms := window_size ⊗ 1000 in
  let rate_limit := num limit in
  t ← call TIME;
  let now_ms := lua_now_ms t in
  let start := window_start now_ms window_ms in
  let current_key := window_key base_key start in
  let previous_key := window_key base_key (start ⊖ window_ms) in
  cur ← call (GET current_key);
  current_count ← lua_count cur;
  prev ← call (GET previous_key);
  previous_count ← lua_count prev;
  let estimated_count := estimate current_count previous_count now_ms start window_ms in
  let remaining := remaining_tokens rate_limit estimated_count in
  let reset_in_ms := reset_ms start window_ms now_ms in
  if Qltb estimated_count rate_limit then
    _ ← call (INCR current_key);
    _ ← (if Qeq_bool current_count 0
         then _ ← call (PEXPIRE current_key (counter_ttl window_ms)); Ret tt
         else Ret tt);
    Ret (AcquireReply 1 (reply_int (remaining ⊖ 1)) (reply_int reset_in_ms)
           (reply_int previous_count) (reply_int (current_count ⊕ 1)))
  else
    Ret (AcquireReply 0 (reply_int remaining) (reply_int reset_in_ms)
           (reply_int previous_count) (reply_int current_count)).

(** ** health.lua *)

Record health_reply := HealthReply {
  hl_previous : Z;
  hl_current : Z;
  hl_estimated : Z;
  hl_active : Z;
  hl_reset_in_ms : Z;
  hl_buffer : Z;
}.

Definition health_lua (base_key buffer_key concurrency_key : string) (window_size : Q)
    : prog health_reply :=
  let window_ms := window_size ⊗ 1000 in
  t ← call TIME;
  let now_ms := lua_now_ms t in
  let start := window_start now_ms window_ms in
  let current_key := window_key base_key start in
  let previous_key := window_key base_key (start ⊖ window_ms) in
  cur ← call (GET current_key);
  current_count ← lua_count cur;
  prev ← call (GET previous_key);
  previous_count ← lua_count prev;
  let estimated_count := estimate current_count previous_count now_ms start window_ms in
  active_now ← call (ZCARD concurrency_key);
  buffer_count ← call (ZCARD buffer_key);
  Ret (HealthReply (reply_int previous_count) (reply_int current_count)
         (reply_int estimated_count) active_now (reply_int (reset_ms start window_ms now_ms))
         buffer_count).

(** ** renew.lua *)

Definition renew_lua (concurrency_key task_id : string) (lease_duration : Z) : prog Z :=
  score ← call (ZSCORE concurrency_key task_id);
  match score with
  | Some _ =>
      t ← call TIME;
      _ ← call (ZADD concurrency_key (num (fst t) ⊕ num lease_duration) task_id);
      Ret 1
  | None => Ret 0
  end.

(** ** release.lua *)

Definition release_lua (concurrency_key inflight_key drain_channel task_id worker_id : string)
    : prog (Z * Z) :=
  removed ←
    (if negb (String.eqb task_id estr) then
       removed_concurrency ← call (ZREM concurrency_key task_id);
       removed_inflight ← call (DEL inflight_key);
       Ret (removed_concurrency, removed_inflight)
     else Ret (0, 0));
  _ ← call (PUBLISH drain_channel worker_id);
  Ret removed.

(** ** schedule.lua *)

(** [string.gsub(s, '}$', repl, 1)] for a replacement without [%]. *)
Fixpoint gsub_brace_end (s repl : string) : string :=
  match s with
  | EmptyString => estr
  | String c EmptyString => if Ascii.eqb c "}" then repl else s
  | String c s' => String c (gsub_brace_end s' repl)
  end.

Definition quoted (s : string) : string := String dquote (s +:+ String dquote estr).

Definition metadata_fields (now_ms : Q) (override_max_age : option Z) : string :=
  "," +:+ quoted "__meta_arrived_at" +:+ ":" +:+ lua_tostring now_ms
  +:+ match override_max_age with
      | Some m => "," +:+ quoted "__meta_max_age" +:+ ":" +:+ lua_tostring (num m)
      | None => estr
      end.

Definition schedule_lua (buffer_key task_json : string) (priority : Q)
    (override_max_age : option Z) : prog unit :=
  t ← call TIME;
  let now_ms := lua_now_ms t in
  let final_json :=
    gsub_brace_end task_json (metadata_fields now_ms override_max_age +:+ "}") in
  _ ← call (ZADD buffer_key (rnd priority) final_json);
  Ret tt.

(** ** consume.lua *)

Record consume_args := ConsumeArgs {
  ca_window : Q;
  ca_limit : Z;
  ca_max_concurrency : Z;
  ca_max_age : option Z;
  ca_lease_duration : option Z;
  ca_worker_id : string;
}.

Record consume_reply := ConsumeReply {
  cr_status : Z;
  cr_task : option string;
  cr_remaining : Z;
  cr_active : Z;
  cr_reset_in_ms : Z;
  cr_buffer : Z;
  cr_previous : Z;
  cr_current : Z;
}.

(** [task_data['__meta_max_age'] or max_age] *)
Definition effective_max_age (task_data : json) (max_age : Z) : prog Q :=
  match jfield "__meta_max_age" task_data with
  | None | Some (JBool false) => Ret (num max_age)
  | Some v => need_some (jnum v)
  end.

Definition is_marker (task_data : json) : bool :=
  bool_decide (jfield_str "func_path" task_data = Some marker_path).

(** [task_data.payload and task_data.payload._acquire_timeout_ms]: a field of
    a table may be absent, a number has no fields. *)
Definition acquire_timeout (task_data : json) : prog (option Q) :=
  match jfield "payload" task_data with
  | None | Some (JBool false) => Ret None
  | Some (JObj l) =>
      match assoc_last "_acquire_timeout_ms" l with
      | None | Some (JBool false) => Ret None
      | Some v => q ← need_some (jnum v); Ret (Some q)
      end
  | Some (JArr _ | JStr _) => Ret None
  | Some (JNull | JBool true | JInt _ | JDec _ _) => Fail "attempt to index a field"
  end.

(** What consume does with the head of the buffer. *)
Inductive verdict := Expired | MarkerElapsed | Admit.

Definition head_verdict (task_data : json) (max_age : Z) (timestamp now_ms : Q) : prog verdict :=
  effective ← effective_max_age task_data max_age;
  arrived_at ← need_some (jfield_num "__meta_arrived_at" task_data);
  let task_age := timestamp ⊖ Qfloor (arrived_at ⊘ 1000) in
  if Qltb effective task_age then Ret Expired
  else if is_marker task_data then
    timeout ← acquire_timeout task_data;
    match timeout with
    | Some timeout_ms => Ret (if Qle_bool (arrived_at ⊕ timeout_ms) now_ms then MarkerElapsed else Admit)
    | None => Ret Admit
    end
  else Ret Admit.

(** The admission of a task: counter, lease, signal, fairness key. *)
Definition admit_task (base_key concurrency_key current_key : string) (current_count window_ms : Q)
    (timestamp : Q) (lease_duration : Z) (worker_id : string) (task_data : json) : prog unit :=
  _ ← call (INCR current_key);
  _ ← (if Qeq_bool current_count 0
       then _ ← call (PEXPIRE current_key (counter_ttl window_ms)); Ret tt
       else Ret tt);
  task_id ← need_some (jfield_str "id" task_data);
  _ ← call (ZADD concurrency_key (timestamp ⊕ num lease_duration) task_id);
  _ ← (if is_marker task_data then
         let signal_key := base_key +:+ ":acquire:" +:+ task_id in
         _ ← call (RPUSH signal_key task_id);
         timeout ← acquire_timeout task_data;
         timeout_ms ← need_some timeout;
         _ ← call (PEXPIRE signal_key timeout_ms);
         Ret tt
       else Ret tt);
  _ ← call (SET (subkey base_key "last_consumer") worker_id (Px (counter_ttl window_ms)) false);
  Ret tt.

(** The readings of one run of the script. *)
Record readings := Readings {
  rd_timestamp : Q;
  rd_now_ms : Q;
  rd_window_ms : Q;
  rd_start : Q;
  rd_current : Q;
  rd_previous : Q;
  rd_remaining : Q;
  rd_active : Z;
  rd_buffer : Z;
}.

Definition reply_with (r : readings) (status : Z) (task : option string) (remaining : Q)
    (active buffer_count : Z) (current_count : Q) : prog consume_reply :=
  Ret (ConsumeReply status task (reply_int remaining) active
         (reply_int (reset_ms (rd_start r) (rd_window_ms r) (rd_now_ms r))) buffer_count
         (reply_int (rd_previous r)) (reply_int current_count)).

(** The branch taken when the buffer has a head. *)
Definition take_head (base_key buffer_key concurrency_key dlq_key current_key : string)
    (max_age lease_duration : Z) (worker_id : string) (r : readings) (raw_task_json : string)
    : prog consume_reply :=
  task_data ← call (CJSON_DECODE raw_task_json);
  _ ← call (ZREM buffer_key raw_task_json);
  v ← head_verdict task_data max_age (rd_timestamp r) (rd_now_ms r);
  match v with
  | Expired =>
      _ ← (if is_marker task_data then Ret tt
           else _ ← call (RPUSH dlq_key raw_task_json); Ret tt);
      inflight_key ← need_some (jfield_str "inflight_key" task_data);
      _ ← call (DEL inflight_key);
      reply_with r (-1) None (rd_remaining r) (rd_active r) (rd_buffer r - 1) (rd_current r)
  | MarkerElapsed =>
      inflight_key ← need_some (jfield_str "inflight_key" task_data);
      _ ← call (DEL inflight_key);
      reply_with r (-2) None (rd_remaining r) (rd_active r) (rd_buffer r - 1) (rd_current r)
  | Admit =>
      _ ← admit_task base_key concurrency_key current_key (rd_current r) (rd_window_ms r)
            (rd_timestamp r) lease_duration worker_id task_data;
      reply_with r 1 (Some raw_task_json) (rd_remaining r ⊖ 1) (rd_active r + 1)
        (rd_buffer r - 1) (rd_current r ⊕ 1)
  end.

Definition consume_lua (base_key buffer_key concurrency_key dlq_key : string)
    (a : consume_args) : prog consume_reply :=
  let window_ms := ca_window a ⊗ 1000 in
  let rate_limit := num (ca_limit a) in
  let max_concurrency := num (ca_max_concurrency a) in
  let max_age := default 3600 (ca_max_age a) in
  let lease_duration := default 30 (ca_lease_duration a) in
  let worker_id := ca_worker_id a in
  t ← call TIME;
  let timestamp := num (fst t) in
  let now_ms := lua_now_ms t in
  _ ← call (ZREMRANGEBYSCORE concurrency_key (timestamp ⊖ 1));
  active_now ← call (ZCARD concurrency_key);
  last_consumer ← call (GET (subkey base_key "last_consumer"));
  last_caller ← call (GET (subkey base_key "last_caller"));
  _ ← call (SET (subkey base_key "last_caller") worker_id (Px (counter_ttl window_ms)) false);
  if bool_decide (last_consumer = Some worker_id)
     && bool_decide (last_caller <> None) && bool_decide (last_caller <> Some worker_id)
  then Ret (ConsumeReply (-3) None 0 active_now 0 0 0 0)
  else
    let start := window_start now_ms window_ms in
    let current_key := window_key base_key start in
    let previous_key := window_key base_key (start ⊖ window_ms) in
    cur ← call (GET current_key);
    current_count ← lua_count cur;
    prev ← call (GET previous_key);
    previous_count ← lua_count prev;
    let estimated_count := estimate current_count previous_count now_ms start window_ms in
    let remaining := remaining_tokens rate_limit estimated_count in
    buffer_count ← call (ZCARD buffer_key);
    let r := Readings timestamp now_ms window_ms start current_count previous_count remaining
               active_now buffer_count in
    let idle := reply_with r 0 None remaining active_now buffer_count current_count in
    if Qltb estimated_count rate_limit && Qltb active_now max_concurrency then
      tasks ← call (ZRANGE0 buffer_key);
      match tasks with
      | [] => idle
      | raw_task_json :: _ =>
          take_head base_key buffer_key concurrency_key dlq_key current_key max_age
            lease_duration worker_id r raw_task_json
      end
    else idle.
End Scripts.
