(* ===== verification/Window.v ===== *)
(** * The sliding window: the numbers of the scripts

    The scripts compute in doubles.  For a window of an integral number of
    milliseconds and a clock before the year 5138 every window number is
    exact: the window start, the two key names, the reset time and the key
    lifetimes are those of integer arithmetic.  The estimate itself is
    rounded; it lies between the current count and the sum of both counts, it
    decays through the window, and it differs from the exact blend by at most
    [2^-51] of the counts. *)

From S2P Require Import Prelude Float Text Json Redis Scripts.

Open Scope Z_scope.
Open Scope rl_scope.

(** ** Values that are equal as rationals *)

Lemma Qltb_comp x x' y y' : (x == x')%Q -> (y == y')%Q -> Qltb x y = Qltb x' y'.
Proof.
  intros Ex Ey. unfold Qltb. f_equal. apply eq_true_iff_eq.
  by rewrite !Qle_bool_iff, Ex, Ey.
Qed.

Lemma Qltb_Z (a b : Z) : Qltb a b = (a <? b).
Proof.
  apply eq_true_iff_eq. by rewrite Qltb_lt, Z.ltb_lt, Zlt_Qlt.
Qed.

Lemma reply_int_comp q (n : Z) : (q == n)%Q -> reply_int q = n.
Proof.
  intros E. unfold reply_int. destruct (Qle_bool 0 q) eqn:Hb.
  - by rewrite (Qfloor_comp _ _ E), Qfloor_Z.
  - rewrite (Qfloor_comp (- q) (- n)%Z), Qfloor_Z by (rewrite E, inject_Z_opp; reflexivity). lia.
Qed.

Lemma reply_int_Z (n : Z) : reply_int n = n.
Proof. by apply reply_int_comp. Qed.

Lemma fmax_Z (a b : Z) : fmax a b = Z.max a b.
Proof.
  unfold fmax. rewrite Qltb_Z. destruct (Z.ltb_spec a b).
  - by rewrite Z.max_r by lia.
  - by rewrite Z.max_l by lia.
Qed.

Lemma fmax_comp x x' y y' : (x == x')%Q -> (y == y')%Q -> (fmax x y == fmax x' y')%Q.
Proof. intros Ex Ey. unfold fmax. rewrite (Qltb_comp x x' y y') by done. by destruct (Qltb x' y'). Qed.

(** ** Clock and configuration in range *)

(** Millisecond clock values print and compute exactly below this bound. *)
Definition clock_max : Z := 10 ^ 14.

Definition clock_ok (d : db) : Prop := 0 <= db_us d /\ db_ms d < clock_max.

(** A window of [W] milliseconds. *)
Record window_ok {F : Rounding} (window : Q) (W : Z) : Prop := {
  wk_pos : 0 < W;
  wk_max : W < 10 ^ 13;
  wk_ms : (window ⊗ 1000 == W)%Q;
}.

Lemma two53_val : two53 = 9007199254740992.
Proof. reflexivity. Qed.

Ltac b53 := rewrite ?two53_val in *; lia.

Section Numbers.
Context {F : Rounding} {FL : RoundingLaws F}.

#[export] Instance fadd_proper : Proper (Qeq ==> Qeq ==> Qeq) (fadd (H := F)).
Proof. intros a b E c d E'. unfold fadd. by rewrite E, E'. Qed.
#[export] Instance fsub_proper : Proper (Qeq ==> Qeq ==> Qeq) (fsub (H := F)).
Proof. intros a b E c d E'. unfold fsub. by rewrite E, E'. Qed.
#[export] Instance fmul_proper : Proper (Qeq ==> Qeq ==> Qeq) (fmul (H := F)).
Proof. intros a b E c d E'. unfold fmul. by rewrite E, E'. Qed.
#[export] Instance fdiv_proper : Proper (Qeq ==> Qeq ==> Qeq) (fdiv (H := F)).
Proof. intros a b E c d E'. unfold fdiv. by rewrite E, E'. Qed.

Lemma num_int (n : Z) : Z.abs n <= two53 -> (num n == n)%Q.
Proof. apply rnd_int. Qed.

(** The clock reading of the scripts. *)
Lemma lua_now_ms_eq (d : db) :
  clock_ok d -> (lua_now_ms (db_us d / 1000000, db_us d mod 1000000)%Z == db_ms d)%Q.
Proof.
  intros [H0 H1]. unfold lua_now_ms. cbn [fst snd].
  assert (Hus : db_us d < 1000 * clock_max).
  { unfold db_ms in H1. pose proof (Z.div_mod (db_us d) 1000).
    pose proof (Z.mod_pos_bound (db_us d) 1000). lia. }
  unfold clock_max in *.
  assert (Hs : 0 <= db_us d / 1000000 < 10 ^ 11).
  { split; [apply Z.div_pos; lia|]. apply Z.div_lt_upper_bound; lia. }
  pose proof (Z.mod_pos_bound (db_us d) 1000000 ltac:(lia)).
  rewrite !num_int by b53.
  change (1000%Q) with (inject_Z 1000).
  rewrite floor_fdiv by b53.
  rewrite fmul_int by b53.
  assert (Hq : 0 <= db_us d mod 1000000 / 1000 < 1000).
  { split; [apply Z.div_pos; lia|]. apply Z.div_lt_upper_bound; lia. }
  rewrite fadd_int by b53. apply Qeq_bool_iff. unfold Qeq_bool. cbn.
  apply Z.eqb_eq. unfold db_ms.
  assert (db_us d / 1000 = db_us d / 1000000 * 1000 + db_us d mod 1000000 / 1000); [|lia].
  rewrite (Z.div_mod (db_us d) 1000000) at 1 by lia.
  replace (1000000 * (db_us d / 1000000) + db_us d mod 1000000)
    with (db_us d mod 1000000 + (db_us d / 1000000 * 1000) * 1000) by lia.
  rewrite Z.div_add by lia. lia.
Qed.

(** Start of the window of [now]. *)
Definition wstart (now W : Z) : Z := now / W * W.

Lemma wstart_bounds now W : 0 <= now -> 0 < W -> 0 <= wstart now W <= now /\ now < wstart now W + W.
Proof.
  intros Hn HW. unfold wstart. pose proof (Z.div_mod now W). pose proof (Z.mod_pos_bound now W).
  pose proof (Z.div_pos now W). split; nia.
Qed.

Lemma window_start_eq (now W : Z) x y :
  (x == now)%Q -> (y == W)%Q -> 0 <= now < clock_max -> 0 < W < 10 ^ 13 ->
  (window_start x y == wstart now W)%Q.
Proof.
  intros Ex Ey Hn HW. unfold window_start.
  rewrite (Qfloor_comp (x ⊘ y) (now ⊘ W)) by (by rewrite Ex, Ey).
  unfold clock_max in *. rewrite Ey.
  rewrite floor_fdiv by b53. unfold wstart.
  pose proof (wstart_bounds now W ltac:(lia) ltac:(lia)) as Hb. unfold wstart in Hb.
  apply fmul_int. b53.
Qed.

Lemma window_key_eq base x (n : Z) :
  (x == n)%Q -> Z.abs n < 10 ^ 14 -> window_key base x = subkey base (print_Z n).
Proof. intros E Hn. unfold window_key. by rewrite (lua_tostring_int x n). Qed.

(** Lifetime of counters and fairness keys. *)
Definition ttl (W : Z) : Z := 2 * W + 10000.

Lemma counter_ttl_eq y (W : Z) : (y == W)%Q -> 0 < W < 10 ^ 13 -> (counter_ttl y == ttl W)%Q.
Proof.
  intros E HW. unfold counter_ttl, ttl. rewrite E.
  change (2%Q) with (inject_Z 2). change (10000%Q) with (inject_Z 10000).
  rewrite fmul_int by b53. apply fadd_int. b53.
Qed.

(** Time left in the window. *)
Definition left_ms (now W : Z) : Z := W - now mod W.

Lemma left_ms_bounds now W : 0 < W -> 1 <= left_ms now W <= W.
Proof. intros HW. unfold left_ms. pose proof (Z.mod_pos_bound now W). lia. Qed.

Lemma wstart_left now W : 0 < W -> wstart now W + W - now = left_ms now W.
Proof. intros HW. unfold wstart, left_ms. pose proof (Z.div_mod now W). lia. Qed.

Lemma reset_ms_eq x y z (now W : Z) :
  (x == wstart now W)%Q -> (y == W)%Q -> (z == now)%Q ->
  0 <= now < clock_max -> 0 < W < 10 ^ 13 -> (reset_ms x y z == left_ms now W)%Q.
Proof.
  intros Ex Ey Ez Hn HW. unfold reset_ms, clock_max in *.
  pose proof (wstart_bounds now W ltac:(lia) ltac:(lia)).
  pose proof (wstart_left now W ltac:(lia)). pose proof (left_ms_bounds now W ltac:(lia)).
  assert ((x ⊕ y ⊖ z == left_ms now W)%Q) as E.
  { rewrite Ex, Ey, Ez, fadd_int by b53. rewrite fsub_int by b53.
    by replace (wstart now W + W - now) with (left_ms now W) by lia. }
  rewrite (fmax_comp _ 0%Z _ (left_ms now W)) by done.
  rewrite fmax_Z, Z.max_r by lia. reflexivity.
Qed.

(** ** The estimate *)

(** The blend of the counts with [e] of [W] milliseconds left. *)
Definition est (c p e W : Z) : Q := c ⊕ (p ⊗ (e ⊘ W)).

Lemma estimate_eq c p x z y (now W : Z) :
  (x == now)%Q -> (z == wstart now W)%Q -> (y == W)%Q ->
  0 <= now < clock_max -> 0 < W < 10 ^ 13 ->
  (estimate c p x z y == c ⊕ (p ⊗ (left_ms now W ⊘ W)))%Q.
Proof.
  intros Ex Ez Ey Hn HW. unfold estimate, clock_max in *.
  pose proof (wstart_bounds now W ltac:(lia) ltac:(lia)).
  pose proof (wstart_left now W ltac:(lia)). pose proof (left_ms_bounds now W ltac:(lia)).
  rewrite Ex, Ez, Ey. rewrite (fsub_int now) by b53. rewrite fsub_int by b53.
  replace (W - (now - wstart now W)) with (left_ms now W) by lia. reflexivity.
Qed.

Lemma Qdiv_le1 (e W : Z) : 0 <= e <= W -> 0 < W -> (0 <= e / W <= 1)%Q.
Proof.
  intros He HW. rewrite (Zlt_Qlt 0) in HW. destruct He as [H1 H2].
  rewrite Zle_Qle in H1, H2. split.
  - apply Qle_shift_div_l; [done|]. change (inject_Z 0) with 0%Q in H1. lra.
  - apply Qle_shift_div_r; [done|]. lra.
Qed.

Lemma weight_bounds (e W : Z) : 0 <= e <= W -> 0 < W -> (0 <= e ⊘ W <= 1)%Q.
Proof.
  intros He HW. destruct (Qdiv_le1 e W He HW). unfold fdiv.
  split; [by apply rnd_nonneg|by apply rnd_le_1].
Qed.

Lemma faded_bounds (p : Z) (w : Q) :
  0 <= p <= two53 -> (0 <= w <= 1)%Q -> (0 <= p ⊗ w <= p)%Q.
Proof.
  intros Hp Hw. destruct Hp as [Hp0 Hp1]. pose proof Hp0 as Hq.
  rewrite Zle_Qle in Hq. change (inject_Z 0) with 0%Q in Hq. unfold fmul. split.
  - apply rnd_nonneg. nra.
  - apply rnd_le_int; [lia|nra].
Qed.

(** The estimate lies between the current count and the sum of the counts. *)
Lemma est_bounds (c p e W : Z) :
  0 <= c -> 0 <= p -> c + p <= two53 -> 0 <= e <= W -> 0 < W ->
  (c <= est c p e W <= (c + p)%Z)%Q.
Proof.
  intros Hc Hp Hs He HW. unfold est.
  pose proof (faded_bounds p (e ⊘ W) ltac:(lia) (weight_bounds e W He HW)) as [H1 H2].
  unfold fadd. split.
  - apply rnd_ge_int; [lia|lra].
  - apply rnd_le_int; [lia|]. rewrite inject_Z_plus. lra.
Qed.

(** The estimate is monotone in both counts and in the time left: it decays
    as the window goes on. *)
Lemma est_mono (c c' p p' e e' W : Z) :
  0 <= c <= c' -> 0 <= p <= p' -> 0 <= e <= e' -> e' <= W -> 0 < W ->
  (est c p e W <= est c' p' e' W)%Q.
Proof.
  intros Hc Hp He He' HW. unfold est, fadd, fmul, fdiv. apply rnd_mono.
  pose proof (weight_bounds e W ltac:(lia) HW) as Hw. unfold fdiv in Hw.
  assert (Hww : (rnd (e / W) <= rnd (e' / W))%Q).
  { apply rnd_mono. apply Qmult_le_compat_r; [rewrite <-Zle_Qle; lia|].
    apply Qinv_le_0_compat. rewrite <-(Zle_Qle 0). lia. }
  assert (Hpp : (0 <= p <= p')%Q) by (rewrite <-(Zle_Qle 0), <-Zle_Qle; lia).
  apply Qplus_le_compat; [rewrite <-Zle_Qle; lia|]. apply rnd_mono. nra.
Qed.

(** In exact arithmetic the blend is the formula of the documentation; the
    rounded estimate is within [2^-51] of the counts of it. *)
Lemma est_error (c p e W : Z) :
  0 <= c -> 0 <= p -> c + p <= two53 -> 0 <= e <= W -> 0 < W ->
  (Qabs (est c p e W - (c + p * (e / W))) <= (c + p)%Z * (1 # 2 ^ 51))%Q.
Proof.
  intros Hc Hp Hs He HW. unfold est.
  pose proof (weight_bounds e W He HW) as Hw.
  pose proof (faded_bounds p (e ⊘ W) ltac:(lia) Hw) as Hf.
  destruct (Qdiv_le1 e W He HW) as [Hx0 Hx1]. set (x := (e / W)%Q) in *.
  assert (Hcq : (0 <= c)%Q) by (rewrite <-(Zle_Qle 0); lia).
  assert (Hpq : (0 <= p)%Q) by (rewrite <-(Zle_Qle 0); lia).
  rewrite inject_Z_plus.
  pose proof (rnd_err x) as E1. fold (e ⊘ W) in E1. change (rnd x) with (e ⊘ W) in E1.
  set (w := e ⊘ W) in *.
  pose proof (rnd_err (p * w)) as E2. change (rnd (p * w)) with (p ⊗ w) in E2.
  set (f := p ⊗ w) in *.
  pose proof (rnd_err (c + f)) as E3. change (rnd (c + f)) with (c ⊕ f) in E3.
  rewrite (Qabs_pos x) in E1 by lra. rewrite (Qabs_pos (p * w)) in E2 by nra.
  rewrite (Qabs_pos (c + f)) in E3 by lra.
  apply Qabs_Qle_condition in E1, E2, E3. apply Qabs_Qle_condition.
  assert (Hu : (1 # 2 ^ 51 == 4 * (1 # 2 ^ 53))%Q) by reflexivity.
  rewrite Hu. set (u := (1 # 2 ^ 53)%Q) in *.
  assert (0 < u)%Q by done. clearbody u.
  assert (Hpx : (0 <= p * x <= p)%Q) by (split; nra).
  assert (Hpw : (0 <= p * w <= p)%Q) by (split; nra).
  assert (P1 : (p * x * u <= p * u)%Q) by (apply Qmult_le_compat_r; lra).
  assert (P2 : (p * w * u <= p * u)%Q) by (apply Qmult_le_compat_r; lra).
  assert (P3 : ((c + f) * u <= (c + p) * u)%Q) by (apply Qmult_le_compat_r; lra).
  assert (P4 : (- (p * x * u) <= p * w - p * x <= p * x * u)%Q).
  { assert (E : (p * w - p * x == p * (w - x))%Q) by ring. rewrite E.
    assert (E' : (p * x * u == p * (x * u))%Q) by ring. rewrite E'.
    assert (- (x * u) <= w - x <= x * u)%Q by lra. split; nra. }
  assert (0 <= c * u)%Q by (apply Qmult_le_0_compat; lra).
  assert (0 <= p * u)%Q by (apply Qmult_le_0_compat; lra).
  split; lra.
Qed.
End Numbers.
