(* ===== verification/State.v ===== *)
(** * State: the state of one limiter, abstractly

    A limiter owns the keys below its identifier.  [wt] is the invariant of
    these keys in a keyspace: each holds its type, counters are numerals, the
    sorted sets are well formed and every buffered member is a task the
    scripts can read.  [abs] forgets the representation: window counters by
    window start, the leases, the buffer, the dead letter queue, the fairness
    marks, the deduplication marks and the signal lists of [acquire]. *)

From S2P Require Import Prelude Float Text Json Redis Zset Keyspace Scripts Window.

Open Scope Z_scope.

(** ** Keys of a limiter *)

Definition buffer_k (base : string) : string := subkey base "buffer".
Definition conc_k (base : string) : string := subkey base "concurrency".
Definition dlq_k (base : string) : string := subkey base "dlq".
Definition consumer_k (base : string) : string := subkey base "last_consumer".
Definition caller_k (base : string) : string := subkey base "last_caller".
Definition count_k (base : string) (n : Z) : string := subkey base (print_Z n).
Definition inflight_k (base id : string) : string := subkey base ("inflight:" +:+ id).
Definition signal_k (base id : string) : string := subkey base ("acquire:" +:+ id).

Lemma count_k_ne base n s : alphabetic s = true -> count_k base n <> subkey base s.
Proof. intros Ha. by apply subkey_ne, print_Z_not_alphabetic. Qed.

Lemma count_k_ne' base n s : alphabetic s = true -> subkey base s <> count_k base n.
Proof. intros Ha E. symmetry in E. by apply count_k_ne in E. Qed.

Lemma count_k_inj base n m : count_k base n = count_k base m -> n = m.
Proof. intros E. apply subkey_inj in E. by apply print_Z_inj in E. Qed.

Lemma inflight_k_inj base i j : inflight_k base i = inflight_k base j -> i = j.
Proof. intros E. apply subkey_inj in E. by apply str_app_inj_l in E. Qed.

Lemma signal_k_inj base i j : signal_k base i = signal_k base j -> i = j.
Proof. intros E. apply subkey_inj in E. by apply str_app_inj_l in E. Qed.

(** Distinctness of two keys of a limiter. *)
Ltac key_ne :=
  solve
    [ apply count_k_ne; reflexivity
    | apply count_k_ne'; reflexivity
    | apply subkey_ne; unfold not; rewrite ?str_app_cons; discriminate
    | let E := fresh in intros E; apply count_k_inj in E; congruence
    | let E := fresh in intros E; apply inflight_k_inj in E; congruence
    | let E := fresh in intros E; apply signal_k_inj in E; congruence ].

(** ** Buffered tasks *)

Record task := Task {
  t_id : string;
  t_path : string;
  t_inflight : string;
  t_arrived : Z;            (* milliseconds *)
  t_max_age : option Z;     (* seconds *)
  t_timeout : option Z;     (* milliseconds, of an acquire marker *)
}.

Definition jint (v : json) : option Z := match v with JInt n => Some n | _ => None end.

(** The integer field [k] of an object, if it has one. *)
Definition opt_int (k : string) (l : list (string * json)) : option (option Z) :=
  match assoc_last k l with
  | None => Some None
  | Some v => n ← jint v; Some (Some n)
  end.

Definition jobj (v : json) : option (list (string * json)) :=
  match v with JObj l => Some l | _ => None end.

(** A buffered member, read back. *)
Definition task_of (raw : string) : option task :=
  fields ← loads raw ≫= jobj;
  id ← assoc_last "id" fields ≫= jstr;
  path ← assoc_last "func_path" fields ≫= jstr;
  inflight ← assoc_last "inflight_key" fields ≫= jstr;
  payload ← assoc_last "payload" fields ≫= jobj;
  let timeout := assoc_last "_acquire_timeout_ms" payload ≫= jint in
  arrived ← assoc_last "__meta_arrived_at" fields ≫= jint;
  max_age ← opt_int "__meta_max_age" fields;
  Some (Task id path inflight arrived max_age timeout).

Definition t_marker (t : task) : bool := String.eqb (t_path t) marker_path.

(** Sizes within which the scripts compute exactly. *)
Definition small (n : Z) : Prop := 0 <= n < 10 ^ 15.

Definition opt_small (o : option Z) : Prop := match o with Some n => small n | None => True end.

Record task_ok (base : string) (now : Z) (t : task) : Prop := {
  tk_inflight : t_inflight t = inflight_k base (t_id t);
  tk_arrived : 0 <= t_arrived t <= now;
  tk_max_age : opt_small (t_max_age t);
  tk_timeout : opt_small (t_timeout t);
  tk_marker : t_marker t = true -> is_Some (t_timeout t);
}.

(** ** Well-typed keyspaces *)

(** A key without a lifetime. *)
Definition persistent (k : string) (d : db) : Prop := key_entry k d ≫= e_exp = None.

(** A sorted set kept by the limiter. *)
Record zkey (k : string) (d : db) : Prop := {
  zk_type : is_zset k d;
  zk_wf : zwf (zset_at k d);
  zk_persistent : persistent k d;
}.

(** A counter of the window that starts at [n], of [W] milliseconds, lives
    until the next window is over. *)
Definition ckey (k : string) (n W : Z) (d : db) : Prop :=
  match key_entry k d with
  | None => True
  | Some e =>
      (exists c, e_val e = VStr (print_Z c) /\ 0 <= c < 2 ^ 52) /\
      (exists t, e_exp e = Some t /\ n + 2 * W <= t)
  end.

Record wt (base : string) (W : Z) (d : db) : Prop := {
  wt_buffer : zkey (buffer_k base) d;
  wt_conc : zkey (conc_k base) d;
  wt_dlq : is_list (dlq_k base) d;
  wt_dlq_persistent : persistent (dlq_k base) d;
  wt_consumer : is_str (consumer_k base) d;
  wt_caller : is_str (caller_k base) d;
  wt_count : forall n, ckey (count_k base n) n W d;
  wt_signal : forall i, is_list (signal_k base i) d;
  wt_tasks : forall raw, raw ∈ members (zset_at (buffer_k base) d) ->
    exists t, task_of raw = Some t /\ task_ok base (db_ms d) t;
}.

Lemma ckey_count k n W d : ckey k n W d -> is_count k d.
Proof.
  unfold ckey, is_count, key_val. destruct (key_entry k d) as [e|]; [|done].
  intros [(c & Hv & Hc) _]. cbn. rewrite Hv. eauto.
Qed.

(** ** The abstract state *)

Record lstate := LState {
  s_count : Z -> Z;                       (* by window start *)
  s_leases : zset;
  s_buffer : zset;
  s_dlq : list string;
  s_consumer : option string;
  s_caller : option string;
  s_inflight : string -> option value;    (* by task *)
  s_signal : string -> list string;       (* by task *)
}.

Definition abs (base : string) (d : db) : lstate := LState
  (fun n => count_at (count_k base n) d)
  (zset_at (conc_k base) d)
  (zset_at (buffer_k base) d)
  (list_at (dlq_k base) d)
  (str_at (consumer_k base) d)
  (str_at (caller_k base) d)
  (fun i => key_val (inflight_k base i) d)
  (fun i => list_at (signal_k base i) d).

(** Function update. *)
Definition upd `{EqDecision A} {B} (f : A -> B) (a : A) (b : B) : A -> B :=
  fun x => if decide (x = a) then b else f x.

Lemma upd_eq `{EqDecision A} {B} (f : A -> B) a b : upd f a b a = b.
Proof. unfold upd. by rewrite decide_True. Qed.

Lemma upd_ne `{EqDecision A} {B} (f : A -> B) a b x : x <> a -> upd f a b x = f x.
Proof. intros Hne. unfold upd. by rewrite decide_False. Qed.

(** Field updates. *)
Definition set_count (n c : Z) (s : lstate) : lstate :=
  LState (upd (s_count s) n c) (s_leases s) (s_buffer s) (s_dlq s) (s_consumer s) (s_caller s)
    (s_inflight s) (s_signal s).
Definition set_leases (z : zset) (s : lstate) : lstate :=
  LState (s_count s) z (s_buffer s) (s_dlq s) (s_consumer s) (s_caller s) (s_inflight s) (s_signal s).
Definition set_buffer (z : zset) (s : lstate) : lstate :=
  LState (s_count s) (s_leases s) z (s_dlq s) (s_consumer s) (s_caller s) (s_inflight s) (s_signal s).
Definition set_dlq (l : list string) (s : lstate) : lstate :=
  LState (s_count s) (s_leases s) (s_buffer s) l (s_consumer s) (s_caller s) (s_inflight s) (s_signal s).
Definition set_consumer (w : option string) (s : lstate) : lstate :=
  LState (s_count s) (s_leases s) (s_buffer s) (s_dlq s) w (s_caller s) (s_inflight s) (s_signal s).
Definition set_caller (w : option string) (s : lstate) : lstate :=
  LState (s_count s) (s_leases s) (s_buffer s) (s_dlq s) (s_consumer s) w (s_inflight s) (s_signal s).
Definition set_inflight (i : string) (v : option value) (s : lstate) : lstate :=
  LState (s_count s) (s_leases s) (s_buffer s) (s_dlq s) (s_consumer s) (s_caller s)
    (upd (s_inflight s) i v) (s_signal s).
Definition set_signal (i : string) (l : list string) (s : lstate) : lstate :=
  LState (s_count s) (s_leases s) (s_buffer s) (s_dlq s) (s_consumer s) (s_caller s)
    (s_inflight s) (upd (s_signal s) i l).

(** Abstract states agree field by field. *)
Record lequiv (a b : lstate) : Prop := {
  le_count : forall n, s_count a n = s_count b n;
  le_leases : s_leases a = s_leases b;
  le_buffer : s_buffer a = s_buffer b;
  le_dlq : s_dlq a = s_dlq b;
  le_consumer : s_consumer a = s_consumer b;
  le_caller : s_caller a = s_caller b;
  le_inflight : forall i, s_inflight a i = s_inflight b i;
  le_signal : forall i, s_signal a i = s_signal b i;
}.

#[export] Instance lstate_equiv : Equiv lstate := lequiv.

#[export] Instance lequiv_equivalence : Equivalence (≡@{lstate}).
Proof.
  split.
  - intros a. by constructor.
  - intros a b []. by constructor.
  - intros a b c [] []. constructor; intros; etrans; eauto.
Qed.

#[export] Instance s_count_proper : Proper ((≡) ==> (=) ==> (=)) s_count.
Proof. by intros a b [] n _ <-. Qed.
#[export] Instance s_leases_proper : Proper ((≡) ==> (=)) s_leases.
Proof. by intros a b []. Qed.
#[export] Instance s_buffer_proper : Proper ((≡) ==> (=)) s_buffer.
Proof. by intros a b []. Qed.
#[export] Instance s_dlq_proper : Proper ((≡) ==> (=)) s_dlq.
Proof. by intros a b []. Qed.
#[export] Instance s_consumer_proper : Proper ((≡) ==> (=)) s_consumer.
Proof. by intros a b []. Qed.
#[export] Instance s_caller_proper : Proper ((≡) ==> (=)) s_caller.
Proof. by intros a b []. Qed.

#[export] Instance s_inflight_proper : Proper ((≡) ==> (=) ==> (=)) s_inflight.
Proof. by intros a b [] n _ <-. Qed.
#[export] Instance s_signal_proper : Proper ((≡) ==> (=) ==> (=)) s_signal.
Proof. by intros a b [] n _ <-. Qed.

Ltac lequiv_solve :=
  intros; repeat match goal with H : _ ≡ _ |- _ => destruct H end;
  constructor; cbn; intros; unfold upd; repeat case_decide; subst; congruence || eauto.

#[export] Instance set_count_proper n c : Proper ((≡) ==> (≡)) (set_count n c).
Proof. intros a b H. lequiv_solve. Qed.
#[export] Instance set_leases_proper z : Proper ((≡) ==> (≡)) (set_leases z).
Proof. intros a b H. lequiv_solve. Qed.
#[export] Instance set_buffer_proper z : Proper ((≡) ==> (≡)) (set_buffer z).
Proof. intros a b H. lequiv_solve. Qed.
#[export] Instance set_dlq_proper l : Proper ((≡) ==> (≡)) (set_dlq l).
Proof. intros a b H. lequiv_solve. Qed.
#[export] Instance set_consumer_proper w : Proper ((≡) ==> (≡)) (set_consumer w).
Proof. intros a b H. lequiv_solve. Qed.
#[export] Instance set_caller_proper w : Proper ((≡) ==> (≡)) (set_caller w).
Proof. intros a b H. lequiv_solve. Qed.
#[export] Instance set_inflight_proper i v : Proper ((≡) ==> (≡)) (set_inflight i v).
Proof. intros a b H. lequiv_solve. Qed.
#[export] Instance set_signal_proper i l : Proper ((≡) ==> (≡)) (set_signal i l).
Proof. intros a b H. lequiv_solve. Qed.
