(* ===== verification/Store.v ===== *)
(** * Store: the effect of one write on the state of a limiter

    [wrote k e d d'] says that [d'] is [d] with the entry of the key [k]
    replaced by [e].  For each kind of key a limiter owns, a write keeps the
    keyspace well typed and has the expected effect on the abstract state. *)

From S2P Require Import Prelude Float Text Json Redis Zset Keyspace Scripts Window State.

Open Scope Z_scope.

Record wrote (k : string) (e : option entry) (d d' : db) : Prop := {
  wr_eq : key_entry k d' = e;
  wr_ne : forall k', k' <> k -> key_entry k' d' = key_entry k' d;
  wr_us : db_us d' = db_us d;
  wr_pub : db_pub d' = db_pub d;
}.

Definition zentry (z : zset) (ex : option Z) : option entry :=
  match z with [] => None | _ => Some (Entry (VZset z) ex) end.
Definition lentry (l : list string) (ex : option Z) : option entry :=
  match l with [] => None | _ => Some (Entry (VList l) ex) end.

Lemma wrote_set_entry k e d : live (db_ms d) e = true -> wrote k (Some e) d (set_entry k e d).
Proof. intros Hl. split; [by apply key_entry_set_eq| |done..]. intros. by apply key_entry_set_ne. Qed.

Lemma wrote_set_val k v d :
  wrote k (Some (Entry v (key_entry k d ≫= e_exp))) d (set_val k v d).
Proof. apply wrote_set_entry, live_kept. Qed.

Lemma wrote_del k d : wrote k None d (del_key k d).
Proof. split; [apply key_entry_del_eq| |done..]. intros. by apply key_entry_del_ne. Qed.

Lemma wrote_set_zset k z d : wrote k (zentry z (key_entry k d ≫= e_exp)) d (set_zset k z d).
Proof. destruct z; [apply wrote_del|apply wrote_set_val]. Qed.

Lemma wrote_set_list k l d : wrote k (lentry l (key_entry k d ≫= e_exp)) d (set_list k l d).
Proof. destruct l; [apply wrote_del|apply wrote_set_val]. Qed.

Lemma wrote_again k e e' d d1 d2 : wrote k e d d1 -> wrote k e' d1 d2 -> wrote k e' d d2.
Proof.
  intros [? N1 U1 P1] [E2 N2 U2 P2]. split; [done| |congruence..].
  intros k' Hk. by rewrite N2, N1.
Qed.

(** Any command writes at most its own key. *)
Lemma exec_wrote cj {B} (c : rcmd B) k d :
  cmd_key c = Some k -> wrote k (key_entry k (snd (db_exec cj c d))) d (snd (db_exec cj c d)).
Proof.
  intros Hk. split; [done| |apply exec_clock|].
  - intros k' Hne. apply exec_frame. congruence.
  - assert (P1 : forall z k d, db_pub (set_zset k z d) = db_pub d) by (by intros []).
    assert (P2 : forall l k d, db_pub (set_list k l d) = db_pub d) by (by intros []).
    destruct c; cbn [cmd_key] in Hk; try done; cbn [db_exec]; unfold typed, incr_reply, ok, err;
      repeat case_match; cbn [snd]; auto.
Qed.

(** ** Views across a write *)

Section Views.
Context {k : string} {e : option entry} {d d' : db} (Hw : wrote k e d d').

Lemma wrote_val : key_val k d' = e_val <$> e.
Proof. unfold key_val. by rewrite (wr_eq _ _ _ _ Hw). Qed.

Lemma wrote_val_ne k' : k' <> k -> key_val k' d' = key_val k' d.
Proof. intros Hne. unfold key_val. by rewrite (wr_ne _ _ _ _ Hw). Qed.

Lemma wrote_ms : db_ms d' = db_ms d.
Proof. unfold db_ms. by rewrite (wr_us _ _ _ _ Hw). Qed.

Lemma zkey_ne k' : k' <> k -> zkey k' d -> zkey k' d'.
Proof.
  intros Hne [H1 H2 H3]. unfold persistent in *. split.
  - eapply is_zset_same; [|done]. by apply wrote_val_ne.
  - by rewrite (zset_at_same k' d d') by by apply wrote_val_ne.
  - unfold persistent. by rewrite (wr_ne _ _ _ _ Hw).
Qed.

Lemma ckey_ne k' n W : k' <> k -> ckey k' n W d -> ckey k' n W d'.
Proof. intros Hne. unfold ckey. by rewrite (wr_ne _ _ _ _ Hw). Qed.

Lemma persistent_ne k' : k' <> k -> persistent k' d -> persistent k' d'.
Proof. intros Hne. unfold persistent. by rewrite (wr_ne _ _ _ _ Hw). Qed.
End Views.

Lemma zset_at_zentry k z ex d d' : wrote k (zentry z ex) d d' -> zset_at k d' = z.
Proof. intros H. unfold zset_at. rewrite (wrote_val H). by destruct z. Qed.

Lemma list_at_lentry k l ex d d' : wrote k (lentry l ex) d d' -> list_at k d' = l.
Proof. intros H. unfold list_at. rewrite (wrote_val H). by destruct l. Qed.

Lemma zkey_zentry k z d d' : zwf z -> wrote k (zentry z None) d d' -> zkey k d'.
Proof.
  intros Hz H. split.
  - unfold is_zset. rewrite (wrote_val H). by destruct z.
  - by rewrite (zset_at_zentry _ _ _ _ _ H).
  - unfold persistent. rewrite (wr_eq _ _ _ _ H). by destruct z.
Qed.

(** ** Writes to the keys of a limiter *)

Section Limiter.
Context (base : string) (W : Z).

(** Every view of a key that is not written is the same. *)
Ltac same_views Hw :=
  intros;
  match goal with
  | |- ?f ?k _ = ?f ?k _ =>
      first [apply zset_at_same | apply list_at_same | apply str_at_same | apply count_at_same | idtac];
      apply (wrote_val_ne Hw); key_ne
  end.

(** Well-typedness across a write to another key. *)
Ltac keep Hw H :=
  destruct H;
  repeat match goal with
  | |- zkey _ _ => eapply (zkey_ne Hw); [key_ne|done]
  | |- ckey _ _ _ _ => eapply (ckey_ne Hw); [key_ne|done]
  | |- persistent _ _ => eapply (persistent_ne Hw); [key_ne|done]
  | |- is_list _ _ => eapply is_list_same; [apply (wrote_val_ne Hw); key_ne|done]
  | |- is_str _ _ => eapply is_str_same; [apply (wrote_val_ne Hw); key_ne|done]
  end; eauto.

Lemma tasks_same d d' :
  db_ms d' = db_ms d -> zset_at (buffer_k base) d' = zset_at (buffer_k base) d ->
  (forall raw, raw ∈ members (zset_at (buffer_k base) d) ->
     exists t, task_of raw = Some t /\ task_ok base (db_ms d) t) ->
  forall raw, raw ∈ members (zset_at (buffer_k base) d') ->
    exists t, task_of raw = Some t /\ task_ok base (db_ms d') t.
Proof. intros -> ->. auto. Qed.

Ltac keep_tasks Hw H :=
  eapply tasks_same; [apply (wrote_ms Hw)|apply zset_at_same, (wrote_val_ne Hw); key_ne
                     |apply (wt_tasks _ _ _ H)|eassumption].

Lemma abs_conc z ex d d' :
  wrote (conc_k base) (zentry z ex) d d' -> abs base d' ≡ set_leases z (abs base d).
Proof.
  intros Hw. constructor; cbn; try same_views Hw. by eapply zset_at_zentry.
Qed.

Lemma abs_buffer z ex d d' :
  wrote (buffer_k base) (zentry z ex) d d' -> abs base d' ≡ set_buffer z (abs base d).
Proof.
  intros Hw. constructor; cbn; try same_views Hw. by eapply zset_at_zentry.
Qed.

Lemma abs_dlq l ex d d' :
  wrote (dlq_k base) (lentry l ex) d d' -> abs base d' ≡ set_dlq l (abs base d).
Proof.
  intros Hw. constructor; cbn; try same_views Hw. by eapply list_at_lentry.
Qed.

Lemma abs_consumer w ex d d' :
  wrote (consumer_k base) (Some (Entry (VStr w) ex)) d d' ->
  abs base d' ≡ set_consumer (Some w) (abs base d).
Proof.
  intros Hw. constructor; cbn; try same_views Hw. unfold str_at. by rewrite (wrote_val Hw).
Qed.

Lemma abs_caller w ex d d' :
  wrote (caller_k base) (Some (Entry (VStr w) ex)) d d' ->
  abs base d' ≡ set_caller (Some w) (abs base d).
Proof.
  intros Hw. constructor; cbn; try same_views Hw. unfold str_at. by rewrite (wrote_val Hw).
Qed.

Lemma abs_count n c ex d d' :
  wrote (count_k base n) (Some (Entry (VStr (print_Z c)) ex)) d d' ->
  abs base d' ≡ set_count n c (abs base d).
Proof.
  intros Hw. constructor; cbn; try same_views Hw. intros m. unfold upd. case_decide; subst.
  - unfold count_at, str_at. rewrite (wrote_val Hw). cbn. by rewrite read_print_Z.
  - same_views Hw.
Qed.

Lemma abs_inflight i e d d' :
  wrote (inflight_k base i) e d d' ->
  abs base d' ≡ set_inflight i (e_val <$> e) (abs base d).
Proof.
  intros Hw. constructor; cbn; try same_views Hw. intros j. unfold upd. case_decide; subst.
  - apply (wrote_val Hw).
  - same_views Hw.
Qed.

Lemma abs_signal i l ex d d' :
  wrote (signal_k base i) (lentry l ex) d d' ->
  abs base d' ≡ set_signal i l (abs base d).
Proof.
  intros Hw. constructor; cbn; try same_views Hw. intros j. unfold upd. case_decide; subst.
  - by eapply list_at_lentry.
  - same_views Hw.
Qed.

(** *** Preservation of well-typedness *)

Lemma wt_conc_write z d d' :
  wt base W d -> zwf z -> wrote (conc_k base) (zentry z None) d d' -> wt base W d'.
Proof.
  intros H Hz Hw. split; intros.
  2: by eapply zkey_zentry.
  8: keep_tasks Hw H.
  all: keep Hw H.
Qed.

(** Tasks that stay in the buffer or are added to it. *)
Lemma wt_buffer_write z d d' :
  wt base W d -> zwf z ->
  (forall raw, raw ∈ members z -> raw ∈ members (zset_at (buffer_k base) d) \/
     exists t, task_of raw = Some t /\ task_ok base (db_ms d) t) ->
  wrote (buffer_k base) (zentry z None) d d' -> wt base W d'.
Proof.
  intros H Hz Ht Hw. split; intros.
  1: by eapply zkey_zentry.
  8: { rewrite (zset_at_zentry _ _ _ _ _ Hw) in *. rewrite (wrote_ms Hw).
       destruct (Ht raw) as [Hr|Hr]; [done|by apply (wt_tasks _ _ _ H)|done]. }
  all: keep Hw H.
Qed.

Lemma wt_dlq_write l d d' :
  wt base W d -> wrote (dlq_k base) (lentry l None) d d' -> wt base W d'.
Proof.
  intros H Hw. split; intros.
  3: unfold is_list; rewrite (wrote_val Hw); by destruct l.
  3: unfold persistent; rewrite (wr_eq _ _ _ _ Hw); by destruct l.
  7: keep_tasks Hw H.
  all: keep Hw H.
Qed.

Lemma wt_consumer_write w ex d d' :
  wt base W d -> wrote (consumer_k base) (Some (Entry (VStr w) ex)) d d' -> wt base W d'.
Proof.
  intros H Hw. split; intros.
  5: unfold is_str; by rewrite (wrote_val Hw).
  8: keep_tasks Hw H.
  all: keep Hw H.
Qed.

Lemma wt_caller_write w ex d d' :
  wt base W d -> wrote (caller_k base) (Some (Entry (VStr w) ex)) d d' -> wt base W d'.
Proof.
  intros H Hw. split; intros.
  6: unfold is_str; by rewrite (wrote_val Hw).
  8: keep_tasks Hw H.
  all: keep Hw H.
Qed.

Lemma wt_count_write n c ex d d' :
  wt base W d -> 0 <= c < 2 ^ 52 -> n + 2 * W <= ex ->
  wrote (count_k base n) (Some (Entry (VStr (print_Z c)) (Some ex))) d d' -> wt base W d'.
Proof.
  intros H Hc Hex Hw. split; intros.
  7: { destruct (decide (n0 = n)) as [->|Hne].
       - unfold ckey. rewrite (wr_eq _ _ _ _ Hw). cbn [e_val e_exp]. split; eauto.
       - eapply (ckey_ne Hw); [key_ne|by destruct H]. }
  8: keep_tasks Hw H.
  all: keep Hw H.
Qed.

Lemma wt_inflight_write i e d d' :
  wt base W d -> wrote (inflight_k base i) e d d' -> wt base W d'.
Proof.
  intros H Hw. split; intros.
  9: keep_tasks Hw H.
  all: keep Hw H.
Qed.

Lemma wt_signal_write i l ex d d' :
  wt base W d -> wrote (signal_k base i) (lentry l ex) d d' -> wt base W d'.
Proof.
  intros H Hw. split; intros.
  8: { destruct (decide (i0 = i)) as [->|Hne].
       - unfold is_list. rewrite (wrote_val Hw). by destruct l.
       - eapply is_list_same; [apply (wrote_val_ne Hw); key_ne|by destruct H]. }
  8: keep_tasks Hw H.
  all: keep Hw H.
Qed.
End Limiter.

(** ** Writes to other keys *)

(** The keys a limiter uses. *)
Inductive owns (base : string) : string -> Prop :=
  | own_buffer : owns base (buffer_k base)
  | own_conc : owns base (conc_k base)
  | own_dlq : owns base (dlq_k base)
  | own_consumer : owns base (consumer_k base)
  | own_caller : owns base (caller_k base)
  | own_count n : owns base (count_k base n)
  | own_inflight i : owns base (inflight_k base i)
  | own_signal i : owns base (signal_k base i).
#[export] Hint Constructors owns : rl.

(** Two keyspaces agree on the keys of a limiter. *)
Definition same_keys (base : string) (d d' : db) : Prop :=
  forall k, owns base k -> key_entry k d' = key_entry k d.

Section Apart.
Context (base : string) {d d' : db} (Hs : same_keys base d d').

Lemma apart_val k : owns base k -> key_val k d' = key_val k d.
Proof. intros Hk. unfold key_val. by rewrite Hs. Qed.

Lemma abs_apart : abs base d' ≡ abs base d.
Proof.
  constructor; cbn; intros;
    first [apply count_at_same|apply zset_at_same|apply list_at_same|apply str_at_same|idtac];
    apply apart_val; auto with rl.
Qed.

Lemma wt_apart W : db_us d' = db_us d -> wt base W d -> wt base W d'.
Proof.
  intros Hu [Hb Hc Hl Hlp Hco Hca Hct Hsg Ht].
  assert (Z : forall k, owns base k -> zkey k d -> zkey k d').
  { intros k Hk [H1 H2 H3]. pose proof (apart_val k Hk) as E.
    split; [by eapply is_zset_same|by rewrite (zset_at_same k d)|unfold persistent; by rewrite Hs]. }
  split.
  - apply Z; auto with rl.
  - apply Z; auto with rl.
  - eapply is_list_same; [apply apart_val; auto with rl|done].
  - unfold persistent. rewrite Hs by auto with rl. exact Hlp.
  - eapply is_str_same; [apply apart_val; auto with rl|done].
  - eapply is_str_same; [apply apart_val; auto with rl|done].
  - intros n. unfold ckey. rewrite Hs by auto with rl. apply Hct.
  - intros i. eapply is_list_same; [apply apart_val; auto with rl|done].
  - eapply tasks_same; [unfold db_ms; by rewrite Hu|apply zset_at_same, apart_val; auto with rl|done].
Qed.
End Apart.

(** A command on a key the limiter does not own. *)
Definition foreign (base : string) {B} (c : rcmd B) : Prop :=
  forall k, cmd_key c = Some k -> ~ owns base k.

Lemma foreign_same base cj {B} (c : rcmd B) d :
  foreign base c -> same_keys base d (snd (db_exec cj c d)).
Proof. intros Hf k Hk. apply exec_frame. intros E. by eapply Hf. Qed.
