(* ===== verification/Consume.v ===== *)
(** * Consume: what [consume.lua] promises, and that it keeps it

    [consume_spec] is the contract of the dequeue script on the abstract
    state, in integer arithmetic except for the estimate: expired leases are
    reclaimed, a worker that consumed last yields to another caller, and
    otherwise the head of the buffer is admitted, dropped or left according to
    the window, the concurrency limit, its age and its deadline.

    [consume_refines] shows that the script computes exactly this reply and
    this new state on any well-typed keyspace, and never raises. *)

From S2P Require Import Prelude Float Text Json Redis Zset Keyspace Scripts Window State Store.

Open Scope Z_scope.
Open Scope rl_scope.

(** ** Configuration *)

Record cfg := Cfg {
  c_window : Q;       (* seconds *)
  c_ms : Z;           (* the window in milliseconds *)
  c_limit : Z;
  c_conc : Z;
  c_age : Z;
  c_lease : Z;
}.

Record cfg_ok {F : Rounding} (c : cfg) : Prop := {
  ck_window : window_ok (c_window c) (c_ms c);
  ck_limit : 1 <= c_limit c <= 2 ^ 50;
  ck_conc : 1 <= c_conc c <= 2 ^ 50;
  ck_age : 0 <= c_age c < 10 ^ 15;
  ck_lease : 0 <= c_lease c < 10 ^ 15;
}.

Definition args_of (c : cfg) (worker : string) : consume_args :=
  ConsumeArgs (c_window c) (c_limit c) (c_conc c) (Some (c_age c)) (Some (c_lease c)) worker.

(** ** The contract *)

Section Spec.
Context {F : Rounding}.

(** The tokens left below [limit]. *)
Definition tokens (limit : Z) (e : Q) : Z := Z.max 0 (Qfloor (limit ⊖ e)).

(** The estimate at [now] on an abstract state. *)
Definition load (W now : Z) (s : lstate) : Q :=
  est (s_count s (wstart now W)) (s_count s (wstart now W - W)) (left_ms now W) W.

Definition yields (worker : string) (s : lstate) : bool :=
  bool_decide (s_consumer s = Some worker)
  && bool_decide (s_caller s <> None) && bool_decide (s_caller s <> Some worker).

(** The fate of a task at the head of the buffer. *)
Definition task_verdict (max_age sec now : Z) (t : task) : verdict :=
  if default max_age (t_max_age t) <? sec - t_arrived t / 1000 then Expired
  else if t_marker t then
    match t_timeout t with
    | Some ms => if t_arrived t + ms <=? now then MarkerElapsed else Admit
    | None => Admit
    end
  else Admit.

(** Leases that have not expired before the second [sec]. *)
Definition reclaim (sec : Z) (s : lstate) : lstate :=
  set_leases (zabove (sec - 1)%Z (s_leases s)) s.

Definition admit_spec (c : cfg) (worker : string) (sec now : Z) (t : task) (s : lstate) : lstate :=
  let n := wstart now (c_ms c) in
  let s := set_count n (s_count s n + 1) s in
  let s := set_leases (zadd (sec + c_lease c)%Z (t_id t) (s_leases s)) s in
  let s := if t_marker t then set_signal (t_id t) (s_signal s (t_id t) ++ [t_id t]) s else s in
  set_consumer (Some worker) s.

(** The telemetry of a reply: tokens left, active leases, queued tasks, the
    counts of the previous and the current window. *)
Record gauge := Gauge { g_tokens : Z; g_active : Z; g_queued : Z; g_prev : Z; g_cur : Z }.

Definition reply_of (c : cfg) (now status : Z) (task : option string) (g : gauge) : consume_reply :=
  ConsumeReply status task (g_tokens g) (g_active g) (left_ms now (c_ms c)) (g_queued g)
    (g_prev g) (g_cur g).

(** The task [t] taken off the buffer, [taken] the state without it. *)
Definition head_spec (c : cfg) (worker : string) (sec now : Z) (g : gauge) (raw : string)
    (t : task) (taken : lstate) : consume_reply * lstate :=
  let dropped status :=
    reply_of c now status None
      (Gauge (g_tokens g) (g_active g) (g_queued g - 1) (g_prev g) (g_cur g)) in
  match task_verdict (c_age c) sec now t with
  | Expired =>
      (dropped (-1),
       set_inflight (t_id t) None
         (if t_marker t then taken else set_dlq (s_dlq taken ++ [raw]) taken))
  | MarkerElapsed => (dropped (-2), set_inflight (t_id t) None taken)
  | Admit =>
      (reply_of c now 1 (Some raw)
         (Gauge (g_tokens g - 1) (g_active g + 1) (g_queued g - 1) (g_prev g) (g_cur g + 1)),
       admit_spec c worker sec now t taken)
  end.

(** The telemetry of a state. *)
Definition gauge_of (c : cfg) (now : Z) (s : lstate) : gauge :=
  Gauge (tokens (c_limit c) (load (c_ms c) now s)) (Z.of_nat (length (s_leases s)))
    (Z.of_nat (length (s_buffer s)))
    (s_count s (wstart now (c_ms c) - c_ms c)) (s_count s (wstart now (c_ms c))).

(** The rate limit and the concurrency limit both leave room. *)
Definition has_room (c : cfg) (now : Z) (s : lstate) : bool :=
  Qltb (load (c_ms c) now s) (c_limit c) && (Z.of_nat (length (s_leases s)) <? c_conc c).

(** A turn of the caller. *)
Definition turn_spec (c : cfg) (worker : string) (sec now : Z) (s : lstate)
    : consume_reply * lstate :=
  let idle := (reply_of c now 0 None (gauge_of c now s), s) in
  if has_room c now s then
    match s_buffer s with
    | [] => idle
    | (_, raw) :: rest =>
        match task_of raw with
        | None => idle
        | Some t => head_spec c worker sec now (gauge_of c now s) raw t (set_buffer rest s)
        end
    end
  else idle.

Definition consume_spec (c : cfg) (worker : string) (sec now : Z) (s : lstate)
    : consume_reply * lstate :=
  let s := reclaim sec s in
  let called := set_caller (Some worker) s in
  if yields worker s then
    (ConsumeReply (-3) None 0 (g_active (gauge_of c now s)) 0 0 0 0, called)
  else turn_spec c worker sec now called.
End Spec.

(** ** Running a script step by step *)

Section Run.
Context (cj : string -> option json).

Lemma drun_call {A B} (c : rcmd B) (k : B -> prog A) d b d' :
  db_exec cj c d = ok b d' -> drun cj (call c ≫= k) d = drun cj (k b) d'.
Proof.
  intros E. unfold drun. cbn [mbind prog_bind pbind call run].
  change (@rexec db (db_server cj) B c d) with (db_exec cj c d). by rewrite E.
Qed.

Lemma drun_ret {A B} (a : B) (k : B -> prog A) d : drun cj (Ret a ≫= k) d = drun cj (k a) d.
Proof. done. Qed.

Lemma drun_bind {A B} (m : prog B) (k : B -> prog A) d b d' :
  drun cj m d = (inr b, d') -> drun cj (m ≫= k) d = drun cj (k b) d'.
Proof.
  unfold drun. intros E.
  change (m ≫= k) with (pbind m k).
  rewrite (@run_pbind db (db_server cj) B A m k d). by rewrite E.
Qed.

(** A command whose answer is not used. *)
Lemma drun_then {A B} (c : rcmd B) (K : unit -> prog A) d b d' :
  db_exec cj c d = ok b d' ->
  drun cj (u ← (_ ← call c; Ret tt); K u) d = drun cj (K tt) d'.
Proof. intros E. apply drun_bind. by rewrite (drun_call _ _ _ _ _ E). Qed.
End Run.

Section Steps.
Context {F : Rounding} {FL : RoundingLaws F}.
Context (cj : string -> option json) (base : string) (W : Z).

Lemma Qeq_bool_int (q : Q) (n : Z) : (q == n)%Q -> Qeq_bool q 0 = (n =? 0).
Proof.
  intros E. apply eq_true_iff_eq. rewrite Qeq_bool_iff, Z.eqb_eq, E.
  change (0%Q) with (inject_Z 0). apply inject_Z_injective.
Qed.

(** Reading a counter gives its number. *)
Lemma drun_count k d :
  is_count k d ->
  exists q, (q == count_at k d)%Q /\
  forall A (K : Q -> prog A),
    drun cj (v ← call (GET k); n ← lua_count v; K n) d = drun cj (K q) d.
Proof.
  intros H. destruct (count_at_read k d H) as [Hb Hr].
  pose proof (exec_get cj k d (is_count_str k d H)) as Eg.
  destruct Hr as [[Es Ec]|(s & Es & Ec)].
  - exists 0%Q. rewrite Ec. split; [done|]. intros A K.
    rewrite (drun_call _ _ _ _ _ _ Eg), Es. apply drun_ret.
  - exists (num (count_at k d)). split; [apply num_int; b53|]. intros A K.
    rewrite (drun_call _ _ _ _ _ _ Eg), Es. cbn [lua_count]. rewrite Ec. apply drun_ret.
Qed.

(** A lifetime after a count: the key keeps at least two windows. *)
Lemma drun_bump (n : Z) (q window_ms : Q) d :
  ckey (count_k base n) n W d ->
  (q == count_at (count_k base n) d)%Q -> count_at (count_k base n) d + 1 < 2 ^ 52 ->
  (window_ms == W)%Q -> 0 < W < 10 ^ 13 -> n <= db_ms d ->
  exists d' ex,
    n + 2 * W <= ex /\
    wrote (count_k base n)
      (Some (Entry (VStr (print_Z (count_at (count_k base n) d + 1))) (Some ex))) d d' /\
    forall A (K : unit -> prog A),
      drun cj (_ ← call (INCR (count_k base n));
               u ← (if Qeq_bool q 0
                    then _ ← call (PEXPIRE (count_k base n) (counter_ttl window_ms)); Ret tt
                    else Ret tt);
               K u) d = drun cj (K tt) d'.
Proof.
  intros Hk Eq Hc Ew HW Hn. set (k := count_k base n) in *. set (c := count_at k d) in *.
  pose proof (exec_incr cj k d (ckey_count _ _ _ _ Hk)) as Ei. fold c in Ei.
  pose proof (wrote_set_val k (VStr (print_Z (c + 1))) d) as Hw.
  set (d1 := set_val k (VStr (print_Z (c + 1))) d) in *.
  rewrite (Qeq_bool_int q c Eq). destruct (Z.eqb_spec c 0) as [Ec|Ec].
  - pose proof (exec_pexpire cj k (counter_ttl window_ms) (ttl W) d1 _ (counter_ttl_eq _ _ Ew HW)
      ltac:(unfold ttl; lia) (wr_eq _ _ _ _ Hw)) as Ep. cbn [e_val] in Ep.
    eexists _, (db_ms d + ttl W). split; [unfold ttl; lia|]. split.
    + eapply wrote_again; [exact Hw|]. rewrite <-(wrote_ms Hw). apply wrote_set_entry.
      unfold live. cbn. apply Z.leb_le. unfold ttl. lia.
    + intros A K. rewrite (drun_call _ _ _ _ _ _ Ei). by apply drun_then with true.
  - unfold ckey in Hk. destruct (key_entry k d) as [e|] eqn:Ee.
    + destruct Hk as [_ (t & Et & Ht)]. exists d1, t. split; [done|]. split.
      * rewrite <-Et. exact Hw.
      * intros A K. by rewrite (drun_call _ _ _ _ _ _ Ei).
    + exfalso. apply Ec. unfold c, count_at, str_at, key_val. by rewrite Ee.
Qed.
End Steps.

(** ** Reading a buffered task *)

Section Task.
Context {F : Rounding} {FL : RoundingLaws F}.
Context (cj : string -> option json) (base : string).

Lemma task_of_inv raw t :
  task_of raw = Some t ->
  exists fields payload,
    loads raw = Some (JObj fields) /\
    assoc_last "id" fields = Some (JStr (t_id t)) /\
    assoc_last "func_path" fields = Some (JStr (t_path t)) /\
    assoc_last "inflight_key" fields = Some (JStr (t_inflight t)) /\
    assoc_last "payload" fields = Some (JObj payload) /\
    t_timeout t = assoc_last "_acquire_timeout_ms" payload ≫= jint /\
    assoc_last "__meta_arrived_at" fields = Some (JInt (t_arrived t)) /\
    assoc_last "__meta_max_age" fields = JInt <$> t_max_age t.
Proof.
  unfold task_of. intros H.
  destruct (loads raw) as [[]|] eqn:?; cbn in H; try discriminate.
  destruct (assoc_last "id" _) as [[]|] eqn:?; cbn in H; try discriminate.
  destruct (assoc_last "func_path" _) as [[]|] eqn:?; cbn in H; try discriminate.
  destruct (assoc_last "inflight_key" _) as [[]|] eqn:?; cbn in H; try discriminate.
  destruct (assoc_last "payload" _) as [[]|] eqn:?; cbn in H; try discriminate.
  destruct (assoc_last "__meta_arrived_at" _) as [[]|] eqn:?; cbn in H; try discriminate.
  unfold opt_int in H.
  destruct (assoc_last "__meta_max_age" _) as [[]|] eqn:?; cbn in H; try discriminate;
    injection H as <-; eauto 10.
Qed.

Context (raw : string) (t : task) (now : Z) (td : json).
Hypothesis Ht : task_of raw = Some t.
Hypothesis Hok : task_ok base now t.
Hypothesis Htd : loads raw = Some td.

Ltac open_task :=
  destruct (task_of_inv raw t Ht) as (fields & payload & Hl & Hid & Hpath & Hin & Hpay & Hto & Harr & Hage);
  rewrite Htd in Hl; injection Hl as ->.

Lemma task_id : jfield_str "id" td = Some (t_id t).
Proof. open_task. unfold jfield_str. cbn. by rewrite Hid. Qed.

Lemma task_inflight : jfield_str "inflight_key" td = Some (inflight_k base (t_id t)).
Proof. open_task. unfold jfield_str. cbn. rewrite Hin. cbn. by rewrite (tk_inflight _ _ _ Hok). Qed.

Lemma task_marker : is_marker td = t_marker t.
Proof.
  open_task. unfold is_marker, t_marker, jfield_str. cbn. rewrite Hpath. cbn.
  apply eq_true_iff_eq. rewrite bool_decide_eq_true, String.eqb_eq. split; congruence.
Qed.

Lemma task_timeout ms :
  t_timeout t = Some ms -> acquire_timeout td = Ret (Some (num ms)).
Proof.
  open_task. intros E. rewrite E in Hto. unfold acquire_timeout. cbn. rewrite Hpay.
  destruct (assoc_last "_acquire_timeout_ms" payload) as [[]|]; cbn in Hto; try discriminate.
  injection Hto as ->. done.
Qed.

Lemma task_age max_age :
  effective_max_age td max_age = Ret (num (default max_age (t_max_age t))).
Proof.
  open_task. unfold effective_max_age. cbn. rewrite Hage. by destruct (t_max_age t).
Qed.

Lemma task_arrived : jfield_num "__meta_arrived_at" td = Some (num (t_arrived t)).
Proof. open_task. unfold jfield_num. cbn. by rewrite Harr. Qed.

(** The verdict of the script is the one of the contract. *)
Lemma head_verdict_eq (max_age sec : Z) (x y : Q) :
  (x == sec)%Q -> (y == now)%Q -> 0 <= sec < 10 ^ 12 -> 0 <= now < clock_max ->
  0 <= max_age < 10 ^ 15 ->
  head_verdict td max_age x y = Ret (task_verdict max_age sec now t).
Proof.
  intros Ex Ey Hs Hn Ha. pose proof (tk_arrived _ _ _ Hok) as Harr.
  pose proof (tk_max_age _ _ _ Hok) as Hage. unfold clock_max in *.
  unfold head_verdict, task_verdict. rewrite task_age, task_arrived, task_marker.
  cbn [mbind prog_bind pbind need_some].
  assert (Hf : Qfloor (num (t_arrived t) ⊘ 1000) = t_arrived t / 1000).
  { rewrite (Qfloor_comp _ (t_arrived t ⊘ 1000%Z)); [apply floor_fdiv; b53|].
    by rewrite num_int by b53. }
  rewrite Hf.
  assert (0 <= t_arrived t / 1000 < 10 ^ 11).
  { split; [apply Z.div_pos; lia|]. apply Z.div_lt_upper_bound; lia. }
  set (age := default max_age (t_max_age t)).
  assert (0 <= age < 10 ^ 15) by (unfold age, opt_small, small in *; destruct (t_max_age t); cbn in *; lia).
  rewrite (Qltb_comp _ age _ (sec - t_arrived t / 1000)%Z), Qltb_Z
    by (first [apply num_int; b53 | rewrite Ex; apply fsub_int; b53]).
  destruct (age <? _); [done|]. destruct (t_marker t) eqn:Em; [|done].
  destruct (tk_marker _ _ _ Hok Em) as [ms Hms]. rewrite (task_timeout ms Hms), Hms.
  cbn [mbind prog_bind pbind].
  pose proof (tk_timeout _ _ _ Hok) as Hsm. rewrite Hms in Hsm. unfold opt_small, small in Hsm.
  assert (Qle_bool (num (t_arrived t) ⊕ num ms) y = (t_arrived t + ms <=? now)) as ->; [|done].
  apply eq_true_iff_eq.
  rewrite Qle_bool_iff, Z.leb_le, Ey, !num_int, fadd_int by b53. by rewrite Zle_Qle.
Qed.
End Task.

(** ** Admission *)

Lemma persistent_conc base W d : wt base W d -> key_entry (conc_k base) d ≫= e_exp = None.
Proof. intros H. apply (wt_conc _ _ _ H). Qed.

Lemma persistent_buffer base W d : wt base W d -> key_entry (buffer_k base) d ≫= e_exp = None.
Proof. intros H. apply (wt_buffer _ _ _ H). Qed.

(** The keyspace [d'] is well typed, its clock and published messages are
    those of [d], and its abstract state is [s']. *)
Record moved (base : string) (W : Z) (d d' : db) (s' : lstate) : Prop := {
  mv_wt : wt base W d';
  mv_us : db_us d' = db_us d;
  mv_pub : db_pub d' = db_pub d;
  mv_abs : abs base d' ≡ s';
}.

Lemma moved_of {base W k e d d' s'} :
  wrote k e d d' -> wt base W d' -> abs base d' ≡ s' -> moved base W d d' s'.
Proof. intros Hw ??. split; [done|apply Hw|apply Hw|done]. Qed.

Lemma moved_trans {base W d d1 d2 s1 s2} :
  moved base W d d1 s1 -> moved base W d1 d2 s2 -> moved base W d d2 s2.
Proof. intros [] []. split; [done|congruence|congruence|done]. Qed.

Lemma moved_equiv {base W d d' s s'} : moved base W d d' s -> s ≡ s' -> moved base W d d' s'.
Proof. intros [] E. split; [done..|]. by rewrite <-E. Qed.

Section Admission.
Context {F : Rounding} {FL : RoundingLaws F}.
Context (cj : string -> option json) (base : string) (W : Z).

(** A step that answers [b], keeps the keyspace well typed and changes the
    abstract state to [s']. *)
Definition steps_to {B} (m : prog B) (d : db) (b : B) (s' : lstate) (d' : db) : Prop :=
  drun cj m d = (inr b, d') /\ moved base W d d' s'.

Lemma step_zadd_lease d (q : Q) (x : Z) id :
  wt base W d -> (q == x)%Q ->
  exists b d', db_exec cj (ZADD (conc_k base) q id) d = ok b d' /\
    moved base W d d' (set_leases (zadd x id (zset_at (conc_k base) d)) (abs base d)).
Proof.
  intros H Eq. destruct (wt_conc _ _ _ H) as [Hz Hwf Hp].
  pose proof (exec_zadd cj (conc_k base) q id d Hz) as E.
  rewrite (Qred_complete _ _ Eq), inject_Z_Qred in E.
  pose proof (wrote_set_zset (conc_k base) (zadd x id (zset_at (conc_k base) d)) d) as Hw.
  unfold persistent in Hp. rewrite Hp in Hw. eexists _, _. split; [exact E|].
  apply (moved_of Hw); [|by apply (abs_conc base _ _ _ _ Hw)].
  eapply (wt_conc_write base W); [exact H|by apply zadd_wf|exact Hw].
Qed.

Lemma step_set_consumer d (q : Q) (ms : Z) worker :
  wt base W d -> (q == ms)%Q -> 0 < ms < 10 ^ 17 ->
  exists d', db_exec cj (SET (consumer_k base) worker (Px q) false) d = ok true d' /\
    moved base W d d' (set_consumer (Some worker) (abs base d)).
Proof.
  intros H Eq Hms. eexists. split; [by apply exec_set_px|].
  assert (Hw : wrote (consumer_k base) (Some (Entry (VStr worker) (Some (db_ms d + ms)))) d
            (set_entry (consumer_k base) (Entry (VStr worker) (Some (db_ms d + ms))) d)).
  { apply wrote_set_entry. unfold live. cbn. apply Z.leb_le. lia. }
  by apply (moved_of Hw); [eapply wt_consumer_write|eapply abs_consumer].
Qed.

Lemma step_set_caller d (q : Q) (ms : Z) worker :
  wt base W d -> (q == ms)%Q -> 0 < ms < 10 ^ 17 ->
  exists d', db_exec cj (SET (caller_k base) worker (Px q) false) d = ok true d' /\
    moved base W d d' (set_caller (Some worker) (abs base d)).
Proof.
  intros H Eq Hms. eexists. split; [by apply exec_set_px|].
  assert (Hw : wrote (caller_k base) (Some (Entry (VStr worker) (Some (db_ms d + ms)))) d
            (set_entry (caller_k base) (Entry (VStr worker) (Some (db_ms d + ms))) d)).
  { apply wrote_set_entry. unfold live. cbn. apply Z.leb_le. lia. }
  by apply (moved_of Hw); [eapply wt_caller_write|eapply abs_caller].
Qed.

(** The wake-up of a waiting [acquire]: its signal list, with a lifetime. *)
Lemma step_signal d id (ms : Z) :
  wt base W d -> 0 < ms < 10 ^ 15 ->
  exists d', drun cj (_ ← call (RPUSH (signal_k base id) id);
                      _ ← call (PEXPIRE (signal_k base id) (num ms)); Ret tt) d = (inr tt, d') /\
    moved base W d d' (set_signal id (list_at (signal_k base id) d ++ [id]) (abs base d)).
Proof.
  intros H Hms. set (k := signal_k base id). set (l := list_at k d ++ [id]).
  destruct (exec_rpush cj k id d (wt_signal _ _ _ H id)) as [b Er]. fold l in Er.
  pose proof (wrote_set_list k l d) as Hw. set (d1 := set_list k l d) in *.
  assert (Hl : lentry l (key_entry k d ≫= e_exp) = Some (Entry (VList l) (key_entry k d ≫= e_exp))).
  { unfold l. by destruct (list_at k d). }
  pose proof (wr_eq _ _ _ _ Hw) as He. rewrite Hl in He.
  pose proof (exec_pexpire cj k (num ms) ms d1 _ ltac:(apply num_int; b53) ltac:(lia) He) as Ep.
  cbn [e_val] in Ep.
  assert (Hw2 : wrote k (lentry l (Some (db_ms d1 + ms))) d
                  (set_entry k (Entry (VList l) (Some (db_ms d1 + ms))) d1)).
  { eapply wrote_again; [exact Hw|].
    replace (lentry l (Some (db_ms d1 + ms))) with (Some (Entry (VList l) (Some (db_ms d1 + ms))))
      by (unfold l; by destruct (list_at k d)).
    apply wrote_set_entry. unfold live. cbn. apply Z.leb_le. lia. }
  eexists. split.
  { rewrite (drun_call _ _ _ _ _ _ Er). rewrite (drun_call _ _ _ _ _ _ Ep). done. }
  by apply (moved_of Hw2); [eapply wt_signal_write|eapply abs_signal].
Qed.
End Admission.

Section Refine.
Context {F : Rounding} {FL : RoundingLaws F}.
Context (cj : string -> option json).
Hypothesis Hcj : forall s v, loads s = Some v -> cj s = Some v.
Context (base : string) (c : cfg) (worker : string).
Hypothesis Hc : cfg_ok c.

Local Abbreviation W := (c_ms c).

Lemma marker_admitted sec now t ms :
  task_ok base now t -> task_verdict (c_age c) sec now t = Admit -> t_marker t = true ->
  t_timeout t = Some ms -> 0 < ms < 10 ^ 15.
Proof.
  intros Hok Hv Hm Hto. pose proof (tk_timeout _ _ _ Hok) as Hs. rewrite Hto in Hs.
  unfold opt_small, small in Hs. pose proof (tk_arrived _ _ _ Hok).
  unfold task_verdict in Hv. rewrite Hm, Hto in Hv. repeat case_match; try done; reflect_bools; lia.
Qed.

Lemma admit_steps d raw t td (cur window_ms ts : Q) (sec : Z) :
  let n := wstart (db_ms d) W in
  wt base W d -> clock_ok d -> task_of raw = Some t -> loads raw = Some td ->
  task_ok base (db_ms d) t -> task_verdict (c_age c) sec (db_ms d) t = Admit ->
  (cur == count_at (count_k base n) d)%Q -> count_at (count_k base n) d < c_limit c ->
  (window_ms == W)%Q -> (ts == sec)%Q -> 0 <= sec < 10 ^ 12 ->
  exists d',
    steps_to cj base W
      (admit_task base (conc_k base) (count_k base n) cur window_ms ts (c_lease c) worker td)
      d tt (admit_spec c worker sec (db_ms d) t (abs base d)) d'.
Proof.
  intros n H Hclk Ht Htd Hok Hv Ecur Hlt Ew Ets Hsec.
  destruct Hc as [[Hp Hm _] Hlim _ _ Hlease].
  destruct Hclk as [Hus Hms].
  pose proof (wstart_bounds (db_ms d) W ltac:(unfold db_ms; apply Z.div_pos; lia) Hp) as [Hn _].
  destruct (drun_bump cj base W n cur window_ms d (wt_count _ _ _ H n) Ecur ltac:(lia) Ew
              ltac:(lia) ltac:(lia)) as (d1 & ex & Hex & Hw1 & R1).
  assert (H1 : wt base W d1).
  { eapply (wt_count_write base W); [exact H| |exact Hex|exact Hw1].
    pose proof (count_at_read _ _ (ckey_count _ _ _ _ (wt_count _ _ _ H n))). lia. }
  pose proof (abs_count base _ _ _ _ _ Hw1) as A1.
  destruct (step_zadd_lease cj base W d1 (ts ⊕ num (c_lease c)) (sec + c_lease c) (t_id t) H1)
    as (b & d2 & R2 & [H2 U2 P2 A2]).
  { rewrite Ets, num_int by b53. apply fadd_int. b53. }
  assert (S3 : exists d3,
    (forall A (K : unit -> prog A),
       drun cj (u ← (if is_marker td then
           let signal_key := base +:+ ":acquire:" +:+ t_id t in
           _ ← call (RPUSH signal_key (t_id t));
           timeout ← acquire_timeout td;
           timeout_ms ← need_some timeout;
           _ ← call (PEXPIRE signal_key timeout_ms);
           Ret tt
         else Ret tt); K u) d2 = drun cj (K tt) d3) /\
    wt base W d3 /\ db_us d3 = db_us d2 /\ db_pub d3 = db_pub d2 /\
    abs base d3 ≡ (if t_marker t then set_signal (t_id t)
                     (s_signal (abs base d2) (t_id t) ++ [t_id t]) (abs base d2) else abs base d2)).
  { rewrite (task_marker raw t td Ht Htd).
    destruct (t_marker t) eqn:Em; [|by exists d2].
    destruct (tk_marker _ _ _ Hok Em) as [ms Hto].
    destruct (step_signal cj base W d2 (t_id t) ms H2 (marker_admitted sec _ t ms Hok Hv Em Hto))
      as (d3 & R3 & [H3 U3 P3 A3]).
    exists d3. split; [|done]. intros A K. rewrite (task_timeout raw t td Ht Htd ms Hto).
    by apply drun_bind. }
  destruct S3 as (d3 & R3 & H3 & U3 & P3 & A3).
  destruct (step_set_consumer cj base W d3 (counter_ttl window_ms) (ttl W) worker H3)
    as (d4 & R4 & [H4 U4 P4 A4]).
  { apply counter_ttl_eq; [done|lia]. }
  { unfold ttl. lia. }
  exists d4. split; [|split; [done|..]].
  - unfold admit_task. rewrite R1, (task_id raw t td Ht Htd). cbn [need_some]. rewrite drun_ret.
    rewrite (drun_call _ _ _ _ _ _ R2), R3. by rewrite (drun_call _ _ _ _ _ _ R4).
  - rewrite U4, U3, U2. apply Hw1.
  - rewrite P4, P3, P2. apply Hw1.
  - change (zset_at (conc_k base) d1) with (s_leases (abs base d1)) in A2.
    rewrite (le_leases _ _ A1), A1 in A2. rewrite A4, A3. unfold admit_spec. f_equiv.
    destruct (t_marker t); [|done]. by rewrite (le_signal _ _ A2), A2.
Qed.

(** Removing the head of the buffer. *)
Lemma step_take d (p : Q) raw rest :
  wt base W d -> zset_at (buffer_k base) d = (p, raw) :: rest ->
  exists b d', db_exec cj (ZREM (buffer_k base) raw) d = ok b d' /\
    moved base W d d' (set_buffer rest (abs base d)).
Proof.
  intros H Ez. destruct (wt_buffer _ _ _ H) as [Hz Hwf Hp].
  pose proof (exec_zrem cj (buffer_k base) raw d Hz) as E.
  pose proof Hwf as [Hn _]. rewrite Ez in Hn.
  assert (Er : zrem raw (zset_at (buffer_k base) d) = rest) by (rewrite Ez; by apply zrem_head).
  rewrite Er in E. pose proof (wrote_set_zset (buffer_k base) rest d) as Hw.
  unfold persistent in Hp. rewrite Hp in Hw. eexists _, _. split; [exact E|].
  apply (moved_of Hw); [|by apply (abs_buffer base _ _ _ _ Hw)].
  assert (Hrest : zwf rest) by (rewrite <-Er; by apply zrem_wf).
  eapply (wt_buffer_write base W); [exact H|exact Hrest| |exact Hw].
  intros r Hr. left. rewrite Ez. by apply list_elem_of_further.
Qed.

Lemma step_del_inflight d id :
  wt base W d ->
  exists b d', db_exec cj (DEL (inflight_k base id)) d = ok b d' /\
    moved base W d d' (set_inflight id None (abs base d)).
Proof.
  intros H. pose proof (wrote_del (inflight_k base id) d) as Hw. eexists _, _.
  split; [reflexivity|].
  apply (moved_of Hw); [by eapply wt_inflight_write|by apply (abs_inflight base _ _ _ _ Hw)].
Qed.

Lemma step_dlq d raw :
  wt base W d ->
  exists b d', db_exec cj (RPUSH (dlq_k base) raw) d = ok b d' /\
    moved base W d d' (set_dlq (list_at (dlq_k base) d ++ [raw]) (abs base d)).
Proof.
  intros H. destruct (exec_rpush cj _ raw d (wt_dlq _ _ _ H)) as [b E].
  pose proof (wrote_set_list (dlq_k base) (list_at (dlq_k base) d ++ [raw]) d) as Hw.
  pose proof (wt_dlq_persistent _ _ _ H) as Hp. unfold persistent in Hp. rewrite Hp in Hw.
  eexists _, _. split; [exact E|].
  apply (moved_of Hw); [by eapply wt_dlq_write|by apply (abs_dlq base _ _ _ _ Hw)].
Qed.

(** Reclaiming expired leases. *)
Lemma step_reclaim d (q : Q) (sec : Z) :
  wt base W d -> (q == (sec - 1)%Z)%Q ->
  exists b d', db_exec cj (ZREMRANGEBYSCORE (conc_k base) q) d = ok b d' /\
    moved base W d d' (reclaim sec (abs base d)).
Proof.
  intros H Eq. destruct (wt_conc _ _ _ H) as [Hz Hwf Hp].
  destruct (exec_zremrange cj (conc_k base) q d Hz) as [b E].
  assert (Ea : zabove q (zset_at (conc_k base) d) = zabove (sec - 1)%Z (zset_at (conc_k base) d)).
  { apply list_filter_iff. intros x. by rewrite (Qltb_comp q (sec - 1)%Z (fst x) (fst x)). }
  rewrite Ea in E.
  pose proof (wrote_set_zset (conc_k base) (zabove (sec - 1)%Z (zset_at (conc_k base) d)) d) as Hw.
  unfold persistent in Hp. rewrite Hp in Hw. eexists _, _. split; [exact E|].
  apply (moved_of Hw); [|by apply (abs_conc base _ _ _ _ Hw)].
  eapply (wt_conc_write base W); [exact H|by apply zabove_wf|exact Hw].
Qed.

(** Readings that agree with the integers of the contract. *)
Record reads (r : readings) (sec now : Z) (g : gauge) : Prop := {
  rs_timestamp : (rd_timestamp r == sec)%Q;
  rs_now : (rd_now_ms r == now)%Q;
  rs_window : (rd_window_ms r == W)%Q;
  rs_start : (rd_start r == wstart now W)%Q;
  rs_current : (rd_current r == g_cur g)%Q;
  rs_previous : (rd_previous r == g_prev g)%Q;
  rs_remaining : (rd_remaining r == g_tokens g)%Q;
  rs_active : rd_active r = g_active g;
  rs_buffer : rd_buffer r = g_queued g;
}.

Lemma reply_with_eq r sec now g status task (rem : Q) (rem' a q : Z) (cur : Q) (cur' : Z) :
  reads r sec now g -> 0 <= now < clock_max -> (rem == rem')%Q -> (cur == cur')%Q ->
  reply_with r status task rem a q cur =
    Ret (reply_of c now status task (Gauge rem' a q (g_prev g) cur')).
Proof.
  intros [] Hn Er Ec. destruct Hc as [[Hp Hm _] _ _ _ _]. unfold reply_with, reply_of. cbn.
  rewrite (reply_int_comp rem rem'), (reply_int_comp (reset_ms _ _ _) (left_ms now W)),
    (reply_int_comp cur cur'), (reply_int_comp (rd_previous r) (g_prev g)); try done.
  by apply reset_ms_eq.
Qed.

(** An expired task goes to the dead letter queue, an expired marker does
    not. *)
Lemma step_expire d raw (marker : bool) :
  wt base W d ->
  exists d',
    (forall A (K : unit -> prog A),
       drun cj (u ← (if marker then Ret tt else _ ← call (RPUSH (dlq_k base) raw); Ret tt); K u) d
       = drun cj (K tt) d') /\
    moved base W d d'
      (if marker then abs base d else set_dlq (list_at (dlq_k base) d ++ [raw]) (abs base d)).
Proof.
  intros H. destruct marker; [by exists d|].
  destruct (step_dlq d raw H) as (b & d' & R & M). exists d'. split; [|done].
  intros A K. by apply drun_then with b.
Qed.

Lemma admit_spec_proper w sec now t : Proper ((≡) ==> (≡)) (admit_spec c w sec now t).
Proof.
  intros a b E. unfold admit_spec. f_equiv.
  assert (E' : set_leases (zadd (sec + c_lease c)%Z (t_id t) (s_leases a))
                 (set_count (wstart now W) (s_count a (wstart now W) + 1) a)
               ≡ set_leases (zadd (sec + c_lease c)%Z (t_id t) (s_leases b))
                 (set_count (wstart now W) (s_count b (wstart now W) + 1) b)).
  { by rewrite (le_leases _ _ E), (le_count _ _ E), E. }
  destruct (t_marker t); [|done]. by rewrite (le_signal _ _ E'), E'.
Qed.

Lemma take_head_steps d r raw t rest (p : Q) sec g :
  wt base W d -> clock_ok d -> zset_at (buffer_k base) d = (p, raw) :: rest ->
  task_of raw = Some t -> reads r sec (db_ms d) g -> 0 <= sec < 10 ^ 12 ->
  g_cur g = s_count (abs base d) (wstart (db_ms d) W) -> 0 <= g_cur g < c_limit c ->
  0 <= g_tokens g <= two53 ->
  exists d',
    steps_to cj base W
      (take_head base (buffer_k base) (conc_k base) (dlq_k base)
         (count_k base (wstart (db_ms d) W)) (c_age c) (c_lease c) worker r raw)
      d (fst (head_spec c worker sec (db_ms d) g raw t (set_buffer rest (abs base d))))
      (snd (head_spec c worker sec (db_ms d) g raw t (set_buffer rest (abs base d)))) d'.
Proof.
  intros H Hclk Ez Ht Hr Hsec Ecur Hlt Htok. set (now := db_ms d) in *.
  assert (Hnow : 0 <= now < clock_max).
  { destruct Hclk. split; [apply Z.div_pos; lia|done]. }
  destruct (wt_tasks _ _ _ H raw) as (t' & Ht' & Hok); [rewrite Ez; by left|].
  rewrite Ht in Ht'. injection Ht' as <-.
  destruct (task_of_inv raw t Ht) as (fields & pl & Hl & _).
  set (td := JObj fields) in *.
  destruct (step_take d p raw rest H Ez) as (b & d1 & R1 & M1).
  pose proof M1 as [H1 U1 P1 A1].
  assert (E1 : db_ms d1 = now) by (unfold now, db_ms; congruence).
  assert (Ed : db_exec cj (CJSON_DECODE raw) d = ok td d) by (cbn [db_exec]; by rewrite (Hcj _ _ Hl)).
  unfold take_head, steps_to.
  rewrite (drun_call _ _ _ _ _ _ Ed), (drun_call _ _ _ _ _ _ R1).
  rewrite (head_verdict_eq base raw t now td Ht Hok Hl _ sec _ _
             (rs_timestamp _ _ _ _ Hr) (rs_now _ _ _ _ Hr) Hsec Hnow ltac:(apply Hc)).
  rewrite drun_ret. unfold head_spec.
  destruct (task_verdict _ _ _ t) eqn:Hv.
  - rewrite (task_marker raw t td Ht Hl), (task_inflight base raw t now td Ht Hok Hl).
    destruct (step_expire d1 raw (t_marker t) H1) as (d2 & R2 & M2).
    destruct (step_del_inflight d2 (t_id t) (mv_wt _ _ _ _ _ M2)) as (b3 & d3 & R3 & M3).
    exists d3. rewrite R2. cbn [need_some]. rewrite drun_ret, (drun_call _ _ _ _ _ _ R3).
    rewrite (reply_with_eq r sec now g _ _ _ (g_tokens g) _ _ _ (g_cur g))
      by (done || apply Hr). rewrite (rs_active _ _ _ _ Hr), (rs_buffer _ _ _ _ Hr).
    split; [done|]. cbn [snd]. eapply moved_equiv; [exact (moved_trans M1 (moved_trans M2 M3))|].
    rewrite (mv_abs _ _ _ _ _ M2). destruct (t_marker t); [by rewrite A1|].
    change (list_at (dlq_k base) d1) with (s_dlq (abs base d1)).
    by rewrite (le_dlq _ _ A1), A1.
  - rewrite (task_inflight base raw t now td Ht Hok Hl).
    destruct (step_del_inflight d1 (t_id t) H1) as (b3 & d3 & R3 & M3).
    exists d3. cbn [need_some]. rewrite drun_ret, (drun_call _ _ _ _ _ _ R3).
    rewrite (reply_with_eq r sec now g _ _ _ (g_tokens g) _ _ _ (g_cur g))
      by (done || apply Hr). rewrite (rs_active _ _ _ _ Hr), (rs_buffer _ _ _ _ Hr).
    split; [done|]. cbn [snd]. eapply moved_equiv; [exact (moved_trans M1 M3)|]. by rewrite A1.
  - assert (Ec : s_count (abs base d1) (wstart now W) = g_cur g).
    { rewrite (le_count _ _ A1). by rewrite Ecur. }
    pose proof (admit_steps d1 raw t td (rd_current r) (rd_window_ms r) (rd_timestamp r) sec) as HA.
    cbn zeta in HA. unfold clock_ok in HA. rewrite U1, E1 in HA. cbn in Ec. rewrite Ec in HA.
    destruct HA as (d2 & R2 & M2); [done..|apply Hr|lia|apply Hr|apply Hr|done|].
    exists d2. rewrite (drun_bind _ _ _ _ _ _ R2).
    destruct Hc as [_ Hlim _ _ _].
    rewrite (reply_with_eq r sec now g _ _ _ (g_tokens g - 1) _ _ _ (g_cur g + 1)); try done.
    + rewrite (rs_active _ _ _ _ Hr), (rs_buffer _ _ _ _ Hr). split; [done|]. cbn [snd].
      eapply moved_equiv; [exact (moved_trans M1 M2)|]. by apply admit_spec_proper.
    + rewrite (rs_remaining _ _ _ _ Hr). apply fsub_int. b53.
    + rewrite (rs_current _ _ _ _ Hr). apply fadd_int. b53.
Qed.

Lemma clock_bounds d : clock_ok d -> 0 <= db_ms d < clock_max /\ 0 <= db_sec d < 10 ^ 12.
Proof.
  intros [H0 H1]. unfold db_ms, db_sec, clock_max in *.
  assert (db_us d < 1000 * 10 ^ 14).
  { pose proof (Z.div_mod (db_us d) 1000). pose proof (Z.mod_pos_bound (db_us d) 1000). lia. }
  repeat split; [apply Z.div_pos; lia|done|apply Z.div_pos; lia|].
  apply Z.div_lt_upper_bound; lia.
Qed.

(** The telemetry of a well-typed state is in range. *)
Lemma gauge_ok d :
  wt base W d -> clock_ok d ->
  let g := gauge_of c (db_ms d) (abs base d) in
  0 <= g_cur g < 2 ^ 52 /\ 0 <= g_prev g < 2 ^ 52 /\
  (g_cur g <= load W (db_ms d) (abs base d))%Q /\ 0 <= g_tokens g <= two53.
Proof.
  intros H Hclk g. destruct (clock_bounds d Hclk) as [Hn _].
  destruct Hc as [[Hp Hm _] Hlim _ _ _].
  pose proof (proj1 (count_at_read _ _ (ckey_count _ _ _ _ (wt_count _ _ _ H (wstart (db_ms d) W))))) as B1.
  pose proof (proj1 (count_at_read _ _ (ckey_count _ _ _ _ (wt_count _ _ _ H (wstart (db_ms d) W - W))))) as B2.
  cbn in g. assert (Hb := est_bounds (g_cur g) (g_prev g) (left_ms (db_ms d) W) W).
  pose proof (left_ms_bounds (db_ms d) W Hp).
  destruct Hb as [L U]; [apply B1|apply B2|cbn; b53|lia|done|].
  split; [exact B1|]. split; [exact B2|]. split; [exact L|]. cbn [g g_tokens gauge_of]. unfold tokens.
  assert (Hf : Qfloor (c_limit c ⊖ load W (db_ms d) (abs base d)) <= c_limit c).
  { rewrite <-(Qfloor_Z (c_limit c)) at 2. apply Qfloor_resp_le. unfold fsub.
    apply rnd_le_int; [b53|].
    assert (0 <= load W (db_ms d) (abs base d))%Q; [|lra].
    eapply Qle_trans; [|exact L]. rewrite <-(Zle_Qle 0). apply B1. }
  b53.
Qed.

(** Contracts that agree: the same reply, and equivalent states. *)
Definition same_outcome (a b : consume_reply * lstate) : Prop := fst a = fst b /\ snd a ≡ snd b.

Lemma head_spec_proper sec now g raw t s s' :
  s ≡ s' -> same_outcome (head_spec c worker sec now g raw t s) (head_spec c worker sec now g raw t s').
Proof.
  intros E. unfold head_spec. destruct (task_verdict _ _ _ _); (split; [done|]); cbn [snd].
  - destruct (t_marker t); [by rewrite E|]. by rewrite (le_dlq _ _ E), E.
  - by rewrite E.
  - by apply admit_spec_proper.
Qed.

Lemma turn_spec_proper sec now s s' :
  s ≡ s' -> same_outcome (turn_spec c worker sec now s) (turn_spec c worker sec now s').
Proof.
  intros E. unfold turn_spec, has_room.
  assert (Eg : gauge_of c now s = gauge_of c now s').
  { unfold gauge_of, load. by rewrite !(le_count _ _ E), (le_leases _ _ E), (le_buffer _ _ E). }
  assert (El : load W now s = load W now s') by (unfold load; by rewrite !(le_count _ _ E)).
  rewrite Eg, El, (le_leases _ _ E), (le_buffer _ _ E).
  destruct (_ && _); [|by split]. destruct (s_buffer s') as [|[p raw] rest]; [by split|].
  destruct (task_of raw); [|by split]. apply head_spec_proper. by rewrite E.
Qed.

(** The script from the window counters on. *)
Definition turn_lua (timestamp now_ms window_ms : Q) (active_now : Z) : prog consume_reply :=
  let start := window_start now_ms window_ms in
  let current_key := window_key base start in
  let previous_key := window_key base (start ⊖ window_ms) in
  cur ← call (GET current_key);
  current_count ← lua_count cur;
  prev ← call (GET previous_key);
  previous_count ← lua_count prev;
  let estimated_count := estimate current_count previous_count now_ms start window_ms in
  let remaining := remaining_tokens (num (c_limit c)) estimated_count in
  buffer_count ← call (ZCARD (buffer_k base));
  let r := Readings timestamp now_ms window_ms start current_count previous_count remaining
             active_now buffer_count in
  let idle := reply_with r 0 None remaining active_now buffer_count current_count in
  if Qltb estimated_count (num (c_limit c)) && Qltb active_now (num (c_conc c)) then
    tasks ← call (ZRANGE0 (buffer_k base));
    match tasks with
    | [] => idle
    | raw_task_json :: _ =>
        take_head base (buffer_k base) (conc_k base) (dlq_k base) current_key (c_age c)
          (c_lease c) worker r raw_task_json
    end
  else idle.

Lemma turn_steps d (ts lnow wms : Q) sec :
  wt base W d -> clock_ok d -> 0 <= sec < 10 ^ 12 ->
  (ts == sec)%Q -> (lnow == db_ms d)%Q -> (wms == W)%Q ->
  exists d',
    steps_to cj base W (turn_lua ts lnow wms (Z.of_nat (length (zset_at (conc_k base) d)))) d
      (fst (turn_spec c worker sec (db_ms d) (abs base d)))
      (snd (turn_spec c worker sec (db_ms d) (abs base d))) d'.
Proof.
  intros H Hclk Hsec Ets Enow Ew. pose proof (clock_bounds d Hclk) as [Hn _].
  pose proof (gauge_ok d H Hclk) as (Hcur & Hprev & Hload & Htok).
  set (now := db_ms d) in *. set (g := gauge_of c now (abs base d)) in *.
  pose proof Hc as [[Hp Hm _] Hlim Hconc Hage Hlease].
  unfold turn_lua, steps_to. cbn zeta.
  pose proof (window_start_eq now W lnow wms Enow Ew Hn ltac:(lia)) as Es.
  pose proof (wstart_bounds now W ltac:(lia) Hp) as [Hs _]. unfold clock_max in Hn.
  rewrite (window_key_eq base _ _ Es) by lia.
  rewrite (window_key_eq base _ (wstart now W - W)) by (first [lia | rewrite Es, Ew; apply fsub_int; b53]).
  fold (count_k base (wstart now W)) (count_k base (wstart now W - W)).
  destruct (drun_count cj _ d (ckey_count _ _ _ _ (wt_count _ _ _ H (wstart now W)))) as (q1 & E1 & R1).
  destruct (drun_count cj _ d (ckey_count _ _ _ _ (wt_count _ _ _ H (wstart now W - W)))) as (q2 & E2 & R2).
  rewrite R1, R2.
  rewrite (drun_call _ _ _ _ _ _ (exec_zcard cj _ _ (zk_type _ _ (wt_buffer _ _ _ H)))).
  set (e := estimate _ _ _ _ _).
  assert (Ee : (e == load W now (abs base d))%Q).
  { unfold e. rewrite (estimate_eq _ _ _ _ _ now W) by (done || lia). by rewrite E1, E2. }
  set (rem := remaining_tokens _ _).
  assert (Er : (rem == g_tokens g)%Q).
  { unfold rem, remaining_tokens. rewrite (Qfloor_comp _ (c_limit c ⊖ load W now (abs base d)))
      by by rewrite Ee, num_int by b53. change 0%Q with (inject_Z 0). rewrite fmax_Z. reflexivity. }
  set (r := Readings _ _ _ _ _ _ _ _ _).
  assert (Hr : reads r sec now g) by (by split).
  rewrite (Qltb_comp e (load W now (abs base d)) _ (c_limit c)) by (done || apply num_int; b53).
  set (act := Z.of_nat (length (zset_at (conc_k base) d))) in *.
  rewrite (Qltb_comp act act _ (c_conc c))
    by (done || apply num_int; b53).
  rewrite Qltb_Z. unfold turn_spec.
  change (Qltb _ _ && _) with (has_room c now (abs base d)).
  rewrite (reply_with_eq r sec now g 0 None rem (g_tokens g) _ _ q1 (g_cur g)) by done.
  change (Gauge _ _ _ _ _) with g.
  destruct (has_room _ _ _) eqn:Eroom; [|exists d; split; [done|by split]].
  rewrite (drun_call _ _ _ _ _ _ (exec_zrange0 cj _ _ (zk_type _ _ (wt_buffer _ _ _ H)))).
  cbn [s_buffer abs]. destruct (zset_at (buffer_k base) d) as [|[p raw] rest] eqn:Ez;
    [exists d; split; [done|by split]|]. cbn [take fmap list_fmap snd].
  destruct (wt_tasks _ _ _ H raw) as (t & Ht & _); [rewrite Ez; by left|]. rewrite Ht.
  eapply take_head_steps; eauto. split; [apply Hcur|].
  apply andb_prop in Eroom as [Hl _]. apply Qltb_lt in Hl. rewrite Zlt_Qlt.
  eapply Qle_lt_trans; [exact Hload|exact Hl].
Qed.

Lemma consume_steps d :
  wt base W d -> clock_ok d ->
  exists d',
    steps_to cj base W
      (consume_lua base (buffer_k base) (conc_k base) (dlq_k base) (args_of c worker)) d
      (fst (consume_spec c worker (db_sec d) (db_ms d) (abs base d)))
      (snd (consume_spec c worker (db_sec d) (db_ms d) (abs base d))) d'.
Proof.
  intros H Hclk. pose proof (clock_bounds d Hclk) as [Hn Hsec].
  pose proof Hc as [[Hp Hm Hwin] Hlim Hconc Hage Hlease].
  unfold consume_lua, steps_to, args_of.
  cbn [ca_window ca_limit ca_max_concurrency ca_max_age ca_lease_duration ca_worker_id default].
  rewrite (drun_call cj TIME _ d _ d eq_refl).
  pose proof (lua_now_ms_eq d Hclk) as Enow. set (lnow := lua_now_ms _) in *.
  cbn [fst]. fold (db_sec d). set (sec := db_sec d) in *. set (now := db_ms d) in *.
  destruct (step_reclaim d (num sec ⊖ 1) sec H) as (b1 & d1 & R1 & M1).
  { change 1%Q with (inject_Z 1). rewrite num_int by b53. apply fsub_int. b53. }
  pose proof M1 as [H1 U1 P1 A1].
  rewrite (drun_call _ _ _ _ _ _ R1).
  rewrite (drun_call _ _ _ _ _ _ (exec_zcard cj _ _ (zk_type _ _ (wt_conc _ _ _ H1)))).
  rewrite (drun_call _ _ _ _ _ _ (exec_get cj _ _ (wt_consumer _ _ _ H1))).
  rewrite (drun_call _ _ _ _ _ _ (exec_get cj _ _ (wt_caller _ _ _ H1))).
  destruct (step_set_caller cj base W d1 (counter_ttl (c_window c ⊗ 1000)) (ttl W) worker H1)
    as (d2 & R2 & M2).
  { apply counter_ttl_eq; [done|lia]. }
  { unfold ttl. lia. }
  rewrite (drun_call _ _ _ _ _ _ R2). pose proof M2 as [H2 U2 P2 A2].
  assert (A : abs base d2 ≡ set_caller (Some worker) (reclaim sec (abs base d))) by by rewrite A2, A1.
  unfold consume_spec.
  assert (Ey : yields worker (reclaim sec (abs base d)) =
    bool_decide (str_at (consumer_k base) d1 = Some worker)
    && bool_decide (str_at (caller_k base) d1 <> None)
    && bool_decide (str_at (caller_k base) d1 <> Some worker)).
  { unfold yields. by rewrite <-(le_consumer _ _ A1), <-(le_caller _ _ A1). }
  rewrite Ey. destruct (_ && _).
  - exists d2. split; [|split; [done|congruence|congruence|exact A]].
    cbn [fst gauge_of g_active]. by rewrite <-(le_leases _ _ A1).
  - assert (E2 : db_ms d2 = now) by (unfold now, db_ms; congruence).
    pose proof (turn_steps d2 (num sec) lnow (c_window c ⊗ 1000) sec H2) as HT.
    unfold clock_ok in HT. rewrite U2, U1, E2 in HT.
    destruct HT as (d3 & R3 & M3); [done|done|apply num_int; b53|done|done|].
    destruct (turn_spec_proper sec now _ _ A) as [Ef Es]. rewrite <-Ef. exists d3. split.
    + rewrite <-R3. change (zset_at (conc_k base) d2) with (s_leases (abs base d2)).
      by rewrite (le_leases _ _ A2).
    + eapply moved_equiv; [|exact Es]. exact (moved_trans M1 (moved_trans M2 M3)).
Qed.
End Refine.
