(* ===== verification/Schedule.v ===== *)
(** * Schedule: what [schedule.lua] promises

    The script appends metadata to the text of a task without decoding it.
    For every task the client serialises, the member it stores is a document
    whose fields are the client's fields followed by the metadata, so that
    [consume.lua] reads back exactly what was scheduled. *)

From S2P Require Import Prelude Float Text Json Redis Zset Keyspace Scripts Window State Store Consume.

Open Scope Z_scope.
Open Scope rl_scope.

(** ** Text surgery *)

Lemma quote_body_app s a b : quote_body s (a +:+ b) = quote_body s a +:+ b.
Proof.
  induction s as [|c s IH]; cbn [quote_body]; [done|]. rewrite IH.
  unfold esc. repeat case_match; by rewrite ?str_app_cons.
Qed.

Lemma quote_app s a b : quote s (a +:+ b) = quote s a +:+ b.
Proof. unfold quote. by rewrite quote_body_app, str_app_cons. Qed.

Lemma print_dec_app m k a b : print_dec m k (a +:+ b) = print_dec m k a +:+ b.
Proof.
  unfold print_dec. rewrite <-print_pad_app.
  case_match; by rewrite ?str_app_cons, ?str_app_assoc, ?str_app_cons.
Qed.

Lemma print_json_app v a b : print_json v (a +:+ b) = print_json v a +:+ b.
Proof.
  revert a. induction v as [|c|z|m k|s|l IH|l IH] using json_induction; intros a.
  - by cbn [print_json]; rewrite str_app_assoc.
  - by destruct c; cbn [print_json]; rewrite str_app_assoc.
  - by cbn [print_json]; rewrite str_app_assoc.
  - apply print_dec_app.
  - apply quote_app.
  - rewrite !print_json_arr, str_app_cons. f_equal. rewrite <-str_app_cons.
    generalize (String "]" a). clear a. intros a.
    induction IH as [|x l Hx _ IHl]; [done|]. destruct l as [|y l]; [apply Hx|].
    change (print_elems (x :: y :: l) ?t) with (print_json x (", " +:+ print_elems (y :: l) t)).
    by rewrite IHl, <-str_app_assoc, Hx.
  - rewrite !print_json_obj, str_app_cons. f_equal. rewrite <-str_app_cons.
    generalize (String "}" a). clear a. intros a.
    induction IH as [|[k x] l Hx _ IHl]; [done|]. cbn [snd] in Hx. destruct l as [|y l].
    + cbn [print_members]. by rewrite Hx, <-str_app_assoc, quote_app.
    + change (print_members ((k, x) :: y :: l) ?t)
        with (quote k (": " +:+ print_json x (", " +:+ print_members (y :: l) t))).
      by rewrite IHl, <-str_app_assoc, Hx, <-str_app_assoc, quote_app.
Qed.

Lemma print_members_app l a b : print_members l (a +:+ b) = print_members l a +:+ b.
Proof.
  induction l as [|[k x] l IH]; [done|]. destruct l as [|y l].
  - cbn [print_members]. by rewrite print_json_app, <-str_app_assoc, quote_app.
  - change (print_members ((k, x) :: y :: l) ?t)
      with (quote k (": " +:+ print_json x (", " +:+ print_members (y :: l) t))).
    by rewrite IH, <-str_app_assoc, print_json_app, <-str_app_assoc, quote_app.
Qed.

(** The closing brace is replaced. *)
Lemma gsub_brace_end_app s repl : gsub_brace_end (s +:+ "}") repl = s +:+ repl.
Proof.
  induction s as [|c s IH]; [done|]. rewrite !str_app_cons. cbn [gsub_brace_end].
  destruct (s +:+ "}") as [|c' s'] eqn:E; [by destruct s|]. by rewrite <-IH.
Qed.

Lemma gsub_dumps l repl :
  gsub_brace_end (dumps (JObj l)) repl = String "{" (print_members l repl).
Proof.
  unfold dumps. rewrite print_json_obj.
  change (String "}" estr) with (estr +:+ "}"). rewrite print_members_app.
  rewrite <-str_app_cons, gsub_brace_end_app, str_app_cons, <-print_members_app.
  by rewrite str_app_nil_l.
Qed.

(** ** The metadata is read back *)

(** A member without a space after its colon. *)
Lemma parse_members_compact f k x s' v :
  parse_value f s' = Some (v, x) ->
  parse_members (S f) (quote k (":" +:+ s'))
  = ('(l, r) ← members_tail f x; Some ((k, v) :: l, r)).
Proof.
  intros Hv. rewrite <-parse_value_space in Hv.
  rewrite parse_value_space in Hv. unfold quote. rewrite !str_app_cons, str_app_nil_l.
  cbn [parse_members skip_ws]. change (is_ws dquote) with false. cbn match.
  rewrite Ascii.eqb_refl, parse_quote_body. cbn [mbind option_bind].
  cbn [skip_ws]. change (is_ws ":") with false. cbn match.
  rewrite Ascii.eqb_refl, Hv. cbn [mbind option_bind].
  unfold members_tail. destruct (skip_ws x) as [|d r]; [done|].
  by destruct (Ascii.eqb d ","), (Ascii.eqb d "}").
Qed.

Lemma quoted_plain s tail :
  forallb (fun c => String.eqb (esc c estr) (String c estr)) (String.list_ascii_of_string s) = true ->
  quote s tail = quoted s +:+ tail.
Proof.
  intros Hs. unfold quote, quoted. rewrite str_app_cons. f_equal.
  rewrite str_app_assoc, str_app_cons, str_app_nil_l.
  induction s as [|c s IH]; [done|]. cbn in Hs. apply andb_prop in Hs as [Hc Hs].
  cbn [quote_body]. rewrite IH by done. apply String.eqb_eq in Hc. rewrite str_app_cons.
  revert Hc. generalize (s +:+ String dquote tail). intros t. unfold esc.
  repeat case_match; intros; simplify_eq; done.
Qed.

(** The fields of a stored task. *)
Definition meta (now : Z) (ov : option Z) : list (string * json) :=
  ("__meta_arrived_at", JInt now) ::
  match ov with Some m => [("__meta_max_age", JInt m)] | None => [] end.

Definition meta_text (now : Z) (ov : option Z) : string :=
  "," +:+ quoted "__meta_arrived_at" +:+ ":" +:+ print_Z now
  +:+ match ov with
      | Some m => "," +:+ quoted "__meta_max_age" +:+ ":" +:+ print_Z m
      | None => estr
      end +:+ "}".

Definition meta_tail (ov : option Z) : string :=
  match ov with
  | Some m => String "," (quote "__meta_max_age" (":" +:+ print_json (JInt m) "}"))
  | None => "}"
  end.

Lemma meta_text_eq now ov :
  meta_text now ov =
  String "," (quote "__meta_arrived_at" (":" +:+ print_json (JInt now) (meta_tail ov))).
Proof.
  unfold meta_text, meta_tail. rewrite (quoted_plain "__meta_arrived_at") by reflexivity.
  cbn [print_json]. destruct ov as [m|].
  - rewrite (quoted_plain "__meta_max_age") by reflexivity. by rewrite !str_app_cons, ?str_app_assoc, ?str_app_cons, ?str_app_assoc, ?str_app_cons, ?str_app_nil_l, ?str_app_assoc.
  - by rewrite !str_app_cons, ?str_app_assoc, ?str_app_cons, ?str_app_assoc, ?str_app_cons, ?str_app_nil_l, ?str_app_assoc.
Qed.

Lemma members_tail_comma f s : members_tail f (String "," s) = parse_members f s.
Proof. done. Qed.

Lemma parse_meta f now ov :
  (3 <= f)%nat -> members_tail f (meta_text now ov) = Some (meta now ov, estr).
Proof.
  intros Hf. destruct f as [|[|[|f]]]; try lia. rewrite meta_text_eq, members_tail_comma.
  rewrite (parse_members_compact _ _ (meta_tail ov) _ (JInt now)).
  2: { apply (parse_print (JInt now) eq_refl); [cbn; lia|by destruct ov]. }
  unfold meta, meta_tail. destruct ov as [m|]; [|done].
  rewrite members_tail_comma, (parse_members_compact _ _ "}" _ (JInt m)); [done|].
  apply (parse_print (JInt m) eq_refl); [cbn; lia|done].
Qed.

(** The stored text of a task parses to its fields and the metadata. *)
Lemma loads_injected fields now ov :
  fields <> [] -> forallb (fun kv => jwf (snd kv)) fields = true ->
  loads (String "{" (print_members fields (meta_text now ov)))
  = Some (JObj (fields ++ meta now ov)).
Proof.
  intros Hne Hwf.
  assert (HP : Forall (fun kv => parses (snd kv)) fields).
  { apply Forall_forall. intros kv Hkv. apply parse_print. rewrite forallb_forall in Hwf.
    by apply Hwf, list_elem_of_In. }
  set (n := String.length (String "{" (print_members fields (meta_text now ov)))).
  assert (Hlen : (length fields + sum_list_with (fun kv => need (snd kv)) fields + 4 <= n)%nat).
  { pose proof (length_print (JObj fields) estr) as Hl. rewrite print_json_obj in Hl.
    change (String "}" estr) with (estr +:+ "}") in Hl. rewrite print_members_app in Hl.
    unfold n. rewrite <-(str_app_nil_l (meta_text now ov)), print_members_app.
    cbn [String.length] in *. rewrite str_length_app in *. cbn [String.length] in *.
    assert (4 <= String.length (meta_text now ov))%nat.
    { rewrite meta_text_eq. cbn [String.length].
      pose proof (length_quote "__meta_arrived_at" (":" +:+ print_json (JInt now) (meta_tail ov))).
      rewrite str_length_app in *. cbn [String.length] in *. lia. }
    change (need (JObj fields)) with (S (length fields + sum_list_with (fun kv => need (snd kv)) fields)) in Hl.
    lia. }
  unfold loads. fold n. cbn [parse_value skip_ws]. change (is_ws "{") with false. cbn match.
  rewrite Ascii.eqb_refl.
  destruct (print_members_starts fields (meta_text now ov) Hne) as [s Es].
  pose proof (parse_print_members fields (n - length fields) (meta_text now ov) Hne HP
    ltac:(lia) ltac:(by rewrite meta_text_eq)) as Hm.
  rewrite parse_meta in Hm by lia.
  replace (length fields + (n - length fields))%nat with n in Hm by lia.
  rewrite Es in *. cbn [skip_ws]. change (is_ws dquote) with false. cbn match.
  change (Ascii.eqb dquote "}") with false. cbn match. by rewrite Hm.
Qed.

(** ** The script *)

(** The fields of a task, in the order the client writes them. *)
Definition task_fields (id path : string) (payload : list (string * json)) (inflight : string)
    : list (string * json) :=
  [("id", JStr id); ("func_path", JStr path); ("payload", JObj payload);
   ("inflight_key", JStr inflight)].

(** The member stored for a task scheduled at [now]. *)
Definition stored (fields : list (string * json)) (now : Z) (ov : option Z) : string :=
  String "{" (print_members fields (meta_text now ov)).

Definition payload_timeout (payload : list (string * json)) : option Z :=
  assoc_last "_acquire_timeout_ms" payload ≫= jint.

Lemma task_of_stored id path payload inflight now ov :
  jwf (JObj payload) = true ->
  task_of (stored (task_fields id path payload inflight) now ov)
  = Some (Task id path inflight now ov (payload_timeout payload)).
Proof.
  intros Hwf. unfold task_of, stored. rewrite loads_injected.
  - by destruct ov.
  - done.
  - cbn. cbn in Hwf. by rewrite Hwf.
Qed.

Section Script.
Context {F : Rounding} {FL : RoundingLaws F}.
Context (cj : string -> option json) (base : string) (W : Z).

Lemma stored_eq fields x (now : Z) ov :
  (x == now)%Q -> Z.abs now < 10 ^ 14 ->
  match ov with Some m => Z.abs m < 10 ^ 14 | None => True end ->
  gsub_brace_end (dumps (JObj fields)) (metadata_fields x ov +:+ "}") = stored fields now ov.
Proof.
  intros Ex Hn Ho. rewrite gsub_dumps. unfold stored, metadata_fields, meta_text.
  rewrite (lua_tostring_int x now Ex Hn), !str_app_assoc.
  destruct ov as [m|]; [|done]. by rewrite (lua_tostring_int _ m) by (done || apply num_int; b53).
Qed.

(** Adding a task that can be read back. *)
Lemma step_zadd_task d (q : Q) raw t :
  wt base W d -> task_of raw = Some t -> task_ok base (db_ms d) t ->
  exists b d', db_exec cj (ZADD (buffer_k base) q raw) d = ok b d' /\
    moved base W d d' (set_buffer (zadd (Qred q) raw (zset_at (buffer_k base) d)) (abs base d)).
Proof.
  intros H Ht Hok. destruct (wt_buffer _ _ _ H) as [Hz Hwf Hp].
  pose proof (exec_zadd cj (buffer_k base) q raw d Hz) as E.
  set (z := zadd (Qred q) raw (zset_at (buffer_k base) d)) in *.
  pose proof (wrote_set_zset (buffer_k base) z d) as Hw.
  unfold persistent in Hp. rewrite Hp in Hw. eexists _, _. split; [exact E|].
  apply (moved_of Hw); [|by apply (abs_buffer base _ _ _ _ Hw)].
  assert (Hz' : zwf z) by (by apply zadd_wf).
  eapply (wt_buffer_write base W); [exact H|exact Hz'| |exact Hw].
  intros r [->|Hr]%zadd_members; [right; eauto|by left].
Qed.

Lemma schedule_steps d id path payload (priority : Q) ov :
  wt base W d -> clock_ok d -> jwf (JObj payload) = true ->
  match ov with Some m => 0 <= m < 10 ^ 14 | None => True end ->
  opt_small (payload_timeout payload) ->
  (path = marker_path -> is_Some (payload_timeout payload)) ->
  let fields := task_fields id path payload (inflight_k base id) in
  exists d',
    steps_to cj base W (schedule_lua (buffer_k base) (dumps (JObj fields)) priority ov) d tt
      (set_buffer (zadd (Qred (rnd priority)) (stored fields (db_ms d) ov)
                     (zset_at (buffer_k base) d)) (abs base d)) d'.
Proof.
  intros H Hclk Hwf Hov Hto Hmk fields. pose proof Hclk as [Hus Hms].
  assert (Hn : 0 <= db_ms d) by (apply Z.div_pos; lia).
  pose proof (task_of_stored id path payload (inflight_k base id) (db_ms d) ov Hwf) as Ht.
  destruct (step_zadd_task d (rnd priority) _ _ H Ht) as (b & d' & R & M).
  { split; cbn; [done|lia| |done|].
    - destruct ov; cbn; unfold small; [lia|done].
    - unfold t_marker. cbn. intros E. by apply Hmk, String.eqb_eq. }
  exists d'. unfold schedule_lua, steps_to.
  rewrite (drun_call cj TIME _ d _ d eq_refl).
  rewrite (stored_eq fields _ (db_ms d) ov).
  - rewrite (drun_call _ _ _ _ _ _ R). split; [done|exact M].
  - by apply lua_now_ms_eq.
  - unfold clock_max in Hms. lia.
  - destruct ov; [lia|done].
Qed.
End Script.
