(* ===== verification/Lease.v ===== *)
(** * The other scripts: acquire, health, renew, release

    The contracts of the request-path admission ([acquire.lua]), of the
    read-only snapshot ([health.lua]) and of the two lease operations
    ([renew.lua], [release.lua]) on the abstract state, and the proofs that
    the scripts keep them. *)

From S2P Require Import Prelude Float Text Json Redis Zset Keyspace Scripts Window State Store Consume.

Open Scope Z_scope.
Open Scope rl_scope.

(** ** Contracts *)

Section Specs.
Context {F : Rounding}.

Definition acquire_spec (limit W now : Z) (s : lstate) : acquire_reply * lstate :=
  let n := wstart now W in
  let cur := s_count s n in
  let prev := s_count s (n - W) in
  let left := left_ms now W in
  if Qltb (load W now s) limit then
    (AcquireReply 1 (tokens limit (load W now s) - 1) left prev (cur + 1), set_count n (cur + 1) s)
  else (AcquireReply 0 (tokens limit (load W now s)) left prev cur, s).

Definition health_spec (W now : Z) (s : lstate) : health_reply :=
  let n := wstart now W in
  HealthReply (s_count s (n - W)) (s_count s n) (reply_int (load W now s))
    (Z.of_nat (length (s_leases s))) (left_ms now W) (Z.of_nat (length (s_buffer s))).

Definition renew_spec (sec lease : Z) (id : string) (s : lstate) : Z * lstate :=
  if bool_decide (id ∈ members (s_leases s))
  then (1, set_leases (zadd (sec + lease)%Z id (s_leases s)) s)
  else (0, s).

Definition release_spec (id : string) (s : lstate) : (Z * Z) * lstate :=
  if String.eqb id estr then ((0, 0), s)
  else
    ((if bool_decide (id ∈ members (s_leases s)) then 1 else 0,
      if bool_decide (is_Some (s_inflight s id)) then 1 else 0),
     set_inflight id None (set_leases (zrem id (s_leases s)) s)).
End Specs.

Section Scripts.
Context {F : Rounding} {FL : RoundingLaws F}.
Context (cj : string -> option json) (base : string) (W : Z).

Lemma reply_int_estimate x y : (x == y)%Q -> reply_int x = reply_int y.
Proof.
  intros E. unfold reply_int. rewrite (Qfloor_comp _ _ E), (Qfloor_comp (- x) (- y)) by by rewrite E.
  assert (Qle_bool 0 x = Qle_bool 0 y) as ->; [|done].
  apply eq_true_iff_eq. by rewrite !Qle_bool_iff, E.
Qed.

(** The readings that [acquire.lua] and [health.lua] share. *)
Lemma drun_readings d (wms : Q) :
  wt base W d -> clock_ok d -> (wms == W)%Q -> 0 < W < 10 ^ 13 ->
  let now := db_ms d in
  let x := lua_now_ms (db_us d / 1000000, db_us d mod 1000000)%Z in
  exists c p,
    (c == s_count (abs base d) (wstart now W))%Q /\
    (p == s_count (abs base d) (wstart now W - W))%Q /\
    (estimate c p x (window_start x wms) wms == load W now (abs base d))%Q /\
    (reset_ms (window_start x wms) wms x == left_ms now W)%Q /\
    window_key base (window_start x wms) = count_k base (wstart now W) /\
    forall A (K : Q -> Q -> prog A),
      drun cj (cur ← call (GET (window_key base (window_start x wms))); c ← lua_count cur;
               prev ← call (GET (window_key base (window_start x wms ⊖ wms))); p ← lua_count prev;
               K c p) d = drun cj (K c p) d.
Proof.
  intros H Hclk Ew HW now x. destruct (clock_bounds d Hclk) as [Hn _].
  pose proof (lua_now_ms_eq d Hclk) as Enow. fold x now in Enow.
  pose proof (window_start_eq now W x wms Enow Ew Hn ltac:(lia)) as Es.
  pose proof (wstart_bounds now W ltac:(lia) ltac:(lia)) as [Hs _].
  destruct (drun_count cj _ d (ckey_count _ _ _ _ (wt_count _ _ _ H (wstart now W)))) as (c & Ec & Rc).
  destruct (drun_count cj _ d (ckey_count _ _ _ _ (wt_count _ _ _ H (wstart now W - W)))) as (p & Ep & Rp).
  exists c, p. split; [done|]. split; [done|]. unfold clock_max in Hn. split; [|split; [|split]].
  - rewrite (estimate_eq _ _ _ _ _ now W) by (done || lia). by rewrite Ec, Ep.
  - by apply reset_ms_eq; try done; lia.
  - apply window_key_eq; [done|lia].
  - intros A K. rewrite (window_key_eq base _ _ Es) by lia.
    rewrite (window_key_eq base _ (wstart now W - W))
      by (first [lia | rewrite Es, Ew; apply fsub_int; b53]).
    fold (count_k base (wstart now W)) (count_k base (wstart now W - W)).
    by rewrite Rc, Rp.
Qed.

Lemma acquire_steps d (window : Q) (limit : Z) :
  wt base W d -> clock_ok d -> window_ok window W -> 1 <= limit <= 2 ^ 50 ->
  exists d',
    steps_to cj base W (acquire_lua base window limit) d
      (fst (acquire_spec limit W (db_ms d) (abs base d)))
      (snd (acquire_spec limit W (db_ms d) (abs base d))) d'.
Proof.
  intros H Hclk [Hp Hm Hw] Hlim. set (now := db_ms d).
  pose proof (clock_bounds d Hclk) as [Hn _]. fold now in Hn.
  destruct (drun_readings d _ H Hclk Hw ltac:(lia)) as (c & p & Ec & Ep & Ee & Er & Ek & R).
  fold now in Ec, Ep, Ee, Er, Ek. unfold acquire_lua, steps_to.
  rewrite (drun_call cj TIME _ d _ d eq_refl). cbn zeta. rewrite R, Ek.
  set (e := estimate _ _ _ _ _) in *. set (rst := reset_ms _ _ _) in *.
  rewrite (Qltb_comp e (load W now (abs base d)) _ limit) by (done || apply num_int; b53).
  assert (Hcfg : cfg_ok (Cfg window W limit 1 0 0)) by (by split; cbn; try lia).
  destruct (gauge_ok base _ Hcfg d H Hclk) as (Hc1 & Hp1 & Hl & Ht).
  fold now in Hc1, Hp1, Hl, Ht. cbn [gauge_of g_cur g_prev g_tokens c_limit c_ms] in *.
  assert (Erem : (remaining_tokens (num limit) e == tokens limit (load W now (abs base d)))%Q).
  { unfold remaining_tokens, tokens. rewrite (Qfloor_comp _ (limit ⊖ load W now (abs base d)))
      by by rewrite Ee, num_int by b53. change 0%Q with (inject_Z 0). by rewrite fmax_Z. }
  unfold acquire_spec. destruct (Qltb _ limit) eqn:El.
  - apply Qltb_lt in El.
    assert (Hlt : s_count (abs base d) (wstart now W) < limit) by (rewrite Zlt_Qlt; lra).
    pose proof (wstart_bounds now W ltac:(lia) Hp) as [Hs _].
    destruct (drun_bump cj base W (wstart now W) c (window ⊗ 1000) d) as (d' & ex & Hex & Hwr & Rb).
    { apply (wt_count _ _ _ H). } { exact Ec. } { cbn in Hlt. lia. } { done. } { lia. } { lia. }
    exists d'. rewrite Rb. cbn [fst snd]. split.
    + unfold drun. cbn [run]. do 2 f_equal. f_equal; apply reply_int_comp; try done.
      * rewrite Erem. apply fsub_int. b53.
      * rewrite Ec. apply fadd_int. b53.
    + apply (moved_of Hwr); [|by apply (abs_count base _ _ _ _ _ Hwr)].
      eapply (wt_count_write base W); [exact H| |exact Hex|exact Hwr]. cbn in Hlt, Hc1. lia.
  - exists d. cbn [fst snd]. split; [|by split].
    unfold drun. cbn [run]. do 2 f_equal. by f_equal; apply reply_int_comp.
Qed.

Lemma health_steps d (window : Q) :
  wt base W d -> clock_ok d -> window_ok window W ->
  steps_to cj base W (health_lua base (buffer_k base) (conc_k base) window) d
    (health_spec W (db_ms d) (abs base d)) (abs base d) d.
Proof.
  intros H Hclk [Hp Hm Hw].
  destruct (drun_readings d _ H Hclk Hw ltac:(lia)) as (c & p & Ec & Ep & Ee & Er & Ek & R).
  unfold health_lua, steps_to. split; [|by split].
  rewrite (drun_call cj TIME _ d _ d eq_refl). cbn zeta. rewrite R.
  rewrite (drun_call _ _ _ _ _ _ (exec_zcard cj _ _ (zk_type _ _ (wt_conc _ _ _ H)))).
  rewrite (drun_call _ _ _ _ _ _ (exec_zcard cj _ _ (zk_type _ _ (wt_buffer _ _ _ H)))).
  unfold drun, health_spec. cbn [run]. do 2 f_equal.
  f_equal; try (by apply reply_int_comp). by apply reply_int_estimate.
Qed.

Lemma renew_steps d id (lease : Z) :
  wt base W d -> clock_ok d -> 0 <= lease < 10 ^ 15 ->
  exists d',
    steps_to cj base W (renew_lua (conc_k base) id lease) d
      (fst (renew_spec (db_sec d) lease id (abs base d)))
      (snd (renew_spec (db_sec d) lease id (abs base d))) d'.
Proof.
  intros H Hclk Hlease. pose proof (clock_bounds d Hclk) as [_ Hsec].
  unfold renew_lua, renew_spec, steps_to.
  rewrite (drun_call _ _ _ _ _ _ (exec_zscore cj _ id _ (zk_type _ _ (wt_conc _ _ _ H)))).
  cbn [s_leases abs]. case_bool_decide as Hm.
  - apply zscore_some in Hm as [q ->].
    rewrite (drun_call cj TIME _ d _ d eq_refl). cbn [fst]. fold (db_sec d).
    destruct (step_zadd_lease cj base W d (num (db_sec d) ⊕ num lease) (db_sec d + lease) id H)
      as (b & d' & R & M).
    { rewrite !num_int by b53. apply fadd_int. b53. }
    exists d'. by rewrite (drun_call _ _ _ _ _ _ R).
  - exists d. destruct (zscore id _) eqn:Es; [|split; [done|by split]].
    destruct Hm. apply zscore_some. rewrite Es. by eexists.
Qed.
End Scripts.

(** ** Release *)

(** The keyspace after a message. *)
Definition published (ch msg : string) (d : db) : db :=
  Db (db_us d) (db_keys d) (db_pub d ++ [(ch, msg)]).

Lemma wt_published base W ch msg d : wt base W d -> wt base W (published ch msg d).
Proof.
  intros [[] [] ? ? ? ? ? ? ?]. split; try done; by split.
Qed.

Lemma abs_published base ch msg d : abs base (published ch msg d) ≡ abs base d.
Proof. by split. Qed.

Section Release.
Context (cj : string -> option json) (base : string) (W : Z).

Lemma step_zrem_lease d id :
  wt base W d ->
  exists d',
    db_exec cj (ZREM (conc_k base) id) d
      = ok (if bool_decide (id ∈ members (s_leases (abs base d))) then 1 else 0) d' /\
    moved base W d d' (set_leases (zrem id (s_leases (abs base d))) (abs base d)).
Proof.
  intros H. destruct (wt_conc _ _ _ H) as [Hz Hwf Hp].
  pose proof (exec_zrem cj (conc_k base) id d Hz) as E.
  pose proof (wrote_set_zset (conc_k base) (zrem id (zset_at (conc_k base) d)) d) as Hw.
  unfold persistent in Hp. rewrite Hp in Hw. eexists. split.
  - rewrite E. by rewrite (bool_decide_ext _ _ (zscore_some id (zset_at (conc_k base) d))).
  - apply (moved_of Hw); [|by apply (abs_conc base _ _ _ _ Hw)].
    eapply (wt_conc_write base W); [exact H|by apply zrem_wf|exact Hw].
Qed.

Lemma release_steps d ch id worker :
  wt base W d ->
  exists d',
    drun cj (release_lua (conc_k base) (inflight_k base id) ch id worker) d
      = (inr (fst (release_spec id (abs base d))), d') /\
    wt base W d' /\ db_us d' = db_us d /\ db_pub d' = db_pub d ++ [(ch, worker)] /\
    abs base d' ≡ snd (release_spec id (abs base d)).
Proof.
  intros H. unfold release_lua, release_spec. destruct (String.eqb id estr).
  - exists (published ch worker d). cbn [negb fst snd].
    split; [done|]. split; [by apply wt_published|]. split; [done|]. split; [done|].
    apply abs_published.
  - cbn [negb fst snd].
    destruct (step_zrem_lease d id H) as (d1 & R1 & M1). pose proof M1 as [H1 U1 P1 A1].
    pose proof (wrote_del (inflight_k base id) d1) as Hw.
    set (d2 := del_key (inflight_k base id) d1) in *.
    assert (E2 : db_exec cj (DEL (inflight_k base id)) d1 =
      ok (if bool_decide (is_Some (s_inflight (abs base d) id)) then 1 else 0) d2).
    { cbn [db_exec]. change (key_val (inflight_k base id) d1) with (s_inflight (abs base d1) id).
      by rewrite (le_inflight _ _ A1). }
    exists (published ch worker d2). split.
    { erewrite drun_bind; [reflexivity|].
      rewrite (drun_call _ _ _ _ _ _ R1), (drun_call _ _ _ _ _ _ E2). done. }
    split; [by eapply wt_published, wt_inflight_write|]. split; [done|].
    split; [cbn; by rewrite P1|]. rewrite abs_published, (abs_inflight base _ _ _ _ Hw). cbn.
    by rewrite A1.
Qed.
End Release.
