(* ===== verification/System.v ===== *)
(** * System: every interleaving of workers over one server

    Workers on any machine act on the shared state only by atomic scripts and
    single commands, so a run of the whole fleet is a sequence of such steps
    and of the passing of time.  [reach] is the set of server states such runs
    lead to, with a history of what was scheduled, admitted and dropped; [Inv]
    is the invariant of these states. *)

From S2P Require Import Prelude Float Text Json Redis Zset Keyspace Scripts Window State Store Consume Schedule Lease.

Open Scope Z_scope.
Open Scope rl_scope.

(** ** Time *)

Definition tick (us : Z) (d : db) : db := Db us (db_keys d) (db_pub d).

Lemma key_entry_tick k us d :
  db_us d <= us ->
  key_entry k (tick us d) = (e ← key_entry k d; if live (us / 1000) e then Some e else None).
Proof.
  intros Hus. unfold key_entry. cbn. destruct (db_keys d !! k) as [e|]; [|done].
  unfold db_ms. cbn. destruct (live (db_us d / 1000) e) eqn:E; [done|].
  assert (db_us d / 1000 <= us / 1000) by (apply Z.div_le_mono; lia).
  unfold live in *. destruct (e_exp e); [|done]. reflect_bools. by rewrite (proj2 (Z.leb_gt _ _)) by lia.
Qed.

(** A key is unchanged or dropped. *)
Lemma key_entry_tick_cases k us d :
  db_us d <= us ->
  key_entry k (tick us d) = key_entry k d \/
  key_entry k (tick us d) = None /\ key_entry k d ≫= e_exp <> None.
Proof.
  intros Hus. rewrite key_entry_tick by done. destruct (key_entry k d) as [e|]; cbn; [|by left].
  unfold live. destruct (e_exp e) eqn:E; [|by left]. destruct (_ <=? _); [by left|by right].
Qed.

Lemma key_entry_tick_persistent k us d :
  db_us d <= us -> persistent k d -> key_entry k (tick us d) = key_entry k d.
Proof. intros Hus Hp. by destruct (key_entry_tick_cases k us d Hus) as [?|[_ ?]]. Qed.

Lemma wt_tick base W us d : db_us d <= us -> wt base W d -> wt base W (tick us d).
Proof.
  intros Hus H.
  assert (Z : forall k, zkey k d -> zkey k (tick us d)).
  { intros k [H1 H2 H3]. pose proof (key_entry_tick_persistent k us d Hus H3) as E.
    assert (Ev : key_val k (tick us d) = key_val k d) by (unfold key_val; by rewrite E).
    split; [by eapply is_zset_same|by rewrite (zset_at_same k d)|unfold persistent; by rewrite E]. }
  assert (V : forall k, key_val k (tick us d) = key_val k d \/ key_val k (tick us d) = None).
  { intros k. unfold key_val. destruct (key_entry_tick_cases k us d Hus) as [->|[-> _]]; [by left|by right]. }
  assert (L : forall k, is_list k d -> is_list k (tick us d)).
  { intros k. unfold is_list. by destruct (V k) as [->| ->]. }
  assert (S : forall k, is_str k d -> is_str k (tick us d)).
  { intros k. unfold is_str. by destruct (V k) as [->| ->]. }
  destruct H as [Hb Hc Hl Hlp Hco Hca Hct Hsg Ht]. split; auto.
  - unfold persistent. by rewrite key_entry_tick_persistent.
  - intros n. specialize (Hct n). unfold ckey in *.
    by destruct (key_entry_tick_cases (count_k base n) us d Hus) as [->|[-> _]].
  - intros raw Hr. assert (Ez : zset_at (buffer_k base) (tick us d) = zset_at (buffer_k base) d).
    { apply zset_at_same. unfold key_val. by rewrite key_entry_tick_persistent by (done || apply Hb). }
    rewrite Ez in Hr. destruct (Ht raw Hr) as (t & E & [T1 T2 T3 T4 T5]). exists t. split; [done|].
    split; try done. assert (db_ms d <= db_ms (tick us d)); [|lia].
    apply Z.div_le_mono; [lia|done].
Qed.

(** What time keeps and what it may drop. *)
Record ticked (s s' : lstate) (W now' : Z) : Prop := {
  tk_count : forall n, now' <= n + 2 * W -> s_count s' n = s_count s n;
  tk_leases : s_leases s' = s_leases s;
  tk_buffer : s_buffer s' = s_buffer s;
  tk_dlq : s_dlq s' = s_dlq s;
  tk_caller : s_caller s' = s_caller s \/ s_caller s' = None;
}.

Lemma abs_tick base W us d :
  db_us d <= us -> wt base W d -> ticked (abs base d) (abs base (tick us d)) W (us / 1000).
Proof.
  intros Hus H.
  assert (Pz : forall k, persistent k d -> key_val k (tick us d) = key_val k d).
  { intros k Hk. unfold key_val. by rewrite key_entry_tick_persistent. }
  split; cbn.
  - intros n Hn. apply count_at_same. unfold key_val. rewrite key_entry_tick by done.
    pose proof (wt_count _ _ _ H n) as Hc. unfold ckey in Hc.
    destruct (key_entry (count_k base n) d) as [e|]; [|done]. destruct Hc as [_ (t & Et & Ht)].
    cbn. unfold live. rewrite Et. by rewrite (proj2 (Z.leb_le _ _)) by lia.
  - apply zset_at_same, Pz, H.
  - apply zset_at_same, Pz, H.
  - apply list_at_same, Pz, H.
  - unfold str_at, key_val.
    destruct (key_entry_tick_cases (caller_k base) us d Hus) as [->|[-> _]]; [by left|by right].
Qed.

(** A limiter nobody has used. *)
Definition fresh (base : string) (d : db) : Prop := forall s, key_entry (subkey base s) d = None.

Lemma wt_fresh base W d : fresh base d -> wt base W d.
Proof.
  intros H.
  assert (V : forall s, key_val (subkey base s) d = None) by (intros s; unfold key_val; by rewrite H).
  assert (Z : forall s, zkey (subkey base s) d).
  { intros s. split; unfold is_zset, zset_at, persistent; [by rewrite V|rewrite V; apply zwf_nil|by rewrite H]. }
  split; intros; try apply Z.
  all: unfold is_list, is_str, persistent, ckey, dlq_k, consumer_k, caller_k, count_k, signal_k;
    try (by rewrite V); try (by rewrite H).
  exfalso. revert H0. unfold zset_at, buffer_k. rewrite V. cbn. by intros ?%elem_of_nil.
Qed.

Lemma abs_fresh base d n : fresh base d -> s_count (abs base d) n = 0.
Proof. intros H. cbn. unfold count_at, str_at, key_val, count_k. by rewrite H. Qed.

(** ** The outcomes of a consume call *)

Section Effect.
Context {F : Rounding} (c : cfg) (worker : string) (sec now : Z) (s : lstate).

(** The state before the head of the buffer is looked at. *)
Definition called : lstate := set_caller (Some worker) (reclaim sec s).

Inductive effect : consume_reply -> lstate -> Prop :=
  | ef_yield rep :
      cr_status rep = -3 -> cr_task rep = None -> yields worker s = true -> effect rep called
  | ef_idle rep :
      cr_status rep = 0 -> cr_task rep = None -> effect rep called
  | ef_drop rep p raw rest t :
      s_buffer s = (p, raw) :: rest -> task_of raw = Some t ->
      (cr_status rep = -1 \/ cr_status rep = -2) -> cr_task rep = None ->
      (cr_status rep = -2 -> t_marker t = true) ->
      effect rep (set_inflight (t_id t) None
        (if bool_decide (cr_status rep = -1) && negb (t_marker t)
         then set_dlq (s_dlq s ++ [raw]) (set_buffer rest called)
         else set_buffer rest called))
  | ef_admit rep p raw rest t :
      s_buffer s = (p, raw) :: rest -> task_of raw = Some t ->
      cr_status rep = 1 -> cr_task rep = Some raw -> has_room c now (reclaim sec s) = true ->
      effect rep (admit_spec c worker sec now t (set_buffer rest called)).

Lemma consume_effect :
  effect (fst (consume_spec c worker sec now s)) (snd (consume_spec c worker sec now s)).
Proof.
  unfold consume_spec. change (yields worker (reclaim sec s)) with (yields worker s).
  fold called. destruct (yields worker s) eqn:Ey; [by apply ef_yield|].
  unfold turn_spec. change (has_room c now called) with (has_room c now (reclaim sec s)).
  destruct (has_room c now (reclaim sec s)) eqn:Er; [|by apply ef_idle].
  change (s_buffer called) with (s_buffer s).
  destruct (s_buffer s) as [|[p raw] rest] eqn:Eb; [by apply ef_idle|].
  destruct (task_of raw) as [t|] eqn:Et; [|by apply ef_idle].
  unfold head_spec. destruct (task_verdict _ _ _ t) eqn:Ev; cbn [fst snd].
  - pose proof (ef_drop (reply_of c now (-1) None
      (Gauge (g_tokens (gauge_of c now called)) (g_active (gauge_of c now called))
         (g_queued (gauge_of c now called) - 1) (g_prev (gauge_of c now called))
         (g_cur (gauge_of c now called)))) p raw rest t Eb Et) as H.
    cbn [reply_of cr_status cr_task] in H. rewrite bool_decide_true in H by done.
    destruct (t_marker t); cbn [andb negb] in H; apply H; auto; done.
  - pose proof (ef_drop (reply_of c now (-2) None
      (Gauge (g_tokens (gauge_of c now called)) (g_active (gauge_of c now called))
         (g_queued (gauge_of c now called) - 1) (g_prev (gauge_of c now called))
         (g_cur (gauge_of c now called)))) p raw rest t Eb Et) as H.
    cbn [reply_of cr_status cr_task] in H. rewrite bool_decide_false in H by done.
    apply H; auto. intros _. unfold task_verdict in Ev. by destruct (_ <? _), (t_marker t).
  - by eapply ef_admit.
Qed.
End Effect.

(** ** Runs of the fleet *)

(** What happened so far: the members stored, the admissions with their
    times, and the members dropped. *)
Record history := History {
  h_scheduled : list string;
  h_admitted : list (Z * string);
  h_dropped : list string;
}.

Definition note_scheduled (raw : string) (h : history) : history :=
  History (raw :: h_scheduled h) (h_admitted h) (h_dropped h).

(** A consume call at [now] that found [head] at the front of the buffer. *)
Definition note_consumed (now : Z) (head : option string) (o : string + consume_reply) (h : history)
    : history :=
  match o with
  | inl _ => h
  | inr rep =>
      match cr_task rep with
      | Some raw => History (h_scheduled h) ((now, raw) :: h_admitted h) (h_dropped h)
      | None =>
          if (cr_status rep =? -1) || (cr_status rep =? -2) then
            History (h_scheduled h) (h_admitted h) (option_list head ++ h_dropped h)
          else h
      end
  end.

(** Occurrences. *)
Definition occ (x : string) (l : list string) : nat := length (filter (fun y => y = x) l).

Lemma occ_cons x y l : occ x (y :: l) = ((if decide (y = x) then 1 else 0) + occ x l)%nat.
Proof. unfold occ. rewrite filter_cons. by case_decide. Qed.

Lemma occ_pos x l : (0 < occ x l)%nat <-> x ∈ l.
Proof.
  induction l as [|y l IH]; [cbn; split; [lia|by intros ?%elem_of_nil]|].
  rewrite occ_cons, elem_of_cons. case_decide; [subst; split; [auto|lia]|].
  rewrite Nat.add_0_l, IH. split; [auto|]. intros [?|?]; [congruence|done].
Qed.

Lemma occ_nodup x l : NoDup l -> (occ x l <= 1)%nat.
Proof.
  intros Hn. induction Hn as [|y l Hy _ IH]; [cbn; lia|]. rewrite occ_cons. case_decide; [subst|lia].
  pose proof (occ_pos x l) as Hp. destruct (occ x l); [lia|]. destruct Hy. apply Hp. lia.
Qed.

Lemma occ_perm x l l' : l ≡ₚ l' -> occ x l = occ x l'.
Proof. intros E. unfold occ. by rewrite E. Qed.

Lemma occ_members_zadd x s m z :
  zwf z -> (occ x (members (zadd s m z)) <= occ x (members z) + (if decide (m = x) then 1 else 0))%nat.
Proof.
  intros Hw. pose proof (zadd_wf s m z Hw) as [Hn _].
  pose proof (occ_nodup x _ Hn). pose proof (occ_pos x (members (zadd s m z))) as Hp.
  rewrite zadd_members in Hp. pose proof (occ_pos x (members z)) as Hz.
  destruct (occ x (members (zadd s m z))) as [|k]; [lia|].
  case_decide; [lia|]. destruct (proj1 Hp) as [?|Hx]; [lia|congruence|]. apply Hz in Hx. lia.
Qed.

(** A task the client may schedule: its document can be printed, its numbers
    are in range, and an acquire marker carries its timeout where consume.lua
    reads it.  The markers of the task queues, wrapped with the rest of the
    payload, do not: they are not schedulable here. *)
Record schedulable (path : string) (payload : list (string * json)) (ov : option Z) : Prop := {
  sc_json : jwf (JObj payload) = true;
  sc_age : match ov with Some m => 0 <= m < 10 ^ 14 | None => True end;
  sc_timeout : opt_small (payload_timeout payload);
  sc_marker : path = marker_path -> is_Some (payload_timeout payload);
}.

Section Fleet.
Context {F : Rounding} {FL : RoundingLaws F}.
Context {R : Type} `{RS : RedisSpec R}.
Context (base : string) (c : cfg) (workers : string -> Prop).
Hypothesis Hc : cfg_ok c.

Local Abbreviation W := (c_ms c).

Definition head_of (r : R) : option string := snd <$> head (zset_at (buffer_k base) (rview r)).

Definition run_consume (w : string) (r : R) : (string + consume_reply) * R :=
  run (consume_lua base (buffer_k base) (conc_k base) (dlq_k base) (args_of c w)) r.

Inductive reach : R -> history -> Prop :=
  | reach_start r : clock_ok (rview r) -> fresh base (rview r) -> reach r (History [] [] [])
  | reach_time r r' h us :
      reach r h -> db_us (rview r) <= us -> rview r' = tick us (rview r) ->
      clock_ok (rview r') -> reach r' h
  | reach_schedule r h id path payload priority ov :
      reach r h -> schedulable path payload ov ->
      let fields := task_fields id path payload (inflight_k base id) in
      reach (snd (run (schedule_lua (buffer_k base) (dumps (JObj fields)) priority ov) r))
        (note_scheduled (stored fields (db_ms (rview r)) ov) h)
  | reach_consume r h w :
      reach r h -> workers w ->
      reach (snd (run_consume w r))
        (note_consumed (db_ms (rview r)) (head_of r) (fst (run_consume w r)) h)
  | reach_renew r h id lease :
      reach r h -> 0 <= lease < 10 ^ 15 -> reach (snd (run (renew_lua (conc_k base) id lease) r)) h
  | reach_release r h ch id w :
      reach r h -> reach (snd (run (release_lua (conc_k base) (inflight_k base id) ch id w) r)) h
  | reach_dedup {B} r h (k : rcmd B) id :
      reach r h -> cmd_key k = Some (inflight_k base id) -> reach (snd (run (call k) r)) h
  | reach_wake r h id : reach r h -> reach (snd (run (call (LPOP (signal_k base id))) r)) h
  | reach_foreign {B} r h (k : rcmd B) :
      reach r h -> foreign base k -> reach (snd (run (call k) r)) h.

(** Admissions in the window that starts at [n]. *)
Definition adm (n : Z) (h : history) : Z :=
  Z.of_nat (length (filter (fun a => wstart (fst a) W = n) (h_admitted h))).

Record Inv (d : db) (h : history) : Prop := {
  inv_wt : wt base W d;
  inv_clock : clock_ok d;
  inv_conc : Z.of_nat (length (s_leases (abs base d))) <= c_conc c;
  inv_count : forall n, db_ms d <= n + 2 * W -> s_count (abs base d) n = adm n h;
  inv_limit : forall n, adm n h <= c_limit c;
  inv_past : forall t raw, (t, raw) ∈ h_admitted h -> 0 <= t <= db_ms d;
  inv_caller : forall w, s_caller (abs base d) = Some w -> workers w;
  inv_once : forall raw,
    (occ raw (members (s_buffer (abs base d))) + occ raw (snd <$> h_admitted h)
     + occ raw (h_dropped h) <= occ raw (h_scheduled h))%nat;
  inv_kept : forall raw, raw ∈ h_scheduled h ->
    raw ∈ members (s_buffer (abs base d)) \/ raw ∈ (snd <$> h_admitted h) \/ raw ∈ h_dropped h;
  inv_dlq : forall raw t, raw ∈ h_dropped h -> task_of raw = Some t -> t_marker t = false ->
    raw ∈ s_dlq (abs base d);
}.

(** States that agree up to what the invariant does not mention. *)
Lemma Inv_same d d' h :
  Inv d h -> wt base W d' -> db_us d' = db_us d ->
  (forall n, s_count (abs base d') n = s_count (abs base d) n) ->
  (length (s_leases (abs base d')) <= length (s_leases (abs base d)))%nat ->
  s_buffer (abs base d') = s_buffer (abs base d) -> s_dlq (abs base d') = s_dlq (abs base d) ->
  (forall w, s_caller (abs base d') = Some w -> workers w) -> Inv d' h.
Proof.
  intros [] Hw Hu Hn Hl Eb Ed Ec.
  assert (Em : db_ms d' = db_ms d) by (unfold db_ms; by rewrite Hu).
  split; rewrite ?Em, ?Eb, ?Ed; try done.
  - unfold clock_ok. by rewrite Em, Hu.
  - lia.
  - intros n Hle. rewrite Hn. auto.
Qed.

Lemma Inv_equiv d d' h s :
  Inv d h -> moved base W d d' s ->
  (forall n, s_count s n = s_count (abs base d) n) ->
  (length (s_leases s) <= length (s_leases (abs base d)))%nat ->
  s_buffer s = s_buffer (abs base d) -> s_dlq s = s_dlq (abs base d) ->
  (forall w, s_caller s = Some w -> workers w) -> Inv d' h.
Proof.
  intros HI [Hw Hu _ A] Hn Hl Eb Ed Ec. eapply Inv_same; try done.
  - intros n. by rewrite (le_count _ _ A).
  - by rewrite (le_leases _ _ A).
  - by rewrite (le_buffer _ _ A).
  - by rewrite (le_dlq _ _ A).
  - intros w. rewrite (le_caller _ _ A). auto.
Qed.

Lemma Inv_start d : clock_ok d -> fresh base d -> Inv d (History [] [] []).
Proof.
  intros Hclk Hf. destruct Hc.
  assert (Hz : forall s, zset_at (subkey base s) d = []).
  { intros s. unfold zset_at, key_val. by rewrite Hf. }
  split; try done.
  - by apply wt_fresh.
  - cbn. unfold conc_k. rewrite Hz. cbn. lia.
  - intros n _. by rewrite abs_fresh.
  - intros n. change (0 <= c_limit c); lia.
  - by intros t raw ?%elem_of_nil.
  - intros w. cbn. unfold str_at, key_val, caller_k. by rewrite Hf.
  - intros raw. cbn. unfold buffer_k. rewrite Hz. cbn. lia.
  - by intros raw ?%elem_of_nil.
  - by intros raw t ?%elem_of_nil.
Qed.

Lemma Inv_time d us h : Inv d h -> db_us d <= us -> clock_ok (tick us d) -> Inv (tick us d) h.
Proof.
  intros [] Hus Hclk. destruct (abs_tick base W us d Hus inv_wt0) as [T1 T2 T3 T4 T5].
  assert (Hms : db_ms d <= db_ms (tick us d)) by (apply Z.div_le_mono; [lia|done]).
  split; rewrite ?T2, ?T3, ?T4; try done.
  - by apply wt_tick.
  - intros n Hn. rewrite T1 by done. apply inv_count0. lia.
  - intros t raw Ht. specialize (inv_past0 t raw Ht). lia.
  - intros w Hw. destruct T5 as [E|E]; rewrite E in Hw; [auto|done].
Qed.

Lemma adm_cons n t raw h l k :
  adm n (History l ((t, raw) :: h_admitted h) k)
  = adm n h + (if decide (wstart t W = n) then 1 else 0).
Proof.
  unfold adm. cbn [h_admitted]. rewrite filter_cons. cbn [fst].
  case_decide; cbn [length]; lia.
Qed.

Lemma zabove_length x s : (length (s_leases (set_leases (zabove x (s_leases s)) s)) <= length (s_leases s))%nat.
Proof. apply length_zabove_le. Qed.

Lemma Inv_called d d' h w sec :
  Inv d h -> workers w -> moved base W d d' (called w sec (abs base d)) -> Inv d' h.
Proof.
  intros HI Hw M. eapply Inv_equiv; [exact HI|exact M|..]; try done.
  - apply length_zabove_le.
  - intros w' [= <-]. done.
Qed.

Lemma occ_head raw' p raw rest :
  occ raw' (members ((p, raw) :: rest)) = ((if decide (raw = raw') then 1 else 0) + occ raw' (members rest))%nat.
Proof. apply occ_cons. Qed.

Lemma Inv_drop d d' h w sec p raw rest t st :
  Inv d h -> workers w -> s_buffer (abs base d) = (p, raw) :: rest -> task_of raw = Some t ->
  (st = false -> t_marker t = true) ->
  moved base W d d' (set_inflight (t_id t) None
    (if st && negb (t_marker t)
     then set_dlq (s_dlq (abs base d) ++ [raw]) (set_buffer rest (called w sec (abs base d)))
     else set_buffer rest (called w sec (abs base d)))) ->
  Inv d' (History (h_scheduled h) (h_admitted h) (raw :: h_dropped h)).
Proof.
  intros [] Hw Eb Et Hst [Hwt Hu _ A].
  assert (Em : db_ms d' = db_ms d) by (unfold db_ms; by rewrite Hu).
  set (s' := set_inflight _ _ _) in *.
  assert (En : forall n, s_count s' n = s_count (abs base d) n) by (subst s'; by destruct (st && _)).
  assert (El : s_leases s' = zabove (sec - 1)%Z (s_leases (abs base d))) by (subst s'; by destruct (st && _)).
  assert (Ebuf : s_buffer s' = rest) by (subst s'; by destruct (st && _)).
  assert (Ecall : s_caller s' = Some w) by (subst s'; by destruct (st && _)).
  assert (Edlq : forall x, x ∈ s_dlq (abs base d) -> x ∈ s_dlq s').
  { intros x Hx. subst s'. destruct (st && _); cbn; [|done]. apply elem_of_app. by left. }
  rewrite Eb in *.
  split; cbn [h_scheduled h_admitted h_dropped];
    rewrite ?Em, ?(le_leases _ _ A), ?(le_buffer _ _ A), ?(le_caller _ _ A), ?Ebuf, ?El, ?Ecall; try done.
  - unfold clock_ok. by rewrite Em, Hu.
  - pose proof (length_zabove_le (sec - 1)%Z (s_leases (abs base d))). lia.
  - intros n Hn. rewrite (le_count _ _ A), En. by apply inv_count0.
  - intros w' [= <-]. done.
  - intros raw'. specialize (inv_once0 raw'). rewrite occ_head in inv_once0. rewrite occ_cons. lia.
  - intros raw' Hr. destruct (inv_kept0 raw' Hr) as [Hm|[Hm|Hm]]; [|by right; left|right; right; by right].
    apply elem_of_cons in Hm as [->|Hm]; [right; right; by left|by left].
  - intros raw' t' Hr Ht' Hm. rewrite (le_dlq _ _ A).
    apply elem_of_cons in Hr as [->|Hr]; [|by eapply Edlq, inv_dlq0].
    rewrite Et in Ht'. injection Ht' as <-. subst s'. rewrite Hm in *.
    destruct st; [|by specialize (Hst eq_refl)]. cbn. apply elem_of_app. right. by left.
Qed.

Lemma Inv_admit d d' h w sec p raw rest t :
  Inv d h -> workers w -> s_buffer (abs base d) = (p, raw) :: rest ->
  has_room c (db_ms d) (reclaim sec (abs base d)) = true ->
  moved base W d d' (admit_spec c w sec (db_ms d) t (set_buffer rest (called w sec (abs base d)))) ->
  Inv d' (History (h_scheduled h) ((db_ms d, raw) :: h_admitted h) (h_dropped h)).
Proof.
  intros HI Hw Eb Hroom [Hwt Hu _ A].
  pose proof (gauge_ok base c Hc d (inv_wt _ _ HI) (inv_clock _ _ HI)) as (_ & _ & Hload & _).
  cbn [gauge_of g_cur] in Hload. destruct HI.
  assert (Em : db_ms d' = db_ms d) by (unfold db_ms; by rewrite Hu).
  destruct (clock_bounds d inv_clock0) as [Hnow _]. pose proof Hc as [[Hp Hm _] Hlim Hconc _ _].
  pose proof (wstart_bounds (db_ms d) W ltac:(lia) Hp) as [Hs Hs'].
  set (n0 := wstart (db_ms d) W) in *. unfold has_room in Hroom.
  apply andb_prop in Hroom as [Hl Hlease]. apply Qltb_lt in Hl. apply Z.ltb_lt in Hlease.
  change (load W (db_ms d) (reclaim sec (abs base d))) with (load W (db_ms d) (abs base d)) in Hl.
  change (s_leases (reclaim sec (abs base d))) with (zabove (sec - 1)%Z (s_leases (abs base d))) in Hlease.
  assert (Hlt : s_count (abs base d) n0 < c_limit c) by (rewrite Zlt_Qlt; lra).
  set (s' := admit_spec _ _ _ _ _ _) in *.
  assert (En : s_count s' = upd (s_count (abs base d)) n0 (s_count (abs base d) n0 + 1))
    by (subst s'; unfold admit_spec; by destruct (t_marker t)).
  assert (El : s_leases s' = zadd (sec + c_lease c)%Z (t_id t) (zabove (sec - 1)%Z (s_leases (abs base d))))
    by (subst s'; unfold admit_spec; by destruct (t_marker t)).
  assert (Ebuf : s_buffer s' = rest) by (subst s'; unfold admit_spec; by destruct (t_marker t)).
  assert (Edlq : s_dlq s' = s_dlq (abs base d)) by (subst s'; unfold admit_spec; by destruct (t_marker t)).
  assert (Ecall : s_caller s' = Some w) by (subst s'; unfold admit_spec; by destruct (t_marker t)).
  clearbody s'. rewrite Eb in *.
  split; cbn [h_scheduled h_admitted h_dropped];
    rewrite ?Em, ?(le_leases _ _ A), ?(le_buffer _ _ A), ?(le_caller _ _ A), ?(le_dlq _ _ A),
      ?Ebuf, ?El, ?Ecall, ?Edlq; try done.
  - unfold clock_ok. by rewrite Em, Hu.
  - pose proof (length_zadd_le (sec + c_lease c)%Z (t_id t) (zabove (sec - 1)%Z (s_leases (abs base d)))). lia.
  - intros n Hn. rewrite (le_count _ _ A), En, adm_cons. fold n0. unfold upd.
    repeat case_decide; subst; try congruence; rewrite inv_count0 by lia; lia.
  - intros n. rewrite adm_cons. fold n0. case_decide; [subst|specialize (inv_limit0 n); lia].
    rewrite <-inv_count0 by lia. lia.
  - intros t' raw'. rewrite elem_of_cons. intros [[= -> ->]|Ht]; [lia|by eapply inv_past0].
  - intros w' [= <-]. done.
  - intros raw'. specialize (inv_once0 raw'). rewrite occ_head in inv_once0.
    rewrite fmap_cons, occ_cons. cbn [snd]. lia.
  - intros raw' Hr. rewrite fmap_cons. cbn [snd]. destruct (inv_kept0 raw' Hr) as [Hm'|[Hm'|Hm']];
      [|by right; left; right|by right; right].
    apply elem_of_cons in Hm' as [->|Hm']; [right; left; by left|by left].
Qed.

(** The outcome of a consume call on any server. *)
(** One call of the script, as its contract has it. *)
Lemma consume_meets w r :
  wt base W (rview r) -> clock_ok (rview r) ->
  let spec := consume_spec c w (db_sec (rview r)) (db_ms (rview r)) (abs base (rview r)) in
  fst (run_consume w r) = inr (fst spec) /\
  moved base W (rview r) (rview (snd (run_consume w r))) (snd spec).
Proof.
  intros Hwt Hk spec. destruct (consume_steps rcjson rcjson_spec base c w Hc (rview r) Hwt Hk) as (d' & Ed & M).
  unfold run_consume. by rewrite (proj1 (run_view _ _)), (proj2 (run_view _ _)), Ed.
Qed.

Lemma consume_outcome w r rep :
  wt base W (rview r) -> clock_ok (rview r) -> fst (run_consume w r) = inr rep ->
  exists s',
    effect c w (db_sec (rview r)) (db_ms (rview r)) (abs base (rview r)) rep s' /\
    moved base W (rview r) (rview (snd (run_consume w r))) s' /\
    (rep, s') = consume_spec c w (db_sec (rview r)) (db_ms (rview r)) (abs base (rview r)).
Proof.
  intros Hwt Hk E. destruct (consume_meets w r Hwt Hk) as [E' M]. rewrite E in E'. injection E' as ->.
  eexists. split; [apply consume_effect|]. split; [exact M|]. by destruct (consume_spec _ _ _ _ _).
Qed.

Lemma Inv_schedule d d' h q raw :
  Inv d h -> moved base W d d' (set_buffer (zadd q raw (zset_at (buffer_k base) d)) (abs base d)) ->
  Inv d' (note_scheduled raw h).
Proof.
  intros [] [Hwt Hu _ A]. assert (Em : db_ms d' = db_ms d) by (unfold db_ms; by rewrite Hu).
  assert (Hz : zwf (zset_at (buffer_k base) d)) by apply inv_wt0.
  split; cbn [note_scheduled h_scheduled h_admitted h_dropped];
    rewrite ?Em, ?(le_leases _ _ A), ?(le_buffer _ _ A), ?(le_caller _ _ A), ?(le_dlq _ _ A); try done.
  - unfold clock_ok. by rewrite Em, Hu.
  - intros n Hn. rewrite (le_count _ _ A). by apply inv_count0.
  - intros raw'. specialize (inv_once0 raw'). rewrite occ_cons. cbn [s_buffer set_buffer abs] in *.
    pose proof (occ_members_zadd raw' q raw _ Hz). lia.
  - intros raw' Hr. cbn [s_buffer set_buffer]. rewrite zadd_members.
    apply elem_of_cons in Hr as [->|Hr]; [left; by left|].
    destruct (inv_kept0 raw' Hr) as [?|?]; [left; by right|by right].
Qed.

Lemma Inv_inflight d d' h id e :
  Inv d h -> wrote (inflight_k base id) e d d' -> Inv d' h.
Proof.
  intros HI Hw. pose proof (inv_wt _ _ HI) as Hwt.
  eapply Inv_equiv; [exact HI|apply (moved_of Hw);
    [by eapply wt_inflight_write|by apply (abs_inflight base _ _ _ _ Hw)]|done..|].
  apply (inv_caller _ _ HI).
Qed.

Lemma Inv_signal d d' h id l ex :
  Inv d h -> wrote (signal_k base id) (lentry l ex) d d' -> Inv d' h.
Proof.
  intros HI Hw. pose proof (inv_wt _ _ HI) as Hwt.
  eapply Inv_equiv; [exact HI|apply (moved_of Hw);
    [by eapply wt_signal_write|by apply (abs_signal base _ _ _ _ _ Hw)]|done..|].
  apply (inv_caller _ _ HI).
Qed.

Lemma Inv_foreign d d' h : Inv d h -> same_keys base d d' -> db_us d' = db_us d -> Inv d' h.
Proof.
  intros HI Hs Hu. pose proof (abs_apart base Hs) as A. eapply Inv_same; [exact HI| |done|..].
  - eapply wt_apart; [done..|]. apply HI.
  - intros n. by rewrite (le_count _ _ A).
  - by rewrite (le_leases _ _ A).
  - by rewrite (le_buffer _ _ A).
  - by rewrite (le_dlq _ _ A).
  - intros w. rewrite (le_caller _ _ A). apply (inv_caller _ _ HI).
Qed.

Lemma snd_drun_call cj {B} (k : rcmd B) d : snd (drun cj (call k) d) = snd (db_exec cj k d).
Proof.
  unfold drun. cbn. change (@rexec db (db_server cj) B k d) with (db_exec cj k d).
  by destruct (db_exec cj k d) as [[] ?].
Qed.

Lemma Inv_renew d d' h id sec lease :
  Inv d h -> moved base W d d' (snd (renew_spec sec lease id (abs base d))) -> Inv d' h.
Proof.
  intros HI M. unfold renew_spec in M. pose proof (inv_wt _ _ HI) as Hwt.
  case_bool_decide as Hm; (eapply Inv_equiv; [exact HI|exact M|..]; try done; try apply (inv_caller _ _ HI)).
  cbn [snd s_leases set_leases]. rewrite length_zadd by apply Hwt. rewrite bool_decide_true by done. lia.
Qed.

Lemma Inv_release d d' h id :
  Inv d h -> wt base W d' -> db_us d' = db_us d ->
  abs base d' ≡ snd (release_spec id (abs base d)) -> Inv d' h.
Proof.
  intros HI Hw Hu A. unfold release_spec in A.
  destruct (String.eqb id estr); cbn [snd] in A; (eapply Inv_same; [exact HI|done|done|..]);
    try (intros n; by rewrite (le_count _ _ A)); try (by rewrite (le_buffer _ _ A));
    try (by rewrite (le_dlq _ _ A));
    try (intros w; rewrite (le_caller _ _ A); apply (inv_caller _ _ HI));
    rewrite (le_leases _ _ A); cbn; [lia|]. apply length_zrem_le.
Qed.

(** Every state the fleet can reach satisfies the invariant. *)
Lemma reach_Inv r h : reach r h -> Inv (rview r) h.
Proof.
  induction 1 as [r Hclk Hf|r r' h us _ IH Hus Er Hclk|r h id path payload priority ov _ IH Hs fields
    |r h w _ IH Hw|r h id lease _ IH Hlease|r h ch id w _ IH|B r h k id _ IH Hk|r h id _ IH|B r h k _ IH Hk].
  - by apply Inv_start.
  - rewrite Er in *. by apply Inv_time.
  - destruct Hs. destruct (schedule_steps rcjson base W (rview r) id path payload priority ov
      (inv_wt _ _ IH) (inv_clock _ _ IH)) as (d' & E & M); try done.
    rewrite (proj2 (run_view _ _)). fold fields in E. rewrite E. by eapply Inv_schedule.
  - destruct (consume_steps rcjson rcjson_spec base c w Hc (rview r)
      (inv_wt _ _ IH) (inv_clock _ _ IH)) as (d' & E & M).
    unfold run_consume. rewrite (proj2 (run_view _ _)), (proj1 (run_view _ _)), E. cbn [fst snd].
    pose proof (consume_effect c w (db_sec (rview r)) (db_ms (rview r)) (abs base (rview r))) as He.
    revert He M. generalize (consume_spec c w (db_sec (rview r)) (db_ms (rview r)) (abs base (rview r))).
    intros [rep s'] He M. cbn [fst snd] in *. unfold note_consumed, head_of.
    inversion He as [? Hst Htk Hy|? Hst Htk|? p raw rest t Hb Ht Hst Htk Hmk|? p raw rest t Hb Ht Hst Htk Hroom]; subst.
    + rewrite Htk, Hst. by eapply Inv_called.
    + rewrite Htk, Hst. by eapply Inv_called.
    + cbn in Hb. rewrite Htk, Hb. cbn [head fmap option_fmap option_map snd option_list app].
      assert (E2 : (cr_status rep =? -1) || (cr_status rep =? -2) = true)
        by (by destruct Hst as [-> | ->]). rewrite E2.
      eapply (Inv_drop _ _ _ _ _ _ _ _ _ (bool_decide (cr_status rep = -1))); try done.
      intros Hd. apply bool_decide_eq_false in Hd. destruct Hst; [done|auto].
    + rewrite Htk. by eapply Inv_admit.
  - destruct (renew_steps rcjson base W (rview r) id lease
      (inv_wt _ _ IH) (inv_clock _ _ IH) Hlease) as (d' & E & M).
    rewrite (proj2 (run_view _ _)), E. by eapply Inv_renew.
  - destruct (release_steps rcjson base W (rview r) ch id w (inv_wt _ _ IH))
      as (d' & E & H1 & H2 & _ & H3).
    rewrite (proj2 (run_view _ _)), E. by eapply Inv_release.
  - rewrite (proj2 (run_view _ _)). eapply Inv_inflight; [exact IH|].
    assert (E : snd (drun rcjson (call k) (rview r)) = snd (db_exec rcjson k (rview r))).
    { apply snd_drun_call. }
    rewrite E. by apply exec_wrote.
  - rewrite (proj2 (run_view _ _)). unfold drun. cbn [call run].
    change (@rexec db (db_server rcjson) _ (LPOP (signal_k base id)) (rview r))
      with (db_exec rcjson (LPOP (signal_k base id)) (rview r)).
    cbn [db_exec]. rewrite as_list_at by apply IH. cbn [typed].
    destruct (list_at _ _) as [|x l]; [exact IH|]. cbn [snd].
    eapply Inv_signal; [exact IH|]. apply wrote_set_list.
  - rewrite (proj2 (run_view _ _)), snd_drun_call. eapply Inv_foreign; [exact IH|by apply foreign_same|apply exec_clock].
Qed.
End Fleet.
