(* ===== verification/Safety.v ===== *)
(** * Safety: the guarantees of the shared state

    The theorems about the scripts, stated for any server with the documented
    behaviour and any rounding of the Lua numbers, with witnesses on the
    reference keyspace computing in doubles. *)

From S2P Require Import Prelude Float Text Json Redis Zset Keyspace Scripts Window State Store Consume Schedule Lease System.

Open Scope Z_scope.
Open Scope rl_scope.

(** ** A run to evaluate *)

Definition demo : string := "demo".

(** One second windows, two tasks per window, two at a time. *)
Definition demo_cfg : cfg := Cfg 1 1000 2 2 3600 30.

Definition demo_start : db := Db 1700000000250000 ∅ [].

Definition demo_fields (id : string) : list (string * json) :=
  task_fields id "app.tasks.send" [("to", JStr id)] (inflight_k demo id).

Definition demo_schedule (id : string) (priority : Q) (d : db) : db :=
  snd (run (schedule_lua (F := binary64) (buffer_k demo) (dumps (JObj (demo_fields id))) priority None) d).

Definition demo_consume (w : string) (d : db) : (string + consume_reply) * db :=
  run_consume (F := binary64) demo demo_cfg w d.

Definition demo_buffered : db := demo_schedule "b" 10 (demo_schedule "a" 5 demo_start).

Lemma demo_cfg_ok : cfg_ok (F := binary64) demo_cfg.
Proof. split; cbn; try lia. split; cbn; try lia. by vm_compute. Qed.

Lemma demo_clock_ok : clock_ok demo_start.
Proof. by split; vm_compute. Qed.

Lemma demo_fresh : fresh demo demo_start.
Proof. done. Qed.

Lemma demo_schedulable id : schedulable "app.tasks.send" [("to", JStr id)] None.
Proof. by split. Qed.

(** Two tasks are scheduled and a worker consumes once. *)
Definition demo_admitted : db := snd (demo_consume "w1" demo_buffered).

Definition demo_scheduled_history : history :=
  note_scheduled (stored (demo_fields "b") (db_ms (demo_schedule "a" 5 demo_start)) None)
    (note_scheduled (stored (demo_fields "a") (db_ms demo_start) None) (History [] [] [])).

Definition demo_history : history :=
  note_consumed (db_ms demo_buffered) (head_of demo demo_buffered)
    (fst (demo_consume "w1" demo_buffered)) demo_scheduled_history.

Lemma demo_reach_schedule workers d h id (priority : Q) :
  reach (F := binary64) demo demo_cfg workers d h ->
  reach (F := binary64) demo demo_cfg workers (demo_schedule id priority d)
    (note_scheduled (stored (demo_fields id) (db_ms d) None) h).
Proof.
  intros Hr.
  exact (reach_schedule (F := binary64) demo demo_cfg workers d h id "app.tasks.send"
    [("to", JStr id)] priority None Hr (demo_schedulable id)).
Qed.

Lemma demo_reach_consume (workers : string -> Prop) d h w :
  reach (F := binary64) demo demo_cfg workers d h -> workers w ->
  reach (F := binary64) demo demo_cfg workers (snd (demo_consume w d))
    (note_consumed (db_ms d) (head_of demo d) (fst (demo_consume w d)) h).
Proof. intros Hr Hw. exact (reach_consume (F := binary64) demo demo_cfg workers d h w Hr Hw). Qed.

Lemma demo_reach_buffered workers :
  reach (F := binary64) demo demo_cfg workers demo_buffered demo_scheduled_history.
Proof.
  unfold demo_buffered, demo_scheduled_history.
  apply (demo_reach_schedule _ (demo_schedule "a" 5 demo_start) _ "b" 10).
  apply (demo_reach_schedule _ demo_start _ "a" 5).
  apply reach_start; [exact demo_clock_ok|exact demo_fresh].
Qed.

Lemma demo_reach : reach (F := binary64) demo demo_cfg (eq "w1") demo_admitted demo_history.
Proof.
  unfold demo_admitted, demo_history.
  exact (demo_reach_consume (eq "w1") demo_buffered _ "w1" (demo_reach_buffered _) eq_refl).
Qed.

Lemma demo_wt : wt demo 1000 demo_buffered.
Proof.
  exact (inv_wt _ _ _ _ _ (reach_Inv (FL := binary64_laws) _ _ _ demo_cfg_ok _ _
    (demo_reach_buffered (eq "w1")))).
Qed.

Lemma demo_buffered_clock : clock_ok demo_buffered.
Proof.
  exact (inv_clock _ _ _ _ _ (reach_Inv (FL := binary64_laws) _ _ _ demo_cfg_ok _ _
    (demo_reach_buffered (eq "w1")))).
Qed.

(** A second worker has called since. *)
Definition demo_two : db := snd (demo_consume "w2" demo_admitted).

Lemma demo_reach_two :
  reach (F := binary64) demo demo_cfg (fun _ => True) demo_two
    (note_consumed (db_ms demo_admitted) (head_of demo demo_admitted)
       (fst (demo_consume "w2" demo_admitted)) demo_history).
Proof.
  unfold demo_two.
  apply (demo_reach_consume (fun _ => True) demo_admitted demo_history "w2"); [|done].
  unfold demo_admitted, demo_history.
  exact (demo_reach_consume (fun _ => True) demo_buffered _ "w1" (demo_reach_buffered _) I).
Qed.

Lemma demo_two_wt : wt demo 1000 demo_two.
Proof.
  exact (inv_wt _ _ _ _ _ (reach_Inv (FL := binary64_laws) _ _ _ demo_cfg_ok _ _ demo_reach_two)).
Qed.

Lemma demo_two_clock : clock_ok demo_two.
Proof.
  exact (inv_clock _ _ _ _ _ (reach_Inv (FL := binary64_laws) _ _ _ demo_cfg_ok _ _ demo_reach_two)).
Qed.

Definition demo_reply (w : string) (d : db) : consume_reply :=
  match fst (demo_consume w d) with inr rep => rep | inl _ => ConsumeReply 0 None 0 0 0 0 0 0 end.

Lemma demo_window_ok : window_ok (F := binary64) 1 1000.
Proof. exact (ck_window _ demo_cfg_ok). Qed.

Section Theorems.
Context {F : Rounding} {FL : RoundingLaws F}.
Context {R : Type} `{RS : RedisSpec R}.

(** C1. consume.lua refines its contract: on every server whose keyspace is
    well typed it returns, without error, the reply of [consume_spec] and
    leaves the abstract state [consume_spec] prescribes, in a keyspace that is
    well typed again; it neither moves the clock nor publishes. *)
Theorem consume_refines (base : string) (c : cfg) (worker : string) (r : R) :
  cfg_ok c -> wt base (c_ms c) (rview r) -> clock_ok (rview r) ->
  let o := run_consume base c worker r in
  let spec := consume_spec c worker (db_sec (rview r)) (db_ms (rview r)) (abs base (rview r)) in
  fst o = inr (fst spec) /\ abs base (rview (snd o)) ≡ snd spec /\
  wt base (c_ms c) (rview (snd o)) /\ db_us (rview (snd o)) = db_us (rview r) /\
  db_pub (rview (snd o)) = db_pub (rview r).
Proof.
  intros Hc Hw Hk o spec. by destruct (consume_meets base c Hc worker r Hw Hk) as [E []].
Qed.

(** C10. No script meets a value of the wrong kind.  In every state a fleet
    can reach, every key of a limiter holds the type the scripts expect, with
    decodable tasks in the buffer; so no call of any of the limiter's scripts
    raises, and what it leaves is well typed again.  The markers of inline
    acquisitions are scheduled plain, as the base class does; those the task
    queues wrap are not in these states, and make consume.lua raise. *)
Theorem scripts_well_typed (base : string) (c : cfg) (workers : string -> Prop) (r : R) h :
  cfg_ok c -> reach base c workers r h ->
  let good := fun (A : Type) (p : prog A) =>
    (exists a, fst (run p r) = inr a) /\ wt base (c_ms c) (rview (snd (run p r))) in
  wt base (c_ms c) (rview r) /\
  (forall w, good _ (consume_lua base (buffer_k base) (conc_k base) (dlq_k base) (args_of c w))) /\
  (forall id, good _ (renew_lua (conc_k base) id (c_lease c))) /\
  (forall id ch w, good _ (release_lua (conc_k base) (inflight_k base id) ch id w)) /\
  good _ (health_lua base (buffer_k base) (conc_k base) (c_window c)) /\
  (forall id path payload prio ov, schedulable path payload ov ->
     good _ (schedule_lua (buffer_k base) (dumps (JObj (task_fields id path payload (inflight_k base id)))) prio ov)).
Proof.
  intros Hc Hr good. pose proof (reach_Inv base c workers Hc r h Hr) as HI.
  pose proof (inv_wt _ _ _ _ _ HI) as Hw. pose proof (inv_clock _ _ _ _ _ HI) as Hk. destruct (ck_lease c Hc) as [L1 L2].
  assert (Hgood : forall A (p : prog A) a d', drun rcjson p (rview r) = (inr a, d') -> wt base (c_ms c) d' -> good A p).
  { intros A p a d' E Hd. unfold good. rewrite (proj1 (run_view p r)), (proj2 (run_view p r)), E. split; [by exists a|done]. }
  split; [done|]. split_and!.
  - intros w. destruct (consume_steps rcjson rcjson_spec base c w Hc (rview r) Hw Hk) as (d' & E & M).
    exact (Hgood _ _ _ _ E (mv_wt _ _ _ _ _ M)).
  - intros id. destruct (renew_steps rcjson base _ (rview r) id (c_lease c) Hw Hk (conj L1 L2)) as (d' & E & M).
    exact (Hgood _ _ _ _ E (mv_wt _ _ _ _ _ M)).
  - intros id ch w. destruct (release_steps rcjson base _ (rview r) ch id w Hw) as (d' & E & M & _).
    exact (Hgood _ _ _ _ E M).
  - destruct (health_steps rcjson base _ (rview r) (c_window c) Hw Hk (ck_window c Hc)) as [E M].
    exact (Hgood _ _ _ _ E (mv_wt _ _ _ _ _ M)).
  - intros id path payload prio ov [S1 S2 S3 S4].
    destruct (schedule_steps rcjson base _ (rview r) id path payload prio ov Hw Hk S1 S2 S3 S4) as (d' & E & M).
    exact (Hgood _ _ _ _ E (mv_wt _ _ _ _ _ M)).
Qed.

(** C5. Concurrency is bounded: in every state a fleet can reach, whatever the
    interleaving, the crashes and the passing of time, the concurrency set
    holds at most [max_concurrency] leases. *)
Theorem concurrency_bound (base : string) (c : cfg) (workers : string -> Prop) (r : R) h :
  cfg_ok c -> reach base c workers r h ->
  Z.of_nat (length (s_leases (abs base (rview r)))) <= c_conc c.
Proof. intros Hc Hr. apply (inv_conc _ _ _ _ _ (reach_Inv base c workers Hc r h Hr)). Qed.

(** Admissions between two times. *)
Definition admissions (u v : Z) (h : history) : Z :=
  Z.of_nat (length (filter (fun a => u <= fst a < v) (h_admitted h))).

Lemma filter_split {A} (P Q1 Q2 : A -> Prop)
    `{!forall x, Decision (P x), !forall x, Decision (Q1 x), !forall x, Decision (Q2 x)} l :
  (forall x, x ∈ l -> P x -> Q1 x \/ Q2 x) ->
  (length (filter P l) <= length (filter Q1 l) + length (filter Q2 l))%nat.
Proof.
  induction l as [|x l IH]; intros Hs; [cbn; lia|]. rewrite !filter_cons.
  assert (IH' := IH ltac:(intros y Hy; apply Hs; by right)).
  pose proof (Hs x ltac:(by left)). repeat case_decide; cbn [length]; try lia. tauto.
Qed.

(** C6. The rate is bounded: over every run of the fleet, at most [limit]
    tasks are admitted in each fixed window, and at most twice [limit] in any
    interval as long as the window. *)
Theorem rate_bound (base : string) (c : cfg) (workers : string -> Prop) (r : R) h (n u : Z) :
  cfg_ok c -> reach base c workers r h -> 0 <= u ->
  adm c n h <= c_limit c /\ admissions u (u + c_ms c) h <= 2 * c_limit c.
Proof.
  intros Hc Hr Hu. pose proof (reach_Inv base c workers Hc r h Hr) as HI.
  split; [apply HI|]. pose proof (wk_pos _ _ (ck_window _ Hc)) as HW.
  pose proof (inv_limit _ _ _ _ _ HI (wstart u (c_ms c))) as L1.
  pose proof (inv_limit _ _ _ _ _ HI (wstart u (c_ms c) + c_ms c)) as L2.
  unfold admissions, adm in *.
  enough (Hs : forall x, x ∈ h_admitted h -> u <= fst x < u + c_ms c ->
    wstart (fst x) (c_ms c) = wstart u (c_ms c) \/
    wstart (fst x) (c_ms c) = wstart u (c_ms c) + c_ms c).
  { pose proof (filter_split _ _ _ _ Hs). lia. }
  intros [t raw] _ Ht. cbn [fst] in *. unfold wstart.
  assert (u / c_ms c <= t / c_ms c) by (apply Z.div_le_mono; lia).
  assert (t / c_ms c < u / c_ms c + 2).
  { apply Z.div_lt_upper_bound; [lia|]. pose proof (Z.div_mod u (c_ms c)).
    pose proof (Z.mod_pos_bound u (c_ms c)). nia. }
  assert (t / c_ms c = u / c_ms c \/ t / c_ms c = u / c_ms c + 1) as [->| ->] by lia; lia.
Qed.

(** C7. No task is lost and none runs twice: at every moment a scheduled task
    is buffered, was admitted, or was dropped for its age; for each stored task
    the places it occupies never outnumber the times it was scheduled; and a
    dropped task that is no acquire marker is in the dead letter queue. *)
Theorem tasks_accounted (base : string) (c : cfg) (workers : string -> Prop) (r : R) h (raw : string) :
  cfg_ok c -> reach base c workers r h ->
  (raw ∈ h_scheduled h ->
     raw ∈ members (s_buffer (abs base (rview r))) \/ raw ∈ (snd <$> h_admitted h) \/
     raw ∈ h_dropped h) /\
  (occ raw (members (s_buffer (abs base (rview r)))) + occ raw (snd <$> h_admitted h)
   + occ raw (h_dropped h) <= occ raw (h_scheduled h))%nat /\
  (forall t, raw ∈ h_dropped h -> task_of raw = Some t -> t_marker t = false ->
     raw ∈ s_dlq (abs base (rview r))).
Proof.
  intros Hc Hr. pose proof (reach_Inv base c workers Hc r h Hr) as HI.
  split; [apply HI|]. split; [apply HI|]. intros t. apply (inv_dlq _ _ _ _ _ HI).
Qed.

(** C24. The estimate enforces the documented blend: when a task is admitted
    at [now], the exact weighted blend of the admissions of the previous window
    and of the current one is below the limit, up to a relative error of
    [2^-51] of the doubles. *)
Theorem admission_blend (base : string) (c : cfg) (workers : string -> Prop) (r : R) h w rep :
  cfg_ok c -> reach base c workers r h -> fst (run_consume base c w r) = inr rep ->
  cr_status rep = 1 ->
  let now := db_ms (rview r) in
  let cur := adm c (wstart now (c_ms c)) h in
  let prev := adm c (wstart now (c_ms c) - c_ms c) h in
  (cur + prev * (left_ms now (c_ms c) / c_ms c) < c_limit c + (cur + prev)%Z * (1 # 2 ^ 51))%Q.
Proof.
  intros Hc Hr E Hst now cur prev. pose proof (reach_Inv base c workers Hc r h Hr) as HI.
  destruct (consume_outcome base c Hc w r rep (inv_wt _ _ _ _ _ HI) (inv_clock _ _ _ _ _ HI) E)
    as (s' & He & _).
  assert (Hroom : has_room c now (reclaim (db_sec (rview r)) (abs base (rview r))) = true).
  { by inversion He as [| |? ? ? ? ? ? ? [?|?]|]; subst; try congruence. }
  apply andb_prop in Hroom as [Hl _]. apply Qltb_lt in Hl.
  change (load (c_ms c) now (reclaim (db_sec (rview r)) (abs base (rview r))))
    with (load (c_ms c) now (abs base (rview r))) in Hl. unfold load in Hl.
  pose proof (wk_pos _ _ (ck_window _ Hc)) as HW.
  assert (Hn : 0 <= now) by apply (clock_bounds _ (inv_clock _ _ _ _ _ HI)).
  pose proof (wstart_bounds now (c_ms c) Hn HW).
  rewrite (inv_count _ _ _ _ _ HI (wstart now (c_ms c))) in Hl by (fold now; lia).
  rewrite (inv_count _ _ _ _ _ HI (wstart now (c_ms c) - c_ms c)) in Hl by (fold now; lia).
  fold cur prev in Hl.
  pose proof (inv_limit _ _ _ _ _ HI (wstart now (c_ms c))).
  pose proof (inv_limit _ _ _ _ _ HI (wstart now (c_ms c) - c_ms c)).
  pose proof (ck_limit _ Hc). fold cur prev in H0, H1 |- *.
  pose proof (left_ms_bounds now (c_ms c) HW).
  assert (Herr := est_error cur prev (left_ms now (c_ms c)) (c_ms c)).
  specialize (Herr ltac:(unfold cur, adm; lia) ltac:(unfold prev, adm; lia)
    ltac:(unfold cur, prev in *; b53) ltac:(lia) HW).
  apply Qabs_Qle_condition in Herr. lra.
Qed.

(** Every status of consume.lua says what happened: it yields exactly
    when the caller consumed last and another worker called since; it
    answers idle exactly when the buffer is empty or a limit is reached;
    and in all other cases it takes the head of the buffer, which it admits
    unless the task is too old or its deadline has passed. *)
Theorem consume_status (base : string) (c : cfg) (w : string) (r : R) rep :
  cfg_ok c -> wt base (c_ms c) (rview r) -> clock_ok (rview r) ->
  fst (run_consume base c w r) = inr rep ->
  let s := abs base (rview r) in
  let now := db_ms (rview r) in
  let open := has_room c now (reclaim (db_sec (rview r)) s) in
  (cr_status rep = -3 <-> yields w s = true) /\
  (cr_status rep = 0 <-> yields w s = false /\ (open = false \/ s_buffer s = [])) /\
  (yields w s = false -> open = true -> forall p raw rest, s_buffer s = (p, raw) :: rest ->
     exists t, task_of raw = Some t /\
       cr_status rep = match task_verdict (c_age c) (db_sec (rview r)) now t with
                       | Admit => 1 | Expired => -1 | MarkerElapsed => -2 end /\
       (cr_status rep = 1 -> cr_task rep = Some raw) /\ (cr_status rep <> 1 -> cr_task rep = None)).
Proof.
  intros Hc Hw Hk E s now open.
  destruct (consume_outcome base c Hc w r rep Hw Hk E) as (s' & _ & _ & Es). fold now s in Es.
  apply (f_equal fst) in Es. cbn [fst] in Es. subst rep.
  unfold consume_spec. change (yields w (reclaim _ s)) with (yields w s).
  destruct (yields w s); cbn [fst cr_status].
  { split; [done|]. split; [split; [done|by intros []]|done]. }
  unfold turn_spec.
  change (has_room c now (set_caller _ _)) with open. change (s_buffer (set_caller _ _)) with (s_buffer s).
  destruct open eqn:Eo; cbn [fst reply_of cr_status].
  2: { split; [done|]. split; [split; [auto|done]|done]. }
  destruct (s_buffer s) as [|[p raw] rest] eqn:Eb; cbn [fst reply_of cr_status].
  { split; [done|]. split; [split; [auto|done]|by intros _ _ ???]. }
  destruct (wt_tasks _ _ _ Hw raw) as (t & Ht & _).
  { change (zset_at (buffer_k base) (rview r)) with (s_buffer s). rewrite Eb. by left. }
  rewrite Ht. unfold head_spec.
  destruct (task_verdict _ _ _ t) eqn:Ev; cbn [fst reply_of cr_status cr_task].
  all: split; [done|]; split; [by split; [|intros [_ [?|?]]]|].
  all: intros _ _ p' raw' rest' [= <- <- <-]; exists t; by rewrite Ev.
Qed.

(** C25. Priorities: the admitted task has the lowest score of the buffer,
    ties being broken by the text of the task; it leaves the buffer, and no
    other task does. *)
Theorem priority_order (base : string) (c : cfg) (w : string) (r : R) rep raw :
  cfg_ok c -> wt base (c_ms c) (rview r) -> clock_ok (rview r) ->
  fst (run_consume base c w r) = inr rep -> cr_task rep = Some raw ->
  exists p rest,
    s_buffer (abs base (rview r)) = (p, raw) :: rest /\
    s_buffer (abs base (rview (snd (run_consume base c w r)))) = rest /\
    forall a, a ∈ rest -> (p < fst a)%Q \/ (p == fst a)%Q /\ String.ltb raw (snd a) = true.
Proof.
  intros Hc Hw Hk E Ht.
  destruct (consume_outcome base c Hc w r rep Hw Hk E) as (s' & He & [_ _ _ A] & _).
  rewrite (le_buffer _ _ A). inversion He as [| | |? p raw' rest t Hb Htk Hst Hraw Hroom]; subst; try congruence.
  rewrite Ht in Hraw. injection Hraw as <-. exists p, rest. split; [done|].
  split; [unfold admit_spec; by destruct (t_marker t)|]. intros a Ha.
  pose proof (zwf_ordered _ (zk_wf _ _ (wt_buffer _ _ _ Hw))) as Ho.
  change (zset_at (buffer_k base) (rview r)) with (s_buffer (abs base (rview r))) in Ho.
  rewrite Hb in Ho. apply Sorted.StronglySorted_inv in Ho as [_ Hf]. rewrite Forall_forall in Hf.
  exact (proj1 (zlt_true _ _) (Hf a Ha)).
Qed.

(** C26. Fairness: a worker that consumed last and sees that another worker
    called since yields once, leaving the counters, the buffer and the dead
    letter queue alone, and its next call does not yield. *)
Theorem fair_turns (base : string) (c : cfg) (w w' : string) (r : R) :
  cfg_ok c -> wt base (c_ms c) (rview r) -> clock_ok (rview r) ->
  s_consumer (abs base (rview r)) = Some w -> s_caller (abs base (rview r)) = Some w' -> w' <> w ->
  let o := run_consume base c w r in
  (exists rep, fst o = inr rep /\ cr_status rep = -3 /\ cr_task rep = None) /\
  (forall n, s_count (abs base (rview (snd o))) n = s_count (abs base (rview r)) n) /\
  s_buffer (abs base (rview (snd o))) = s_buffer (abs base (rview r)) /\
  s_dlq (abs base (rview (snd o))) = s_dlq (abs base (rview r)) /\
  exists rep', fst (run_consume base c w (snd o)) = inr rep' /\ cr_status rep' <> -3.
Proof.
  intros Hc Hw Hk Hco Hca Hne o. subst o.
  destruct (consume_meets base c Hc w r Hw Hk) as [E [W U _ A]].
  assert (Hy : yields w (abs base (rview r)) = true).
  { unfold yields. rewrite Hco, Hca. by rewrite !bool_decide_true by (done || congruence). }
  unfold consume_spec in E, A. change (yields w (reclaim _ ?s)) with (yields w s) in E, A.
  rewrite Hy in E, A. cbn [fst snd] in E, A.
  split; [eexists; by rewrite E|]. split; [intros n; by rewrite (le_count _ _ A)|].
  split; [by rewrite (le_buffer _ _ A)|]. split; [by rewrite (le_dlq _ _ A)|].
  destruct (consume_meets base c Hc w (snd (run_consume base c w r)) W) as [E2 _].
  { unfold clock_ok, db_ms. by rewrite U. }
  eexists. split; [exact E2|]. intros Hst.
  destruct (consume_outcome base c Hc w _ _ W ltac:(unfold clock_ok, db_ms; by rewrite U) E2)
    as (s2 & He & _).
  inversion He as [? _ _ Hy'| |? ? ? ? ? ? ? [?|?]|]; subst; try congruence.
  unfold yields in Hy'. rewrite (le_caller _ _ A) in Hy'. cbn in Hy'.
  rewrite (bool_decide_false (Some w <> Some w)) in Hy' by congruence.
  by rewrite andb_false_r in Hy'.
Qed.

(** A single drainer never yields: in every state reached by calls of
    one worker, a consume call of that worker does not answer yield. *)
Theorem single_drainer (base : string) (c : cfg) (w : string) (r : R) h rep :
  cfg_ok c -> reach base c (eq w) r h -> fst (run_consume base c w r) = inr rep ->
  cr_status rep <> -3.
Proof.
  intros Hc Hr E Hst. pose proof (reach_Inv base c (eq w) Hc r h Hr) as HI.
  destruct (consume_outcome base c Hc w r rep (inv_wt _ _ _ _ _ HI) (inv_clock _ _ _ _ _ HI) E)
    as (s' & He & _).
  inversion He as [? _ _ Hy| |? ? ? ? ? ? ? [?|?]|]; subst; try congruence. unfold yields in Hy.
  destruct (s_caller (abs base (rview r))) as [w'|] eqn:Ec.
  - rewrite <-(inv_caller _ _ _ _ _ HI w' Ec) in Hy.
    rewrite (bool_decide_false (Some w <> Some w)) in Hy by congruence.
    by rewrite andb_false_r in Hy.
  - rewrite (bool_decide_false (None <> None)) in Hy by congruence.
    by rewrite andb_false_r in Hy.
Qed.

(** C27. Scheduling is lossless: schedule.lua adds to the buffer, at the
    priority given, a member that consume.lua decodes to the task that was
    serialised, with the time of arrival and the age limit, and whose fields
    are those of the client's document followed by the metadata. *)
Theorem schedule_roundtrip (base : string) (W : Z) (r : R) id path payload (priority : Q) ov :
  wt base W (rview r) -> clock_ok (rview r) -> schedulable path payload ov ->
  let fields := task_fields id path payload (inflight_k base id) in
  let now := db_ms (rview r) in
  let o := run (schedule_lua (buffer_k base) (dumps (JObj fields)) priority ov) r in
  exists raw,
    fst o = inr tt /\ wt base W (rview (snd o)) /\
    abs base (rview (snd o)) ≡
      set_buffer (zadd (Qred (rnd priority)) raw (s_buffer (abs base (rview r)))) (abs base (rview r)) /\
    task_of raw = Some (Task id path (inflight_k base id) now ov (payload_timeout payload)) /\
    loads raw = Some (JObj (fields ++ meta now ov)).
Proof.
  intros Hw Hk [Hj Ha Ht Hm] fields now o. exists (stored fields now ov). subst o.
  destruct (schedule_steps rcjson base W (rview r) id path payload priority ov Hw Hk)
    as (d' & E & [M1 _ _ M4]); try done.
  rewrite (proj1 (run_view _ _)), (proj2 (run_view _ _)). fold fields in E. rewrite E.
  split; [done|]. split; [done|]. split; [exact M4|]. split; [by apply task_of_stored|].
  apply loads_injected; [done|]. cbn in Hj |- *. by rewrite Hj.
Qed.

(** C28. Leases expire on time: a consume call keeps every lease whose expiry
    is not past and reclaims every lease that expired a second ago or earlier,
    unless the call admits that very task again; an admitted task holds a lease
    until [lease_duration] seconds after its admission. *)
Theorem lease_expiry (base : string) (c : cfg) (w : string) (r : R) rep :
  cfg_ok c -> wt base (c_ms c) (rview r) -> clock_ok (rview r) ->
  fst (run_consume base c w r) = inr rep ->
  let before := s_leases (abs base (rview r)) in
  let after := s_leases (abs base (rview (snd (run_consume base c w r)))) in
  let sec := db_sec (rview r) in
  (forall (q : Q) id, (q, id) ∈ before ->
     ((sec <= q)%Q -> id ∈ members after) /\
     ((q <= (sec - 1)%Z)%Q -> (forall raw t, cr_task rep = Some raw -> task_of raw = Some t -> t_id t <> id) ->
        (q, id) ∉ after)) /\
  (forall raw, cr_task rep = Some raw ->
     exists t, task_of raw = Some t /\ zscore (t_id t) after = Some (inject_Z (sec + c_lease c))).
Proof.
  intros Hc Hw Hk E before after sec.
  destruct (consume_outcome base c Hc w r rep Hw Hk E) as (s' & He & [_ _ _ A] & _).
  unfold after. rewrite (le_leases _ _ A). fold sec in He.
  assert (Hz : zwf before) by apply Hw.
  assert (Hcases : s_leases s' = zabove (sec - 1)%Z before /\ cr_task rep = None \/
    exists raw t, cr_task rep = Some raw /\ task_of raw = Some t /\
      s_leases s' = zadd (sec + c_lease c)%Z (t_id t) (zabove (sec - 1)%Z before)).
  { inversion He as [| | |? p raw rest t Hb Ht Hst Hraw Hroom]; subst; [by left..| |].
    - left. split; [by destruct (_ && _)|done].
    - right. exists raw, t. unfold admit_spec. by destruct (t_marker t). }
  assert (Hab : forall a, a ∈ zabove (sec - 1)%Z before <-> ((sec - 1)%Z < fst a)%Q /\ a ∈ before).
  { intros a. unfold zabove. by rewrite list_elem_of_filter, Qltb_lt. }
  assert (Hlt : forall q : Q, (sec <= q)%Q -> ((sec - 1)%Z < q)%Q).
  { intros q Hq. assert ((sec - 1)%Z < sec)%Q by (rewrite <-Zlt_Qlt; lia). lra. }
  destruct Hcases as [[-> En]|(raw & t & Er & Ht & ->)].
  - split; [|intros raw; congruence]. intros q id Hin. split.
    + intros Hq. apply elem_of_members. exists q. apply Hab. auto.
    + intros Hq _ [Hgt _]%Hab. cbn in Hgt. lra.
  - split.
    + intros q id Hin. split.
      * intros Hq. apply zadd_members. right. apply elem_of_members. exists q. apply Hab. auto.
      * intros Hq Hid [[= -> ->]|[[Hgt _]%Hab _]]%zadd_elem; [by eapply Hid|]. cbn in Hgt. lra.
    + intros raw'. rewrite Er. intros [= <-]. exists t. split; [done|].
      by apply zscore_zadd, zabove_wf.
Qed.

(** C29. Renewal and release refine their contracts: renewing moves the expiry
    of a lease that still exists to [lease_duration] seconds from now and
    answers 0, changing nothing, when it is gone; releasing removes the lease
    and the deduplication mark, answers what it removed, and publishes the
    drain signal in every case. *)
Theorem renew_release_refine (base : string) (W : Z) (r : R) id (lease : Z) ch worker :
  wt base W (rview r) -> clock_ok (rview r) -> 0 <= lease < 10 ^ 15 ->
  let s := abs base (rview r) in
  let o := run (renew_lua (conc_k base) id lease) r in
  let o' := run (release_lua (conc_k base) (inflight_k base id) ch id worker) r in
  (fst o = inr (fst (renew_spec (db_sec (rview r)) lease id s)) /\
   abs base (rview (snd o)) ≡ snd (renew_spec (db_sec (rview r)) lease id s) /\
   wt base W (rview (snd o))) /\
  (fst o' = inr (fst (release_spec id s)) /\
   abs base (rview (snd o')) ≡ snd (release_spec id s) /\ wt base W (rview (snd o')) /\
   db_pub (rview (snd o')) = db_pub (rview r) ++ [(ch, worker)]).
Proof.
  intros Hw Hk Hl s o o'. subst o o'.
  destruct (renew_steps rcjson base W (rview r) id lease Hw Hk Hl) as (d1 & E1 & [? ? ? ?]).
  destruct (release_steps rcjson base W (rview r) ch id worker Hw) as (d2 & E2 & H1 & _ & H3 & H4).
  rewrite !(fun p => proj1 (run_view p r)), !(fun p => proj2 (run_view p r)), E1, E2. auto.
Qed.

(** acquire.lua admits exactly below the limit: the reply is that of
    the contract and the counter of the current window, and nothing else,
    grows by one on admission. *)
Theorem acquire_refines (base : string) (window : Q) (W limit : Z) (r : R) :
  wt base W (rview r) -> clock_ok (rview r) -> window_ok window W -> 1 <= limit <= 2 ^ 50 ->
  let s := abs base (rview r) in
  let o := run (acquire_lua base window limit) r in
  fst o = inr (fst (acquire_spec limit W (db_ms (rview r)) s)) /\
  abs base (rview (snd o)) ≡ snd (acquire_spec limit W (db_ms (rview r)) s) /\
  wt base W (rview (snd o)).
Proof.
  intros Hw Hk Hwin Hl s o. subst o.
  destruct (acquire_steps rcjson base W (rview r) window limit Hw Hk Hwin Hl) as (d' & E & [? ? ? ?]).
  by rewrite (proj1 (run_view _ _)), (proj2 (run_view _ _)), E.
Qed.

(** The remaining count of an admitted request is never below -1, and
    it is -1 exactly when less than one token was left before the request:
    the reply of an admission can be negative. *)
Theorem acquire_remaining (base : string) (window : Q) (W limit : Z) (r : R) rep :
  wt base W (rview r) -> clock_ok (rview r) -> window_ok window W -> 1 <= limit <= 2 ^ 50 ->
  fst (run (acquire_lua base window limit) r) = inr rep -> aq_allowed rep = 1 ->
  -1 <= aq_remaining rep <= limit - 1 /\
  (aq_remaining rep = -1 <->
     (limit ⊖ load W (db_ms (rview r)) (abs base (rview r)) < 1)%Q).
Proof.
  intros Hw Hk Hwin Hl E Ha.
  destruct (acquire_steps rcjson base W (rview r) window limit Hw Hk Hwin Hl) as (d' & Ed & _).
  rewrite (proj1 (run_view _ _)), Ed in E. injection E as <-.
  set (e := load W (db_ms (rview r)) (abs base (rview r))) in *. unfold acquire_spec in *.
  fold e in Ha |- *. destruct (Qltb e limit) eqn:El; [|done]. cbn [fst aq_remaining]. clear Ha.
  assert (Hcfg : cfg_ok (Cfg window W limit 1 0 0)) by (by split; cbn; try lia).
  destruct (gauge_ok base _ Hcfg (rview r) Hw Hk) as (Hc0 & _ & Hload & Ht).
  cbn [gauge_of g_cur g_tokens c_limit c_ms] in Hload, Ht, Hc0. fold e in Hload, Ht.
  assert (Hq : (0 <= e)%Q) by (eapply Qle_trans; [|exact Hload]; rewrite <-(Zle_Qle 0); apply Hc0).
  unfold tokens in *. set (x := limit ⊖ e) in *.
  assert (Hx : (x <= limit)%Q) by (apply rnd_le_int; [b53|lra]).
  assert (Hf : Qfloor x <= limit) by (rewrite <-(Qfloor_Z limit); by apply Qfloor_resp_le).
  pose proof (Qfloor_bounds x) as [Hf1 Hf2]. split; [lia|]. split.
  - intros Hm. assert (Hz : Qfloor x <= 0) by lia. rewrite Zle_Qle in Hz.
    change (inject_Z 0) with 0%Q in Hz. lra.
  - intros H1. assert (Hz : (Qfloor x < 1)%Z); [|lia]. rewrite Zlt_Qlt. change (inject_Z 1) with 1%Q. lra.
Qed.

(** health.lua only reads, and it reports the counts, the truncated
    estimate and the sizes; its concurrency counts the leases that have
    expired and are not reclaimed yet, which consume.lua no longer counts. *)
Theorem health_refines (base : string) (window : Q) (W : Z) (r : R) :
  wt base W (rview r) -> clock_ok (rview r) -> window_ok window W ->
  let s := abs base (rview r) in
  let o := run (health_lua base (buffer_k base) (conc_k base) window) r in
  fst o = inr (health_spec W (db_ms (rview r)) s) /\ rview (snd o) = rview r /\
  hl_active (health_spec W (db_ms (rview r)) s) =
    Z.of_nat (length (s_leases (reclaim (db_sec (rview r)) s)))
    + Z.of_nat (length (filter (fun a => (fst a <= (db_sec (rview r) - 1)%Z)%Q) (s_leases s))).
Proof.
  intros Hw Hk Hwin s o. subst o.
  destruct (health_steps rcjson base W (rview r) window Hw Hk Hwin) as [E _].
  rewrite (proj1 (run_view _ _)), (proj2 (run_view _ _)), E. split; [done|]. split; [done|].
  cbn [health_spec hl_active reclaim set_leases s_leases]. generalize (s_leases s). unfold zabove.
  intros z. induction z as [|a z IH]; [done|]. rewrite !filter_cons. cbn [length].
  pose proof (Qltb_lt (db_sec (rview r) - 1)%Z (fst a)) as Hlt.
  pose proof (Qlt_le_dec (db_sec (rview r) - 1)%Z (fst a)) as Hd.
  case_decide as H1; case_decide as H2; cbn [length]; try lia; exfalso.
  - apply Hlt in H1. lra.
  - destruct Hd as [Hd|Hd]; [by apply H1, Hlt|done].
Qed.
End Theorems.

(** ** Witnesses *)

Lemma consume_refines_witness :
  cr_status (demo_reply "w1" demo_buffered) = 1 /\
  fst (demo_consume "w1" demo_buffered) =
    inr (fst (consume_spec (F := binary64) demo_cfg "w1" (db_sec demo_buffered) (db_ms demo_buffered)
      (abs demo demo_buffered))).
Proof.
  split; [by vm_compute|].
  exact (proj1 (consume_refines (FL := binary64_laws) (RS := ref_spec) demo demo_cfg "w1"
    demo_buffered demo_cfg_ok demo_wt demo_buffered_clock)).
Defined.

Lemma concurrency_bound_witness :
  Z.of_nat (length (s_leases (abs demo demo_admitted))) = 1 /\
  Z.of_nat (length (s_leases (abs demo demo_admitted))) <= 2.
Proof.
  split; [by vm_compute|].
  exact (concurrency_bound (FL := binary64_laws) (RS := ref_spec) demo demo_cfg _ demo_admitted _ demo_cfg_ok demo_reach).
Defined.

Lemma rate_bound_witness :
  adm demo_cfg 1700000000000 demo_history = 1 /\
  adm demo_cfg 1700000000000 demo_history <= 2 /\
  admissions 1699999999500 (1699999999500 + 1000) demo_history <= 2 * 2.
Proof.
  split; [by vm_compute|].
  exact (rate_bound (FL := binary64_laws) (RS := ref_spec) demo demo_cfg _ demo_admitted _
    1700000000000 1699999999500 demo_cfg_ok demo_reach ltac:(lia)).
Defined.

Lemma tasks_accounted_witness :
  let raw := stored (demo_fields "a") (db_ms demo_start) None in
  (raw ∈ members (s_buffer (abs demo demo_admitted)) \/ raw ∈ (snd <$> h_admitted demo_history) \/
   raw ∈ h_dropped demo_history) /\ occ raw (snd <$> h_admitted demo_history) = 1%nat.
Proof.
  intros raw. split; [|by vm_compute].
  refine (proj1 (tasks_accounted (FL := binary64_laws) (RS := ref_spec) demo demo_cfg _
    demo_admitted demo_history raw demo_cfg_ok demo_reach) _).
  assert (E : h_scheduled demo_history = [stored (demo_fields "b") (db_ms demo_start) None; raw])
    by by vm_compute.
  rewrite E. right. left.
Defined.

Lemma admission_blend_witness :
  let now := db_ms demo_buffered in
  let cur := adm demo_cfg (wstart now 1000) demo_scheduled_history in
  let prev := adm demo_cfg (wstart now 1000 - 1000) demo_scheduled_history in
  (cur + prev * (left_ms now 1000 / 1000%Z) < 2%Z + (cur + prev)%Z * (1 # 2 ^ 51))%Q.
Proof.
  exact (admission_blend (FL := binary64_laws) (RS := ref_spec) demo demo_cfg _ demo_buffered _ "w1"
    (demo_reply "w1" demo_buffered) demo_cfg_ok (demo_reach_buffered (eq "w1"))
    ltac:(by vm_compute) ltac:(by vm_compute)).
Defined.

Lemma consume_status_witness :
  cr_status (demo_reply "w1" demo_buffered) = 1 /\
  (cr_status (demo_reply "w1" demo_buffered) = -3 <-> yields "w1" (abs demo demo_buffered) = true).
Proof.
  split; [by vm_compute|].
  exact (proj1 (consume_status (FL := binary64_laws) (RS := ref_spec) demo demo_cfg "w1" demo_buffered
    (demo_reply "w1" demo_buffered) demo_cfg_ok demo_wt demo_buffered_clock ltac:(by vm_compute))).
Defined.

Lemma priority_order_witness :
  exists p rest,
    s_buffer (abs demo demo_buffered) = (p, stored (demo_fields "a") (db_ms demo_start) None) :: rest /\
    s_buffer (abs demo demo_admitted) = rest.
Proof.
  destruct (priority_order (FL := binary64_laws) (RS := ref_spec) demo demo_cfg "w1" demo_buffered
    (demo_reply "w1" demo_buffered) (stored (demo_fields "a") (db_ms demo_start) None)
    demo_cfg_ok demo_wt demo_buffered_clock ltac:(by vm_compute) ltac:(by vm_compute))
    as (p & rest & H1 & H2 & _).
  exists p, rest. by split.
Defined.

(** The second worker admitted the second task; the first worker calls, and
    then the second worker, who consumed last, yields. *)
Definition demo_three : db := snd (demo_consume "w1" demo_two).

Lemma demo_three_ok : wt demo 1000 demo_three /\ clock_ok demo_three.
Proof.
  destruct (consume_meets (FL := binary64_laws) (RS := ref_spec) demo demo_cfg demo_cfg_ok "w1" demo_two demo_two_wt
    demo_two_clock) as [_ [H1 H2 _ _]].
  split; [exact H1|]. assert (E : db_us demo_three = db_us demo_two) by exact H2.
  unfold clock_ok, db_ms. rewrite E. exact demo_two_clock.
Qed.

Lemma fair_turns_witness :
  exists rep, fst (demo_consume "w2" demo_three) = inr rep /\ cr_status rep = -3 /\ cr_task rep = None.
Proof.
  exact (proj1 (fair_turns (FL := binary64_laws) (RS := ref_spec) demo demo_cfg "w2" "w1" demo_three
    demo_cfg_ok (proj1 demo_three_ok) (proj2 demo_three_ok) ltac:(by vm_compute)
    ltac:(by vm_compute) ltac:(done))).
Defined.

Lemma single_drainer_witness : cr_status (demo_reply "w1" demo_admitted) <> -3.
Proof.
  exact (single_drainer (FL := binary64_laws) (RS := ref_spec) demo demo_cfg "w1" demo_admitted
    demo_history _ demo_cfg_ok demo_reach ltac:(by vm_compute)).
Defined.

Lemma schedule_roundtrip_witness :
  exists raw,
    task_of raw = Some (Task "c" "app.tasks.send" (inflight_k demo "c") (db_ms demo_buffered)
                          (Some 60) None) /\
    loads raw = Some (JObj (demo_fields "c" ++ meta (db_ms demo_buffered) (Some 60))).
Proof.
  destruct (schedule_roundtrip (FL := binary64_laws) (RS := ref_spec) demo 1000 demo_buffered "c" "app.tasks.send"
    [("to", JStr "c")] 7 (Some 60) demo_wt demo_buffered_clock ltac:(by split))
    as (raw & _ & _ & _ & H1 & H2).
  by exists raw.
Defined.

Lemma lease_expiry_witness :
  exists t, zscore (t_id t) (s_leases (abs demo demo_admitted)) = Some (inject_Z 1700000030).
Proof.
  destruct (lease_expiry (FL := binary64_laws) (RS := ref_spec) demo demo_cfg "w1" demo_buffered
    (demo_reply "w1" demo_buffered) demo_cfg_ok demo_wt demo_buffered_clock ltac:(by vm_compute))
    as [_ H].
  destruct (H (stored (demo_fields "a") (db_ms demo_start) None) ltac:(by vm_compute)) as (t & _ & E).
  by exists t.
Defined.

Lemma renew_release_refine_witness :
  fst (run (release_lua (conc_k demo) (inflight_k demo "a") "demo:drain_signal" "a" "w1") demo_two)
  = inr (1, 0) /\
  fst (run (release_lua (conc_k demo) (inflight_k demo "a") "demo:drain_signal" "a" "w1") demo_two)
  = inr (fst (release_spec "a" (abs demo demo_two))).
Proof.
  split; [by vm_compute|].
  exact (proj1 (proj2 (renew_release_refine (FL := binary64_laws) (RS := ref_spec) demo 1000 demo_two
    "a" 30 "demo:drain_signal" "w1" demo_two_wt demo_two_clock ltac:(lia)))).
Defined.

Lemma acquire_refines_witness :
  fst (run (acquire_lua (F := binary64) demo 1 2) demo_two) = inr (AcquireReply 0 0 750 0 2) /\
  fst (run (acquire_lua (F := binary64) demo 1 2) demo_two)
  = inr (fst (acquire_spec (F := binary64) 2 1000 (db_ms demo_two) (abs demo demo_two))).
Proof.
  split; [by vm_compute|].
  exact (proj1 (acquire_refines (FL := binary64_laws) (RS := ref_spec) demo 1 1000 2 demo_two
    demo_two_wt demo_two_clock demo_window_ok ltac:(lia))).
Defined.

(** A quarter into the next window, half a second later. *)
Definition demo_next : db := tick 1700000001250000 demo_admitted.

Lemma demo_next_ok : wt demo 1000 demo_next /\ clock_ok demo_next.
Proof.
  split; [|by split; vm_compute]. apply wt_tick; [by vm_compute|].
  exact (inv_wt _ _ _ _ _ (reach_Inv (FL := binary64_laws) (RS := ref_spec) _ _ _ demo_cfg_ok _ _ demo_reach)).
Qed.

(** With one admission in the previous window and a limit of one, a quarter
    of a token is left: the request is admitted and its reply reports -1. *)
Lemma acquire_remaining_witness :
  let rep := AcquireReply 1 (-1) 750 1 1 in
  fst (run (acquire_lua (F := binary64) demo 1 1) demo_next) = inr rep /\
  (-1 <= aq_remaining rep <= 1 - 1).
Proof.
  intros rep. split; [by vm_compute|].
  exact (proj1 (acquire_remaining (FL := binary64_laws) (RS := ref_spec) demo 1 1000 1 demo_next rep
    (proj1 demo_next_ok) (proj2 demo_next_ok) demo_window_ok ltac:(lia) ltac:(by vm_compute) eq_refl)).
Defined.

Lemma health_refines_witness :
  fst (run (health_lua (F := binary64) demo (buffer_k demo) (conc_k demo) 1) demo_next)
  = inr (HealthReply 1 0 0 1 750 1) /\
  rview (snd (run (health_lua (F := binary64) demo (buffer_k demo) (conc_k demo) 1) demo_next)) = demo_next.
Proof.
  split; [by vm_compute|].
  exact (proj1 (proj2 (health_refines (FL := binary64_laws) (RS := ref_spec) demo 1 1000 demo_next
    (proj1 demo_next_ok) (proj2 demo_next_ok) demo_window_ok))).
Defined.

Lemma scripts_well_typed_witness : wt demo 1000 demo_two.
Proof.
  exact (proj1 (scripts_well_typed (FL := binary64_laws) (RS := ref_spec) demo demo_cfg (fun _ => True) demo_two _
    demo_cfg_ok demo_reach_two)).
Defined.
