(* ===== verification/Md5.v ===== *)
(** * Md5: the digest that identifies a task

    [hashlib.md5] of the standard library, over strings whose characters are
    the bytes of the message (RFC 1321): padding to blocks of 64 bytes, four
    rounds of sixteen steps on 32-bit words, and the hexadecimal digest. *)

From S2P Require Import Prelude Float Text Json.

Open Scope Z_scope.

Module Md5.
Definition w32 (x : Z) : Z := Z.land x (Z.ones 32).
Definition rotl (x n : Z) : Z := Z.lor (w32 (Z.shiftl x n)) (Z.shiftr x (32 - n)).
Definition not32 (x : Z) : Z := Z.lxor x (Z.ones 32).

Definition round_constants : list Z :=
  [3614090360; 3905402710; 606105819; 3250441966; 4118548399; 1200080426;
   2821735955; 4249261313; 1770035416; 2336552879; 4294925233; 2304563134;
   1804603682; 4254626195; 2792965006; 1236535329; 4129170786; 3225465664;
   643717713; 3921069994; 3593408605; 38016083; 3634488961; 3889429448;
   568446438; 3275163606; 4107603335; 1163531501; 2850285829; 4243563512;
   1735328473; 2368359562; 4294588738; 2272392833; 1839030562; 4259657740;
   2763975236; 1272893353; 4139469664; 3200236656; 681279174; 3936430074;
   3572445317; 76029189; 3654602809; 3873151461; 530742520; 3299628645;
   4096336452; 1126891415; 2878612391; 4237533241; 1700485571; 2399980690;
   4293915773; 2240044497; 1873313359; 4264355552; 2734768916; 1309151649;
   4149444226; 3174756917; 718787259; 3951481745].

Definition shifts : list Z :=
  [7; 12; 17; 22; 7; 12; 17; 22; 7; 12; 17; 22; 7; 12; 17; 22;
   5; 9; 14; 20; 5; 9; 14; 20; 5; 9; 14; 20; 5; 9; 14; 20;
   4; 11; 16; 23; 4; 11; 16; 23; 4; 11; 16; 23; 4; 11; 16; 23;
   6; 10; 15; 21; 6; 10; 15; 21; 6; 10; 15; 21; 6; 10; 15; 21].

(** The mixing function of step [i] and the word of the block it uses. *)
Definition mix (i b c d : Z) : Z * Z :=
  if i <? 16 then (Z.lor (Z.land b c) (Z.land (not32 b) d), i)
  else if i <? 32 then (Z.lor (Z.land d b) (Z.land (not32 d) c), (5 * i + 1) mod 16)
  else if i <? 48 then (Z.lxor b (Z.lxor c d), (3 * i + 5) mod 16)
  else (Z.lxor c (Z.lor b (not32 d)), (7 * i) mod 16).

Abbreviation regs := (Z * Z * Z * Z)%type.

Definition step (m : list Z) (r : regs) (iks : Z * (Z * Z)) : regs :=
  let '(a, b, c, d) := r in
  let '(i, (k, s)) := iks in
  let '(f, g) := mix i b c d in
  let x := w32 (f + a + k + default 0 (m !! Z.to_nat g)) in
  (d, w32 (b + rotl x s), b, c).

Definition schedule : list (Z * (Z * Z)) :=
  combine (map Z.of_nat (seq 0 64)) (combine round_constants shifts).

Definition block (r : regs) (m : list Z) : regs :=
  let '(a, b, c, d) := r in
  let '(a', b', c', d') := fold_left (step m) schedule r in
  (w32 (a + a'), w32 (b + b'), w32 (c + c'), w32 (d + d')).

(** Little-endian words. *)
Fixpoint words (l : list Z) : list Z :=
  match l with
  | b0 :: b1 :: b2 :: b3 :: l' =>
      b0 + Z.shiftl b1 8 + Z.shiftl b2 16 + Z.shiftl b3 24 :: words l'
  | _ => []
  end.

Definition le_bytes (n : nat) (x : Z) : list Z :=
  map (fun i => Z.land (Z.shiftr x (8 * Z.of_nat i)) 255) (seq 0 n).

Definition pad (msg : list Z) : list Z :=
  let n := Z.of_nat (length msg) in
  msg ++ [128] ++ repeat 0 (Z.to_nat ((55 - n) mod 64)) ++ le_bytes 8 (w32 (8 * n) + Z.shiftl (w32 (Z.shiftr (8 * n) 32)) 32).

(** The bytes of a string. *)
Fixpoint bytes (s : string) : list Z :=
  match s with EmptyString => [] | String c s' => code c :: bytes s' end.

(** Blocks of sixteen words, [f] of them. *)
Fixpoint blocks (f : nat) (r : regs) (ws : list Z) : regs :=
  match f, ws with
  | S f', _ :: _ => blocks f' (block r (take 16 ws)) (drop 16 ws)
  | _, _ => r
  end.

Definition hex_bytes (l : list Z) : string :=
  fold_right (fun b s => String (hex_digit (Z.shiftr b 4)) (String (hex_digit (Z.land b 15)) s)) estr l.

Definition md5_hex (s : string) : string :=
  let ws := words (pad (bytes s)) in
  let '(a, b, c, d) := blocks (length ws) (1732584193, 4023233417, 2562383102, 271733878) ws in
  hex_bytes (le_bytes 4 a ++ le_bytes 4 b ++ le_bytes 4 c ++ le_bytes 4 d).

(** The test suite of RFC 1321. *)
Example md5_empty : md5_hex estr = "d41d8cd98f00b204e9800998ecf8427e".
Proof. vm_compute. reflexivity. Qed.
Example md5_alphabet :
  md5_hex "abcdefghijklmnopqrstuvwxyz" = "c3fcd3d76192e4007dfb496cca67e13b".
Proof. vm_compute. reflexivity. Qed.
Example md5_two_blocks :
  md5_hex "12345678901234567890123456789012345678901234567890123456789012345678901234567890"
  = "57edf4a22be3c955ac49da2e2107b67a".
Proof. vm_compute. reflexivity. Qed.

(** A digest is 32 characters. *)
Lemma md5_length s : String.length (md5_hex s) = 32%nat.
Proof.
  unfold md5_hex. destruct (blocks _ _ _) as [[[a b] c] d]. reflexivity.
Qed.

Fixpoint all_hex (s : string) : bool :=
  match s with
  | EmptyString => true
  | String c s' => (match hex_val c with Some _ => true | None => false end) && all_hex s'
  end.

Lemma hex_digit_val n : 0 <= n < 16 -> hex_val (hex_digit n) = Some n.
Proof.
  intros Hn. assert (Hb : n ∈ map Z.of_nat (seq 0 16)).
  { apply list_elem_of_In, in_map_iff. exists (Z.to_nat n). split; [lia|]. apply in_seq. lia. }
  clear Hn. revert n Hb. apply Forall_forall. repeat constructor.
Qed.

Lemma hex_bytes_hex l : Forall (fun b => 0 <= b < 256) l -> all_hex (hex_bytes l) = true.
Proof.
  induction 1 as [|b l Hb _ IH]; [done|]. cbn -[hex_val hex_digit].
  rewrite !hex_digit_val; [done| |].
  - change 15 with (Z.ones 4). rewrite Z.land_ones by lia. by apply Z.mod_pos_bound.
  - rewrite Z.shiftr_div_pow2 by lia. split; [apply Z.div_pos; lia|]. apply Z.div_lt_upper_bound; lia.
Qed.

Lemma le_bytes_range n x : Forall (fun b => 0 <= b < 256) (le_bytes n x).
Proof.
  apply Forall_forall. intros b Hb. apply list_elem_of_In, in_map_iff in Hb as (i & <- & _).
  change 255 with (Z.ones 8). rewrite Z.land_ones by lia. by apply Z.mod_pos_bound.
Qed.

Lemma md5_all_hex s : all_hex (md5_hex s) = true.
Proof.
  unfold md5_hex. destruct (blocks _ _ _) as [[[a b] c] d]. apply hex_bytes_hex.
  rewrite !Forall_app. repeat split; apply le_bytes_range.
Qed.
End Md5.
