(* ===== verification/Py.v ===== *)
(** * Py: the Python side as a state monad with exceptions

    A Python computation reads and writes a [world]: the Redis server behind
    the network, the object it is a method of, the clocks, the random numbers
    and the observable calls it made.  Every round trip to Redis consumes one
    [net] step, which says what other clients did before the command arrives,
    whether the command fails, and how much time passes: a theorem that holds
    for every list of net steps holds for every interleaving and every
    failure. *)

From S2P Require Import Prelude Float Text Json Redis.

Open Scope Z_scope.

(** ** Exceptions *)

Inductive exn :=
  | ConnectionError (m : string)      (* a redis.RedisError *)
  | ResponseError (m : string)        (* a redis.RedisError *)
  | NoScriptError                     (* a redis.RedisError *)
  | ValueError (m : string)
  | JSONDecodeError (m : string)      (* a ValueError *)
  | TypeError (m : string)
  | KeyError (m : string)
  | AttributeError (m : string)
  | ImportError (m : string)
  | RuntimeError (m : string)
  | AssertionError (m : string)
  | NotImplementedError (m : string)
  | FileNotFoundError (m : string)
  | OverflowError (m : string)
  | AcquireTimeout (m : string)
  | UserError (m : string)            (* raised by code of the application *)
  | CancelledError.                   (* asyncio; not an Exception *)

Definition is_redis_error (e : exn) : bool :=
  match e with ConnectionError _ | ResponseError _ | NoScriptError => true | _ => false end.

(** [except Exception] catches everything but cancellation. *)
Definition is_exception (e : exn) : bool :=
  match e with CancelledError => false | _ => true end.

(** ** The world *)

Inductive fault :=
  | Fine          (* the command is executed and answered *)
  | Lost          (* the connection fails before the command is executed *)
  | Unanswered    (* the command is executed, its answer is lost *)
  | Flushed.      (* the server lost its script cache before the command *)

Record net (R : Type) := Net { n_env : R -> R; n_fault : fault; n_dt : Q }.
Arguments Net {R} _ _ _.
Arguments n_env {R} _.
Arguments n_fault {R} _.
Arguments n_dt {R} _.

(** Calls out of the package that the theorems observe. *)
Inductive event :=
  | EWake (delay : Q)                           (* the drain loop is asked to run *)
  | EDispatch (func_path payload task_id : json)  (* a task goes to the backend *)
  | EMetric (name : string) (data : json)       (* the metrics callback is called *)
  | EKill                                       (* SIGTERM to the own process *)
  | ERun (func_path : string) (args : json)     (* an application function runs *)
  | ESleep (s : Q)
  | EThread (name : string)                     (* a thread or task is started *)
  | EStop (name : string)                       (* it is told to stop *)
  | ESend (message : json).                     (* a message to an ASGI server or a broker *)

Record world (R O : Type) := World {
  w_srv : R;
  w_cache : list string;      (* digests of the scripts the server holds *)
  w_net : list (net R);
  w_mono : Q;                 (* time.monotonic() *)
  w_wall : Q;                 (* time.time() *)
  w_rand : list Q;            (* random.random() *)
  w_uuid : list string;       (* uuid.uuid4() *)
  w_trace : list event;       (* oldest first *)
  w_obj : O;
}.
Arguments World {R O} _ _ _ _ _ _ _ _ _.
Arguments w_srv {R O} _.
Arguments w_cache {R O} _.
Arguments w_net {R O} _.
Arguments w_mono {R O} _.
Arguments w_wall {R O} _.
Arguments w_rand {R O} _.
Arguments w_uuid {R O} _.
Arguments w_trace {R O} _.
Arguments w_obj {R O} _.

(** ** The monad *)

Definition py (R O A : Type) : Type := world R O -> (exn + A) * world R O.

Definition pret {R O A} (a : A) : py R O A := fun w => (inr a, w).
Definition pbnd {R O A B} (m : py R O A) (f : A -> py R O B) : py R O B := fun w =>
  match m w with
  | (inl e, w') => (inl e, w')
  | (inr a, w') => f a w'
  end.

#[export] Instance py_ret R O : MRet (py R O) := fun A => pret.
#[export] Instance py_bind R O : MBind (py R O) := fun A B f m => pbnd m f.

Definition raise {R O A} (e : exn) : py R O A := fun w => (inl e, w).

(** [try: m except E: h] for the exceptions [E] accepts. *)
Definition catch {R O A} (p : exn -> bool) (m : py R O A) (h : exn -> py R O A) : py R O A := fun w =>
  match m w with
  | (inl e, w') => if p e then h e w' else (inl e, w')
  | r => r
  end.

(** [try: m finally: f]; an exception of [f] replaces that of [m]. *)
Definition finally {R O A} (m : py R O A) (f : py R O unit) : py R O A := fun w =>
  let '(r, w1) := m w in
  match f w1 with
  | (inl e, w2) => (inl e, w2)
  | (inr _, w2) => (r, w2)
  end.

Definition skip {R O} : py R O unit := pret tt.

(** [if c: m], nothing otherwise. *)
Definition when {R O} (c : bool) (m : py R O unit) : py R O unit := if c then m else skip.

Definition get {R O} : py R O (world R O) := fun w => (inr w, w).
Definition self {R O} : py R O O := fun w => (inr (w_obj w), w).

Definition set_obj {R O} (o : O) (w : world R O) : world R O :=
  World (w_srv w) (w_cache w) (w_net w) (w_mono w) (w_wall w) (w_rand w) (w_uuid w) (w_trace w) o.

(** Assignment to attributes of [self]. *)
Definition modify {R O} (f : O -> O) : py R O unit := fun w => (inr tt, set_obj (f (w_obj w)) w).

Definition emit {R O} (e : event) : py R O unit := fun w =>
  (inr tt, World (w_srv w) (w_cache w) (w_net w) (w_mono w) (w_wall w) (w_rand w) (w_uuid w)
             (w_trace w ++ [e]) (w_obj w)).

Definition monotonic {R O} : py R O Q := fun w => (inr (w_mono w), w).
Definition wall_time {R O} : py R O Q := fun w => (inr (w_wall w), w).

(** [random.random()], the next number of the stream. *)
Definition random {R O} : py R O Q := fun w =>
  (inr (default 0%Q (head (w_rand w))),
   World (w_srv w) (w_cache w) (w_net w) (w_mono w) (w_wall w) (tail (w_rand w)) (w_uuid w)
     (w_trace w) (w_obj w)).

(** [uuid.uuid4().hex], the next identifier of the stream. *)
Definition uuid4 {R O} : py R O string := fun w =>
  (inr (default estr (head (w_uuid w))),
   World (w_srv w) (w_cache w) (w_net w) (w_mono w) (w_wall w) (w_rand w) (tail (w_uuid w))
     (w_trace w) (w_obj w)).

(** [str(u)] of a uuid whose hexadecimal form is [h]: groups of 8, 4, 4, 4
    and 12 digits. *)
Definition uuid_str (h : string) : string :=
  String.substring 0 8 h +:+ "-" +:+ String.substring 8 4 h +:+ "-" +:+ String.substring 12 4 h
  +:+ "-" +:+ String.substring 16 4 h +:+ "-" +:+ String.substring 20 12 h.

(** ** Round trips *)

Section Redis.
Context {R : Type} {RS : RedisServer R} {O : Type}.

(** Other clients act, time passes, the script cache may be lost. *)
Definition arrive (w : world R O) : fault * world R O :=
  match w_net w with
  | [] => (Fine, w)
  | n :: ns =>
      (n_fault n,
       World (n_env n (w_srv w)) (match n_fault n with Flushed => [] | _ => w_cache w end) ns
         (w_mono w + n_dt n)%Q (w_wall w + n_dt n)%Q (w_rand w) (w_uuid w) (w_trace w) (w_obj w))
  end.

Definition set_srv (r : R) (w : world R O) : world R O :=
  World r (w_cache w) (w_net w) (w_mono w) (w_wall w) (w_rand w) (w_uuid w) (w_trace w) (w_obj w).

Definition set_cache (c : list string) (w : world R O) : world R O :=
  World (w_srv w) c (w_net w) (w_mono w) (w_wall w) (w_rand w) (w_uuid w) (w_trace w) (w_obj w).

(** The answer of the server, or its error as an exception. *)
Definition answer {A} (f : fault) (o : string + A) : exn + A :=
  match f with
  | Unanswered => inl (ConnectionError "connection lost")
  | _ => match o with inl e => inl (ResponseError e) | inr a => inr a end
  end.

Definition trip {A} (p : prog A) : py R O A := fun w =>
  let '(f, w1) := arrive w in
  match f with
  | Lost => (inl (ConnectionError "connection lost"), w1)
  | _ => let '(o, r) := run p (w_srv w1) in (answer f o, set_srv r w1)
  end.

(** A single command of the client library. *)
Definition command {A} (c : rcmd A) : py R O A := trip (call c).

(** [SCRIPT LOAD]: the digest of the source joins the cache. *)
Definition script_load (sha : string) : py R O string := fun w =>
  let '(f, w1) := arrive w in
  match f with
  | Lost => (inl (ConnectionError "connection lost"), w1)
  | _ => (answer f (inr sha), set_cache (sha :: w_cache w1) w1)
  end.

(** [EVALSHA]: the script with this digest, or NOSCRIPT. *)
Definition evalsha {A} (sha : string) (p : prog A) : py R O A := fun w =>
  let '(f, w1) := arrive w in
  match f with
  | Lost => (inl (ConnectionError "connection lost"), w1)
  | _ =>
      if bool_decide (sha ∈ w_cache w1) then
        let '(o, r) := run p (w_srv w1) in (answer f o, set_srv r w1)
      else (match f with Unanswered => inl (ConnectionError "connection lost") | _ => inl NoScriptError end, w1)
  end.

(** [BLPOP] with a timeout: other clients act while it waits (the net step),
    then the list is popped or the call times out. *)
Definition blpop (k : string) : py R O (option string) := command (LPOP k).
End Redis.

(** ** Laws *)

Lemma bind_eq {R O A B} (m : py R O A) (f : A -> py R O B) w :
  (m ≫= f) w = match m w with (inl e, w') => (inl e, w') | (inr a, w') => f a w' end.
Proof. done. Qed.

Lemma bind_inr {R O A B} (m : py R O A) (f : A -> py R O B) w a w' :
  m w = (inr a, w') -> (m ≫= f) w = f a w'.
Proof. intros E. by rewrite bind_eq, E. Qed.

Lemma bind_inl {R O A B} (m : py R O A) (f : A -> py R O B) w e w' :
  m w = (inl e, w') -> (m ≫= f) w = (inl e, w').
Proof. intros E. by rewrite bind_eq, E. Qed.

Lemma bind_assoc {R O A B C} (m : py R O A) (f : A -> py R O B) (g : B -> py R O C) w :
  ((m ≫= f) ≫= g) w = (m ≫= fun a => f a ≫= g) w.
Proof. rewrite !bind_eq. by destruct (m w) as [[]]. Qed.

Lemma catch_all_inr {R O A} (m : py R O A) (h : exn -> py R O A) w e w' :
  m w = (inl e, w') -> is_exception e = true -> catch is_exception m h w = h e w'.
Proof. intros E He. unfold catch. by rewrite E, He. Qed.

(** The outcome of a computation satisfies [Q]. *)
Definition wp {R O A} (m : py R O A) (Q : exn + A -> world R O -> Prop) (w : world R O) : Prop :=
  Q (fst (m w)) (snd (m w)).

Section Wp.
Context {R O : Type}.

Lemma wp_ret {A} (a : A) (Q : exn + A -> world R O -> Prop) w : Q (inr a) w -> wp (mret a) Q w.
Proof. done. Qed.

Lemma wp_raise {A} e (Q : exn + A -> world R O -> Prop) w : Q (inl e) w -> wp (raise e) Q w.
Proof. done. Qed.

Lemma wp_bind {A B} (m : py R O A) (f : A -> py R O B) Q w :
  wp m (fun r w' => match r with inl e => Q (inl e) w' | inr a => wp (f a) Q w' end) w ->
  wp (m ≫= f) Q w.
Proof. unfold wp. rewrite bind_eq. by destruct (m w) as [[]]. Qed.

Lemma wp_mono {A} (m : py R O A) (Q Q' : exn + A -> world R O -> Prop) w :
  wp m Q w -> (forall r w', Q r w' -> Q' r w') -> wp m Q' w.
Proof. unfold wp. eauto. Qed.

Lemma wp_eq {A} (m : py R O A) (Q : exn + A -> world R O -> Prop) w r w' :
  m w = (r, w') -> Q r w' -> wp m Q w.
Proof. unfold wp. by intros ->. Qed.

Lemma wp_true {A} (m : py R O A) w : wp m (fun _ _ => True) w.
Proof. done. Qed.

Lemma wp_and {A} (m : py R O A) (Q Q' : exn + A -> world R O -> Prop) w :
  wp m Q w -> wp m Q' w -> wp m (fun r w' => Q r w' /\ Q' r w') w.
Proof. done. Qed.

Lemma wp_catch {A} (p : exn -> bool) (m : py R O A) h Q w :
  wp m (fun r w' => match r with inl e => if p e then wp (h e) Q w' else Q (inl e) w' | inr a => Q (inr a) w' end) w ->
  wp (catch p m h) Q w.
Proof. unfold wp, catch. destruct (m w) as [[e|a] w']; cbn; [|done]. by destruct (p e). Qed.

Lemma wp_finally {A} (m : py R O A) f Q w :
  wp m (fun r w' => wp f (fun r' w2 => match r' with inl e => Q (inl e) w2 | inr _ => Q r w2 end) w') w ->
  wp (finally m f) Q w.
Proof. unfold wp, finally. destruct (m w) as [r w']. cbn. by destruct (f w') as [[]]. Qed.

Lemma wp_self (Q : exn + O -> world R O -> Prop) w : Q (inr (w_obj w)) w -> wp self Q w.
Proof. done. Qed.

Lemma wp_modify f (Q : exn + unit -> world R O -> Prop) w :
  Q (inr tt) (set_obj (f (w_obj w)) w) -> wp (modify f) Q w.
Proof. done. Qed.

Lemma wp_monotonic (K : exn + Q -> world R O -> Prop) w :
  K (inr (w_mono w)) w -> wp monotonic K w.
Proof. done. Qed.

Lemma wp_wall_time (K : exn + Q -> world R O -> Prop) w :
  K (inr (w_wall w)) w -> wp wall_time K w.
Proof. done. Qed.

Lemma wp_random (K : exn + Q -> world R O -> Prop) w :
  K (inr (default 0%Q (head (w_rand w)))) (snd (random w)) -> wp random K w.
Proof. done. Qed.

Lemma wp_uuid4 (K : exn + string -> world R O -> Prop) w :
  K (inr (default estr (head (w_uuid w)))) (snd (uuid4 w)) -> wp uuid4 K w.
Proof. done. Qed.

Lemma wp_emit ev (Q : exn + unit -> world R O -> Prop) w :
  Q (inr tt) (snd (emit ev w)) -> wp (emit ev) Q w.
Proof. done. Qed.

Lemma wp_when (c : bool) m (Q : exn + unit -> world R O -> Prop) w :
  (c = true -> wp m Q w) -> (c = false -> Q (inr tt) w) -> wp (when c m) Q w.
Proof. destruct c; cbn; auto. intros _ H. by apply H. Qed.

Lemma wp_of_sum {A} (x : exn + A) (Q : exn + A -> world R O -> Prop) w : Q x w -> wp (fun w => (x, w)) Q w.
Proof. done. Qed.
End Wp.

(** One step of a computation under [wp]. *)
Ltac wp_step :=
  lazymatch goal with
  | |- wp (mbind _ _) _ _ => apply wp_bind
  | |- wp (catch _ _ _) _ _ => apply wp_catch
  | |- wp (finally _ _) _ _ => apply wp_finally
  | |- wp (modify _) _ _ => apply wp_modify
  | |- wp self _ _ => apply wp_self
  | |- wp (mret _) _ _ => apply wp_ret
  | |- wp (raise _) _ _ => apply wp_raise
  | |- wp skip _ _ => apply (wp_ret tt)
  end; cbn beta iota.
