(* ===== verification/Base.v ===== *)
(** * Base: the limiter base classes (core/base.py, core/scripts.py)

    The attributes every limiter has, their validation, the configuration
    overrides, and the script cache with its recovery from NOSCRIPT.  The
    synchronous and the asynchronous class have the same text up to [await]:
    both are modelled, and they are the same computation. *)

From S2P Require Import Prelude Float Text Json Redis Py.

Open Scope Z_scope.
Open Scope rl_scope.

(** ** Python values *)

(** A JSON value used as a number; an integer stays exact. *)
Definition py_num {F : Rounding} (v : json) : option Q :=
  match v with
  | JInt n => Some (inject_Z n)
  | JBool b => Some (inject_Z (if b then 1 else 0))
  | JDec m s => Some (rnd (m / (10 ^ Z.of_nat s)%Z)%Q)
  | _ => None
  end.

(** [int(x)] for a number: truncation. *)
Definition py_trunc (q : Q) : Z := if Qle_bool 0 q then Qfloor q else - Qfloor (- q)%Q.

(** [int(v)] *)
Definition py_int {F : Rounding} (v : json) : exn + Z :=
  match v with
  | JStr s => match read_Z s with Some n => inr n | None => inl (ValueError "invalid literal for int()") end
  | _ => match py_num v with Some q => inr (py_trunc q) | None => inl (TypeError "int() argument") end
  end.

(** [d.get(k)]: a missing key and a JSON null are both [None]. *)
Definition dict_get (k : string) (d : list (string * json)) : option json :=
  match assoc_last k d with Some JNull => None | o => o end.

(** ** Loading a script file (core/scripts.py) *)

(** The files of an importable package. *)
Class Resources := read_resource : string -> string -> option string.

Definition resource_packages : list string := ["redis_rate_limiter.lua"; "src.redis_rate_limiter.lua"].

Fixpoint load_lua_script `{Resources} (script_name : string) (packages : list string) : exn + string :=
  match packages with
  | [] => inl (ImportError script_name)
  | p :: ps =>
      match read_resource p script_name with
      | Some content => inr content
      | None => load_lua_script script_name ps
      end
  end.

(** ** AbstractRateLimiter *)

Record base := MkBase {
  b_id : string;
  b_limit : Z;
  b_window : Q;
  b_config_version : Z;
  b_drain_paused_until : Q;
  b_script_shas : gmap string string;
  b_script_sources : gmap string string;
}.

(** An object that has these attributes. *)
Class IsBase (O : Type) := {
  base_of : O -> base;
  with_base : (base -> base) -> O -> O;
  base_of_with : forall f o, base_of (with_base f o) = f (base_of o);
  with_base_ext : forall f g o, f (base_of o) = g (base_of o) -> with_base f o = with_base g o;
  with_base_id : forall o, with_base (fun b => b) o = o;
}.

#[export, refine] Instance base_is_base : IsBase base := {
  base_of := fun b => b;
  with_base := fun f b => f b;
}.
Proof. all: done. Defined.

Section Base.
Context {F : Rounding}.

(** [AbstractRateLimiter.__init__] *)
Definition base_init (limiter_id : string) (limit : Z) (window : Q) : exn + base :=
  if String.eqb limiter_id estr then inl (ValueError "limiter_id must be a non-empty string")
  else if limit <? 0 then inl (ValueError "limit must be a non-negative integer")
  else if Qle_bool window 0 then inl (ValueError "window must be a positive number")
  else inr (MkBase limiter_id limit window 0 0 ∅ ∅).

Definition base_persist_config (b : base) : list (string * (Z + Q)) :=
  [("limit", inl (b_limit b)); ("window", inr (b_window b))].

Definition set_window (w paused : Q) (b : base) : base :=
  MkBase (b_id b) (b_limit b) w (b_config_version b) paused (b_script_shas b) (b_script_sources b).
Definition set_limit (n : Z) (b : base) : base :=
  MkBase (b_id b) n (b_window b) (b_config_version b) (b_drain_paused_until b) (b_script_shas b)
    (b_script_sources b).
Definition set_version (n : Z) (b : base) : base :=
  MkBase (b_id b) (b_limit b) (b_window b) n (b_drain_paused_until b) (b_script_shas b)
    (b_script_sources b).
Definition set_sha (k v : string) (b : base) : base :=
  MkBase (b_id b) (b_limit b) (b_window b) (b_config_version b) (b_drain_paused_until b)
    (<[k := v]> (b_script_shas b)) (b_script_sources b).
Definition set_source (k v : string) (b : base) : base :=
  MkBase (b_id b) (b_limit b) (b_window b) (b_config_version b) (b_drain_paused_until b)
    (b_script_shas b) (<[k := v]> (b_script_sources b)).
End Base.

(** ** AbstractSyncRateLimiter and AbstractAsyncRateLimiter *)

(** The digest of a script source, as the server computes it. *)
Class Digest := sha1 : string -> string.

Definition of_sum {R O A} (x : exn + A) : py R O A := fun w => (x, w).

Section Overrides.
Context {F : Rounding} {R O : Type} {B : IsBase O}.

(** [AbstractRateLimiter._apply_config_overrides]: a change made before an
    exception stays. *)
Definition base_apply_overrides (overrides : list (string * json)) : py R O unit :=
  o ← self;
  let window := b_window (base_of o) in
  _ ← (match dict_get "window" overrides with
       | None => skip
       | Some v =>
           match py_num v with
           | None => raise (TypeError "window is not a number")
           | Some new_window =>
               if Qeq_bool new_window window then skip
               else
                 let pause_duration := fmax window new_window in
                 now ← wall_time;
                 modify (with_base (set_window (rnd new_window) (now ⊕ pause_duration)))
           end
       end);
  match dict_get "limit" overrides with
  | None => skip
  | Some v =>
      n ← of_sum (py_int v);
      modify (with_base (set_limit n))
  end.
End Overrides.

Section Scripts.
Context {R : Type} {RS : RedisServer R} {O : Type} {B : IsBase O} {P : Resources} {D : Digest}.

Definition register_script (script_name : string) : py R O string :=
  o ← self;
  source ←
    (match b_script_sources (base_of o) !! script_name with
     | Some source => mret source
     | None =>
         source ← of_sum (load_lua_script script_name resource_packages);
         _ ← modify (with_base (set_source script_name source));
         mret source
     end);
  sha ← script_load (sha1 source);
  _ ← modify (with_base (set_sha script_name sha));
  mret sha.

Definition is_noscript (e : exn) : bool := match e with NoScriptError => true | _ => false end.

Definition cached_sha (script_name : string) : py R O string :=
  o ← self;
  match b_script_shas (base_of o) !! script_name with
  | Some sha => mret sha
  | None => raise (KeyError script_name)
  end.

(** [_eval_script]; [p] is the script the file holds, with its arguments. *)
Definition eval_script {A} (script_name : string) (p : prog A) : py R O A :=
  o ← self;
  _ ← (match b_script_shas (base_of o) !! script_name with
       | Some _ => mret estr
       | None => register_script script_name
       end);
  sha ← cached_sha script_name;
  catch is_noscript (evalsha sha p)
    (fun _ =>
       _ ← register_script script_name;
       new_sha ← cached_sha script_name;
       catch is_noscript (evalsha new_sha p)
         (fun _ => raise (RuntimeError "Redis failed to retain the Lua script after reload."))).

(** The asynchronous class. *)
Definition async_register_script (script_name : string) : py R O string :=
  o ← self;
  source ←
    (match b_script_sources (base_of o) !! script_name with
     | Some source => mret source
     | None =>
         source ← of_sum (load_lua_script script_name resource_packages);
         _ ← modify (with_base (set_source script_name source));
         mret source
     end);
  sha ← script_load (sha1 source);
  _ ← modify (with_base (set_sha script_name sha));
  mret sha.

Definition async_eval_script {A} (script_name : string) (p : prog A) : py R O A :=
  o ← self;
  _ ← (match b_script_shas (base_of o) !! script_name with
       | Some _ => mret estr
       | None => async_register_script script_name
       end);
  sha ← cached_sha script_name;
  catch is_noscript (evalsha sha p)
    (fun _ =>
       _ ← async_register_script script_name;
       new_sha ← cached_sha script_name;
       catch is_noscript (evalsha new_sha p)
         (fun _ => raise (RuntimeError "Redis failed to retain the Lua script after reload."))).
End Scripts.

(** ** Properties *)

Section Laws.
Context {R : Type} {RS : RedisServer R} {O : Type} {B : IsBase O} {P : Resources} {D : Digest}.

(** A round trip on a network that interferes with nothing. *)
Lemma trip_quiet {A} (p : prog A) (w : world R O) :
  w_net w = [] -> trip p w = (answer Fine (fst (run p (w_srv w))), set_srv (snd (run p (w_srv w))) w).
Proof. intros E. unfold trip, arrive. rewrite E. by destruct (run p (w_srv w)). Qed.

Lemma evalsha_quiet {A} sha (p : prog A) (w : world R O) :
  w_net w = [] ->
  evalsha sha p w =
    if bool_decide (sha ∈ w_cache w)
    then (answer Fine (fst (run p (w_srv w))), set_srv (snd (run p (w_srv w))) w)
    else (inl NoScriptError, w).
Proof. intros E. unfold evalsha, arrive. rewrite E. case_bool_decide; [by destruct (run p (w_srv w))|done]. Qed.

(** The file of a script is there, in memory or on disk. *)
Definition script_found (name : string) (o : O) : Prop :=
  is_Some (b_script_sources (base_of o) !! name) \/
  exists source, load_lua_script name resource_packages = inr source.

(** Registration on a quiet network: the digest is cached on both sides. *)
Lemma register_quiet name (w : world R O) :
  w_net w = [] -> script_found name (w_obj w) ->
  exists sha w', register_script name w = (inr sha, w') /\ w_srv w' = w_srv w /\ w_net w' = [] /\ w_mono w' = w_mono w /\ w_wall w' = w_wall w /\
    b_script_shas (base_of (w_obj w')) !! name = Some sha /\ sha ∈ w_cache w'.
Proof.
  intros Hn Hf. unfold register_script. rewrite bind_eq. cbn [self].
  assert (H1 : exists source w1,
    (match b_script_sources (base_of (w_obj w)) !! name with
     | Some source => mret source
     | None => source ← of_sum (load_lua_script name resource_packages);
         _ ← modify (with_base (set_source name source)); mret source
     end : py R O string) w = (inr source, w1) /\ w_srv w1 = w_srv w /\ w_net w1 = [] /\
    w_mono w1 = w_mono w /\ w_wall w1 = w_wall w).
  { destruct (b_script_sources (base_of (w_obj w)) !! name) as [src|] eqn:E.
    - by exists src, w.
    - destruct Hf as [[? Hf]|[src Hf]]; [congruence|]. eexists src, _. rewrite bind_eq. unfold of_sum.
      rewrite Hf. by rewrite bind_eq. }
  destruct H1 as (source & w1 & H1 & Hs & Hn1 & Hm & Hwl). rewrite (bind_inr _ _ _ _ _ H1), bind_eq.
  unfold script_load, arrive. rewrite Hn1. cbn. eexists _, _. split; [done|]. cbn.
  rewrite base_of_with. cbn. rewrite lookup_insert_eq. repeat split; [done..|]. by left.
Qed.

Lemma cached_sha_some name sha (w : world R O) :
  b_script_shas (base_of (w_obj w)) !! name = Some sha -> cached_sha name w = (inr sha, w).
Proof. intros E. unfold cached_sha. rewrite bind_eq. cbn [self]. by rewrite E. Qed.

Lemma eval_found_quiet {A} name sha (p : prog A) (h : exn -> py R O A) (w : world R O) :
  w_net w = [] -> b_script_shas (base_of (w_obj w)) !! name = Some sha -> sha ∈ w_cache w ->
  (sha ← cached_sha name; catch is_noscript (evalsha sha p) h) w =
  (answer Fine (fst (run p (w_srv w))), set_srv (snd (run p (w_srv w))) w).
Proof.
  intros Hn Hs Hc. rewrite (bind_inr _ _ _ _ _ (cached_sha_some _ _ _ Hs)). unfold catch. rewrite evalsha_quiet, bool_decide_true by done.
  by destruct (fst (run p (w_srv w))).
Qed.

(** Loading a script raises no NoScriptError. *)
Lemma register_no_noscript name (w : world R O) : fst (register_script name w) <> inl NoScriptError.
Proof.
  change (wp (register_script name) (fun r _ => r <> inl NoScriptError) w).
  unfold register_script. apply wp_bind, wp_self, wp_bind.
  match goal with |- wp ?m _ _ => assert (H : wp m (fun r _ => r <> inl NoScriptError) w) end.
  { destruct (b_script_sources _ !! name); [by apply wp_ret|]. apply wp_bind.
    unfold of_sum. apply wp_of_sum.
    assert (Hl : forall ps, load_lua_script name ps <> inl NoScriptError).
    { induction ps as [|p ps IH]; cbn; [done|]. by destruct (read_resource p name). }
    specialize (Hl resource_packages). destruct (load_lua_script name resource_packages); [congruence|].
    by apply wp_bind. }
  eapply wp_mono; [exact H|]. intros [e|src] w1 Hr; cbn; [congruence|]. apply wp_bind.
  assert (Hs : wp (script_load (sha1 src)) (fun r _ => r <> inl NoScriptError) w1).
  { unfold wp, script_load. destruct (arrive w1) as [f w2]. by destruct f. }
  eapply wp_mono; [exact Hs|]. intros [e|sha] w2 H2; cbn; [congruence|].
  by apply wp_bind, wp_modify, wp_ret.
Qed.

(** Evaluation on a quiet network. *)
Lemma eval_quiet {A} (name : string) (p : prog A) (w : world R O) :
  w_net w = [] -> script_found name (w_obj w) ->
  exists w', eval_script name p w = (answer Fine (fst (run p (w_srv w))), w') /\
    w_srv w' = snd (run p (w_srv w)) /\ w_net w' = [] /\ w_mono w' = w_mono w /\ w_wall w' = w_wall w.
Proof.
  intros Hn Hf. unfold eval_script. rewrite bind_eq. cbn [self].
  destruct (b_script_shas (base_of (w_obj w)) !! name) as [sha|] eqn:E.
  + destruct (bool_decide (sha ∈ w_cache w)) eqn:Hc.
    * apply bool_decide_eq_true in Hc. rewrite bind_eq. cbn [mret py_ret pret].
      rewrite (eval_found_quiet name sha) by done. by eexists.
    * rewrite bind_eq. cbn [mret py_ret pret]. rewrite (bind_inr _ _ _ _ _ (cached_sha_some _ _ _ E)).
      unfold catch at 1. rewrite evalsha_quiet, Hc by done. cbn [is_noscript].
      destruct (register_quiet name w Hn Hf) as (sha' & w1 & Hr & Hs & Hn1 & Hm & Hwl & Hl & Hin).
      rewrite (bind_inr _ _ _ _ _ Hr), (eval_found_quiet name sha') by done. rewrite Hs. by eexists.
  + destruct (register_quiet name w Hn Hf) as (sha' & w1 & Hr & Hs & Hn1 & Hm & Hwl & Hl & Hin).
    rewrite (bind_inr _ _ _ _ _ Hr), (eval_found_quiet name sha') by done. rewrite Hs. by eexists.
Qed.

(** C31. Script evaluation survives the loss of the script cache: a reload and
    a second attempt make it invisible.  On an undisturbed network the script
    runs exactly once and its reply is returned, whatever digests the client
    and the server hold; and in no run whatsoever, with any failures, does
    NoScriptError reach the caller. *)
Theorem eval_script_recovers {A} (name : string) (p : prog A) (w : world R O) :
  (w_net w = [] -> script_found name (w_obj w) ->
     exists w', eval_script name p w = (answer Fine (fst (run p (w_srv w))), w') /\
       w_srv w' = snd (run p (w_srv w))) /\
  fst (eval_script name p w) <> inl NoScriptError.
Proof.
  split.
  - intros Hn Hf. destruct (eval_quiet name p w Hn Hf) as (w' & E1 & E2 & _). by exists w'.
  - change (wp (eval_script name p) (fun r _ => r <> inl NoScriptError) w).
    assert (Hk : forall w' : world R O, wp (cached_sha name) (fun r _ => r <> inl NoScriptError) w').
    { intros w'. apply wp_bind, wp_self. by destruct (b_script_shas _ !! name). }
    unfold eval_script. apply wp_bind, wp_self, wp_bind.
    assert (Hr : forall w' : world R O, wp (register_script name) (fun r _ => r <> inl NoScriptError) w')
      by exact (register_no_noscript name).
    apply (wp_mono _ (fun r _ => r <> inl NoScriptError)); [destruct (b_script_shas _ !! name); [by apply (wp_ret estr)|apply Hr]|].
    intros [e|s] w1 H1; [congruence|]. apply wp_bind. eapply wp_mono; [apply Hk|].
    intros [e|sha] w2 H2; [congruence|]. apply wp_catch.
    eapply wp_mono; [apply wp_true|].
    intros [e|a] w3 _; [|done]. destruct e; try done. cbn.
    apply wp_bind. eapply wp_mono; [apply Hr|]. intros [e|s'] w4 H4; [congruence|].
    apply wp_bind. eapply wp_mono; [apply Hk|]. intros [e|sha'] w5 H5; [congruence|].
    apply wp_catch. eapply wp_mono; [apply wp_true|].
    by intros [[]|a'] w6 _.
Qed.
End Laws.
