(* ===== verification/Importing.v ===== *)
(** * Importing: import paths (core/importing.py)

    [import_string] and its inverse [resolve_import_path].  What a module
    holds is a parameter: an object is known by its identity. *)

From S2P Require Import Prelude Text Json Redis Py Base.

Open Scope Z_scope.
Open Scope rl_scope.

(** An object of the interpreter: [o_ref] is its identity. *)
Record pyobj := PyObj {
  o_ref : nat;
  o_callable : bool;
  o_module : option string;     (* [__module__] *)
  o_qualname : option string;   (* [__qualname__] *)
}.

(** [importlib.import_module] and the attributes of what it returns. *)
Class Modules := import_module : string -> exn + (string -> option pyobj).

(** [path.rsplit(".", 1)] *)
Fixpoint rsplit (path : string) : option (string * string) :=
  match path with
  | EmptyString => None
  | String c s =>
      match rsplit s with
      | Some (a, b) => Some (String c a, b)
      | None => if Ascii.eqb c "." then Some (estr, s) else None
      end
  end.

(** [sub in s] *)
Definition contains (sub s : string) : bool :=
  match String.index 0 sub s with Some _ => true | None => false end.

Section Importing.
Context {M : Modules}.

Definition import_string (import_path : string) : exn + pyobj :=
  match rsplit import_path with
  | None => inl (ValueError "not enough values to unpack")
  | Some (module_path, func_name) =>
      match import_module module_path with
      | inl e => inl e
      | inr attributes =>
          match attributes func_name with
          | None => inl (AttributeError func_name)
          | Some func => if o_callable func then inr func else inl (TypeError import_path)
          end
      end
  end.

Definition resolve_import_path (fn : pyobj) : exn + string :=
  match o_module fn, o_qualname fn with
  | Some module, Some qualname =>
      if contains "<lambda>" qualname then inl (ValueError "lambda")
      else if contains "<locals>" qualname then inl (ValueError "nested function or closure")
      else if contains "." qualname then inl (ValueError "class-bound callable")
      else
        let import_path := module +:+ "." +:+ qualname in
        match import_string import_path with
        | inl e => inl e
        | inr resolved =>
            if Nat.eqb (o_ref resolved) (o_ref fn) then inr import_path
            else inl (ValueError "Round-trip verification failed")
        end
  | _, _ => inl (ValueError "missing __module__ or __qualname__")
  end.

(** ** Splitting at the last dot *)

Fixpoint dotless (s : string) : bool :=
  match s with EmptyString => true | String c s' => negb (Ascii.eqb c ".") && dotless s' end.

Lemma rsplit_dotless s : dotless s = true -> rsplit s = None.
Proof.
  induction s as [|c s IH]; cbn [dotless rsplit]; [done|]. intros H. apply andb_true_iff in H as [H1 H2].
  rewrite IH by done. apply negb_true_iff in H1. by rewrite H1.
Qed.

Lemma rsplit_app a b : dotless b = true -> rsplit (a +:+ "." +:+ b) = Some (a, b).
Proof.
  intros Hb. induction a as [|c a IH].
  - rewrite !str_app_nil_l, str_app_cons, str_app_nil_l. cbn [rsplit]. by rewrite (rsplit_dotless b Hb).
  - rewrite str_app_cons. cbn [rsplit]. by rewrite IH.
Qed.

Lemma rsplit_spec path a b : rsplit path = Some (a, b) -> path = a +:+ "." +:+ b /\ dotless b = true.
Proof.
  revert a. induction path as [|c s IH]; intros a; cbn [rsplit]; [done|].
  destruct (rsplit s) as [[a' b']|] eqn:E.
  - intros [= <- <-]. destruct (IH a' eq_refl) as [-> Hb]. by rewrite str_app_cons.
  - destruct (Ascii.eqb_spec c "."%char) as [->|]; [|done]. intros [= <- <-]. split; [by rewrite str_app_nil_l|].
    clear IH. revert E. induction s as [|d s IH]; [done|]. cbn [rsplit dotless].
    destruct (rsplit s) as [[]|]; [done|]. destruct (Ascii.eqb d "."); [done|]. cbn. auto.
Qed.

Lemma prefix_cons a x c s : String.prefix (String a x) (String c s) = Ascii.eqb a c && String.prefix x s.
Proof.
  change (String.prefix (String a x) (String c s)) with (if ascii_dec a c then String.prefix x s else false).
  destruct (ascii_dec a c) as [->|H]; [by rewrite Ascii.eqb_refl|].
  by rewrite (proj2 (Ascii.eqb_neq a c) H).
Qed.

Lemma contains_cons a x c s :
  contains (String a x) (String c s) = (Ascii.eqb a c && String.prefix x s) || contains (String a x) s.
Proof.
  unfold contains. change (String.index 0 (String a x) (String c s)) with
    (if String.prefix (String a x) (String c s) then Some 0%nat
     else match String.index 0 (String a x) s with Some n => Some (S n) | None => None end).
  rewrite prefix_cons. destruct (Ascii.eqb a c && String.prefix x s); [done|]. by destruct (String.index 0 (String a x) s).
Qed.

Lemma prefix_nil s : String.prefix estr s = true.
Proof. by destruct s. Qed.

Lemma contains_dot s : contains "." s = negb (dotless s).
Proof.
  induction s as [|c s IH]; [done|]. rewrite contains_cons, IH, prefix_nil, andb_true_r. cbn [dotless].
  rewrite Ascii.eqb_sym. by destruct (Ascii.eqb c ".").
Qed.

(** A text with no first character of [x] does not contain [x]. *)
Lemma contains_head a x s : contains (String a estr) s = false -> contains (String a x) s = false.
Proof.
  induction s as [|c s IH]; [done|]. rewrite !contains_cons, prefix_nil, andb_true_r.
  intros H. apply orb_false_iff in H as [-> H]. by apply IH.
Qed.

(** Import paths round-trip.  What [resolve_import_path] returns is a path
    that [import_string] resolves to the very object it was given; and it
    returns one for every callable that its module holds under its qualified
    name, provided that name is that of a module-level object. *)
Theorem import_roundtrip (fn : pyobj) :
  (forall path, resolve_import_path fn = inr path ->
     exists g, import_string path = inr g /\ o_ref g = o_ref fn /\ o_callable g = true) /\
  (forall module qualname attributes,
     o_module fn = Some module -> o_qualname fn = Some qualname ->
     contains "<" qualname = false -> dotless qualname = true ->
     import_module module = inr attributes -> attributes qualname = Some fn -> o_callable fn = true ->
     resolve_import_path fn = inr (module +:+ "." +:+ qualname)).
Proof.
  assert (Hcall : forall path g, import_string path = inr g -> o_callable g = true).
  { intros path g. unfold import_string. repeat case_goal; try done. intros [= <-]. done. }
  split.
  - intros path. unfold resolve_import_path. destruct (o_module fn) as [m|]; [|done]. destruct (o_qualname fn) as [q|]; [|done].
    do 3 (case_goal; [done|]). destruct (import_string (m +:+ "." +:+ q)) as [e|g] eqn:E; [done|].
    destruct (Nat.eqb_spec (o_ref g) (o_ref fn)); [|done]. intros [= <-]. eauto.
  - intros m q att Hm Hq Hlt Hd Hi Ha Hc. unfold resolve_import_path. rewrite Hm, Hq, contains_dot, Hd.
    rewrite !(contains_head "<") by done. cbn [negb]. unfold import_string. rewrite rsplit_app, Hi, Ha, Hc by done.
    by rewrite Nat.eqb_refl.
Qed.
End Importing.
