(* ===== verification/Loop.v ===== *)
(** * Loop: the drain loop and the backend health monitor

    Model of [DrainLoop] and [BackendHealthMonitor] of core/limiters.py and of
    their asynchronous counterparts in core/async_limiters.py.  The state of a
    loop is changed under its lock only, by [wake], [shutdown] and the steps of
    the loop thread, so a run is an interleaving of these atomic steps. *)

From S2P Require Import Prelude Float Text Json Redis Py.

Open Scope Z_scope.
Open Scope rl_scope.

(** A thread or task: none yet, running, or finished. *)
Inductive thread := NoThread | Running | Finished.

(** [self._thread is None or not self._thread.is_alive()] *)
Definition not_running (t : thread) : bool := match t with Running => false | _ => true end.

Record loop := MkLoop {
  l_next_wake : option Q;     (* time.monotonic() of the pending drain *)
  l_shutdown : bool;
  l_watchdog : Q;
  l_thread : thread;
  l_started : nat;            (* threads started so far *)
}.

Section Loop.
Context {F : Rounding}.

Definition loop_init (watchdog_interval : Q) : loop := MkLoop None false watchdog_interval NoThread 0.

(** [_ensure_started] *)
Definition ensure_started (l : loop) : loop :=
  if not_running (l_thread l) then
    MkLoop (l_next_wake l) (l_shutdown l) (l_watchdog l) Running (S (l_started l))
  else l.

(** [wake(delay)] at monotonic time [now]; the boolean is the notification. *)
Definition wake (now delay : Q) (l : loop) : bool * loop :=
  let target := now ⊕ delay in
  let l := ensure_started l in
  if (match l_next_wake l with None => true | Some t => Qltb target t end) then
    (true, MkLoop (Some target) (l_shutdown l) (l_watchdog l) (l_thread l) (l_started l))
  else (false, l).

(** [shutdown]: the flag; joining the thread is waiting. *)
Definition loop_shutdown (l : loop) : loop :=
  MkLoop (l_next_wake l) true (l_watchdog l) (l_thread l) (l_started l).

(** Program points of [_run]: before the lock is taken, waiting for the
    watchdog, waiting for the pending wake, draining, returned. *)
Inductive point := Top | WaitWatchdog (timeout : Q) | WaitWake (timeout : Q) | Draining | Returned.

Definition clear_wake (l : loop) : loop :=
  MkLoop None (l_shutdown l) (l_watchdog l) (l_thread l) (l_started l).

(** From the top of the loop at time [now]. *)
Definition run_top (now : Q) (l : loop) : point * loop :=
  if l_shutdown l then
    (Returned, MkLoop (l_next_wake l) (l_shutdown l) (l_watchdog l) Finished (l_started l))
  else
    match l_next_wake l with
    | None => (WaitWatchdog (l_watchdog l), l)
    | Some t =>
        let remaining := t ⊖ now in
        if Qltb 0 remaining then (WaitWake remaining, l) else (Draining, clear_wake l)
    end.

(** One step of the loop thread at time [now]; a wait ends by a notification
    or by its timeout. *)
Definition run_step (now : Q) (p : point) (l : loop) : point * loop :=
  match p with
  | Top => run_top now l
  | WaitWatchdog _ =>
      match l_next_wake l with
      | Some _ => (Top, l)
      | None => (Draining, clear_wake l)
      end
  | WaitWake _ => (Top, l)
  | Draining => (Top, l)      (* drain() returned or its exception was logged *)
  | Returned => (Returned, l)
  end.

(** ** Interleavings *)

(** The loop thread and the callers of the loop; time is non-decreasing. *)
Inductive loop_step : Q * point * loop -> Q * point * loop -> Prop :=
  | ls_wake now p l d : loop_step (now, p, l) (now, p, snd (wake now d l))
  | ls_shutdown now p l : loop_step (now, p, l) (now, p, loop_shutdown l)
  | ls_time now now' p l : (now <= now')%Q -> loop_step (now, p, l) (now', p, l)
  | ls_run now p l :
      l_thread l = Running ->
      loop_step (now, p, l) (now, fst (run_step now p l), snd (run_step now p l)).

(** A run from state to state in which no step starts a drain. *)
Inductive quiet : Q * point * loop -> Q * point * loop -> Prop :=
  | quiet_refl s : quiet s s
  | quiet_step s s' s'' :
      loop_step s s' -> (snd (fst s') = Draining -> snd (fst s) = Draining) -> quiet s' s'' -> quiet s s''.

(** The time at which a pending drain is due is not after [t]. *)
Definition due_by (t : Q) (l : loop) : Prop := exists u, l_next_wake l = Some u /\ (u <= t)%Q.

Lemma wake_due now d l :
  due_by (now ⊕ d) (snd (wake now d l)).
Proof.
  unfold wake, due_by. set (l' := ensure_started l).
  destruct (l_next_wake l') as [u|] eqn:E; [|exists (now ⊕ d); split; [done|lra]].
  destruct (Qltb (now ⊕ d) u) eqn:Hq.
  - exists (now ⊕ d). split; [done|lra].
  - apply Qltb_ge in Hq. exists u. by split.
Qed.

Lemma wake_keeps now d l t : due_by t l -> due_by t (snd (wake now d l)).
Proof.
  intros (u & E & Hu). unfold wake, due_by.
  assert (E' : l_next_wake (ensure_started l) = Some u) by (unfold ensure_started; by case_match).
  rewrite E'. destruct (Qltb (now ⊕ d) u) eqn:Hq.
  - apply Qltb_lt in Hq. eexists. split; [done|lra].
  - exists u. by split.
Qed.

(** Every step but the start of a drain keeps a pending wake. *)
Lemma step_keeps s s' t :
  loop_step s s' -> (snd (fst s') = Draining -> snd (fst s) = Draining) ->
  due_by t (snd s) -> due_by t (snd s').
Proof.
  intros Hs Hq Hd. inversion Hs as [now p l d|now p l|now now' p l Hn|now p l Ht]; subst; cbn in *;
    [by apply wake_keeps|done|done|].
  destruct p; cbn in *; try done.
  - unfold run_top in *. destruct Hd as (u & E & Hu). rewrite E in *.
    destruct (l_shutdown l); [by exists u|]. destruct (Qltb 0 (u ⊖ now)); [by exists u|].
    by specialize (Hq eq_refl).
  - destruct Hd as (u & E & Hu). rewrite E in *. by exists u.
Qed.
End Loop.

(** ** The health monitor *)

(** The log records of a check. *)
Inductive health_log := BecameUnhealthy | Recovered.

(** [_run_once]: the outcome of the check, an exception being a failure; the
    transition is logged, a repetition is not. *)
Definition run_once (check : exn + bool) (healthy : bool) : list health_log * bool :=
  let now := match check with
             | inr b => b
             | inl e => if is_exception e then false else healthy
             end in
  ((if healthy && negb now then [BecameUnhealthy]
    else if negb healthy && now then [Recovered] else []), now).

(** A run of checks from the initial, healthy state. *)
Fixpoint run_checks (checks : list (exn + bool)) (healthy : bool) : list health_log * bool :=
  match checks with
  | [] => ([], healthy)
  | c :: cs =>
      let '(log, h) := run_once c healthy in
      let '(logs, h') := run_checks cs h in (log ++ logs, h')
  end.

Section Theorems.
Context {F : Rounding}.

(** C16. A wake is never lost: once the drain loop has been asked to run at a
    time, then in every run of the loop, of further wakes and of the passing of
    time that starts no drain in between, a drain stays pending for that time
    or earlier; and a live loop that reaches its top at or after that time
    drains. *)
Theorem wake_not_lost (now d : Q) (p : point) (l : loop) (now' : Q) (p' : point) (l' : loop) :
  quiet (now, p, snd (wake now d l)) (now', p', l') ->
  due_by (now ⊕ d) l' /\
  (l_shutdown l' = false -> (forall u, l_next_wake l' = Some u -> (u ⊖ now' <= 0)%Q) ->
   fst (run_step now' Top l') = Draining).
Proof.
  intros Hq. assert (Hd : due_by (now ⊕ d) l').
  { assert (H0 := wake_due now d l). revert H0. generalize (now ⊕ d). intros t.
    remember (now, p, snd (wake now d l)) as s. remember (now', p', l') as s'.
    intros H0. assert (H1 : due_by t (snd s)) by (by subst). clear Heqs H0.
    induction Hq as [s|s s1 s2 Hs Hn _ IH]; [by subst|]. apply IH; [done|]. by eapply step_keeps. }
  split; [done|]. intros Hsh Hdue. destruct Hd as (u & E & _). cbn. unfold run_top. rewrite Hsh, E.
  specialize (Hdue u E). by rewrite (proj2 (Qltb_ge _ _) Hdue).
Qed.

(** No drain runs early and requests coalesce: the loop thread starts a
    drain only when a pending time has come or when a whole watchdog interval
    has gone by without a request; starting it clears the request, and any
    number of earlier or later requests leaves one pending time, the
    earliest. *)
Theorem drain_on_time (now : Q) (p : point) (l : loop) (d1 d2 : Q) :
  (p <> Draining -> fst (run_step now p l) = Draining ->
     l_next_wake (snd (run_step now p l)) = None /\
     ((exists t, l_next_wake l = Some t /\ (t ⊖ now <= 0)%Q) \/
      (exists w, p = WaitWatchdog w /\ l_next_wake l = None))) /\
  (exists t, l_next_wake (snd (wake now d2 (snd (wake now d1 l)))) = Some t /\
     (t <= now ⊕ d1)%Q /\ (t <= now ⊕ d2)%Q /\
     (t = now ⊕ d1 \/ t = now ⊕ d2 \/ l_next_wake l = Some t)).
Proof.
  split.
  - intros Hp. destruct p as [|w|w| |]; cbn; try done.
    + unfold run_top. destruct (l_shutdown l); [done|]. destruct (l_next_wake l) as [t|] eqn:E; [|done].
      destruct (Qltb 0 (t ⊖ now)) eqn:Hq; [done|]. intros _. split; [done|]. left.
      exists t. split; [done|]. by apply Qltb_ge in Hq.
    + destruct (l_next_wake l) eqn:E; [done|]. intros _. split; [done|]. right. by exists w.
  - destruct (wake_due now d2 (snd (wake now d1 l))) as (t & E & H2).
    destruct (wake_keeps now d2 _ _ (wake_due now d1 l)) as (t' & E' & H1).
    rewrite E in E'. injection E' as <-. exists t. split; [done|]. split; [done|]. split; [done|].
    revert E. unfold wake. set (l1 := ensure_started l).
    assert (E1 : l_next_wake l1 = l_next_wake l) by (unfold l1, ensure_started; by case_match).
    destruct (match l_next_wake l1 with None => true | Some t0 => Qltb (now ⊕ d1) t0 end); cbn [snd];
      unfold ensure_started; repeat case_match; cbn in *; intros; simplify_eq; auto;
      right; right; congruence.
Qed.

(** One thread of the loop takes [n] steps while callers wake and shut down
    the loop and time passes. *)
Inductive thread_run : nat -> Q * point * loop -> Q * point * loop -> Prop :=
  | tr_refl s : thread_run 0 s s
  | tr_wake n s now p l d : thread_run n s (now, p, l) -> thread_run n s (now, p, snd (wake now d l))
  | tr_shutdown n s now p l : thread_run n s (now, p, l) -> thread_run n s (now, p, loop_shutdown l)
  | tr_time n s now now' p l : (now <= now')%Q -> thread_run n s (now, p, l) -> thread_run n s (now', p, l)
  | tr_run n s now p l :
      p <> Returned -> thread_run n s (now, p, l) ->
      thread_run (S n) s (now, fst (run_step now p l), snd (run_step now p l)).

(** Steps a thread has left once the loop is shut down. *)
Definition steps_left (p : point) : nat :=
  match p with Returned => 0 | Top => 1 | WaitWake _ | Draining => 2 | WaitWatchdog _ => 3 end.

Lemma wake_shutdown now d l : l_shutdown (snd (wake now d l)) = l_shutdown l.
Proof. unfold wake, ensure_started. repeat case_match; by cbn in *. Qed.

Lemma step_left now p l :
  p <> Returned -> l_shutdown l = true ->
  (S (steps_left (fst (run_step now p l))) <= steps_left p)%nat /\ l_shutdown (snd (run_step now p l)) = true.
Proof.
  intros Hp Hl. destruct p as [|t|t| |]; cbn.
  - unfold run_top. rewrite Hl. cbn. by split; [lia|].
  - destruct (l_next_wake l); cbn; (split; [lia|done]).
  - by split; [lia|].
  - by split; [lia|].
  - done.
Qed.

Lemma step_stays now p l :
  p <> Returned -> l_shutdown l = false -> fst (run_step now p l) <> Returned /\ l_shutdown (snd (run_step now p l)) = false.
Proof.
  intros Hp Hl. destruct p as [|t|t| |]; cbn.
  - unfold run_top. rewrite Hl. destruct (l_next_wake l); [|done]. by destruct (Qltb 0 _).
  - by destruct (l_next_wake l).
  - done.
  - done.
  - done.
Qed.

(** C35. The loop thread stops when, and only when, it is told to.  After the
    shutdown it returns within three of its own steps from wherever it is,
    whatever wakes arrive in between, and once it has no step left it has
    returned; a loop that is not shut down never returns. *)
Theorem loop_terminates (now : Q) (p : point) (l : loop) (n : nat) (now' : Q) (p' : point) (l' : loop) :
  thread_run n (now, p, l) (now', p', l') ->
  (l_shutdown l = true -> (n + steps_left p' <= steps_left p)%nat /\ (n <= 3)%nat /\ (n = steps_left p -> p' = Returned)) /\
  (p <> Returned -> l_shutdown l' = false -> p' <> Returned).
Proof.
  intros H. remember (now, p, l) as s eqn:Es. remember (now', p', l') as s' eqn:Es'.
  assert (G : (l_shutdown l = true -> (n + steps_left p' <= steps_left p)%nat /\ l_shutdown l' = true) /\
              (p <> Returned -> l_shutdown l' = false -> p' <> Returned)).
  { revert now' p' l' Es'. induction H as [s|n s nw q m d H IH|n s nw q m H IH|n s nw nw' q m Hle H IH|n s nw q m Hq H IH];
      intros now' p' l' Es'; subst.
    - injection Es' as <- <- <-. by split; [split; [lia|]|].
    - injection Es' as <- <- <-. destruct (IH eq_refl _ _ _ eq_refl) as [I1 I2]. rewrite wake_shutdown. by split.
    - injection Es' as <- <- <-. destruct (IH eq_refl _ _ _ eq_refl) as [I1 I2]. cbn. split; [|done].
      intros Hl. by split; [apply I1|].
    - injection Es' as <- <- <-. by apply (IH eq_refl _ _ _ eq_refl).
    - injection Es' as <- <- <-. destruct (IH eq_refl _ _ _ eq_refl) as [I1 I2]. split.
      + intros Hl. destruct (I1 Hl) as [I3 I4]. destruct (step_left nw q m Hq I4). split; [lia|done].
      + intros Hp Hl. destruct (l_shutdown m) eqn:Em.
        * destruct (step_left nw q m Hq Em) as [_ E]. congruence.
        * by apply step_stays. }
  destruct G as [G1 G2]. split; [|done]. intros Hl. destruct (G1 Hl) as [G _].
  assert (steps_left p <= 3)%nat by (destruct p; cbn; lia).
  split; [done|]. split; [lia|]. intros ->. destruct p'; cbn in G; try lia. done.
Qed.

(** Warnings and recoveries that alternate, from a given health. *)
Fixpoint alternating (healthy : bool) (logs : list health_log) : Prop :=
  match logs with
  | [] => True
  | BecameUnhealthy :: r => healthy = true /\ alternating false r
  | Recovered :: r => healthy = false /\ alternating true r
  end.

(** The health monitor logs transitions only: over any sequence of checks,
    an exception of a check counting as a failure, warnings and recoveries
    alternate, and the final state is the outcome of the last check. *)
Theorem health_log_alternates (checks : list (exn + bool)) (healthy : bool) :
  let '(logs, h) := run_checks checks healthy in
  alternating healthy logs /\
  (forall c, last checks = Some c ->
     match c with inr b => h = b | inl e => is_exception e = true -> h = false end).
Proof.
  revert healthy. induction checks as [|c cs IH]; intros healthy; [done|]. cbn [run_checks].
  unfold run_once. set (now := match c with inr b => b | inl e => _ end).
  specialize (IH now). destruct (run_checks cs now) as [logs h] eqn:E. destruct IH as [IH1 IH2].
  split.
  - destruct healthy eqn:Eh, now eqn:En; cbn; auto.
  - intros c' Hl. destruct cs as [|c2 cs].
    + cbn in Hl, E. injection Hl as <-. injection E as <- <-. subst now.
      destruct c as [e|b]; [|done]. by intros ->.
    + by apply IH2.
Qed.
End Theorems.

(** ** Witnesses *)

Lemma wake_not_lost_witness :
  let l := loop_init 5 in
  due_by 12 (snd (wake (F := binary64) 10 7 (snd (wake (F := binary64) 10 2 l)))) .
Proof.
  intros l.
  apply (wake_not_lost (F := binary64) 10 2 Top l 10 Top
    (snd (wake (F := binary64) 10 7 (snd (wake (F := binary64) 10 2 l))))).
  apply (quiet_step _ (10%Q, Top, snd (wake (F := binary64) 10 7 (snd (wake (F := binary64) 10 2 l)))));
    [apply ls_wake|done|apply quiet_refl].
Defined.

Lemma loop_terminates_witness :
  let l := loop_shutdown (loop_init 5) in
  (2 + steps_left Returned <= steps_left Draining)%nat.
Proof.
  intros l. destruct (loop_terminates (F := binary64) 10 Draining l 2 10 Returned
    (snd (run_step (F := binary64) 10 Top l))) as [H _].
  - refine (tr_run 1 _ 10 Top l _ (tr_run 0 _ 10 Draining l _ (tr_refl _))); done.
  - exact (proj1 (H eq_refl)).
Defined.
