(* ===== verification/Heartbeat.v ===== *)
(** * Heartbeat: one thread renews the leases of many tasks

    Model of [HeartbeatScheduler] of core/limiters.py.  Entries carry a
    generation; the heap holds tuples of due time, task and generation, and a
    tuple whose generation is not that of the live entry is stale.  The
    scheduler thread and the tasks act under one lock, so a run is an
    interleaving of the atomic steps below; the renewal itself runs outside
    the lock, between [pop_due] and [reschedule]. *)

From S2P Require Import Prelude Float Text Json Redis Py Loop.

Open Scope Z_scope.
Open Scope rl_scope.

Record hentry := HEntry {
  he_task : string;
  he_action : string;       (* "warn" or "kill" *)
  he_healthy : bool;
  he_generation : Z;
}.

Abbreviation hkey := (Q * string * Z)%type.

Record hsched := HSched {
  hs_interval : Q;
  hs_entries : gmap string hentry;
  hs_heap : list hkey;      (* in the order heappop returns them *)
  hs_shutdown : bool;
  hs_thread : thread;
}.

(** Order of tuples: due time, then task, then generation. *)
Definition hkey_lt (a b : hkey) : bool :=
  let '(d1, t1, g1) := a in
  let '(d2, t2, g2) := b in
  match Qcompare d1 d2 with
  | Lt => true
  | Gt => false
  | Eq => if String.ltb t1 t2 then true else if String.ltb t2 t1 then false else g1 <? g2
  end.

(** [heapq.heappush] *)
Fixpoint heap_push (a : hkey) (h : list hkey) : list hkey :=
  match h with
  | [] => [a]
  | b :: h' => if hkey_lt a b then a :: h else b :: heap_push a h'
  end.

Lemma heap_push_elem a b h : b ∈ heap_push a h <-> b = a \/ b ∈ h.
Proof.
  induction h as [|c h IH]; cbn [heap_push].
  - rewrite list_elem_of_singleton. split; [auto|]. by intros [?|?%elem_of_nil].
  - destruct (hkey_lt a c); rewrite !elem_of_cons, ?IH; tauto.
Qed.

Section Scheduler.
Context {F : Rounding}.

(** [self._interval = limiter.lease_duration / 2] *)
Definition hs_init (lease_duration : Z) : hsched :=
  HSched (rnd lease_duration ⊘ 2) ∅ [] false NoThread.

Definition hs_ensure_started (s : hsched) : hsched :=
  if not_running (hs_thread s) then
    HSched (hs_interval s) (hs_entries s) (hs_heap s) false Running
  else s.

(** [register] at monotonic time [now]. *)
Definition hs_register (now : Q) (task_id action : string) (s : hsched) : hentry * hsched :=
  let entry := HEntry task_id action true 0 in
  let s := HSched (hs_interval s) (<[task_id := entry]> (hs_entries s)) (hs_heap s)
             (hs_shutdown s) (hs_thread s) in
  if String.eqb task_id estr then (entry, s)
  else
    let due := now ⊕ hs_interval s in
    (entry, hs_ensure_started
       (HSched (hs_interval s) (hs_entries s) (heap_push (due, task_id, 0) (hs_heap s))
          (hs_shutdown s) (hs_thread s))).

Definition hs_deregister (task_id : string) (s : hsched) : hsched :=
  HSched (hs_interval s) (delete task_id (hs_entries s)) (hs_heap s) (hs_shutdown s) (hs_thread s).

Definition hs_get_entry (task_id : string) (s : hsched) : option hentry := hs_entries s !! task_id.

Definition hs_signal_shutdown (s : hsched) : hsched :=
  HSched (hs_interval s) (hs_entries s) (hs_heap s) true (hs_thread s).

(** What one pass of [_run] through its first critical section does. *)
Inductive haction :=
  | HReturn
  | HWait (timeout : Q)
  | HStale
  | HRenew (task_id action : string).

Definition set_heap (h : list hkey) (s : hsched) : hsched :=
  HSched (hs_interval s) (hs_entries s) h (hs_shutdown s) (hs_thread s).

Definition pop_due (now : Q) (s : hsched) : haction * hsched :=
  if hs_shutdown s then (HReturn, s)
  else
    match hs_heap s with
    | [] => (HWait (hs_interval s), s)
    | (due, task_id, generation) :: rest =>
        if Qltb now due then (HWait (due ⊖ now), s)
        else
          match hs_entries s !! task_id with
          | Some entry =>
              if he_generation entry =? generation
              then (HRenew (he_task entry) (he_action entry), set_heap rest s)
              else (HStale, set_heap rest s)
          | None => (HStale, set_heap rest s)
          end
    end.

(** The second critical section, after the renewal. *)
Definition reschedule (now : Q) (task_id : string) (s : hsched) : hsched :=
  match hs_entries s !! task_id with
  | None => s
  | Some entry =>
      let g := he_generation entry + 1 in
      HSched (hs_interval s)
        (<[task_id := HEntry (he_task entry) (he_action entry) (he_healthy entry) g]> (hs_entries s))
        (heap_push (now ⊕ hs_interval s, task_id, g) (hs_heap s)) (hs_shutdown s) (hs_thread s)
  end.

(** The health flag of a live entry. *)
Definition set_health (task_id : string) (b : bool) (s : hsched) : hsched :=
  HSched (hs_interval s)
    (alter (fun e => HEntry (he_task e) (he_action e) b (he_generation e)) task_id (hs_entries s))
    (hs_heap s) (hs_shutdown s) (hs_thread s).

(** The effect of a renewal on the health of its task, its log record and
    whether the process is killed: [_renew_one] with the outcome of
    [extend_lease]. *)
Inductive renew_effect := RenewOk | RenewFailed | RenewKill | RenewRaised (e : exn).

Definition renew_one (task_id action : string) (outcome : exn + unit) (s : hsched)
    : renew_effect * hsched :=
  match outcome with
  | inl e =>
      if is_redis_error e then
        (if String.eqb action "kill" then RenewKill else RenewFailed, set_health task_id false s)
      else (RenewRaised e, s)
  | inr _ =>
      (RenewOk,
       match hs_entries s !! task_id with
       | Some entry => if he_healthy entry then s else set_health task_id true s
       | None => s
       end)
  end.

(** ** Interleavings *)

(** The scheduler thread, between two critical sections or renewing a task,
    or dead from an exception that escaped [_run]. *)
Inductive hpoint := HIdle | HRenewing (task_id action : string) | HDead.

Definition hstate : Type := Q * hpoint * hsched.

Definition thread_dies (s : hsched) : hsched :=
  HSched (hs_interval s) (hs_entries s) (hs_heap s) (hs_shutdown s) Finished.

Inductive hs_step : hstate -> hstate -> Prop :=
  | hst_time now now' p s : (now <= now')%Q -> hs_step (now, p, s) (now', p, s)
  | hst_register now p s t a : hs_step (now, p, s) (now, p, snd (hs_register now t a s))
  | hst_deregister now p s t : hs_step (now, p, s) (now, p, hs_deregister t s)
  | hst_pop now s t a :
      fst (pop_due now s) = HRenew t a ->
      hs_step (now, HIdle, s) (now, HRenewing t a, snd (pop_due now s))
  | hst_skip now s :
      fst (pop_due now s) = HStale -> hs_step (now, HIdle, s) (now, HIdle, snd (pop_due now s))
  | hst_renewed now s t a outcome :
      (forall e, fst (renew_one t a outcome s) <> RenewRaised e) ->
      hs_step (now, HRenewing t a, s) (now, HIdle, reschedule now t (snd (renew_one t a outcome s)))
  | hst_raised now s t a outcome e :
      fst (renew_one t a outcome s) = RenewRaised e ->
      hs_step (now, HRenewing t a, s) (now, HDead, thread_dies s)
  | hst_restart now s :      (* the thread that [register] started *)
      hs_thread s = Running -> hs_step (now, HDead, s) (now, HIdle, s).

(** A live entry is kept under its own name, and unless its task is being
    renewed the heap holds a tuple of its generation, due within an interval
    of the time it was pushed. *)
Record hs_ok (now : Q) (p : hpoint) (s : hsched) : Prop := {
  ho_name : forall t e, hs_entries s !! t = Some e -> he_task e = t;
  ho_live : forall t e, hs_entries s !! t = Some e -> t <> estr ->
    (exists due, (due, t, he_generation e) ∈ hs_heap s) \/ (exists a, p = HRenewing t a);
  ho_due : forall due t g, (due, t, g) ∈ hs_heap s -> exists u, (u <= now)%Q /\ due = u ⊕ hs_interval s;
}.

Lemma hs_ok_init lease now : hs_ok now HIdle (hs_init lease).
Proof.
  split; cbn.
  - intros t e. by rewrite lookup_empty.
  - intros t e. by rewrite lookup_empty.
  - by intros due t g ?%elem_of_nil.
Qed.

Lemma set_health_lookup t t' b s :
  hs_entries (set_health t b s) !! t' =
  (if decide (t' = t) then (fun e => HEntry (he_task e) (he_action e) b (he_generation e)) <$> hs_entries s !! t'
   else hs_entries s !! t').
Proof.
  cbn. case_decide; [subst; by rewrite lookup_alter_eq|by rewrite lookup_alter_ne].
Qed.

Lemma hs_ok_health now p s t b : hs_ok now p s -> hs_ok now p (set_health t b s).
Proof.
  intros [H1 H2 H3]. split.
  - intros t' e. rewrite set_health_lookup. case_decide; [|by apply H1].
    intros (e' & E & ->)%fmap_Some. cbn. by eapply H1.
  - intros t' e. rewrite set_health_lookup. case_decide; [|by apply H2].
    intros (e' & E & ->)%fmap_Some Hne. exact (H2 t' e' E Hne).
  - exact H3.
Qed.

Lemma hs_ok_renewed now p s t a outcome : hs_ok now p s -> hs_ok now p (snd (renew_one t a outcome s)).
Proof.
  intros H. unfold renew_one. repeat case_match; cbn [snd]; try done; by apply hs_ok_health.
Qed.

Lemma hs_ok_register now p s t a : hs_ok now p s -> hs_ok now p (snd (hs_register now t a s)).
Proof.
  intros [H1 H2 H3].
  assert (Hn : forall t' e, <[t := HEntry t a true 0]> (hs_entries s) !! t' = Some e ->
            t' = t /\ e = HEntry t a true 0 \/ t' <> t /\ hs_entries s !! t' = Some e).
  { intros t' e. destruct (decide (t' = t)) as [->|Hne].
    - rewrite lookup_insert_eq. intros [= <-]. by left.
    - rewrite lookup_insert_ne by done. by right. }
  unfold hs_register. destruct (String.eqb t estr) eqn:Et.
  - apply String.eqb_eq in Et. split; cbn; [| |exact H3].
    + intros t' e [[-> ->]|[? E]]%Hn; [done|by eapply H1].
    + intros t' e [[-> ->]|[? E]]%Hn Hne; [done|by eapply H2].
  - assert (Hs : forall x, hs_entries (hs_ensure_started x) = hs_entries x /\ hs_heap (hs_ensure_started x) = hs_heap x
                 /\ hs_interval (hs_ensure_started x) = hs_interval x)
      by (intros x; unfold hs_ensure_started; by case_match).
    cbn [snd]. match goal with |- hs_ok _ _ (hs_ensure_started ?x) => destruct (Hs x) as (E1 & E2 & E3) end.
    split; rewrite ?E1, ?E2, ?E3; cbn.
    + intros t' e [[-> ->]|[? E]]%Hn; [done|by eapply H1].
    + intros t' e [[-> ->]|[? E]]%Hn Hne.
      * left. eexists. apply heap_push_elem. by left.
      * destruct (H2 t' e E Hne) as [[due Hd]|?]; [|by right]. left. exists due.
        apply heap_push_elem. by right.
    + intros due t' g [[= -> -> ->]|Hd]%heap_push_elem; [exists now; split; [lra|done]|by eapply H3].
Qed.

Lemma hs_ok_pop now s act :
  hs_ok now HIdle s -> fst (pop_due now s) = act ->
  (forall t a, act = HRenew t a -> hs_ok now (HRenewing t a) (snd (pop_due now s))) /\
  (act = HStale -> hs_ok now HIdle (snd (pop_due now s))).
Proof.
  intros [H1 H2 H3] <-. unfold pop_due. destruct (hs_shutdown s); [done|].
  destruct (hs_heap s) as [|[[due t0] g0] rest] eqn:Eh; [done|]. destruct (Qltb now due); [done|].
  assert (Hrest : forall d t g, (d, t, g) ∈ rest -> exists u, (u <= now)%Q /\ d = u ⊕ hs_interval s).
  { intros d t g Hin. apply (H3 d t g). by right. }
  destruct (hs_entries s !! t0) as [e0|] eqn:E0; [destruct (he_generation e0 =? g0) eqn:Eg|];
    cbn [fst snd]; (split; [intros t a [= <- <-]|intros Hst]); try done.
  - split; cbn; [done| |done]. intros t e He Hne. destruct (decide (t = t0)) as [->|Hn].
    + right. exists (he_action e0). by rewrite (H1 _ _ E0).
    + destruct (H2 t e He Hne) as [[d Hd]|[a Ha]]; [|done]. left. exists d.
      apply elem_of_cons in Hd as [[= -> -> ->]|Hd]; [done|done].
  - apply Z.eqb_neq in Eg. split; cbn; [done| |done]. intros t e He Hne.
    destruct (H2 t e He Hne) as [[d Hd]|[a Ha]]; [|done]. left. exists d.
    apply elem_of_cons in Hd as [[= -> -> Hg]|Hd]; [|done]. rewrite E0 in He. by simplify_eq.
  - split; cbn; [done| |done]. intros t e He Hne.
    destruct (H2 t e He Hne) as [[d Hd]|[a Ha]]; [|done]. left. exists d.
    apply elem_of_cons in Hd as [[= -> -> Hg]|Hd]; [|done]. by rewrite E0 in He.
Qed.

Lemma hs_ok_reschedule now t a s : hs_ok now (HRenewing t a) s -> hs_ok now HIdle (reschedule now t s).
Proof.
  intros [H1 H2 H3]. unfold reschedule. destruct (hs_entries s !! t) as [e|] eqn:E.
  - split; cbn.
    + intros t' e'. destruct (decide (t' = t)) as [->|Hne].
      * rewrite lookup_insert_eq. intros [= <-]. cbn. by eapply H1.
      * rewrite lookup_insert_ne by done. apply H1.
    + intros t' e'. destruct (decide (t' = t)) as [->|Hne].
      * rewrite lookup_insert_eq. intros [= <-] _. cbn. left. eexists. apply heap_push_elem. by left.
      * rewrite lookup_insert_ne by done. intros He Hn. left.
        destruct (H2 t' e' He Hn) as [[d Hd]|[a' [= ->]]]; [|done]. exists d.
        apply heap_push_elem. by right.
    + intros d t' g [[= -> -> ->]|Hd]%heap_push_elem; [exists now; split; [lra|done]|by eapply H3].
  - split; [done| |done]. intros t' e' He Hn. left.
    destruct (H2 t' e' He Hn) as [Hd|[a' [= ->]]]; [done|congruence].
Qed.

Lemma hs_step_ok now p s now' p' s' :
  hs_ok now p s -> p <> HDead -> hs_step (now, p, s) (now', p', s') -> p' <> HDead -> hs_ok now' p' s'.
Proof.
  intros Hok Hp Hst Hp'. inversion Hst; subst; try done.
  - destruct Hok as [K1 K2 K3]. split; [done|done|]. intros due t g Hd.
    destruct (K3 due t g Hd) as (u & Hu & E). exists u. split; [lra|done].
  - by apply hs_ok_register.
  - destruct Hok as [K1 K2 K3]. split; cbn; [| |done].
    + intros t' e [_ E]%lookup_delete_Some. by eapply K1.
    + intros t' e [_ E]%lookup_delete_Some. by eapply K2.
  - by eapply hs_ok_pop.
  - by eapply hs_ok_pop.
  - eapply hs_ok_reschedule. by apply hs_ok_renewed.
Qed.

(** Runs from a new scheduler in which its thread does not die. *)
Inductive hs_reach (lease : Z) : hstate -> Prop :=
  | hsr_start now : hs_reach lease (now, HIdle, hs_init lease)
  | hsr_step s s' : hs_reach lease s -> hs_step s s' -> snd (fst s') <> HDead -> hs_reach lease s'.

(** States before a death are reached through states before a death. *)
Lemma hs_reach_live lease st : hs_reach lease st -> snd (fst st) <> HDead.
Proof. by destruct 1. Qed.

Lemma hs_reach_ok lease st :
  hs_reach lease st -> hs_ok (fst (fst st)) (snd (fst st)) (snd st).
Proof.
  induction 1 as [now0|[[now0 p0] s0] [[now p] s] Hr IH Hs Hne]; cbn [fst snd] in *.
  - apply hs_ok_init.
  - eapply (hs_step_ok now0 p0 s0); [exact IH|exact (hs_reach_live _ _ Hr)|done|done].
Qed.

(** The interval is half the lease of the limiter at its construction. *)
Lemma hs_step_interval st st' : hs_step st st' -> hs_interval (snd st') = hs_interval (snd st).
Proof.
  destruct 1; cbn [snd]; try done; unfold hs_register, hs_ensure_started, pop_due, reschedule, renew_one, set_health, set_heap;
    repeat case_match; done.
Qed.

Lemma hs_reach_interval lease st : hs_reach lease st -> hs_interval (snd st) = rnd lease ⊘ 2.
Proof. induction 1 as [now|s s' _ IH Hs _]; [done|]. by rewrite (hs_step_interval _ _ Hs). Qed.

(** Half a lease later, as floats, is before a whole lease later. *)
Lemma half_lease_early {FL : RoundingLaws F} (lease : Z) (u : Q) :
  (1 <= lease <= 2 ^ 50)%Z -> (0 <= u <= inject_Z (2 ^ 50))%Q -> (u ⊕ (rnd lease ⊘ 2) < u + lease)%Q.
Proof.
  intros Hl Hu. assert (H1 : (1 <= lease)%Q) by (change 1%Q with (inject_Z 1); rewrite <- Zle_Qle; lia).
  assert (H2 : (lease <= inject_Z (2 ^ 50))%Q) by (rewrite <- Zle_Qle; lia).
  set (h := rnd lease ⊘ 2). assert (Hh : (0 <= h <= lease * (1 # 2) + (1 # 16))%Q).
  { assert (Er : (rnd lease == lease)%Q) by (apply rnd_int; unfold two53; lia).
    assert (Hd : (rnd lease / 2 == lease * (1 # 2))%Q) by (rewrite Er; field).
    unfold h, fdiv. split; [apply rnd_nonneg; rewrite Hd; lra|].
    pose proof (rnd_err (rnd lease / 2)) as He. apply Qabs_Qle_condition in He as [_ He].
    rewrite (Qabs_pos (rnd lease / 2)) in He by (rewrite Hd; lra). revert He. rewrite Hd.
    change (inject_Z (2 ^ 50)) with (1125899906842624 # 1)%Q in *.
    change (1 # 2 ^ 53)%Q with (1 # 9007199254740992)%Q. intros He. lra. }
  unfold fadd. pose proof (rnd_err (u + h)) as He. apply Qabs_Qle_condition in He as [_ He].
  rewrite (Qabs_pos (u + h)) in He by lra.
  change (inject_Z (2 ^ 50)) with (1125899906842624 # 1)%Q in *.
  change (1 # 2 ^ 53)%Q with (1 # 9007199254740992)%Q in He. lra.
Qed.

(** C32. Heartbeats do not stop: for a lease of 1 to 2^50 seconds, in every
    run of registrations, deregistrations, renewals and failures in which the
    scheduler thread does not die, every registered task is either being
    renewed or has a renewal in the heap for its current generation, entered at
    some time [u] up to now and due half the lease of the limiter's
    construction later (in floats), so at most half a lease from now; and, for
    times up to 2^50 seconds, that is before a lease of this length that began
    at [u] runs out. *)
Theorem heartbeat_pending {FL : RoundingLaws F} (lease : Z) (now : Q) (p : hpoint) (s : hsched) (t : string) (e : hentry) :
  (1 <= lease <= 2 ^ 50)%Z -> hs_reach lease (now, p, s) -> hs_entries s !! t = Some e -> t <> estr ->
  he_task e = t /\
  ((exists a, p = HRenewing t a) \/
   exists due u, (due, t, he_generation e) ∈ hs_heap s /\
     (u <= now /\ due = u ⊕ (rnd lease ⊘ 2) /\ due <= now ⊕ (rnd lease ⊘ 2))%Q /\
     (0 <= u <= inject_Z (2 ^ 50) -> due < u + lease)%Q).
Proof.
  intros Hl Hr He Hne. pose proof (hs_reach_ok lease (now, p, s) Hr) as [H1 H2 H3].
  pose proof (hs_reach_interval lease _ Hr) as Hi. cbn [fst snd] in *.
  split; [by eapply H1|]. destruct (H2 t e He Hne) as [[due Hd]|?]; [right|by left].
  destruct (H3 due t _ Hd) as (u & Hu & Ed). rewrite Hi in Ed. exists due, u. split; [done|]. subst due.
  split; [split; [done|]; split; [done|]|by apply half_lease_early].
  unfold fadd. apply rnd_mono. lra.
Qed.

(** A renewal is made only for the live generation of a registered task,
    when it is due: a tuple of the heap that is stale, because its task was
    deregistered or rescheduled, is dropped without a renewal, and in no run
    is a task renewed by a pass that begins after it was deregistered. *)
Theorem heartbeat_live_only (lease : Z) (now : Q) (s : hsched) (t a : string) :
  hs_reach lease (now, HIdle, s) ->
  (fst (pop_due now s) = HRenew t a ->
     exists due e,
       head (hs_heap s) = Some (due, t, he_generation e) /\ hs_entries s !! t = Some e /\
       he_action e = a /\ (due <= now)%Q) /\
  fst (pop_due now (hs_deregister t s)) <> HRenew t a.
Proof.
  intros Hr. pose proof (hs_reach_ok lease (now, HIdle, s) Hr) as [H1 _ _].
  cbn [fst snd] in H1. unfold pop_due. cbn [hs_shutdown hs_heap hs_entries hs_deregister].
  destruct (hs_shutdown s); [done|].
  destruct (hs_heap s) as [|[[due k] g] rest]; [done|]. destruct (Qltb now due) eqn:Hq; [done|].
  apply Qltb_ge in Hq. split.
  - destruct (hs_entries s !! k) as [e|] eqn:Ee; [|done].
    destruct (he_generation e =? g) eqn:Eg; [|done]. cbn. intros [= <- <-].
    apply Z.eqb_eq in Eg. subst g. exists due, e. by rewrite (H1 _ _ Ee).
  - destruct (decide (k = t)) as [->|Hne]; [by rewrite lookup_delete_eq|].
    rewrite lookup_delete_ne by done. destruct (hs_entries s !! k) as [e|] eqn:Ee; [|done].
    destruct (he_generation e =? g); [|done]. cbn. intros [= Ht _]. by rewrite (H1 _ _ Ee) in Ht.
Qed.

(** An exception that is no Redis error stops every heartbeat: when the
    lease of one task is gone, [extend_lease] raises [KeyError], which the
    renewal does not catch; the scheduler thread ends, and no step but the
    registration of a task brings it back: until then no task is renewed. *)
Theorem lost_lease_stops_heartbeats (now : Q) (t a m : string) (s : hsched) :
  fst (renew_one t a (inl (KeyError m)) s) = RenewRaised (KeyError m) /\
  hs_step (now, HRenewing t a, s) (now, HDead, thread_dies s) /\
  hs_thread (thread_dies s) = Finished /\
  (forall now1 s1 now2 p2 s2, hs_thread s1 = Finished -> hs_step (now1, HDead, s1) (now2, p2, s2) ->
     p2 = HDead /\ (hs_thread s2 = Finished \/ exists k b, s2 = snd (hs_register now1 k b s1))) /\
  (forall k, k <> estr -> hs_thread (snd (hs_register now k a (thread_dies s))) = Running).
Proof.
  split; [done|]. split; [by apply (hst_raised now s t a (inl (KeyError m)) (KeyError m))|].
  split; [done|]. split.
  { intros now1 s1 now2 p2 s2 Hf Hs. inversion Hs; subst; try congruence; (split; [done|]); eauto. }
  intros k Hk. unfold hs_register. rewrite (proj2 (String.eqb_neq _ _) Hk). done.
Qed.
End Scheduler.

(** ** Witnesses *)

Definition demo_sched : hsched := snd (hs_register (F := binary64) 100 "a" "warn" (hs_init (F := binary64) 30)).

Lemma demo_sched_reach : hs_reach (F := binary64) 30 (120%Q, HIdle, demo_sched).
Proof.
  apply hsr_step with (100%Q, HIdle, demo_sched); [|by apply hst_time|done].
  apply hsr_step with (100%Q, HIdle, hs_init (F := binary64) 30); [apply hsr_start| |done].
  apply (hst_register (F := binary64)).
Qed.

Lemma heartbeat_pending_witness :
  exists due u, (due, "a", 0) ∈ hs_heap demo_sched /\
    (u <= 120 /\ due = fadd (H := binary64) u (fdiv (H := binary64) (rnd64 30) 2) /\
     due <= fadd (H := binary64) 120 (fdiv (H := binary64) (rnd64 30) 2))%Q.
Proof.
  destruct (heartbeat_pending (F := binary64) (FL := binary64_laws) 30 120 HIdle demo_sched "a" (HEntry "a" "warn" true 0)
    ltac:(lia) demo_sched_reach ltac:(by vm_compute) ltac:(done)) as [_ [[a Ha]|(due & u & H1 & H2 & _)]]; [done|].
  by exists due, u.
Defined.

Lemma heartbeat_live_only_witness :
  fst (pop_due (F := binary64) 120 demo_sched) = HRenew "a" "warn" /\
  fst (pop_due (F := binary64) 120 (hs_deregister "a" demo_sched)) <> HRenew "a" "warn".
Proof.
  split; [by vm_compute|].
  exact (proj2 (heartbeat_live_only (F := binary64) 30 120 demo_sched "a" "warn" demo_sched_reach)).
Defined.
