(* ===== verification/Dist.v ===== *)
(** * Dist: configuration and algorithms of distributed limiters

    Model of [DistributedRateLimiterMixin] (core/limiters.py): the attributes
    shared by the synchronous and the asynchronous limiter, their validation
    and overrides, the keys and task documents, and the delay computations,
    with the bounds of the lifetimes and delays they produce. *)

From S2P Require Import Prelude Float Text Json Redis Zset Keyspace Scripts Window State Schedule Py Base Loop Heartbeat.

Open Scope Z_scope.
Open Scope rl_scope.

(** ** Attributes *)

Record dist := MkDist {
  d_base : base;
  d_max_concurrency : Z;
  d_max_age : Z;
  d_lease_duration : Z;
  d_on_failure : string;
  d_jitter_enabled : bool;
  d_jitter_min_pct : Q;
  d_jitter_max_pct : Q;
  d_metrics_callback : option (string -> json -> option exn);   (* the exception it raises *)
  d_drain_enabled : bool;
  d_worker_id : string;
  d_drain_failures : Z;         (* _consecutive_drain_failures *)
  d_last_refresh_at : Q;
  d_drain_loop : option loop;
  d_heartbeats : hsched;
  d_healthy : option bool;      (* of the health monitor, when there is one *)
  d_subscribed : bool;          (* the drain signal subscriber runs *)
  d_shutdown_called : bool;
}.

Definition with_dbase (f : base -> base) (d : dist) : dist :=
  MkDist (f (d_base d)) (d_max_concurrency d) (d_max_age d) (d_lease_duration d) (d_on_failure d)
    (d_jitter_enabled d) (d_jitter_min_pct d) (d_jitter_max_pct d) (d_metrics_callback d)
    (d_drain_enabled d) (d_worker_id d) (d_drain_failures d) (d_last_refresh_at d) (d_drain_loop d)
    (d_heartbeats d) (d_healthy d) (d_subscribed d) (d_shutdown_called d).

(** An object that has these attributes. *)
Class IsDist (O : Type) := {
  dist_of : O -> dist;
  with_dist : (dist -> dist) -> O -> O;
  dist_of_with : forall f o, dist_of (with_dist f o) = f (dist_of o);
  with_dist_ext : forall f g o, f (dist_of o) = g (dist_of o) -> with_dist f o = with_dist g o;
  with_dist_id : forall o, with_dist (fun d => d) o = o;
}.

#[export, refine] Instance dist_is_dist : IsDist dist := {
  dist_of := fun d => d;
  with_dist := fun f d => f d;
}.
Proof. all: done. Defined.

Lemma with_dbase_id d : with_dbase (fun b => b) d = d.
Proof. by destruct d. Qed.

#[export, refine] Instance dist_is_base O `{IsDist O} : IsBase O := {
  base_of := fun o => d_base (dist_of o);
  with_base := fun f => with_dist (with_dbase f);
}.
Proof.
  - intros f o. by rewrite dist_of_with.
  - intros f g o E. apply with_dist_ext. unfold with_dbase. by rewrite E.
  - intros o. rewrite <- (with_dist_id o) at 2. apply with_dist_ext, with_dbase_id.
Defined.

Definition with_limits (conc age lease : Z) (d : dist) : dist :=
  MkDist (d_base d) conc age lease (d_on_failure d)
    (d_jitter_enabled d) (d_jitter_min_pct d) (d_jitter_max_pct d) (d_metrics_callback d)
    (d_drain_enabled d) (d_worker_id d) (d_drain_failures d) (d_last_refresh_at d) (d_drain_loop d)
    (d_heartbeats d) (d_healthy d) (d_subscribed d) (d_shutdown_called d).

Definition with_failures (n : Z) (d : dist) : dist :=
  MkDist (d_base d) (d_max_concurrency d) (d_max_age d) (d_lease_duration d) (d_on_failure d)
    (d_jitter_enabled d) (d_jitter_min_pct d) (d_jitter_max_pct d) (d_metrics_callback d)
    (d_drain_enabled d) (d_worker_id d) n (d_last_refresh_at d) (d_drain_loop d)
    (d_heartbeats d) (d_healthy d) (d_subscribed d) (d_shutdown_called d).

Definition with_refreshed_at (t : Q) (d : dist) : dist :=
  MkDist (d_base d) (d_max_concurrency d) (d_max_age d) (d_lease_duration d) (d_on_failure d)
    (d_jitter_enabled d) (d_jitter_min_pct d) (d_jitter_max_pct d) (d_metrics_callback d)
    (d_drain_enabled d) (d_worker_id d) (d_drain_failures d) t (d_drain_loop d)
    (d_heartbeats d) (d_healthy d) (d_subscribed d) (d_shutdown_called d).

Definition with_loop (l : option loop) (d : dist) : dist :=
  MkDist (d_base d) (d_max_concurrency d) (d_max_age d) (d_lease_duration d) (d_on_failure d)
    (d_jitter_enabled d) (d_jitter_min_pct d) (d_jitter_max_pct d) (d_metrics_callback d)
    (d_drain_enabled d) (d_worker_id d) (d_drain_failures d) (d_last_refresh_at d) l
    (d_heartbeats d) (d_healthy d) (d_subscribed d) (d_shutdown_called d).

Definition with_heartbeats (h : hsched) (d : dist) : dist :=
  MkDist (d_base d) (d_max_concurrency d) (d_max_age d) (d_lease_duration d) (d_on_failure d)
    (d_jitter_enabled d) (d_jitter_min_pct d) (d_jitter_max_pct d) (d_metrics_callback d)
    (d_drain_enabled d) (d_worker_id d) (d_drain_failures d) (d_last_refresh_at d) (d_drain_loop d)
    h (d_healthy d) (d_subscribed d) (d_shutdown_called d).

Definition with_services (healthy : option bool) (subscribed down : bool) (d : dist) : dist :=
  MkDist (d_base d) (d_max_concurrency d) (d_max_age d) (d_lease_duration d) (d_on_failure d)
    (d_jitter_enabled d) (d_jitter_min_pct d) (d_jitter_max_pct d) (d_metrics_callback d)
    (d_drain_enabled d) (d_worker_id d) (d_drain_failures d) (d_last_refresh_at d) (d_drain_loop d)
    (d_heartbeats d) healthy subscribed down.

(** Shorthands. *)
Definition d_id (d : dist) : string := b_id (d_base d).
Definition d_limit (d : dist) : Z := b_limit (d_base d).
Definition d_window (d : dist) : Q := b_window (d_base d).

(** Keyword arguments of the constructor. *)
Record dist_config := DistConfig {
  k_limiter_id : string;
  k_limit : Z;
  k_window : Q;
  k_max_concurrency : Z;
  k_max_age : Z;
  k_lease_duration : Z;
  k_on_failure : string;
  k_jitter_enabled : bool;
  k_jitter_min_pct : Q;
  k_jitter_max_pct : Q;
  k_metrics_callback : option (string -> json -> option exn);
  k_drain_enabled : bool;
}.

Section Mixin.
Context {F : Rounding}.

(** [DistributedRateLimiterMixin.__init__]; [worker_id] is a fresh uuid. *)
Definition dist_init (k : dist_config) (worker_id : string) : exn + dist :=
  if k_max_concurrency k <? 1 then inl (ValueError "max_concurrency must be a positive integer")
  else if k_max_age k <? 1 then inl (ValueError "max_age must be a positive integer")
  else if k_lease_duration k <? 1 then inl (ValueError "lease_duration must be a positive integer")
  else
    match base_init (k_limiter_id k) (k_limit k) (k_window k) with
    | inl e => inl e
    | inr b =>
        inr (MkDist b (k_max_concurrency k) (k_max_age k) (k_lease_duration k) (k_on_failure k)
               (k_jitter_enabled k) (k_jitter_min_pct k) (k_jitter_max_pct k) (k_metrics_callback k)
               (k_drain_enabled k) worker_id 0 0 None (hs_init (k_lease_duration k)) None false false)
    end.

(** ** Keys and documents *)

Definition buffer_key (d : dist) : string := subkey (d_id d) "buffer".
Definition concurrency_key (d : dist) : string := subkey (d_id d) "concurrency".
Definition dlq_key (d : dist) : string := subkey (d_id d) "dlq".
Definition drain_channel (d : dist) : string := subkey (d_id d) "drain_signal".
Definition get_inflight_key (task_id : string) (d : dist) : string :=
  d_id d +:+ ":inflight:" +:+ task_id.

Definition get_task_data (task_id func_path : string) (payload : list (string * json)) (d : dist) : json :=
  JObj [("id", JStr task_id); ("func_path", JStr func_path); ("payload", JObj payload);
        ("inflight_key", JStr (get_inflight_key task_id d))].

Definition get_task_data_str (task_id func_path : string) (payload : list (string * json)) (d : dist)
    : string := dumps (get_task_data task_id func_path payload d).

(** Object keys in ascending order at every level, as [sort_keys=True]. *)
Fixpoint insert_key (k : string) (v : json) (l : list (string * json)) : list (string * json) :=
  match l with
  | [] => [(k, v)]
  | (k', v') :: l' => if String.ltb k' k then (k', v') :: insert_key k v l' else (k, v) :: l
  end.

Fixpoint sort_keys (v : json) : json :=
  match v with
  | JArr l => JArr (map sort_keys l)
  | JObj l => JObj ((fix sorted l :=
      match l with
      | [] => []
      | (k, x) :: l' => insert_key k (sort_keys x) (sorted l')
      end) l)
  | _ => v
  end.

Definition get_task_signature_str (func_path : string) (payload : list (string * json)) : string :=
  dumps (sort_keys (JObj [("path", JStr func_path); ("payload", JObj payload)])).

(** [build_enhanced_payload] *)
Definition build_enhanced_payload (payload : list (string * json)) (use_executor : bool)
    : list (string * json) :=
  [("data", JObj payload); ("meta", JObj [("use_executor", JBool use_executor)])].

(** ** Lifetimes and delays *)

(** [_get_inflight_ttl] *)
Definition get_inflight_ttl (max_age_override : option Z) (d : dist) : Z :=
  let effective_max_age := default (d_max_age d) max_age_override in
  Qceiling ((fmax 1 (rnd effective_max_age) ⊕ fmax 1 (rnd (d_lease_duration d)))
            ⊕ fmax 1 (rnd (d_window d))).

(** [_calculate_token_recovery_delay] *)
Definition token_recovery_delay (val_previous val_current reset_in_ms : Z) (d : dist) : Q :=
  let window_ms := d_window d ⊗ 1000 in
  if (val_previous <=? 0) || (d_limit d <=? val_current) then reset_in_ms ⊘ 1000
  else
    let time_passed_ms := window_ms ⊖ reset_in_ms in
    let t_needed_ms := window_ms ⊗ (1 ⊖ ((d_limit d - val_current)%Z ⊘ val_previous)) in
    let wait_ms := t_needed_ms ⊖ time_passed_ms in
    if Qle_bool wait_ms 0 then 0%Q else wait_ms ⊘ 1000.

(** [load_pressure] *)
Definition load_pressure (remaining_tasks : Z) : Q :=
  if remaining_tasks <=? 0 then 0%Q
  else if remaining_tasks <? 10 then rnd (2 # 10)
  else if remaining_tasks <? 50 then rnd (5 # 10)
  else if remaining_tasks <? 100 then rnd (7 # 10)
  else 1%Q.

(** [_calculate_smart_jitter]; [u] is the next [random.random()]. *)
Definition smart_jitter (remaining_tasks active_concurrency : Z) (u : Q) (d : dist) : Q :=
  if negb (d_jitter_enabled d) then 0%Q
  else
    let min_jitter := d_window d ⊗ d_jitter_min_pct d in
    let max_jitter := d_window d ⊗ d_jitter_max_pct d in
    let concurrency_pressure := active_concurrency ⊘ (Z.max 1 (d_max_concurrency d)) in
    let combined_pressure :=
      (load_pressure remaining_tasks ⊗ rnd (7 # 10)) ⊕ (concurrency_pressure ⊗ rnd (3 # 10)) in
    let jitter_scale := rnd (3 # 10) ⊕ (combined_pressure ⊗ rnd (7 # 10)) in
    let jitter_range_size := (max_jitter ⊖ min_jitter) ⊗ jitter_scale in
    round3 (min_jitter ⊕ (jitter_range_size ⊗ u)).

(** [_token_interval] *)
Definition token_interval (d : dist) : Q :=
  if 0 <? d_limit d then d_window d ⊘ d_limit d else d_window d.

(** ** Persistence *)

(** The shortest decimal that reads back as the double [q], or its exact
    decimal expansion. *)
Fixpoint try_digits (n : nat) (p : Z) (q : Q) : option (Z * Z) :=
  match n with
  | O => None
  | S n' =>
      let e := dec_exp (Qabs q) in
      let s := p - 1 - e in
      let m := Qrne (if 0 <=? s then q * (10 ^ s)%Z else q / (10 ^ (- s))%Z)%Q in
      let back := (if 0 <=? s then m / (10 ^ s)%Z else m * (10 ^ (- s))%Z)%Q in
      if Qeq_bool (rnd back) q then Some (m, s) else try_digits n' (p + 1) q
  end.

(** [float.__repr__] as a JSON number: at least one digit after the point. *)
Definition float_json (q : Q) : json :=
  match try_digits 17 1 q with
  | Some (m, s) =>
      if 1 <=? s then JDec m (Z.to_nat s) else JDec (m * 10 ^ (1 - s)) 1
  | None => JDec (Qfloor (q * (10 ^ 1074)%Z)) 1074
  end.

Definition build_persist_config (d : dist) : list (string * json) :=
  [("limit", JInt (d_limit d)); ("window", float_json (d_window d));
   ("max_concurrency", JInt (d_max_concurrency d)); ("max_age", JInt (d_max_age d));
   ("lease_duration", JInt (d_lease_duration d))].
End Mixin.

Section Overrides.
Context {F : Rounding} {R O : Type} {D : IsDist O}.

(** [if k in overrides: self.k = overrides[k]]; the configuration holds
    integers. *)
Definition override_int (k : string) (overrides : list (string * json)) (set : Z -> dist -> dist) : py R O unit :=
  match assoc_last k overrides with
  | None => skip
  | Some (JInt n) => modify (with_dist (set n))
  | Some _ => raise (TypeError k)
  end.

(** [DistributedRateLimiterMixin._apply_config_overrides] *)
Definition dist_apply_overrides (overrides : list (string * json)) : py R O unit :=
  _ ← base_apply_overrides overrides;
  _ ← override_int "max_concurrency" overrides
        (fun n d => with_limits n (d_max_age d) (d_lease_duration d) d);
  _ ← override_int "max_age" overrides
        (fun n d => with_limits (d_max_concurrency d) n (d_lease_duration d) d);
  override_int "lease_duration" overrides
    (fun n d => with_limits (d_max_concurrency d) (d_max_age d) n d).
End Overrides.


(** ** Properties *)

Lemma Qceiling_bounds (x : Q) (a b : Z) : (a <= x)%Q -> (x <= b)%Q -> a <= Qceiling x <= b.
Proof.
  intros Ha Hb. split.
  - rewrite <- (Qceiling_Z a). by apply Qceiling_resp_le.
  - rewrite <- (Qceiling_Z b). by apply Qceiling_resp_le.
Qed.

Lemma fmax_1_Z (n : Z) : 1 <= n -> (fmax 1 n == n)%Q.
Proof.
  intros Hn. destruct (fmax_spec 1 n) as (_ & H & [E|E]); rewrite E in *; [|done].
  apply Qle_antisym; [|done]. change 1%Q with (inject_Z 1). by rewrite <- Zle_Qle.
Qed.

#[export] Instance fmax_proper : Proper (Qeq ==> Qeq ==> Qeq) fmax.
Proof.
  intros x x' Ex y y' Ey. unfold fmax. destruct (Qltb x y) eqn:E, (Qltb x' y') eqn:E'; try done.
  - apply Qltb_lt in E. apply Qltb_ge in E'. rewrite Ex, Ey in E. lra.
  - apply Qltb_ge in E. apply Qltb_lt in E'. rewrite Ex, Ey in E. lra.
Qed.

Section Properties.
Context {F : Rounding} {FL : RoundingLaws F}.

(** The lifetime of a claim covers the life of a task: queue residence,
    one lease and the window, in whole seconds, whatever rounding; and it is
    no longer than that. *)
Theorem inflight_ttl_covers (d : dist) (override : option Z) (age : Z) :
  age = default (d_max_age d) override ->
  1 <= age <= 2 ^ 50 -> 1 <= d_lease_duration d <= 2 ^ 50 -> (0 < d_window d <= inject_Z (2 ^ 50))%Q ->
  (rnd (d_window d) == d_window d)%Q ->
  age + d_lease_duration d + Z.max 1 (Qfloor (d_window d)) <= get_inflight_ttl override d
    <= age + d_lease_duration d + Z.max 1 (Qceiling (d_window d)).
Proof.
  intros -> Ha Hl [Hw Hw'] Hd. unfold get_inflight_ttl. set (age := default (d_max_age d) override) in *.
  set (lease := d_lease_duration d) in *. set (w := d_window d) in *.
  assert (Hz : forall n, 1 <= n <= 2 ^ 50 -> (fmax 1 (rnd n) == n)%Q).
  { intros n Hn. rewrite (rnd_int n) by (unfold two53; lia). apply fmax_1_Z. lia. }
  assert (E : ((fmax 1 (rnd age) ⊕ fmax 1 (rnd lease)) == (age + lease)%Z)%Q).
  { unfold fadd. rewrite !Hz, <- inject_Z_plus by done. apply rnd_int. unfold two53. lia. }
  assert (Em : (Z.max 1 (Qfloor w) <= fmax 1 (rnd w) <= Z.max 1 (Qceiling w))%Q).
  { rewrite Hd. destruct (fmax_spec 1 w) as (H1 & H2 & H3). pose proof (Qfloor_le w). pose proof (Qle_ceiling w).
    change 1%Q with (inject_Z 1) in *. split.
    - destruct (Z.max_spec 1 (Qfloor w)) as [[_ ->]|[_ ->]]; lra.
    - assert (Hc1 : (inject_Z 1 <= Z.max 1 (Qceiling w))%Q) by (rewrite <- Zle_Qle; lia).
      assert (Hc2 : (inject_Z (Qceiling w) <= Z.max 1 (Qceiling w))%Q) by (rewrite <- Zle_Qle; lia).
      destruct H3 as [-> | ->]; lra. }
  assert (Hfc : 0 <= Qfloor w <= 2 ^ 50 /\ 0 <= Qceiling w <= 2 ^ 50).
  { split.
    - assert (H0 : (inject_Z 0 <= w)%Q) by (change (inject_Z 0) with 0%Q; lra).
      apply Qfloor_resp_le in H0, Hw'. by rewrite !Qfloor_Z in *.
    - apply Qceiling_bounds; [change (inject_Z 0) with 0%Q; lra|done]. }
  destruct Em. apply Qceiling_bounds; unfold fadd at 1.
  - apply rnd_ge_int; [unfold two53; lia|]. rewrite E, (inject_Z_plus (age + lease)). lra.
  - apply rnd_le_int; [unfold two53; lia|]. rewrite E, (inject_Z_plus (age + lease)). lra.
Qed.

(** Whatever rounding, the recovery delay is never negative and never
    longer than the rest of the window, and it is the rest of the window when
    no decay can free a token. *)
Theorem recovery_delay_bounds (d : dist) (prev cur reset W : Z) :
  (d_window d ⊗ 1000 == W)%Q -> 0 < W <= two53 -> 0 <= reset <= W -> 0 <= cur ->
  (0 <= token_recovery_delay prev cur reset d <= rnd (reset / 1000))%Q /\
  (prev <= 0 \/ d_limit d <= cur -> token_recovery_delay prev cur reset d = rnd (reset / 1000)%Q).
Proof.
  intros Hw HW Hr Hc. unfold token_recovery_delay.
  assert (H1000 : (0 <= reset ⊘ 1000)%Q).
  { unfold fdiv. apply rnd_nonneg, Qle_shift_div_l; [done|]. rewrite Qmult_0_l.
    change 0%Q with (inject_Z 0). rewrite <- Zle_Qle. lia. }
  destruct ((prev <=? 0) || (d_limit d <=? cur)) eqn:E.
  { split; [split; [done|apply Qle_refl]|done]. }
  apply orb_false_iff in E as [E1 E2]. reflect_bools.
  split; [|lia]. set (x := (d_limit d - cur)%Z ⊘ prev).
  assert (Hx : (0 <= x)%Q).
  { unfold x, fdiv. apply rnd_nonneg, Qle_shift_div_l.
    - change 0%Q with (inject_Z 0). by rewrite <- Zlt_Qlt.
    - rewrite Qmult_0_l. change 0%Q with (inject_Z 0). rewrite <- Zle_Qle. lia. }
  set (tn := (d_window d ⊗ 1000) ⊗ (1 ⊖ x)).
  assert (Htn : (tn <= W)%Q).
  { unfold tn, fmul at 1. rewrite Hw. apply rnd_le_int; [lia|].
    assert (H1 : (1 ⊖ x <= 1)%Q) by (unfold fsub; apply rnd_le_1; lra).
    assert (H0 : (0 <= W)%Q) by (change 0%Q with (inject_Z 0); rewrite <- Zle_Qle; lia). nra. }
  assert (Htp : (d_window d ⊗ 1000 ⊖ reset == (W - reset)%Z)%Q).
  { unfold fsub at 1. rewrite Hw. assert (W - reset == (W - reset)%Z)%Q as ->.
    - unfold Qminus, Z.sub. by rewrite inject_Z_plus, inject_Z_opp.
    - apply rnd_int. lia. }
  set (wait := tn ⊖ _). assert (Hwait : (wait <= reset)%Q).
  { unfold wait, fsub at 1. rewrite Htp. apply rnd_le_int; [lia|].
    unfold Z.sub. rewrite inject_Z_plus, inject_Z_opp. lra. }
  destruct (Qle_bool wait 0) eqn:Hq; [split; [apply Qle_refl|done]|].
  assert (Hpos : (0 < wait)%Q) by (apply Qnot_le_lt; intros H; apply Qle_bool_iff in H; congruence).
  unfold fdiv. split.
  - apply rnd_nonneg, Qle_shift_div_l; [done|]. rewrite Qmult_0_l. by apply Qlt_le_weak.
  - apply rnd_mono. apply Qle_shift_div_l; [done|].
    assert (wait / 1000 * 1000 == wait)%Q as -> by field. done.
Qed.
End Properties.

(** Computed exactly, the recovery delay is the moment a token comes free:
    for every later time of the window, the estimate that consume computes
    then is below the limit if and only if that time is past the delay. When
    the current window alone exhausts the limit no such time exists. *)
Theorem recovery_delay_exact (d : dist) (prev cur reset W : Z) (x : Q) :
  (d_window d * 1000 == W)%Q -> 0 < W -> 0 < prev -> 0 <= reset -> (0 < x <= reset)%Q ->
  let est := estimate (F := exact_rounding) cur prev ((W - reset)%Z + x) 0 W in
  (cur < d_limit d ->
     (est < d_limit d)%Q <-> (token_recovery_delay (F := exact_rounding) prev cur reset d * 1000 < x)%Q) /\
  (d_limit d <= cur -> ~ (est < d_limit d)%Q).
Proof.
  intros Hw HW Hp Hr [Hx Hxr] est.
  assert (HWq : (0 < W)%Q) by (change 0%Q with (inject_Z 0); by rewrite <- Zlt_Qlt).
  assert (Hpq : (0 < prev)%Q) by (change 0%Q with (inject_Z 0); by rewrite <- Zlt_Qlt).
  assert (He : (est == cur + prev * (reset - x) / W)%Q).
  { unfold est, estimate, fadd, fsub, fmul, fdiv, rnd, exact_rounding.
    unfold Z.sub. rewrite inject_Z_plus, inject_Z_opp. field. lra. }
  split.
  - intros Hc. unfold token_recovery_delay.
    rewrite (proj2 (Z.leb_gt prev 0)), (proj2 (Z.leb_gt (d_limit d) cur)) by lia. cbn [orb].
    set (v := (_ ⊖ _)). assert (Hv : (v == reset - W * (d_limit d - cur) / prev)%Q).
    { unfold v, fsub, fmul, fdiv, rnd, exact_rounding. rewrite Hw. unfold Z.sub.
      rewrite inject_Z_plus, inject_Z_opp. field. lra. }
    assert (Hi : (est < d_limit d <-> v < x)%Q).
    { rewrite He, Hv. set (y := (prev * (reset - x) / W)%Q). set (z := (W * (d_limit d - cur) / prev)%Q).
      assert (Hy : (y * W == prev * (reset - x))%Q) by (unfold y; field; lra).
      assert (Hz : (z * prev == W * (d_limit d - cur))%Q) by (unfold z; field; lra).
      split; intros H.
      - assert (H1 : (y * W < (d_limit d - cur) * W)%Q) by (apply Qmult_lt_compat_r; [done|lra]).
        assert (H2 : (prev * (reset - x) < prev * z)%Q) by lra.
        apply Qmult_lt_l in H2; [lra|done].
      - assert (H1 : (prev * (reset - x) < prev * z)%Q) by (apply Qmult_lt_l; [done|lra]).
        assert (H2 : (y * W < (d_limit d - cur) * W)%Q) by lra.
        apply Qmult_lt_r in H2; [lra|done]. }
    rewrite Hi. unfold fdiv, rnd, exact_rounding. destruct (Qle_bool v 0) eqn:Hq.
    + apply Qle_bool_iff in Hq. split; intros; lra.
    + assert (v / 1000 * 1000 == v)%Q as -> by field. done.
  - intros Hc H. rewrite He in H.
    assert (Hcq : (d_limit d <= cur)%Q) by (by rewrite <- Zle_Qle).
    assert (0 <= prev * (reset - x) / W)%Q.
    { apply Qle_shift_div_l; [done|]. rewrite Qmult_0_l. apply Qmult_le_0_compat; lra. }
    lra.
Qed.

Section DoublePrecision.
#[local] Existing Instance binary64.

(** The constants of the jitter in double precision. *)
Lemma jitter_weights :
  ((1 ⊗ rnd (7 # 10)) ⊕ (1 ⊗ rnd (3 # 10)) <= 1 /\ rnd (3 # 10) ⊕ (1 ⊗ rnd (7 # 10)) <= 1 /\
   0 <= rnd (3 # 10) /\ 0 <= rnd (7 # 10))%Q.
Proof. vm_compute. by repeat split. Qed.

(** The jitter stays in its band: between the minimal jitter and minimal
    jitter plus the width of the band, rounded to milliseconds, for every load
    and every random number; it is zero when disabled. *)
Theorem jitter_band (d : dist) (remaining active : Z) (u : Q) :
  (0 <= u <= 1)%Q -> 0 <= active <= Z.max 1 (d_max_concurrency d) ->
  (d_window d ⊗ d_jitter_min_pct d <= d_window d ⊗ d_jitter_max_pct d)%Q ->
  let lo := d_window d ⊗ d_jitter_min_pct d in
  let width := (d_window d ⊗ d_jitter_max_pct d) ⊖ lo in
  (d_jitter_enabled d = true ->
     round3 (lo ⊕ 0) <= smart_jitter remaining active u d <= round3 (lo ⊕ (width ⊗ 1 ⊗ 1)))%Q /\
  (d_jitter_enabled d = false -> smart_jitter remaining active u d = 0%Q).
Proof.
  intros Hu Ha Hb lo width. pose proof binary64_laws as FL. unfold smart_jitter.
  destruct (d_jitter_enabled d); cbn [negb]; (split; [|done]); [intros _|done].
  fold lo. fold width. destruct jitter_weights as (Hw1 & Hw2 & H3 & H7).
  assert (Hwidth : (0 <= width)%Q) by (unfold width, fsub, lo; apply rnd_nonneg; lra).
  assert (Hload : (0 <= load_pressure remaining <= 1)%Q).
  { unfold load_pressure. repeat case_match; vm_compute; split; discriminate. }
  set (m := Z.max 1 (d_max_concurrency d)) in *.
  assert (Hm : (0 < m)%Q) by (change 0%Q with (inject_Z 0); rewrite <- Zlt_Qlt; lia).
  assert (Hcp : (0 <= active ⊘ m <= 1)%Q).
  { unfold fdiv. split.
    - apply rnd_nonneg, Qle_shift_div_l; [done|]. rewrite Qmult_0_l.
      change 0%Q with (inject_Z 0). rewrite <- Zle_Qle. lia.
    - apply rnd_le_1, Qle_shift_div_r; [done|]. rewrite Qmult_1_l, <- Zle_Qle. lia. }
  assert (Hmul : forall x y c, (0 <= x)%Q -> (x <= y)%Q -> (0 <= c)%Q -> (0 <= x ⊗ c)%Q /\ (x ⊗ c <= y ⊗ c)%Q).
  { intros x y c H0 H1 H2. unfold fmul. split; [by apply rnd_nonneg, Qmult_le_0_compat|].
    by apply rnd_mono, Qmult_le_compat_r. }
  set (comb := (load_pressure remaining ⊗ _) ⊕ _).
  assert (Hcomb : (0 <= comb <= 1)%Q).
  { destruct (Hmul (load_pressure remaining) 1%Q (rnd (7 # 10))) as [A1 A2]; try tauto.
    destruct (Hmul (active ⊘ m) 1%Q (rnd (3 # 10))) as [B1 B2]; try tauto.
    unfold comb, fadd. split; [apply rnd_nonneg; lra|].
    eapply Qle_trans; [|exact Hw1]. unfold fadd. apply rnd_mono. lra. }
  set (scale := rnd (3 # 10) ⊕ _).
  assert (Hscale : (0 <= scale <= 1)%Q).
  { destruct (Hmul comb 1%Q (rnd (7 # 10))) as [A1 A2]; try tauto.
    unfold scale, fadd. split; [apply rnd_nonneg; lra|].
    eapply Qle_trans; [|exact Hw2]. unfold fadd. apply rnd_mono. lra. }
  assert (Hrange : (0 <= width ⊗ scale <= width ⊗ 1)%Q).
  { unfold fmul. split; [apply rnd_nonneg, Qmult_le_0_compat; tauto|]. apply rnd_mono. nra. }
  assert (Hstep : (0 <= width ⊗ scale ⊗ u <= width ⊗ 1 ⊗ 1)%Q).
  { unfold fmul at 1 3. split; [apply rnd_nonneg, Qmult_le_0_compat; tauto|]. apply rnd_mono. nra. }
  assert (Hround : forall x y, (x <= y)%Q -> (round3 x <= round3 y)%Q).
  { intros x y H. unfold round3. apply rnd_mono. unfold Qdiv. apply Qmult_le_compat_r; [|done].
    rewrite <- Zle_Qle. apply Qrne_mono. lra. }
  split; apply Hround; unfold fadd; apply rnd_mono; lra.
Qed.
End DoublePrecision.

(** ** Task identity *)

(** Two documents that differ in the order of members at any depth. *)
Inductive same_doc : json -> json -> Prop :=
  | sd_refl v : same_doc v v
  | sd_trans u v w : same_doc u v -> same_doc v w -> same_doc u w
  | sd_order l l' : l ≡ₚ l' -> NoDup l.*1 -> same_doc (JObj l) (JObj l')
  | sd_member l1 k v v' l2 : same_doc v v' -> same_doc (JObj (l1 ++ (k, v) :: l2)) (JObj (l1 ++ (k, v') :: l2))
  | sd_element l1 v v' l2 : same_doc v v' -> same_doc (JArr (l1 ++ v :: l2)) (JArr (l1 ++ v' :: l2)).

Definition sorted_members (l : list (string * json)) : list (string * json) :=
  foldr (fun m acc => insert_key (fst m) (sort_keys (snd m)) acc) [] l.

Lemma sort_keys_obj l : sort_keys (JObj l) = JObj (sorted_members l).
Proof. cbn. f_equal. induction l as [|[k v] l IH]; [done|]. cbn. by rewrite IH. Qed.

Lemma ltb_asym a b : String.ltb a b = true -> String.ltb b a = false.
Proof.
  intros H. apply not_true_iff_false. intros H'.
  pose proof (string_ltb_trans _ _ _ H H') as Hc. by rewrite string_ltb_irrefl in Hc.
Qed.

(** [a] is below [b] when it is below [c] and [b] is not. *)
Lemma ltb_between a b c : String.ltb c b = true -> String.ltb c a = false -> String.ltb a b = true.
Proof.
  intros Hb Ha. destruct (string_ltb_total c a Ha) as [->|H]; [done|]. by eapply string_ltb_trans.
Qed.

Lemma insert_key_comm k1 v1 k2 v2 l :
  k1 <> k2 -> insert_key k1 v1 (insert_key k2 v2 l) = insert_key k2 v2 (insert_key k1 v1 l).
Proof.
  intros Hne. assert (Ht : String.ltb k1 k2 = negb (String.ltb k2 k1)).
  { destruct (String.ltb k2 k1) eqn:E; [by apply ltb_asym|].
    apply string_ltb_total in E as [E|E]; [by symmetry in E|done]. }
  induction l as [|[h x] l IH]; cbn [insert_key].
  - rewrite Ht. by destruct (String.ltb k2 k1).
  - destruct (String.ltb h k2) eqn:E2, (String.ltb h k1) eqn:E1; cbn [insert_key];
      rewrite ?E1, ?E2; [by rewrite IH| | |].
    + pose proof (ltb_between k1 k2 h E2 E1) as H12.
      by rewrite H12, ?E2.
    + pose proof (ltb_between k2 k1 h E1 E2) as H21. by rewrite H21, ?E1.
    + rewrite Ht. by destruct (String.ltb k2 k1).
Qed.

Lemma sorted_members_perm l l' : l ≡ₚ l' -> NoDup l.*1 -> sorted_members l = sorted_members l'.
Proof.
  induction 1 as [|m l l' _ IH|m1 m2 l|l1 l2 l3 H1 IH1 _ IH2]; intros Hn; unfold sorted_members in *; cbn in *.
  - done.
  - apply NoDup_cons in Hn as [_ Hn]. by rewrite IH.
  - apply NoDup_cons in Hn as [Hn _]. apply insert_key_comm. rewrite elem_of_cons in Hn. tauto.
  - rewrite IH1 by done. apply IH2. by rewrite <- H1.
Qed.

Lemma sort_keys_same u v : same_doc u v -> sort_keys u = sort_keys v.
Proof.
  induction 1 as [v|u v w _ IH1 _ IH2|l l' Hp Hn|l1 k v v' l2 _ IH|l1 v v' l2 _ IH].
  - done.
  - by rewrite IH1.
  - rewrite !sort_keys_obj. f_equal. by apply sorted_members_perm.
  - rewrite !sort_keys_obj. unfold sorted_members. rewrite !foldr_app. cbn. by rewrite IH.
  - cbn. rewrite !map_app. cbn. by rewrite IH.
Qed.

Lemma same_doc_sym u v : same_doc u v -> same_doc v u.
Proof.
  induction 1 as [v|u v w _ IH1 _ IH2|l l' Hp Hn|l1 k v v' l2 _ IH|l1 v v' l2 _ IH].
  - apply sd_refl.
  - by eapply sd_trans.
  - apply sd_order; [by symmetry|by rewrite <- Hp].
  - by apply sd_member.
  - by apply sd_element.
Qed.

(** No object has a key twice, at any depth: the documents of Python's
    dictionaries. *)
Fixpoint unique_keys (v : json) : Prop :=
  match v with
  | JArr l => (fix all l := match l with [] => True | x :: l' => unique_keys x /\ all l' end) l
  | JObj l => NoDup l.*1 /\
      (fix all l := match l with [] => True | (_, x) :: l' => unique_keys x /\ all l' end) l
  | _ => True
  end.

Lemma unique_arr l : unique_keys (JArr l) <-> Forall unique_keys l.
Proof. cbn. induction l as [|x l IH]; [done|]. rewrite Forall_cons. by rewrite IH. Qed.

Lemma unique_obj l : unique_keys (JObj l) <-> NoDup l.*1 /\ Forall (fun kv => unique_keys (snd kv)) l.
Proof.
  cbn. apply and_iff_compat_l. induction l as [|[k x] l IH]; [done|]. rewrite Forall_cons. by rewrite IH.
Qed.

Lemma insert_key_perm k v l : insert_key k v l ≡ₚ (k, v) :: l.
Proof.
  induction l as [|[k' v'] l IH]; [done|]. cbn [insert_key]. destruct (String.ltb k' k); [|done]. rewrite IH. apply Permutation_swap.
Qed.

Lemma sorted_members_map l : sorted_members l ≡ₚ map (fun m => (fst m, sort_keys (snd m))) l.
Proof. induction l as [|[k v] l IH]; [done|]. unfold sorted_members in *. cbn. by rewrite insert_key_perm, IH. Qed.

(** Every element, or member, replaced by one that is the same document. *)
Lemma same_elements f l1 l :
  Forall (fun v => same_doc v (f v)) l -> same_doc (JArr (l1 ++ l)) (JArr (l1 ++ map f l)).
Proof.
  intros H. revert l1. induction H as [|v l Hv _ IH]; intros l1; [apply sd_refl|].
  eapply sd_trans; [by apply (sd_element l1 v (f v) l)|]. cbn [map].
  rewrite (cons_middle (f v) l1 l), (cons_middle (f v) l1 (map f l)), !app_assoc. apply IH.
Qed.

Lemma same_members f l1 l :
  Forall (fun m => same_doc (snd m) (f (snd m))) l ->
  same_doc (JObj (l1 ++ l)) (JObj (l1 ++ map (fun m => (fst m, f (snd m))) l)).
Proof.
  intros H. revert l1. induction H as [|[k v] l Hv _ IH]; intros l1; [apply sd_refl|].
  eapply sd_trans; [by apply (sd_member l1 k v (f v) l)|]. cbn [map fst snd].
  rewrite (cons_middle (k, f v) l1 l), (cons_middle (k, f v) l1 (map _ l)), !app_assoc. apply IH.
Qed.

Lemma sort_keys_doc v : unique_keys v -> same_doc v (sort_keys v).
Proof.
  induction v as [| | | | |l IH|l IH] using json_induction; intros Hu; try apply sd_refl.
  - apply unique_arr in Hu. apply (same_elements sort_keys []). rewrite Forall_forall in *. auto.
  - apply unique_obj in Hu as [Hn Hu]. rewrite sort_keys_obj.
    eapply sd_trans; [apply (same_members sort_keys []); rewrite Forall_forall in *; auto|].
    apply sd_order; [symmetry; apply sorted_members_map|].
    cbn. rewrite <- list_fmap_compose. exact Hn.
Qed.

Lemma jwf_sort_keys v : jwf v = true -> jwf (sort_keys v) = true.
Proof.
  induction v as [| | | | |l IH|l IH] using json_induction; intros Hv; try done.
  - cbn in *. rewrite forallb_forall in *. rewrite Forall_forall in IH. intros y Hy. apply in_map_iff in Hy as (x & <- & Hx).
    apply IH; [by apply list_elem_of_In|by apply Hv].
  - rewrite sort_keys_obj. cbn in *. rewrite forallb_forall in *. rewrite Forall_forall in IH. intros m Hm.
    apply list_elem_of_In in Hm. rewrite sorted_members_map in Hm. apply list_elem_of_In, in_map_iff in Hm as (x & <- & Hx).
    apply IH; [by apply list_elem_of_In|by apply Hv].
Qed.

(** Printing is injective. *)
Lemma dumps_injective u v : jwf u = true -> jwf v = true -> dumps u = dumps v -> u = v.
Proof. intros Hu Hv E. apply (f_equal loads) in E. rewrite !loads_dumps in E by done. by injection E. Qed.

(** C33. A task is identified by what it is.  The signature depends on the
    function and on the payload as a document, not on the order in which the
    payload's members were written, at any depth; and two tasks with JSON
    payloads, in which no object has a key twice, have the same signature only
    if they are of the same function and their payloads are the same document
    up to that order. *)
Theorem signature_canonical (func_path func_path' : string) (payload payload' : list (string * json)) :
  (same_doc (JObj payload) (JObj payload') ->
   get_task_signature_str func_path payload = get_task_signature_str func_path payload') /\
  (jwf (JObj payload) = true -> jwf (JObj payload') = true ->
   unique_keys (JObj payload) -> unique_keys (JObj payload') ->
   get_task_signature_str func_path payload = get_task_signature_str func_path' payload' ->
   func_path = func_path' /\ same_doc (JObj payload) (JObj payload')).
Proof.
  split.
  - intros H. unfold get_task_signature_str. f_equal. apply sort_keys_same.
    exact (sd_member [("path", JStr func_path)] "payload" _ _ [] H).
  - intros J J' U U' E. unfold get_task_signature_str in E.
    apply dumps_injective in E; [|apply jwf_sort_keys; cbn; cbn in J; by rewrite J|apply jwf_sort_keys; cbn; cbn in J'; by rewrite J'].
    cbn [sort_keys insert_key] in E. change (String.ltb "payload" "path") with false in E. injection E as -> E. split; [done|].
    assert (Es : sort_keys (JObj payload) = sort_keys (JObj payload')) by (cbn [sort_keys]; f_equal; exact E).
    eapply sd_trans; [by apply sort_keys_doc|]. rewrite Es. by apply same_doc_sym, sort_keys_doc.
Qed.

(** ** Witnesses *)

Definition demo_config : dist_config :=
  DistConfig "demo" 10 2 4 3600 30 "warn" true (2 # 100) (8 # 100) None true.

Definition demo_limiter : dist :=
  match dist_init (F := binary64) demo_config "w1" with inr d => d
  | inl _ => MkDist (MkBase estr 0 0 0 0 ∅ ∅) 0 0 0 estr false 0 0 None false estr 0 0 None
               (HSched 0 ∅ [] false NoThread) None false false
  end.

Lemma inflight_ttl_covers_witness :
  3600 + 30 + Z.max 1 (Qfloor 2) <= get_inflight_ttl (F := binary64) None demo_limiter
    <= 3600 + 30 + Z.max 1 (Qceiling 2).
Proof.
  apply (inflight_ttl_covers (F := binary64) (FL := binary64_laws) demo_limiter None 3600);
    by vm_compute.
Defined.

Lemma recovery_delay_bounds_witness :
  (0 <= token_recovery_delay (F := binary64) 8 6 500 demo_limiter <= rnd64 (500 # 1000))%Q.
Proof.
  apply (recovery_delay_bounds (F := binary64) (FL := binary64_laws) demo_limiter 8 6 500 2000);
    by vm_compute.
Defined.

Lemma recovery_delay_exact_witness :
  let est := estimate (F := exact_rounding) 6 8 ((2000 - 1500)%Z + 900) 0 2000 in
  (est < 10)%Q <-> (token_recovery_delay (F := exact_rounding) 8 6 1500 demo_limiter * 1000 < 900)%Q.
Proof.
  refine (proj1 (recovery_delay_exact demo_limiter 8 6 1500 2000 900 _ _ _ _ _) _); by vm_compute.
Defined.

Lemma jitter_band_witness :
  (round3 (H := binary64) (fadd (H := binary64) (fmul (H := binary64) 2 (2 # 100)) 0)
   <= smart_jitter (F := binary64) 20 3 (1 # 2) demo_limiter)%Q.
Proof.
  refine (proj1 (proj1 (jitter_band demo_limiter 20 3 (1 # 2) _ _ _) _)); by vm_compute.
Defined.

Lemma signature_canonical_witness :
  get_task_signature_str "pkg.f" [("a", JInt 1); ("b", JInt 2)]
  = get_task_signature_str "pkg.f" [("b", JInt 2); ("a", JInt 1)] /\
  ("pkg.f" = "pkg.f" /\ same_doc (JObj [("a", JInt 1); ("b", JInt 2)]) (JObj [("b", JInt 2); ("a", JInt 1)])).
Proof.
  destruct (signature_canonical "pkg.f" "pkg.f" [("a", JInt 1); ("b", JInt 2)] [("b", JInt 2); ("a", JInt 1)]) as [H1 H2].
  split.
  - apply H1. apply sd_order; [apply Permutation_swap|].
    by apply (bool_decide_unpack (NoDup ["a"; "b"])); vm_compute.
  - apply H2; [done|done| | |by vm_compute]; (split; [|done]);
      by apply (bool_decide_unpack (NoDup _)); vm_compute.
Defined.
