(* ===== verification/Managed.v ===== *)
(** * Managed: the registry of limiters (core/managed.py)

    Model of [ManagedRateLimiterMixin], [SyncManagedRateLimiter] and
    [AsyncManagedRateLimiter]: the class-level cache of instances, their
    configuration in Redis and its version counter.  The cache holds
    references: two variables may name one instance, and replacing a cache
    entry leaves the replaced object to those who hold it, so the objects live
    in a store and the cache maps identifiers to addresses. *)

From S2P Require Import Prelude Float Text Json Redis Py Base.

Open Scope Z_scope.
Open Scope rl_scope.

(** What a concrete class contributes. *)
Class Managed (R O : Type) := {
  managed_base :: IsBase O;
  blank : O;                                                  (* before [__init__] *)
  construct : string -> list (string * json) -> py R O unit;  (* [super().__init__(limiter_id, **config)] *)
  start : py R O unit;                                        (* asynchronous classes *)
  apply_config_overrides : list (string * json) -> py R O unit;
  persisted_config : O -> list (string * json);               (* [_build_persist_config] *)
}.

(** Class-level state. *)
Record mclass (O : Type) := MClass {
  c_client : bool;                     (* [_redis_client] is set *)
  c_context : bool;                    (* [_has_backend_context()] *)
  c_instances : gmap string nat;       (* [_instances] *)
  c_objects : list O;                  (* every instance ever allocated *)
}.
Arguments MClass {O} _ _ _ _.
Arguments c_client {O} _.
Arguments c_context {O} _.
Arguments c_instances {O} _.
Arguments c_objects {O} _.

(** [__init_subclass__] *)
Definition init_subclass {O} : mclass O := MClass false false ∅ [].

Definition registry_key : string := "rl:registry:configs".
Definition version_key : string := "rl:registry:versions".

(** ** Parsing what Redis holds *)

(** [dict(v)] for a parsed document: an object, or a list of pairs. *)
Fixpoint dict_of_pairs (l : list json) : exn + list (string * json) :=
  match l with
  | [] => inr []
  | JArr [JStr k; v] :: l' =>
      match dict_of_pairs l' with inl e => inl e | inr d => inr ((k, v) :: d) end
  | JStr (String a (String b EmptyString)) :: l' =>
      match dict_of_pairs l' with
      | inl e => inl e
      | inr d => inr ((String a EmptyString, JStr (String b EmptyString)) :: d)
      end
  | (JArr _ | JObj _ | JStr _) :: _ => inl (ValueError "dictionary update sequence element")
  | (JNull | JBool _ | JInt _ | JDec _ _) :: _ => inl (TypeError "cannot convert dictionary update sequence element")
  end.

Definition py_dict (v : json) : exn + list (string * json) :=
  match v with
  | JObj l => inr l
  | JArr l => dict_of_pairs l
  | JStr s => if String.eqb s estr then inr [] else inl (ValueError "dictionary update sequence element")
  | JNull | JBool _ | JInt _ | JDec _ _ => inl (TypeError "object is not iterable")
  end.

(** [_parse_raw_config] *)
Definition parse_raw_config (raw : string) : exn + list (string * json) :=
  match loads raw with
  | None => inl (JSONDecodeError "Expecting value")
  | Some v => py_dict v
  end.

(** [_parse_version] *)
Definition parse_version (raw : string) : exn + Z :=
  match read_Z raw with
  | Some n => inr n
  | None => inl (ValueError "invalid literal for int()")
  end.

(** ** Keyword arguments *)

Definition kw_int (k : string) (default_value : option Z) (kw : list (string * json)) : exn + Z :=
  match assoc_last k kw, default_value with
  | Some (JInt n), _ => inr n
  | None, Some n => inr n
  | _, _ => inl (TypeError k)
  end.

Definition kw_num {F : Rounding} (k : string) (default_value : option Q) (kw : list (string * json)) : exn + Q :=
  match assoc_last k kw, default_value with
  | Some v, _ => match py_num v with Some q => inr q | None => inl (TypeError k) end
  | None, Some q => inr q
  | None, None => inl (TypeError k)
  end.

Definition kw_bool (k : string) (default_value : bool) (kw : list (string * json)) : exn + bool :=
  match assoc_last k kw with
  | Some (JBool b) => inr b
  | None => inr default_value
  | Some _ => inl (TypeError k)
  end.

Definition kw_str (k default_value : string) (kw : list (string * json)) : exn + string :=
  match assoc_last k kw with
  | Some (JStr s) => inr s
  | None => inr default_value
  | Some _ => inl (TypeError k)
  end.

#[export] Instance sum_bind : MBind (sum exn) := fun A B f x =>
  match x with inl e => inl e | inr a => f a end.

(** [except (json.JSONDecodeError, TypeError)] *)
Definition malformed (e : exn) : bool :=
  match e with JSONDecodeError _ | TypeError _ => true | _ => false end.

Section Managed.
Context {R : Type} {RS : RedisServer R} {O : Type} {M : Managed R O}.

Abbreviation cls := (py R (mclass O)).

(** ** Objects *)

Definition with_object {O1 O2} (o : O2) (w : world R O1) : world R O2 :=
  World (w_srv w) (w_cache w) (w_net w) (w_mono w) (w_wall w) (w_rand w) (w_uuid w) (w_trace w) o.

(** A method of the instance at address [a]. *)
Definition on {A} (a : nat) (m : py R O A) : cls A := fun w =>
  match c_objects (w_obj w) !! a with
  | None => (inl (AttributeError "no such object"), w)
  | Some o =>
      let '(r, w') := m (with_object o w) in
      let c := w_obj w in
      (r, with_object (MClass (c_client c) (c_context c) (c_instances c) (<[a := w_obj w']> (c_objects c))) w')
  end.

(** A fresh object. *)
Definition allocate : cls nat := fun w =>
  let c := w_obj w in
  (inr (length (c_objects c)),
   set_obj (MClass (c_client c) (c_context c) (c_instances c) (c_objects c ++ [blank])) w).

Definition remember (limiter_id : string) (a : nat) : cls unit :=
  modify (fun c => MClass (c_client c) (c_context c) (<[limiter_id := a]> (c_instances c)) (c_objects c)).

(** ** The class API *)

(** [_require_configured] *)
Definition require_configured : cls unit :=
  c ← self;
  when (negb (c_client c) || negb (c_context c)) (raise (RuntimeError "configure() must be called first")).

(** [configure]: the client is set before the backend refuses its context. *)
Definition set_client (b : bool) : cls unit :=
  modify (fun c => MClass b (c_context c) (c_instances c) (c_objects c)).
Definition set_context (b : bool) : cls unit :=
  modify (fun c => MClass (c_client c) b (c_instances c) (c_objects c)).

Definition configure (configure_backend : cls unit) : cls unit :=
  _ ← set_client true;
  configure_backend.

(** [_reset]: the objects remain with those who hold them. *)
Definition reset (reset_backend_context : cls unit) : cls unit :=
  _ ← modify (fun c => MClass (c_client c) (c_context c) ∅ (c_objects c));
  _ ← set_client false;
  reset_backend_context.

(** [_require_internal_construction] *)
Definition require_internal_construction (internal : bool) : py R O unit :=
  when (negb internal) (raise (RuntimeError "Direct construction is not supported.")).

(** [__init__] *)
Definition managed_init (internal : bool) (limiter_id : string) (config : list (string * json)) : py R O unit :=
  _ ← require_internal_construction internal;
  construct limiter_id config.

(** [cls(redis_client, limiter_id, _sentinel, **context, **config)] *)
Definition new_instance (limiter_id : string) (config : list (string * json)) : cls nat :=
  a ← allocate;
  _ ← on a (managed_init true limiter_id config);
  mret a.

(** [_persist_config] *)
Definition persist_config : py R O unit :=
  o ← self;
  let id := b_id (base_of o) in
  _ ← command (HSET registry_key id (dumps (JObj (persisted_config o))));
  version ← command (HINCRBY version_key id);
  modify (with_base (set_version version)).

(** [create] *)
Definition managed_create (limiter_id : string) (persist override : bool) (config : list (string * json)) : cls nat :=
  _ ← require_configured;
  c ← self;
  if negb override && bool_decide (is_Some (c_instances c !! limiter_id)) then
    raise (ValueError "Limiter already exists.")
  else
    a ← new_instance limiter_id config;
    _ ← remember limiter_id a;
    _ ← when persist (on a persist_config);
    mret a.

(** [get], from the answer of the registry on *)
Definition hydrate (limiter_id : string) (raw_config : option string) : cls nat :=
  match raw_config with
  | None => raise (ValueError "Limiter not found in local cache or Redis.")
  | Some raw =>
      config ← of_sum (parse_raw_config raw);
      a ← new_instance limiter_id config;
      raw_version ← command (HGET version_key limiter_id);
      _ ← (match raw_version with
           | Some v => version ← of_sum (parse_version v); on a (modify (with_base (set_version version)))
           | None => skip
           end);
      _ ← remember limiter_id a;
      mret a
  end.

(** [get] *)
Definition managed_get (limiter_id : string) : cls nat :=
  c ← self;
  match c_instances c !! limiter_id with
  | Some a => mret a
  | None =>
      _ ← require_configured;
      raw_config ← command (HGET registry_key limiter_id);
      hydrate limiter_id raw_config
  end.

(** [update] *)
Definition managed_update (limiter_id : string) (overrides : list (string * json)) : cls nat :=
  a ← managed_get limiter_id;
  _ ← on a (apply_config_overrides overrides);
  _ ← on a persist_config;
  mret a.

(** [refresh_config] *)
Definition refresh_config : py R O bool :=
  o ← self;
  let id := b_id (base_of o) in
  raw_version ← command (HGET version_key id);
  match raw_version with
  | None => mret false
  | Some v =>
      remote_version ← of_sum (parse_version v);
      if remote_version <=? b_config_version (base_of o) then mret false
      else
        raw_config ← command (HGET registry_key id);
        match raw_config with
        | None => mret false
        | Some raw =>
            config ← catch malformed (c ← of_sum (parse_raw_config raw); mret (Some c)) (fun _ => mret None);
            match config with
            | None => mret false
            | Some c =>
                _ ← apply_config_overrides c;
                _ ← modify (with_base (set_version remote_version));
                mret true
            end
        end
  end.

(** ** The asynchronous class *)

Definition async_configure (configure_backend : cls unit) : cls unit :=
  _ ← set_client true;
  configure_backend.

Definition async_managed_init (internal : bool) (limiter_id : string) (config : list (string * json)) : py R O unit :=
  _ ← require_internal_construction internal;
  construct limiter_id config.

(** Construction, then [await instance.start()]. *)
Definition async_new_instance (limiter_id : string) (config : list (string * json)) : cls nat :=
  a ← allocate;
  _ ← on a (async_managed_init true limiter_id config);
  _ ← on a start;
  mret a.

Definition async_persist_config : py R O unit :=
  o ← self;
  let id := b_id (base_of o) in
  _ ← command (HSET registry_key id (dumps (JObj (persisted_config o))));
  version ← command (HINCRBY version_key id);
  modify (with_base (set_version version)).

Definition async_managed_create (limiter_id : string) (persist override : bool) (config : list (string * json))
    : cls nat :=
  _ ← require_configured;
  c ← self;
  if negb override && bool_decide (is_Some (c_instances c !! limiter_id)) then
    raise (ValueError "Limiter already exists.")
  else
    a ← async_new_instance limiter_id config;
    _ ← remember limiter_id a;
    _ ← when persist (on a async_persist_config);
    mret a.

(** The coroutine [get] from its first await on *)
Definition async_hydrate (limiter_id : string) (raw_config : option string) : cls nat :=
  match raw_config with
  | None => raise (ValueError "Limiter not found in local cache or Redis.")
  | Some raw =>
      config ← of_sum (parse_raw_config raw);
      a ← async_new_instance limiter_id config;
      raw_version ← command (HGET version_key limiter_id);
      _ ← (match raw_version with
           | Some v => version ← of_sum (parse_version v); on a (modify (with_base (set_version version)))
           | None => skip
           end);
      _ ← remember limiter_id a;
      mret a
  end.

Definition async_managed_get (limiter_id : string) : cls nat :=
  c ← self;
  match c_instances c !! limiter_id with
  | Some a => mret a
  | None =>
      _ ← require_configured;
      raw_config ← command (HGET registry_key limiter_id);
      async_hydrate limiter_id raw_config
  end.

Definition async_managed_update (limiter_id : string) (overrides : list (string * json)) : cls nat :=
  a ← async_managed_get limiter_id;
  _ ← on a (apply_config_overrides overrides);
  _ ← on a async_persist_config;
  mret a.

Definition async_refresh_config : py R O bool :=
  o ← self;
  let id := b_id (base_of o) in
  raw_version ← command (HGET version_key id);
  match raw_version with
  | None => mret false
  | Some v =>
      remote_version ← of_sum (parse_version v);
      if remote_version <=? b_config_version (base_of o) then mret false
      else
        raw_config ← command (HGET registry_key id);
        match raw_config with
        | None => mret false
        | Some raw =>
            config ← catch malformed (c ← of_sum (parse_raw_config raw); mret (Some c)) (fun _ => mret None);
            match config with
            | None => mret false
            | Some c =>
                _ ← apply_config_overrides c;
                _ ← modify (with_base (set_version remote_version));
                mret true
            end
        end
  end.
End Managed.
