(* ===== verification/Distributed.v ===== *)
(** * Distributed: the synchronous distributed limiter

    Model of [AbstractDistributedRateLimiter], [TaskLifecycle] and
    [DrainSignalSubscriber] (core/limiters.py): scheduling with deduplication,
    inline acquisition, consumption, leases, the drain with its follow-up and
    its recovery, signalling and shutdown.  The execution backend is a type
    class: what a concrete subclass overrides. *)

From S2P Require Import Prelude Float Text Json Redis Keyspace Scripts Md5 Py Base Loop Heartbeat Dist.

Open Scope Z_scope.
Open Scope rl_scope.

(** The methods a concrete limiter overrides. *)
Class Backend (R O : Type) := {
  has_local_capacity : py R O bool;
  dispatch_task : json -> json -> json -> py R O unit;   (* func_path, payload, task_id *)
  check_backend_health : option (py R O bool);           (* [None]: not overridden *)
  refresh_hook : option (py R O unit);                   (* [refresh_config] of managed limiters *)
}.

(** ** Python values *)

(** [float(n)]; the largest double is below [2^1024 - 2^970]. *)
Definition py_float_int {F : Rounding} (n : Z) : exn + Q :=
  if 2 ^ 1024 - 2 ^ 970 <=? Z.abs n then inl (OverflowError "int too large to convert to float")
  else inr (rnd n).

(** A Python number that may not be finite. *)
Inductive pyfloat := Finite (q : Q) | Infinite (negative : bool) | NotANumber.

(** [d[k]] for a parsed document. *)
Definition json_item (k : string) (v : json) : exn + json :=
  match v with
  | JObj l => match assoc_last k l with Some x => inr x | None => inl (KeyError k) end
  | _ => inl (TypeError "indices must be integers")
  end.

(** [d.get(k)] *)
Definition json_get (k : string) (v : json) : exn + json :=
  match v with
  | JObj l => inr (default JNull (assoc_last k l))
  | _ => inl (AttributeError "get")
  end.

(** [v == s] *)
Definition is_text (s : string) (v : json) : bool :=
  match v with JStr t => String.eqb t s | _ => false end.

(** [bool(v)] *)
Definition truthy (v : json) : bool :=
  match v with
  | JNull => false
  | JBool b => b
  | JInt n => negb (n =? 0)
  | JDec m _ => negb (m =? 0)
  | JStr s => negb (String.eqb s estr)
  | JArr l => match l with [] => false | _ => true end
  | JObj l => match l with [] => false | _ => true end
  end.

(** ** Results of consume *)

Record consume_result := ConsumeResult {
  success : bool;
  expired : bool;
  marker_skipped : bool;
  yielded : bool;
  task : json;                  (* [JNull] for [None] *)
  res_remaining_tokens : Z;
  active_concurrency : Z;
  reset_in_ms : Z;
  remaining_tasks : Z;
  val_previous : Z;
  val_current : Z;
}.

(** [json.loads(result[1]) if result[1] else None] *)
Definition parse_task (o : option string) : exn + json :=
  match o with
  | None => inr JNull
  | Some s =>
      if String.eqb s estr then inr JNull
      else match loads s with Some v => inr v | None => inl (JSONDecodeError "Expecting value") end
  end.

Definition parse_consume (r : consume_reply) : exn + consume_result :=
  match parse_task (cr_task r) with
  | inl e => inl e
  | inr t =>
      inr (ConsumeResult (cr_status r =? 1) (cr_status r =? -1) (cr_status r =? -2) (cr_status r =? -3) t
             (cr_remaining r) (cr_active r) (cr_reset_in_ms r) (cr_buffer r) (cr_previous r) (cr_current r))
  end.

Definition consume_metric (r : consume_result) : json :=
  JObj [("success", JBool (success r)); ("expired", JBool (expired r));
        ("remaining_tokens", JInt (res_remaining_tokens r));
        ("active_concurrency", JInt (active_concurrency r));
        ("reset_in_ms", JInt (reset_in_ms r)); ("remaining_tasks", JInt (remaining_tasks r))].

(** The context manager of a task. *)
Inductive phase := Created | Entered | Exited (healthy : bool).
Record lifecycle := Lifecycle { tl_task_id : string; tl_action : string; tl_phase : phase }.

Section Limiter.
Context {F : Rounding} {R : Type} {RS : RedisServer R} {O : Type} {D : IsDist O}.
Context {P : Resources} {G : Digest} {B : Backend R O}.

Abbreviation io := (py R O).

Definition me : io dist := o ← self; mret (dist_of o).

(** ** Drain requests, signals and metrics *)

(** [_schedule_drain] *)
Definition schedule_drain (delay : Q) : io unit :=
  d ← me;
  match d_drain_loop d with
  | None => skip
  | Some l =>
      now ← monotonic;
      _ ← emit (EWake delay);
      modify (with_dist (with_loop (Some (snd (wake now delay l)))))
  end.

(** [_publish_drain_signal] *)
Definition publish_drain_signal : io unit :=
  d ← me;
  catch is_exception (command (PUBLISH (drain_channel d) (d_worker_id d))) (fun _ => skip).

Definition trigger_consume : io unit :=
  _ ← schedule_drain 0;
  publish_drain_signal.

(** [_emit_metric] *)
Definition emit_metric (event : string) (data : json) : io unit :=
  d ← me;
  match d_metrics_callback d with
  | None => skip
  | Some callback =>
      catch is_exception
        (_ ← emit (EMetric event data);
         match callback event data with None => skip | Some e => raise e end)
        (fun _ => skip)
  end.

(** ** Construction *)

Definition watchdog_interval (d : dist) : Q := fmax 5 (d_window d ⊗ 2).

(** [DrainSignalSubscriber.start]: SUBSCRIBE, then the listener thread. *)
Definition subscriber_start : io unit :=
  _ ← trip (Ret tt);
  _ ← emit (EThread "subscriber");
  modify (with_dist (fun d => with_services (d_healthy d) true (d_shutdown_called d) d)).

(** [BackendHealthMonitor.start] *)
Definition monitor_start : io unit :=
  _ ← emit (EThread "health monitor");
  modify (with_dist (fun d => with_services (Some true) (d_subscribed d) (d_shutdown_called d) d)).

(** [AbstractDistributedRateLimiter.__init__] *)
Definition limiter_init (k : dist_config) : io unit :=
  h ← uuid4;
  d ← of_sum (dist_init k (uuid_str h));
  _ ← modify (with_dist (fun _ => d));
  _ ← register_script "consume.lua";
  _ ← register_script "schedule.lua";
  _ ← register_script "health.lua";
  _ ← register_script "renew.lua";
  _ ← register_script "release.lua";
  let has_health_monitor :=
    k_drain_enabled k && (match check_backend_health (R := R) (O := O) with Some _ => true | None => false end) in
  _ ← (if k_drain_enabled k then
         _ ← modify (with_dist (fun d => with_loop (Some (loop_init (watchdog_interval d))) d));
         subscriber_start
       else skip);
  when has_health_monitor monitor_start.

(** ** Scheduling *)

(** [_cleanup_inflight_key] *)
Definition cleanup_inflight_key (inflight_key : string) : io unit :=
  catch is_exception (_ ← command (DEL inflight_key); skip) (fun _ => skip).

Definition schedule_metric (scheduled : bool) (task_id : string) : json :=
  JObj [("scheduled", JBool scheduled); ("task_id", JStr task_id)].

(** [max_age or ""], as the script reads it. *)
Definition or_empty (max_age : option Z) : option Z :=
  match max_age with Some 0 => None | m => m end.

Definition task_id_of (func_path : string) (payload : list (string * json)) : string :=
  Md5.md5_hex (get_task_signature_str func_path payload).

Definition schedule_task (func_path : string) (payload : list (string * json)) (priority : pyfloat)
    (max_age : option Z) : io (bool * string) :=
  match priority with
  | Infinite _ | NotANumber => raise (ValueError "priority must be a finite number")
  | Finite prio =>
      d ← me;
      let task_id := task_id_of func_path payload in
      let inflight_key := get_inflight_key task_id d in
      let inflight_ttl := get_inflight_ttl max_age d in
      claimed ← command (SET inflight_key "1" (Ex inflight_ttl) true);
      if negb claimed then
        _ ← emit_metric "schedule" (schedule_metric false task_id);
        mret (false, task_id)
      else
        let full_data := get_task_data_str task_id func_path payload d in
        _ ← catch is_exception
              (eval_script "schedule.lua" (schedule_lua (buffer_key d) full_data prio (or_empty max_age)))
              (fun e => _ ← cleanup_inflight_key inflight_key; raise e);
        _ ← trigger_consume;
        _ ← emit_metric "schedule" (schedule_metric true task_id);
        mret (true, task_id)
  end.

(** [task_lifecycle] and [TaskLifecycle.__init__] *)
Definition lower_char (c : ascii) : ascii :=
  if (65 <=? code c) && (code c <=? 90) then ascii_of_N (Z.to_N (code c + 32)) else c.
Fixpoint lower (s : string) : string :=
  match s with EmptyString => estr | String c s' => String (lower_char c) (lower s') end.

Definition task_lifecycle (task_id : string) (on_failure_override : option string) : io lifecycle :=
  d ← me;
  let strategy := match on_failure_override with
                  | Some s => if String.eqb s estr then d_on_failure d else s
                  | None => d_on_failure d
                  end in
  mret (Lifecycle task_id (lower strategy) Created).

(** [acquire]; [self.schedule_task] may be the one of a subclass. *)
Definition acquire_with
    (schedule : string -> list (string * json) -> pyfloat -> option Z -> io (bool * string))
    (timeout : Q) (priority : pyfloat) : io lifecycle :=
  d ← me;
  if Qle_bool timeout 0 then raise (ValueError "timeout must be positive")
  else
    match d_drain_loop d with
    | None => raise (RuntimeError "acquire() requires drain_enabled=True")
    | Some _ =>
        let timeout_ms := py_trunc (timeout ⊗ 1000) in
        h ← uuid4;
        st ← schedule marker_path [("_uuid", JStr h); ("_acquire_timeout_ms", JInt timeout_ms)]
               priority (Some (Z.max 1 (Qceiling timeout)));
        let '(scheduled, task_id) := st in
        if negb scheduled then raise (RuntimeError "acquire marker rejected by buffer")
        else
          let signal_key := d_id d +:+ ":acquire:" +:+ task_id in
          signal ← blpop signal_key;
          match signal with
          | None => raise (AcquireTimeout "timed out")
          | Some _ => task_lifecycle task_id None
          end
    end.

Definition acquire : Q -> pyfloat -> io lifecycle := acquire_with schedule_task.

(** ** Consumption and leases *)

Definition consume_script (d : dist) : prog consume_reply :=
  consume_lua (d_id d) (buffer_key d) (concurrency_key d) (dlq_key d)
    (ConsumeArgs (d_window d) (d_limit d) (d_max_concurrency d) (Some (d_max_age d))
       (Some (d_lease_duration d)) (d_worker_id d)).

Definition consume : io consume_result :=
  d ← me;
  result ← eval_script "consume.lua" (consume_script d);
  res ← of_sum (parse_consume result);
  _ ← (if truthy (task res) then _ ← of_sum (json_item "id" (task res)); skip else skip);
  _ ← emit_metric "consume" (consume_metric res);
  mret res.

Definition extend_lease (task_id : string) (duration : Z) : io unit :=
  d ← me;
  renewed ← eval_script "renew.lua" (renew_lua (concurrency_key d) task_id duration);
  when (negb (renewed =? 1)) (raise (KeyError "task id was not found in the concurrency set.")).

Definition get_buffer_count : io Z :=
  d ← me;
  command (ZCARD (buffer_key d)).

(** ** Drain *)

(** The branches of [_drain_inner] after the result of [consume]. *)
Definition rate_limited_delay (res : consume_result) : io Q :=
  d ← me;
  let base_delay := token_recovery_delay (val_previous res) (val_current res) (reset_in_ms res) d in
  let is_fallback := (val_previous res <=? 0) || (d_limit d <=? val_current res) in
  jitter ← (if is_fallback then
              if d_jitter_enabled d then
                u ← random;
                mret (smart_jitter (remaining_tasks res) (active_concurrency res) u d)
              else mret 0%Q
            else mret 0%Q);
  mret (round3 (fmax (rnd (1 # 1000)) (base_delay ⊕ jitter))).

Definition after_consume (res : consume_result) : io unit :=
  d ← me;
  if yielded res then schedule_drain (token_interval d)
  else if success res then
    match task res with
    | JNull => raise (AssertionError "task must be present when success is True")
    | t =>
        task_id ← of_sum (json_get "id" t);
        func_path ← of_sum (json_item "func_path" t);
        _ ← (if is_text marker_path func_path then skip
             else
               payload ← of_sum (json_item "payload" t);
               dispatch_task func_path payload task_id);
        when (0 <? remaining_tasks res) (schedule_drain 0)
    end
  else if remaining_tasks res =? 0 then skip
  else if d_max_concurrency d <=? active_concurrency res then skip
  else if marker_skipped res then when (0 <? remaining_tasks res) (schedule_drain 0)
  else if res_remaining_tokens res <=? 0 then
    delay ← rate_limited_delay res;
    schedule_drain delay
  else skip.

Definition drain_inner : io unit :=
  capacity ← has_local_capacity;
  if negb capacity then
    d ← me;
    schedule_drain (token_interval d)
  else
    res ← consume;
    after_consume res.

(** The body of the [try] of [drain]. *)
Definition drain_body : io unit :=
  now ← monotonic;
  d ← me;
  _ ← (match refresh_hook (R := R) (O := O) with
       | Some refresh_config =>
           if Qle_bool 1 (now ⊖ d_last_refresh_at d) then
             _ ← modify (with_dist (with_refreshed_at now));
             refresh_config
           else skip
       | None => skip
       end);
  d ← me;
  wall ← wall_time;
  let paused_until := b_drain_paused_until (d_base d) in
  if Qltb wall paused_until then schedule_drain (paused_until ⊖ wall)
  else
    _ ← drain_inner;
    modify (with_dist (with_failures 0)).

(** [min(self.window, 0.1 * (2 ** (failures - 1)))] *)
Definition backoff (window : Q) (failures : Z) : exn + Q :=
  match py_float_int (2 ^ (failures - 1)) with
  | inl e => inl e
  | inr p => inr (fmin window (rnd (1 # 10) ⊗ p))
  end.

Definition drain_failed (_ : exn) : io unit :=
  _ ← modify (with_dist (fun d => with_failures (d_drain_failures d + 1) d));
  d ← me;
  delay ← of_sum (backoff (d_window d) (d_drain_failures d));
  catch is_exception (schedule_drain delay) (fun _ => skip).

Definition drain : io unit := catch is_exception drain_body drain_failed.

(** ** Task lifecycle *)

(** [__enter__] *)
Definition lifecycle_enter (t : lifecycle) : io lifecycle :=
  now ← monotonic;
  _ ← modify (with_dist (fun d =>
        with_heartbeats (snd (hs_register now (tl_task_id t) (tl_action t) (d_heartbeats d))) d));
  mret (Lifecycle (tl_task_id t) (tl_action t) Entered).

(** [is_healthy]: the flag of the entry the lifecycle holds. *)
Definition lifecycle_healthy (t : lifecycle) (d : dist) : bool :=
  match tl_phase t with
  | Created => true
  | Entered => match hs_get_entry (tl_task_id t) (d_heartbeats d) with Some e => he_healthy e | None => true end
  | Exited healthy => healthy
  end.

(** [__exit__] *)
Definition lifecycle_exit (t : lifecycle) : io unit :=
  let task_id := tl_task_id t in
  _ ← modify (with_dist (fun d => with_heartbeats (hs_deregister task_id (d_heartbeats d)) d));
  finally
    (d ← me;
     let inflight_key := if String.eqb task_id estr then estr else get_inflight_key task_id d in
     _ ← eval_script "release.lua"
           (release_lua (concurrency_key d) inflight_key (drain_channel d) task_id (d_worker_id d));
     skip)
    (schedule_drain 0).

(** [with limiter.task_lifecycle(task_id): body] *)
Definition with_lifecycle {A} (t : lifecycle) (body : io A) : io A :=
  t' ← lifecycle_enter t;
  finally body (lifecycle_exit t').

(** ** The drain signal subscriber *)

(** One turn of [DrainSignalSubscriber._run]: [get_message] returned nothing,
    a message with its type and data, or an exception. *)
Definition subscriber_poll (message : exn + option (string * string)) : io unit :=
  catch is_exception
    (m ← of_sum message;
     match m with
     | Some (kind, sender_id) =>
         d ← me;
         when (String.eqb kind "message" && negb (String.eqb sender_id (d_worker_id d))) (schedule_drain 0)
     | None => skip
     end)
    (fun _ => d ← me; when (d_subscribed d) (emit (ESleep 1))).

Fixpoint subscriber_run (messages : list (exn + option (string * string))) : io unit :=
  match messages with
  | [] => skip
  | m :: ms =>
      d ← me;
      if d_subscribed d then
        _ ← subscriber_poll m;
        subscriber_run ms
      else skip
  end.

(** ** Shutdown and status *)

Definition subscriber_shutdown : io unit :=
  d ← me;
  _ ← modify (with_dist (fun d => with_services (d_healthy d) false (d_shutdown_called d) d));
  catch is_exception (command (PUBLISH (drain_channel d) estr)) (fun _ => skip).

Definition shutdown : io unit :=
  _ ← modify (with_dist (fun d => with_services (d_healthy d) (d_subscribed d) true d));
  d ← me;
  _ ← (match d_healthy d with Some _ => emit (EStop "health monitor") | None => skip end);
  _ ← (match d_drain_loop d with
       | Some l => modify (with_dist (with_loop (Some (loop_shutdown l))))
       | None => skip
       end);
  _ ← (if d_drain_enabled d then subscriber_shutdown else skip);
  modify (with_dist (fun d => with_heartbeats (hs_signal_shutdown (d_heartbeats d)) d)).

(** [__del__]: whether the ResourceWarning is raised. *)
Definition del_warns (d : dist) : bool :=
  (match d_drain_loop d with Some _ => true | None => false end) && negb (d_shutdown_called d).

(** [get_status] *)
Definition get_status : io json :=
  d ← me;
  r ← eval_script "health.lua" (health_lua (d_id d) (buffer_key d) (concurrency_key d) (d_window d));
  mret (JObj
    [("limiter_id", JStr (d_id d));
     ("concurrency", JObj [("current", JInt (hl_active r)); ("max", JInt (d_max_concurrency d));
                           ("available", JInt (Z.max 0 (d_max_concurrency d - hl_active r)))]);
     ("buffer", JObj [("count", JInt (hl_buffer r))]);
     ("rate_limit", JObj [("val_previous", JInt (hl_previous r)); ("val_current", JInt (hl_current r));
                          ("tokens_used", float_json (rnd (hl_estimated r)));
                          ("limit", JInt (d_limit d)); ("window", float_json (d_window d));
                          ("reset_in_ms", JInt (hl_reset_in_ms r))])]).

(** The renewal of one task by the heartbeat thread. *)
Definition renew_task (task_id action : string) : io unit :=
  fun w =>
    let '(outcome, w') := extend_lease task_id (d_lease_duration (dist_of (w_obj w))) w in
    let '(effect, s) := renew_one task_id action outcome (d_heartbeats (dist_of (w_obj w'))) in
    let w' := set_obj (with_dist (with_heartbeats s) (w_obj w')) w' in
    match effect with
    | RenewRaised e => (inl e, w')
    | RenewKill => emit EKill w'
    | RenewOk | RenewFailed => (inr tt, w')
    end.
End Limiter.
