(* ===== verification/Limiter.v ===== *)
(** * Limiter: what the distributed limiter guarantees

    Theorems about [Distributed]: scheduling claims a task once and releases
    the claim when it fails, a drain always leaves a follow-up behind except
    where nothing can run, failures of a drain are absorbed with exponential
    backoff, and the lifecycle of a task frees its slot. *)

From S2P Require Import Prelude Float Text Json Redis Zset Keyspace Scripts Window State Store Consume Schedule Lease System Md5 Py Base Loop Heartbeat Dist Distributed.

Open Scope Z_scope.
Open Scope rl_scope.

Lemma dist_of_base {O : Type} `{IsDist O} f (o : O) : dist_of (with_base f o) = with_dbase f (dist_of o).
Proof. apply dist_of_with. Qed.

Lemma script_found_with {O : Type} `{IsDist O} {P : Resources} name f (o : O) :
  d_base (f (dist_of o)) = d_base (dist_of o) -> script_found name o -> script_found name (with_dist f o).
Proof.
  intros E. unfold script_found. change (base_of o) with (d_base (dist_of o)).
  change (base_of (with_dist f o)) with (d_base (dist_of (with_dist f o))). by rewrite dist_of_with, E.
Qed.

Section Frame.
Context {F : Rounding} {R : Type} {RS : RedisServer R} {O : Type} {D : IsDist O}.
Context {P : Resources} {G : Digest}.

(** A change of the script cache. *)
Definition keeps_config (f : base -> base) : Prop := forall b,
  b_id (f b) = b_id b /\ b_limit (f b) = b_limit b /\ b_window (f b) = b_window b /\
  b_config_version (f b) = b_config_version b /\ b_drain_paused_until (f b) = b_drain_paused_until b.

(** Only the script cache changed. *)
Definition base_only (w w' : world R O) : Prop :=
  (exists f, keeps_config f /\ dist_of (w_obj w') = with_dbase f (dist_of (w_obj w))) /\ w_trace w' = w_trace w.

Lemma keeps_id : keeps_config (fun b => b).
Proof. by intros b. Qed.

Lemma keeps_comp f g : keeps_config f -> keeps_config g -> keeps_config (fun b => g (f b)).
Proof. intros Hf Hg b. destruct (Hf b) as (?&?&?&?&?), (Hg (f b)) as (?&?&?&?&?). split_and!; congruence. Qed.

Lemma keeps_sha k v : keeps_config (set_sha k v).
Proof. by intros b. Qed.

Lemma keeps_source k v : keeps_config (set_source k v).
Proof. by intros b. Qed.

Lemma base_only_refl w : base_only w w.
Proof. split; [|done]. exists (fun b => b). split; [apply keeps_id|]. by rewrite with_dbase_id. Qed.

Lemma base_only_trans w1 w2 w3 : base_only w1 w2 -> base_only w2 w3 -> base_only w1 w3.
Proof.
  intros [(f & Kf & Ef) Tf] [(g & Kg & Eg) Tg]. split; [|congruence]. exists (fun b => g (f b)).
  split; [by apply keeps_comp|]. rewrite Eg, Ef. by destruct (dist_of (w_obj w1)).
Qed.

Lemma arrive_obj (w : world R O) :
  w_obj (snd (arrive w)) = w_obj w /\ w_trace (snd (arrive w)) = w_trace w.
Proof. unfold arrive. by destruct (w_net w). Qed.

Lemma base_only_obj w w' : w_obj w' = w_obj w -> w_trace w' = w_trace w -> base_only w w'.
Proof.
  intros E1 E2. split; [|done]. exists (fun b => b). split; [apply keeps_id|]. by rewrite E1, with_dbase_id.
Qed.

Lemma trip_base {A} (p : prog A) w : wp (trip p) (fun _ w' => base_only w w') w.
Proof.
  unfold wp, trip. destruct (arrive w) as [f w1] eqn:E. destruct (arrive_obj w) as [E1 E2]. rewrite E in *.
  destruct f; cbn; try destruct (run p (w_srv w1)) as [o r]; by apply base_only_obj.
Qed.

Lemma evalsha_base {A} sha (p : prog A) w : wp (evalsha sha p) (fun _ w' => base_only w w') w.
Proof.
  unfold wp, evalsha. destruct (arrive w) as [f w1] eqn:E. destruct (arrive_obj w) as [E1 E2]. rewrite E in *.
  destruct f; cbn; try case_bool_decide; cbn; try destruct (run p (w_srv w1)) as [o r];
    by apply base_only_obj.
Qed.

Lemma script_load_base sha w : wp (script_load sha) (fun _ w' => base_only w w') w.
Proof.
  unfold wp, script_load. destruct (arrive w) as [f w1] eqn:E. destruct (arrive_obj w) as [E1 E2].
  rewrite E in *. destruct f; cbn; by apply base_only_obj.
Qed.

Lemma modify_base f (w : world R O) :
  keeps_config f -> wp (modify (with_base f)) (fun _ w' => base_only w w') w.
Proof. intros Hf. apply wp_modify. split; [|done]. exists f. split; [done|]. apply dist_of_base. Qed.

(** Sequencing within the frame. *)
Lemma bind_base {A B} (m : py R O A) (f : A -> py R O B) w :
  wp m (fun _ w' => base_only w w') w ->
  (forall a w', wp (f a) (fun _ w'' => base_only w' w'') w') ->
  wp (m ≫= f) (fun _ w' => base_only w w') w.
Proof.
  intros Hm Hf. apply wp_bind. eapply wp_mono; [exact Hm|]. intros [e|a] w' Hw; [done|].
  eapply wp_mono; [apply Hf|]. intros r w'' Hw'. by eapply base_only_trans.
Qed.

Lemma register_base name w : wp (register_script name) (fun _ w' => base_only w w') w.
Proof.
  unfold register_script. apply bind_base; [apply wp_self, base_only_refl|]. intros o w1.
  apply bind_base.
  - destruct (b_script_sources (base_of o) !! name); [apply wp_ret, base_only_refl|].
    apply bind_base; [apply base_only_refl|]. intros source w2.
    apply bind_base; [apply modify_base, keeps_source|]. intros [] w3. apply wp_ret, base_only_refl.
  - intros source w2. apply bind_base; [apply script_load_base|]. intros sha w3.
    apply bind_base; [apply modify_base, keeps_sha|]. intros [] w4. apply wp_ret, base_only_refl.
Qed.

Lemma cached_base name w : wp (cached_sha name) (fun _ w' => base_only w w') w.
Proof.
  unfold cached_sha. apply bind_base; [apply wp_self, base_only_refl|]. intros o w1.
  destruct (b_script_shas (base_of o) !! name); apply base_only_refl.
Qed.

Lemma catch_base {A} (p : exn -> bool) (m : py R O A) h w :
  wp m (fun _ w' => base_only w w') w ->
  (forall e w', wp (h e) (fun _ w'' => base_only w' w'') w') ->
  wp (catch p m h) (fun _ w' => base_only w w') w.
Proof.
  intros Hm Hh. apply wp_catch. eapply wp_mono; [exact Hm|]. intros [e|a] w' Hw; [|done].
  destruct (p e); [|done]. eapply wp_mono; [apply Hh|]. intros r w'' Hw'. by eapply base_only_trans.
Qed.

(** Evaluating a script leaves the limiter's own attributes alone. *)
Lemma eval_base {A} name (p : prog A) w : wp (eval_script name p) (fun _ w' => base_only w w') w.
Proof.
  unfold eval_script. apply bind_base; [apply wp_self, base_only_refl|]. intros o w1.
  apply bind_base; [destruct (b_script_shas _ !! name); [apply wp_ret, base_only_refl|apply register_base]|].
  intros _ w2. apply bind_base; [apply cached_base|]. intros sha w3.
  apply catch_base; [apply evalsha_base|]. intros e w4.
  apply bind_base; [apply register_base|]. intros _ w5. apply bind_base; [apply cached_base|]. intros sha' w6.
  apply catch_base; [apply evalsha_base|]. intros e' w7. apply wp_raise, base_only_refl.
Qed.

(** ** Requests of a drain *)

(** A drain is pending at [t] or earlier in a limiter whose loop exists. *)
Definition drain_by (t : Q) (d : dist) : Prop :=
  forall l, d_drain_loop d = Some l -> due_by t l.

Definition drain_pending (d : dist) : Prop := exists l u, d_drain_loop d = Some l /\ l_next_wake l = Some u.

Lemma schedule_drain_wp delay (Q : exn + unit -> world R O -> Prop) w :
  (forall w', dist_of (w_obj w') = with_loop ((fun l => snd (wake (w_mono w) delay l)) <$> d_drain_loop (dist_of (w_obj w)))
                                     (dist_of (w_obj w)) ->
     w_srv w' = w_srv w -> w_net w' = w_net w -> w_mono w' = w_mono w -> w_wall w' = w_wall w ->
     w_cache w' = w_cache w -> Q (inr tt) w') ->
  wp (schedule_drain delay) Q w.
Proof.
  intros H. unfold schedule_drain, me. apply wp_bind, wp_bind, wp_self, wp_ret.
  destruct (d_drain_loop (dist_of (w_obj w))) as [l|] eqn:E.
  - apply wp_bind, wp_monotonic, wp_bind, wp_emit, wp_modify. apply H; try done.
    cbn. by rewrite dist_of_with.
  - apply wp_ret. apply H; try done. cbn.
    destruct (dist_of (w_obj w)). cbn in *. by subst.
Qed.

Lemma woken_by now delay d :
  drain_by (now ⊕ delay) (with_loop ((fun l => snd (wake now delay l)) <$> d_drain_loop d) d).
Proof. intros l. cbn. destruct (d_drain_loop d); [|done]. intros [= <-]. apply wake_due. Qed.
End Frame.

Section Drain.
Context {F : Rounding} {R : Type} {RS : RedisServer R} {O : Type} {D : IsDist O}.
Context {P : Resources} {G : Digest} {B : Backend R O}.

Lemma me_wp (Q : exn + dist -> world R O -> Prop) w : Q (inr (dist_of (w_obj w))) w -> wp me Q w.
Proof. done. Qed.

(** *** Recovery *)

Lemma py_float_pow2 n :
  0 <= n -> py_float_int (2 ^ n) =
    if n <? 1024 then inr (rnd (2 ^ n)%Z) else inl (OverflowError "int too large to convert to float").
Proof.
  intros Hn. unfold py_float_int. rewrite Z.abs_eq by (apply Z.pow_nonneg; lia).
  destruct (Z.ltb_spec n 1024) as [H|H].
  - assert (2 ^ n <= 2 ^ 1023) by (apply Z.pow_le_mono_r; lia).
    assert (2 ^ 1023 < 2 ^ 1024 - 2 ^ 970) by (vm_compute; done).
    by rewrite (proj2 (Z.leb_gt _ _)) by lia.
  - assert (2 ^ 1024 <= 2 ^ n) by (apply Z.pow_le_mono_r; lia).
    assert (0 <= 2 ^ 970) by (vm_compute; done).
    by rewrite (proj2 (Z.leb_le _ _)) by lia.
Qed.

(** The handler of a failed drain, while the backoff is a float. *)
Lemma recovers_in_range (e : exn) (w w1 : world R O) (n : Z) :
  drain_body w = (inl e, w1) -> is_exception e = true ->
  n = d_drain_failures (dist_of (w_obj w1)) -> 0 <= n < 1024 ->
  let delay := fmin (d_window (dist_of (w_obj w1))) (rnd (1 # 10) ⊗ rnd (2 ^ n)%Z) in
  wp drain (fun r w2 => r = inr tt /\ d_drain_failures (dist_of (w_obj w2)) = n + 1 /\
    drain_by (w_mono w1 ⊕ delay) (dist_of (w_obj w2)) /\ w_mono w2 = w_mono w1 /\
    (is_Some (d_drain_loop (dist_of (w_obj w1))) -> is_Some (d_drain_loop (dist_of (w_obj w2))))) w.
Proof.
  intros Eb He En Hn delay. unfold drain. apply wp_catch. unfold wp at 1. rewrite Eb. cbn [fst snd]. rewrite He.
  unfold drain_failed. apply wp_bind, wp_modify, wp_bind, me_wp.
  cbn [w_obj set_obj]. rewrite dist_of_with. apply wp_bind. unfold of_sum. apply wp_of_sum.
  unfold backoff. cbn [d_drain_failures with_failures]. rewrite <- En.
  replace (n + 1 - 1) with n by lia. rewrite py_float_pow2 by lia.
  rewrite (proj2 (Z.ltb_lt _ _)) by lia. apply wp_catch, schedule_drain_wp.
  cbn [w_obj set_obj w_mono]. intros w3 E3 _ _ Em _ _. split; [done|].
  rewrite E3, dist_of_with. split; [cbn; lia|]. split; [apply woken_by|]. split; [exact Em|].
  cbn. intros [l El]. rewrite El. by eexists.
Qed.

(** ... and from the 1025th consecutive failure on: [2 ** (failures - 1)] no
    longer converts to a float. *)
Lemma backoff_overflows (e : exn) (w w1 : world R O) :
  drain_body w = (inl e, w1) -> is_exception e = true ->
  1024 <= d_drain_failures (dist_of (w_obj w1)) ->
  fst (drain w) = inl (OverflowError "int too large to convert to float") /\
  d_drain_loop (dist_of (w_obj (snd (drain w)))) = d_drain_loop (dist_of (w_obj w1)).
Proof.
  intros Eb He Hn.
  change (wp drain (fun r w2 => r = inl (OverflowError "int too large to convert to float") /\
    d_drain_loop (dist_of (w_obj w2)) = d_drain_loop (dist_of (w_obj w1))) w).
  unfold drain. apply wp_catch. unfold wp at 1. rewrite Eb. cbn [fst snd]. rewrite He.
  unfold drain_failed. apply wp_bind, wp_modify, wp_bind, me_wp.
  cbn [w_obj set_obj]. rewrite dist_of_with. apply wp_bind. unfold of_sum. apply wp_of_sum.
  unfold backoff. cbn [d_drain_failures with_failures].
  replace (d_drain_failures (dist_of (w_obj w1)) + 1 - 1) with (d_drain_failures (dist_of (w_obj w1))) by lia.
  rewrite py_float_pow2 by lia. rewrite (proj2 (Z.ltb_ge _ _)) by lia.
  cbn [w_obj set_obj]. by rewrite dist_of_with.
Qed.

(** C12. A failed drain is absorbed, up to 1024 times in a row.  Whatever
    exception (a subclass of Exception) the refresh, the consumption or the
    dispatch raised, after fewer than 1024 consecutive failures before it
    [drain] returns normally, counts the failure and leaves a recovery drain
    pending within the exponential backoff of the number of consecutive
    failures, never later than one window.  After 1024 or more the handler
    itself raises OverflowError out of [drain] and requests no drain; only the
    watchdog of the loop drains again. *)
Theorem drain_recovers (e : exn) (w w1 : world R O) (n : Z) :
  drain_body w = (inl e, w1) -> is_exception e = true ->
  n = d_drain_failures (dist_of (w_obj w1)) -> 0 <= n ->
  let window := d_window (dist_of (w_obj w1)) in
  let delay := fmin window (rnd (1 # 10) ⊗ rnd (2 ^ n)%Z) in
  let w2 := snd (drain w) in
  (n < 1024 ->
     fst (drain w) = inr tt /\
     d_drain_failures (dist_of (w_obj w2)) = n + 1 /\
     drain_by (w_mono w1 ⊕ delay) (dist_of (w_obj w2)) /\ (delay <= window)%Q) /\
  (1024 <= n ->
     fst (drain w) = inl (OverflowError "int too large to convert to float") /\
     d_drain_loop (dist_of (w_obj w2)) = d_drain_loop (dist_of (w_obj w1))).
Proof.
  intros Eb He En Hn window delay w2. split; intros Hlim; [|by apply (backoff_overflows e); subst].
  destruct (recovers_in_range e w w1 n Eb He En ltac:(lia)) as (H1 & H2 & H3 & _).
  do 3 (split; [done|]). unfold delay. apply fmin_spec.
Qed.

(** *** Follow-up *)

(** A backend whose dispatch leaves the drain loop of the limiter running. *)
Class QuietDispatch : Prop := {
  dispatch_loop : forall f p t (w : world R O),
    d_drain_loop (dist_of (w_obj (snd (dispatch_task f p t w)))) = d_drain_loop (dist_of (w_obj w));
}.

Lemma schedule_pending delay (w : world R O) :
  (exists l, d_drain_loop (dist_of (w_obj w)) = Some l) ->
  wp (schedule_drain delay) (fun r w' => r = inr tt /\ drain_pending (dist_of (w_obj w'))) w.
Proof.
  intros [l El]. apply schedule_drain_wp. intros w' E _ _ _ _ _. split; [done|].
  rewrite E. cbn. rewrite El. cbn. destruct (wake_due (w_mono w) delay l) as (t & Et & _). by exists (snd (wake (w_mono w) delay l)), t.
Qed.

(** The results after which no drain is requested although tasks remain. *)
Definition blocked (d : dist) (res : consume_result) : bool :=
  negb (success res) && negb (yielded res) && (d_max_concurrency d <=? active_concurrency res).
Definition stalled (res : consume_result) : bool :=
  negb (success res) && negb (yielded res) && negb (marker_skipped res) && (0 <? res_remaining_tokens res).

(** C14. A drain leaves a follow-up behind: after every result of consume that
    leaves tasks in the buffer, if the step returns normally then another drain
    is pending, unless all concurrency slots are taken (their release wakes the
    loop) or the result is a failure with tokens left. *)
Theorem drain_follow_up `{QD : QuietDispatch} (res : consume_result) (w : world R O) :
  (exists l, d_drain_loop (dist_of (w_obj w)) = Some l) ->
  0 < remaining_tasks res ->
  blocked (dist_of (w_obj w)) res = false -> stalled res = false ->
  fst (after_consume res w) = inr tt ->
  drain_pending (dist_of (w_obj (snd (after_consume res w)))).
Proof.
  intros Hl Hr Hb Hs.
  change (wp (after_consume res) (fun r w' => r = inr tt -> drain_pending (dist_of (w_obj w'))) w).
  unfold after_consume. apply wp_bind, me_wp. unfold blocked, stalled in *.
  assert (Hsch : forall delay (w1 : world R O), d_drain_loop (dist_of (w_obj w1)) = d_drain_loop (dist_of (w_obj w)) ->
    wp (schedule_drain delay) (fun r w' => r = inr tt -> drain_pending (dist_of (w_obj w'))) w1).
  { intros delay w1 E1. eapply wp_mono; [apply schedule_pending; by rewrite E1|]. by intros r w' [_ H] _. }
  destruct (yielded res); [by apply Hsch|]. destruct (success res).
  - assert (Hk : forall t, wp
      (task_id ← of_sum (json_get "id" t); func_path ← of_sum (json_item "func_path" t);
       _ ← (if is_text marker_path func_path then skip
            else payload ← of_sum (json_item "payload" t); dispatch_task func_path payload task_id);
       when (0 <? remaining_tasks res) (schedule_drain 0))
      (fun r w' => r = inr tt -> drain_pending (dist_of (w_obj w'))) w).
    { intros t. apply wp_bind. unfold of_sum at 1. apply wp_of_sum. destruct (json_get "id" t) as [|id]; [done|].
      apply wp_bind. unfold of_sum at 1. apply wp_of_sum. destruct (json_item "func_path" t) as [|fp]; [done|].
      rewrite (proj2 (Z.ltb_lt _ _)) by done. apply wp_bind.
      destruct (is_text marker_path fp); [by apply wp_ret, Hsch|].
      apply wp_bind. unfold of_sum at 1. apply wp_of_sum. destruct (json_item "payload" t) as [|p]; [done|].
      unfold wp at 1. pose proof (dispatch_loop fp p id w) as Hd.
      destruct (dispatch_task fp p id w) as [[e|[]] w1]; [done|]. by apply Hsch. }
    destruct (task res); [by apply wp_raise|apply Hk..].
  - rewrite (proj2 (Z.eqb_neq _ _)) by lia. cbn [negb andb] in *. rewrite Hb.
    destruct (marker_skipped res); cbn [negb andb] in *.
    + rewrite (proj2 (Z.ltb_lt _ _)) by done. by apply Hsch.
    + rewrite (proj2 (Z.leb_le _ _)) by (apply Z.ltb_ge in Hs; lia). apply wp_bind.
      eapply (wp_mono _ (fun _ w' => d_drain_loop (dist_of (w_obj w')) = d_drain_loop (dist_of (w_obj w)))).
      * unfold rate_limited_delay. apply wp_bind, me_wp. apply wp_bind.
        destruct (_ || _); [|by apply wp_ret, wp_ret]. destruct (d_jitter_enabled _); [|by apply wp_ret, wp_ret].
        by apply wp_bind, wp_random, wp_ret, wp_ret.
      * intros [e|delay] w1 E1; [done|]. by apply Hsch.
Qed.
End Drain.

(** ** The lifecycle of a task *)

Section Lifecycle.
Context {F : Rounding} {FL : RoundingLaws F} {R : Type} {RS : RedisServer R} {SP : RedisSpec R}.
Context {O : Type} {D : IsDist O} {P : Resources} {G : Digest} {B : Backend R O}.

(** A quiet script evaluation through the specification of the server. *)
Lemma eval_view {A} name (p : prog A) (w : world R O) o db' (K : exn + A -> world R O -> Prop) :
  w_net w = [] -> script_found name (w_obj w) -> drun rcjson p (rview (w_srv w)) = (o, db') ->
  (forall w', rview (w_srv w') = db' -> w_net w' = [] -> w_mono w' = w_mono w -> w_wall w' = w_wall w ->
     base_only w w' -> K (answer Fine o) w') ->
  wp (eval_script name p) K w.
Proof.
  intros Hn Hf Hr HK. pose proof (eval_base name p w) as Hb.
  destruct (eval_quiet name p w Hn Hf) as (w' & E & Es & En & Em & Ew).
  destruct (run_view p (w_srv w)) as [V1 V2]. rewrite Hr in V1, V2. cbn in V1, V2.
  unfold wp in *. rewrite E in *. cbn [fst snd] in *. rewrite V1. apply HK; try done. by rewrite Es.
Qed.

(** Leaving a task ends its heartbeats and requests a drain. *)
Lemma exit_deregisters (t : lifecycle) (w : world R O) :
  wp (lifecycle_exit t) (fun _ w' =>
    hs_entries (d_heartbeats (dist_of (w_obj w'))) !! tl_task_id t = None /\
    drain_by (w_mono w' ⊕ 0) (dist_of (w_obj w'))) w.
Proof.
  unfold lifecycle_exit. apply wp_bind, wp_modify, wp_finally, wp_bind, me_wp, wp_bind.
  eapply wp_mono; [apply eval_base|]. intros r w1 [(f & _ & Ef) _]. cbn [w_obj set_obj] in Ef.
  rewrite dist_of_with in Ef.
  assert (Hs : forall K, (forall w2, hs_entries (d_heartbeats (dist_of (w_obj w2))) !! tl_task_id t = None ->
      drain_by (w_mono w2 ⊕ 0) (dist_of (w_obj w2)) -> K (inr tt) w2) -> wp (schedule_drain 0) K w1).
  { intros K HK. apply schedule_drain_wp. intros w2 E2 _ _ Em _ _. apply HK.
    - rewrite E2, Ef. cbn. apply lookup_delete_eq.
    - rewrite E2, Em. apply woken_by. }
  by destruct r as [e|a]; [|apply (wp_ret tt)]; apply Hs.
Qed.

(** C9. Leaving a task frees its slot.  Whatever happens to the release
    script, the heartbeat of the task is deregistered and a drain is pending at
    once; and when the script runs, the lease and the claim of the task are
    gone, and nothing else has changed. *)
Theorem lifecycle_exit_releases (t : lifecycle) (w : world R O) :
  let w' := snd (lifecycle_exit t w) in
  let d := dist_of (w_obj w) in
  hs_entries (d_heartbeats (dist_of (w_obj w'))) !! tl_task_id t = None /\
  drain_by (w_mono w' ⊕ 0) (dist_of (w_obj w')) /\
  (forall W, w_net w = [] -> script_found "release.lua" (w_obj w) -> wt (d_id d) W (rview (w_srv w)) ->
     tl_task_id t <> estr ->
     fst (lifecycle_exit t w) = inr tt /\
     abs (d_id d) (rview (w_srv w')) ≡ snd (release_spec (tl_task_id t) (abs (d_id d) (rview (w_srv w))))).
Proof.
  intros w' d. destruct (exit_deregisters t w) as [H1 H2]. split; [done|]. split; [done|].
  intros W Hn Hf Hwt Hid.
  change (wp (lifecycle_exit t) (fun r w' => r = inr tt /\
    abs (d_id d) (rview (w_srv w')) ≡ snd (release_spec (tl_task_id t) (abs (d_id d) (rview (w_srv w))))) w).
  unfold lifecycle_exit. apply wp_bind, wp_modify, wp_finally, wp_bind, me_wp, wp_bind.
  cbn [w_obj set_obj]. rewrite dist_of_with, (proj2 (String.eqb_neq _ _) Hid).
  destruct (release_steps rcjson (d_id d) W (rview (w_srv w)) (drain_channel d) (tl_task_id t) (d_worker_id d) Hwt)
    as (db' & Hr & _ & _ & _ & Ha).
  eapply eval_view; [done| |exact Hr|].
  - by apply script_found_with.
  - intros w1 Ev _ _ _ _. apply (wp_ret tt), schedule_drain_wp. intros w2 _ Es _ _ _ _.
    split; [done|]. by rewrite Es, Ev.
Qed.
End Lifecycle.

(** ** Scheduling *)

Section Scheduling.
Context {F : Rounding} {FL : RoundingLaws F} {R : Type} {RS : RedisServer R} {SP : RedisSpec R}.
Context {O : Type} {D : IsDist O} {P : Resources} {G : Digest} {B : Backend R O}.

(** The metrics callback raises exceptions only, no cancellation. *)
Definition metrics_safe (d : dist) : Prop :=
  forall cb ev data e, d_metrics_callback d = Some cb -> cb ev data = Some e -> is_exception e = true.

Lemma emit_metric_wp ev data (w : world R O) :
  metrics_safe (dist_of (w_obj w)) ->
  wp (emit_metric ev data) (fun r w' => r = inr tt /\ w_obj w' = w_obj w /\ w_srv w' = w_srv w /\ w_net w' = w_net w) w.
Proof.
  intros Hs. unfold emit_metric. apply wp_bind, me_wp.
  destruct (d_metrics_callback (dist_of (w_obj w))) as [cb|] eqn:E; [|by apply (wp_ret tt)].
  apply wp_catch, wp_bind, wp_emit. cbn [snd emit].
  destruct (cb ev data) as [e|] eqn:Ec; [|by apply (wp_ret tt)].
  apply wp_raise. rewrite (Hs _ _ _ _ E Ec). by apply (wp_ret tt).
Qed.

Lemma command_view {A} (c : rcmd A) (w : world R O) o db' (K : exn + A -> world R O -> Prop) :
  w_net w = [] -> db_exec rcjson c (rview (w_srv w)) = (o, db') ->
  (forall w', rview (w_srv w') = db' -> w_obj w' = w_obj w -> w_net w' = [] -> w_mono w' = w_mono w ->
     K (answer Fine o) w') ->
  wp (command c) K w.
Proof.
  intros Hn Hx HK. unfold command, wp. rewrite trip_quiet by done. cbn [fst snd].
  destruct (run_view (call c) (w_srv w)) as [V1 V2].
  assert (E : drun rcjson (call c) (rview (w_srv w)) = (o, db')).
  { unfold call, drun. cbn [run]. unfold rexec, db_server. rewrite Hx. by destruct o. }
  rewrite E in V1, V2. cbn [fst snd] in V1, V2. rewrite V1. by apply HK.
Qed.

Lemma ttl_pos ov (d : dist) : 0 < get_inflight_ttl ov d.
Proof.
  unfold get_inflight_ttl. set (x := (_ ⊕ _)). assert (H : (inject_Z 1 <= x)%Q).
  { unfold x, fadd. apply rnd_ge_int; [unfold two53; lia|].
    set (y := rnd (_ + _)). assert (Hy : (inject_Z 0 <= y)%Q).
    { unfold y. apply rnd_ge_int; [unfold two53; lia|].
      pose proof (fmax_spec 1 (rnd (default (d_max_age d) ov))) as (H1 & _).
      pose proof (fmax_spec 1 (rnd (d_lease_duration d))) as (H2 & _). change (inject_Z 0) with 0%Q. lra. }
    pose proof (fmax_spec 1 (rnd (d_window d))) as (H3 & _).
    change (inject_Z 0) with 0%Q in Hy. change (inject_Z 1) with 1%Q. lra. }
  pose proof (Qle_ceiling x) as Hc.
  assert (inject_Z 1 <= inject_Z (Qceiling x))%Q by lra. rewrite <- Zle_Qle in *. lia.
Qed.

(** The publication of a drain signal. *)
Lemma publish_wp (w : world R O) :
  w_net w = [] ->
  wp publish_drain_signal (fun r w' => r = inr tt /\ w_obj w' = w_obj w /\ w_net w' = [] /\
    rview (w_srv w') = published (drain_channel (dist_of (w_obj w))) (d_worker_id (dist_of (w_obj w))) (rview (w_srv w))) w.
Proof.
  intros Hn. unfold publish_drain_signal. apply wp_bind, me_wp, wp_catch.
  eapply command_view; [done|reflexivity|]. intros w' Ev Eo En _. by rewrite Ev.
Qed.

(** The claim of a task, made atomically. *)
Lemma claim_step base W id ttl db :
  wt base W db -> 0 < ttl -> key_val (inflight_k base id) db = None ->
  exists db1, db_exec rcjson (SET (inflight_k base id) "1" (Ex ttl) true) db = (inr true, db1) /\
    moved base W db db1 (set_inflight id (Some (VStr "1")) (abs base db)) /\
    key_entry (inflight_k base id) db1 = Some (Entry (VStr "1") (Some (db_ms db + 1000 * ttl))).
Proof.
  intros Hwt Ht Ek. set (e := Entry (VStr "1") (Some (db_ms db + 1000 * ttl))).
  assert (Hl : live (db_ms db) e = true).
  { unfold live, e. cbn. apply Z.leb_le. lia. }
  exists (set_entry (inflight_k base id) e db). split.
  - cbn [db_exec]. rewrite Ek. cbn. unfold ttl_ms. by rewrite (proj2 (Z.leb_gt _ _)).
  - pose proof (wrote_set_entry (inflight_k base id) e db Hl) as Hw. split.
    + apply (moved_of Hw); [by eapply wt_inflight_write|]. by rewrite (abs_inflight base _ _ _ _ Hw).
    + by apply key_entry_set_eq.
Qed.

Lemma claim_held k ttl db v :
  key_val k db = Some v -> db_exec rcjson (SET k "1" (Ex ttl) true) db = (inr false, db).
Proof. intros E. cbn [db_exec]. by rewrite E. Qed.

(** Buffering a task leaves its claim alone. *)
Lemma schedule_claim doc prio age base id d :
  key_entry (inflight_k base id) (snd (drun rcjson (schedule_lua (buffer_k base) doc prio age) d))
  = key_entry (inflight_k base id) d.
Proof.
  apply (drun_frame rcjson (fun k => k = buffer_k base)); [|unfold inflight_k, buffer_k; key_ne].
  unfold schedule_lua. cbn. split; [done|]. intros b. split; [|done]. by intros key [= <-].
Qed.

(** C8. A task is scheduled once.  On an undisturbed network, with the script
    file in place, a metrics callback that does not raise, well typed keys and
    a payload that can be printed, when its claim is still held [schedule_task]
    reports so and Redis is unchanged; otherwise it takes the claim, which
    expires after the age given with the task (that of the limiter if none
    was), the lease and the window, each of them at least a second, rounded up
    to seconds; it buffers exactly this task with its metadata at its priority,
    changes nothing else of the limiter, and leaves a drain pending at once. *)
Theorem schedule_claims_once (func_path : string) (payload : list (string * json)) (prio : Q)
    (max_age : option Z) (W : Z) (w : world R O) :
  let d := dist_of (w_obj w) in
  let db := rview (w_srv w) in
  let id := task_id_of func_path payload in
  let lifetime := Qceiling ((fmax 1 (rnd (default (d_max_age d) max_age)) ⊕ fmax 1 (rnd (d_lease_duration d)))
                            ⊕ fmax 1 (rnd (d_window d))) in
  let '(r, w') := schedule_task func_path payload (Finite prio) max_age w in
  let fields := task_fields id func_path payload (inflight_k (d_id d) id) in
  w_net w = [] -> script_found "schedule.lua" (w_obj w) -> metrics_safe d ->
  wt (d_id d) W db -> clock_ok db -> schedulable func_path payload (or_empty max_age) ->
  match key_val (inflight_k (d_id d) id) db with
  | Some _ => r = inr (false, id) /\ rview (w_srv w') = db
  | None =>
      r = inr (true, id) /\
      abs (d_id d) (rview (w_srv w')) ≡
        set_buffer (zadd (Qred (rnd prio)) (stored fields (db_ms db) (or_empty max_age)) (s_buffer (abs (d_id d) db)))
          (set_inflight id (Some (VStr "1")) (abs (d_id d) db)) /\
      key_entry (inflight_k (d_id d) id) (rview (w_srv w')) = Some (Entry (VStr "1") (Some (db_ms db + 1000 * lifetime))) /\
      wt (d_id d) W (rview (w_srv w')) /\
      drain_by (w_mono w ⊕ 0) (dist_of (w_obj w'))
  end.
Proof.
  intros d db id lifetime. destruct (schedule_task _ _ _ _ w) as [r w'] eqn:Est. intros fields Hn Hf Hm Hwt Hclk [Hj Ha Ht Hk].
  pose proof (f_equal fst Est) as Er. pose proof (f_equal snd Est) as Ew. cbn [fst snd] in Er, Ew.
  rewrite <- Er, <- Ew. clear Est Er Ew.
  set (ttl := get_inflight_ttl max_age d).
  destruct (key_val (inflight_k (d_id d) id) db) as [v|] eqn:Ek.
  - change (wp (schedule_task func_path payload (Finite prio) max_age)
      (fun r w' => r = inr (false, id) /\ rview (w_srv w') = db) w).
    unfold schedule_task. apply wp_bind, me_wp, wp_bind.
    eapply command_view; [done|exact (claim_held _ _ _ _ Ek)|].
    intros w1 Ev Eo En _. cbn [answer]. cbn. apply wp_bind. eapply wp_mono; [apply emit_metric_wp; by rewrite Eo|].
    intros r1 w2 (-> & _ & Es & _). apply wp_ret. split; [done|]. by rewrite Es.
  - destruct (claim_step (d_id d) W id ttl db Hwt (ttl_pos _ _) Ek) as (db1 & X1 & [M1 U1 P1 A1] & K1).
    assert (Hclk1 : clock_ok db1) by (unfold clock_ok, db_ms in *; by rewrite U1).
    destruct (schedule_steps rcjson (d_id d) W db1 id func_path payload prio (or_empty max_age) M1 Hclk1 Hj Ha Ht Hk)
      as (db2 & R2 & [M2 U2 P2 A2]).
    change (wp (schedule_task func_path payload (Finite prio) max_age)
      (fun r w' => r = inr (true, id) /\
      abs (d_id d) (rview (w_srv w')) ≡
        set_buffer (zadd (Qred (rnd prio)) (stored fields (db_ms db) (or_empty max_age)) (s_buffer (abs (d_id d) db)))
          (set_inflight id (Some (VStr "1")) (abs (d_id d) db)) /\
      key_entry (inflight_k (d_id d) id) (rview (w_srv w')) = Some (Entry (VStr "1") (Some (db_ms db + 1000 * lifetime))) /\
      wt (d_id d) W (rview (w_srv w')) /\
      drain_by (w_mono w ⊕ 0) (dist_of (w_obj w'))) w).
    unfold schedule_task. apply wp_bind, me_wp, wp_bind.
    eapply command_view; [done|exact X1|]. intros w1 Ev1 Eo1 En1 Em1. cbn [answer negb].
    apply wp_bind, wp_catch. eapply eval_view; [done| | |].
    { unfold script_found in *. by rewrite Eo1. }
    { rewrite Ev1. exact R2. }
    intros w2 Ev2 En2 Em2 _ [(f & _ & Ef) _]. cbn [answer]. apply wp_bind. unfold trigger_consume.
    apply wp_bind, schedule_drain_wp. intros w3 Ed3 Es3 En3 Em3 _ _.
    eapply wp_mono; [apply publish_wp; congruence|]. intros r4 w4 (-> & Eo4 & En4 & Ev4).
    apply wp_bind. eapply wp_mono; [apply emit_metric_wp|].
    { rewrite Eo4, Ed3, Ef, Eo1. exact Hm. }
    intros r5 w5 (-> & Eo5 & Es5 & _). apply wp_ret. split; [done|].
    rewrite Es5, Ev4, Es3, Ev2. split; [|split; [|split]].
    + rewrite abs_published, A2. assert (db_ms db1 = db_ms db) as -> by (unfold db_ms; by rewrite U1).
      change (zset_at (buffer_k (d_id d)) db1) with (s_buffer (abs (d_id d) db1)).
      by rewrite (le_buffer _ _ A1), A1.
    + etrans; [|exact K1]. etrans; [|eapply schedule_claim]. by rewrite R2.
    + by apply wt_published.
    + rewrite Eo5, Eo4, Ed3, Em2, Em1. apply woken_by.
Qed.

(** A failure to buffer the task releases its claim: the exception reaches
    the caller unchanged, and unless the connection is lost once more the claim
    is gone, so that a retry is not rejected. *)
Theorem schedule_failure_releases (func_path : string) (payload : list (string * json)) (prio : Q)
    (max_age : option Z) (e : exn) (w w1 w2 : world R O) :
  let d := dist_of (w_obj w) in
  let id := task_id_of func_path payload in
  let key := get_inflight_key id d in
  command (SET key "1" (Ex (get_inflight_ttl max_age d)) true) w = (inr true, w1) ->
  eval_script "schedule.lua"
    (schedule_lua (buffer_key d) (get_task_data_str id func_path payload d) prio (or_empty max_age)) w1
    = (inl e, w2) ->
  is_exception e = true ->
  fst (schedule_task func_path payload (Finite prio) max_age w) = inl e /\
  (match w_net w2 with n :: _ => n_fault n <> Lost | [] => True end ->
   key_val key (rview (w_srv (snd (schedule_task func_path payload (Finite prio) max_age w)))) = None).
Proof.
  intros d id key Hc Hs He.
  change (wp (schedule_task func_path payload (Finite prio) max_age) (fun r w' => r = inl e /\
    (match w_net w2 with n :: _ => n_fault n <> Lost | [] => True end -> key_val key (rview (w_srv w')) = None)) w).
  unfold schedule_task. apply wp_bind, me_wp, wp_bind. apply (wp_eq _ _ _ _ _ Hc). cbn [negb].
  apply wp_bind, wp_catch. apply (wp_eq _ _ _ _ _ Hs). rewrite He. apply wp_bind. unfold cleanup_inflight_key. apply wp_catch, wp_bind.
  assert (Hd : wp (command (DEL key)) (fun r w' => (forall e', r = inl e' -> is_exception e' = true) /\
    (match w_net w2 with n :: _ => n_fault n <> Lost | [] => True end -> key_val key (rview (w_srv w')) = None)) w2).
  { unfold command, wp, trip. destruct (arrive w2) as [f w3] eqn:Ea.
    assert (Hrun : forall r0 : R, fst (run (call (DEL key)) r0) =
        inr (if bool_decide (is_Some (key_val key (rview r0))) then 1 else 0) /\
        key_val key (rview (snd (run (call (DEL key)) r0))) = None).
    { intros r0. destruct (run_view (call (DEL key)) r0) as [V1 V2]. rewrite V1, V2.
      unfold drun, call. cbn [run]. unfold rexec, db_server. cbn [db_exec ok]. split; [done|].
      apply key_val_del. }
    destruct (Hrun (w_srv w3)) as [V1 V2]. destruct (run (call (DEL key)) (w_srv w3)) as [o r0]. cbn in V1, V2.
    subst o. unfold arrive in Ea.
    destruct f eqn:Ef; cbn; (split; [by intros e' [= <-]|]); try done.
    destruct (w_net w2) as [|n ns]; [done|]. injection Ea as Ea _. by rewrite Ea. }
  eapply wp_mono; [exact Hd|]. intros r w' [Hr Hk]. destruct r as [e'|n].
  - rewrite (Hr e' eq_refl). by apply (wp_ret tt).
  - by apply (wp_ret tt).
Qed.
End Scheduling.

(** ** A concrete fleet of one worker *)

#[local] Existing Instance binary64.
#[local] Existing Instance binary64_laws.

Definition demo_resources : Resources := fun _ name => Some name.
Definition demo_digest : Digest := fun source => source.
#[local] Existing Instance demo_resources.
#[local] Existing Instance demo_digest.

Definition demo_backend : Backend db dist := {|
  has_local_capacity := mret true;
  dispatch_task := fun f p t => emit (EDispatch f p t);
  check_backend_health := None;
  refresh_hook := None;
|}.
#[local] Existing Instance demo_backend.

#[local] Instance demo_quiet : QuietDispatch (R := db) (O := dist).
Proof. by split. Qed.

Definition demo_node : dist := with_loop (Some (loop_init 5)) demo_limiter.

(** A worker at [seconds] past a round time, on the network [net]. *)
Definition demo_world (seconds : Z) (r : db) (net : list (net db)) : world db dist :=
  World (Db (1700000000000000 + seconds * 1000000) (db_keys r) (db_pub r)) [] net seconds
    (1700000000 + seconds)%Z [(1 # 2)%Q] ["0123456789abcdef0123456789abcdef"] [] demo_node.

Definition demo_empty : db := Db 0 ∅ [].

(** A task with a maximal age of one second, and one without, scheduled at
    the start. *)
Definition demo_two : db :=
  w_srv (snd ((_ ← schedule_task "app.old" [] (Finite 1) (Some 1);
               schedule_task "app.new" [] (Finite 2) None) (demo_world 0 demo_empty []))).

Definition demo_late : world db dist := demo_world 9 demo_two [].

(** C30. An expired head stalls the queue: after a result that is neither a
    success nor a dropped marker while tokens are left, the drain requests no
    follow-up, whatever remains in the buffer.  It happens: a worker with free
    slots and tokens drains a buffer of one expired and one fresh task, moves
    the expired one to the dead letter queue, leaves the other in the buffer,
    and no drain is pending; the watchdog has to pick it up. *)
Theorem expired_head_stalls :
  (forall (res : consume_result) (w : world db dist),
     stalled res = true -> after_consume res w = (inr tt, w)) /\
  (let '(r, w') := drain demo_late in
   r = inr tt /\ s_leases (abs "demo" (w_srv w')) = [] /\
   length (s_dlq (abs "demo" (w_srv w'))) = 1%nat /\
   length (s_buffer (abs "demo" (w_srv w'))) = 1%nat /\
   (l_next_wake <$> d_drain_loop (w_obj w')) = Some None).
Proof.
  split; [|by vm_compute]. intros res w Hs. unfold stalled in Hs.
  unfold after_consume, me. rewrite bind_assoc, bind_eq. cbn [self]. rewrite bind_eq. cbn [mret py_ret pret].
  destruct (success res); [done|]. destruct (yielded res); [done|]. destruct (marker_skipped res); [done|].
  cbn [negb andb] in Hs. destruct (remaining_tasks res =? 0); [done|]. destruct (_ <=? _); [done|].
  by rewrite (proj2 (Z.leb_gt _ _)) by (apply Z.ltb_lt in Hs; lia).
Qed.

(** The answer of the script that buffers a task is lost, then the caller
    retries. *)
Definition demo_retry : (exn + (bool * string)) * (exn + (bool * string)) * world db dist :=
  let fine := Net (fun r : db => r) Fine 1 in
  let unanswered := Net (fun r : db => r) Unanswered 1 in
  let w := demo_world 0 demo_empty [fine; fine; unanswered; fine] in
  let '(r1, w1) := schedule_task "app.pay" [] (Finite 1) None w in
  let later := World (Db (1700000005000000) (db_keys (w_srv w1)) []) (w_cache w1) [] 5 1700000005 [] [] [] (w_obj w1) in
  let '(r2, w2) := schedule_task "app.pay" [] (Finite 1) None later in
  (r1, r2, w2).

(** Scheduling is at-least-once: when the reply of the script that buffers
    a task is lost, the claim is released although the task is in the buffer,
    and the retry of the caller buffers it a second time, under the same
    task identifier. *)
Theorem lost_answer_duplicates :
  let '(r1, r2, w) := demo_retry in
  r1 = inl (ConnectionError "connection lost") /\
  r2 = inr (true, task_id_of "app.pay" []) /\
  (t_id <$> omap task_of (members (s_buffer (abs "demo" (w_srv w))))) =
    [task_id_of "app.pay" []; task_id_of "app.pay" []].
Proof. by vm_compute. Qed.

(** ** Witnesses *)

(** The connection is lost. *)
Definition demo_cut (failures : Z) : world db dist :=
  set_obj (with_failures failures demo_node) (demo_world 9 demo_two [Net (fun r : db => r) Lost 1]).

Lemma demo_cut_body failures :
  drain_body (demo_cut failures) = (inl (ConnectionError "connection lost"), snd (drain_body (demo_cut failures))).
Proof. by vm_compute. Qed.

Lemma drain_recovers_witness :
  fst (drain (demo_cut 3)) = inr tt /\
  d_drain_failures (w_obj (snd (drain (demo_cut 3)))) = 4 /\
  fst (drain (demo_cut 1024)) = inl (OverflowError "int too large to convert to float").
Proof.
  destruct (drain_recovers _ _ _ 3 (demo_cut_body 3) eq_refl eq_refl ltac:(lia)) as [H _].
  destruct (drain_recovers _ _ _ 1024 (demo_cut_body 1024) eq_refl eq_refl ltac:(lia)) as [_ H'].
  destruct (H ltac:(lia)) as (H1 & H2 & _). destruct (H' ltac:(lia)) as [H3 _]. by split_and!.
Defined.

Definition demo_admitted_result : consume_result :=
  ConsumeResult true false false false
    (JObj [("id", JStr "1"); ("func_path", JStr "app.new"); ("payload", JObj [])]) 5 1 100 1 0 1.

Lemma drain_follow_up_witness :
  drain_pending (w_obj (snd (after_consume demo_admitted_result demo_late))).
Proof.
  refine (drain_follow_up (QD := demo_quiet) demo_admitted_result demo_late _ _ _ _ _); try by vm_compute.
  by eexists.
Defined.

Lemma lifecycle_exit_releases_witness :
  let t := Lifecycle "t1" "warn" Entered in
  fst (lifecycle_exit t (demo_world 0 demo_empty [])) = inr tt.
Proof.
  intros t. refine (proj1 (proj2 (proj2 (lifecycle_exit_releases t (demo_world 0 demo_empty []))) 2000 _ _ _ _)).
  - done.
  - right. by exists "release.lua".
  - apply wt_fresh. intros s. by vm_compute.
  - done.
Defined.

Lemma demo_payload_schedulable : schedulable "app.pay" [] None.
Proof. by split. Qed.

Lemma schedule_claims_once_witness :
  fst (schedule_task "app.pay" [] (Finite 1) None (demo_world 0 demo_empty [])) = inr (true, task_id_of "app.pay" []).
Proof.
  pose proof (schedule_claims_once "app.pay" [] 1 None 2000 (demo_world 0 demo_empty [])) as H.
  destruct (schedule_task _ _ _ _ _) as [r w']. cbn zeta beta in H.
  refine (proj1 (H _ _ _ _ _ demo_payload_schedulable)).
  - done.
  - right. by exists "schedule.lua".
  - by intros cb ev data e.
  - apply wt_fresh. intros s. by vm_compute.
  - by vm_compute.
Defined.

Definition demo_refused : world db dist :=
  demo_world 0 demo_empty [Net (fun r : db => r) Fine 1; Net (fun r : db => r) Lost 1].

Lemma schedule_failure_releases_witness :
  fst (schedule_task "app.pay" [] (Finite 1) None demo_refused) = inl (ConnectionError "connection lost").
Proof.
  refine (proj1 (schedule_failure_releases "app.pay" [] 1 None (ConnectionError "connection lost") demo_refused
    _ _ _ _ _)); [by vm_compute|by vm_compute|done].
Defined.
