(* ===== verification/Prometheus.v ===== *)
(** * Prometheus: the metrics exporter (integrations/prometheus.py)

    The callback that turns the events of a limiter into counters and gauges.
    A child of a metric is known by its label; the limiter's own label is the
    same on all of them.  Theorem: every consume event is counted exactly
    once, under the outcome its status stands for. *)

From S2P Require Import Prelude Float Text Json Redis Scripts Py Base Loop Heartbeat Dist Distributed.

Open Scope Z_scope.
Open Scope rl_scope.

Record exporter := Exporter {
  ex_consume : gmap string Z;       (* redis_rate_limiter_consume_total, by outcome *)
  ex_schedule : gmap string Z;      (* redis_rate_limiter_schedule_total, by scheduled *)
  ex_remaining : json;              (* gauges; [JInt 0] before the first event *)
  ex_active : json;
  ex_buffer : json;
}.

(** [__init__] *)
Definition exporter_init : exporter := Exporter ∅ ∅ (JInt 0) (JInt 0) (JInt 0).

Definition count_at (label : string) (m : gmap string Z) : Z := default 0 (m !! label).
Definition inc (label : string) (m : gmap string Z) : gmap string Z := <[label := count_at label m + 1]> m.

Section Exporter.
Context {F : Rounding}.

(** [int(data.get("remaining_tasks", 0)) == 0] *)
Definition no_tasks (data : list (string * json)) : exn + bool :=
  match py_int (default (JInt 0) (assoc_last "remaining_tasks" data)) with
  | inl e => inl e
  | inr n => inr (n =? 0)
  end.

Definition outcome_of (data : list (string * json)) : exn + string :=
  if truthy (default JNull (assoc_last "expired" data)) then inr "expired"
  else if truthy (default JNull (assoc_last "success" data)) then inr "success"
  else
    match no_tasks data with
    | inl e => inl e
    | inr b => inr (if b then "empty" else "rejected")
    end.

(** [gauge.set(data[k])], a number. *)
Definition set_gauge (k : string) (data : list (string * json)) (set : json -> exporter -> exporter) (x : exporter) :
    option exn * exporter :=
  match assoc_last k data with
  | None => (Some (KeyError k), x)
  | Some v => match py_num v with Some _ => (None, set v x) | None => (Some (TypeError k), x) end
  end.

Definition set_remaining v x := Exporter (ex_consume x) (ex_schedule x) v (ex_active x) (ex_buffer x).
Definition set_active v x := Exporter (ex_consume x) (ex_schedule x) (ex_remaining x) v (ex_buffer x).
Definition set_buffer v x := Exporter (ex_consume x) (ex_schedule x) (ex_remaining x) (ex_active x) v.

(** [_handle_consume]: an exception leaves what was done before it. *)
Definition handle_consume (data : list (string * json)) (x : exporter) : option exn * exporter :=
  match outcome_of data with
  | inl e => (Some e, x)
  | inr outcome =>
      let x := Exporter (inc outcome (ex_consume x)) (ex_schedule x) (ex_remaining x) (ex_active x) (ex_buffer x) in
      match set_gauge "remaining_tokens" data set_remaining x with
      | (Some e, x) => (Some e, x)
      | (None, x) =>
          match set_gauge "active_concurrency" data set_active x with
          | (Some e, x) => (Some e, x)
          | (None, x) => set_gauge "remaining_tasks" data set_buffer x
          end
      end
  end.

(** [_handle_schedule] *)
Definition handle_schedule (data : list (string * json)) (x : exporter) : option exn * exporter :=
  let scheduled := if truthy (default JNull (assoc_last "scheduled" data)) then "true" else "false" in
  (None, Exporter (ex_consume x) (inc scheduled (ex_schedule x)) (ex_remaining x) (ex_active x) (ex_buffer x)).

(** [__call__] *)
Definition exporter_call (event : string) (data : list (string * json)) (x : exporter) : option exn * exporter :=
  if String.eqb event "consume" then handle_consume data x
  else if String.eqb event "schedule" then handle_schedule data x
  else (None, x).

(** ** Counting *)

Definition metric_fields (r : consume_result) : list (string * json) :=
  match consume_metric r with JObj l => l | _ => [] end.

(** The outcome of a reply of the script. *)
Definition status_outcome (r : consume_reply) : string :=
  if cr_status r =? -1 then "expired"
  else if cr_status r =? 1 then "success"
  else if cr_buffer r =? 0 then "empty" else "rejected".

Definition observe (x : exporter) (r : consume_result) : exporter :=
  snd (exporter_call "consume" (metric_fields r) x).

Lemma py_trunc_int (n : Z) : py_trunc n = n.
Proof.
  unfold py_trunc. destruct (Qle_bool 0 n); [apply Qfloor_Z|]. rewrite <- inject_Z_opp, Qfloor_Z. lia.
Qed.

Lemma observe_eq rep res x :
  parse_consume rep = inr res ->
  exporter_call "consume" (metric_fields res) x =
    (None, Exporter (inc (status_outcome rep) (ex_consume x)) (ex_schedule x)
             (JInt (cr_remaining rep)) (JInt (cr_active rep)) (JInt (cr_buffer rep))).
Proof.
  unfold parse_consume. destruct (parse_task (cr_task rep)) as [e|t]; [done|]. intros [= <-].
  unfold exporter_call, handle_consume, outcome_of, no_tasks, status_outcome. cbn -[py_trunc Z.eqb].
  destruct (Z.eqb_spec (cr_status rep) (-1)); [done|].
  destruct (Z.eqb_spec (cr_status rep) 1); [done|]. cbn -[py_trunc]. rewrite py_trunc_int.
  by destruct (cr_buffer rep =? 0).
Qed.

(** Every consume event is counted exactly once, under the outcome of its
    status, and no event makes the callback raise; the gauges show the last
    reply.  A worker that yields its turn (status -3) reports no buffer, so it
    is counted as an idle tick and resets the buffer gauge to zero, whatever
    the buffer holds. *)
Theorem events_counted (replies : list consume_reply) (results : list consume_result) (x : exporter) :
  Forall2 (fun rep res => parse_consume rep = inr res) replies results ->
  let y := fold_left observe results x in
  (forall label, count_at label (ex_consume y) =
     count_at label (ex_consume x) + Z.of_nat (length (List.filter (fun r => String.eqb label (status_outcome r)) replies))) /\
  ex_schedule y = ex_schedule x /\
  (forall rep, last replies = Some rep -> ex_buffer y = JInt (cr_buffer rep)) /\
  Forall2 (fun rep res => forall z, fst (exporter_call "consume" (metric_fields res) z) = None /\
     (cr_status rep = -3 -> cr_buffer rep = 0 -> status_outcome rep = "empty")) replies results.
Proof.
  intros H. cbn zeta. revert x. induction H as [|rep res reps ress E H IH]; intros x.
  - cbn. split_and!; [intros; lia|done|done|constructor].
  - assert (Ex : forall z, observe z res = Exporter (inc (status_outcome rep) (ex_consume z)) (ex_schedule z)
      (JInt (cr_remaining rep)) (JInt (cr_active rep)) (JInt (cr_buffer rep))).
    { intros z. unfold observe. by rewrite (observe_eq rep res z E). }
    cbn [fold_left]. destruct (IH (observe x res)) as (H1 & H2 & H3 & H4). rewrite Ex in *. cbn [ex_consume ex_schedule] in H1, H2.
    split_and!.
    + intros label. rewrite H1. unfold inc, count_at. cbn [List.filter].
      destruct (String.eqb_spec label (status_outcome rep)) as [->|Hne].
      * rewrite lookup_insert_eq. cbn [length from_option]. unfold id. lia.
      * by rewrite lookup_insert_ne by congruence.
    + done.
    + intros rep' Hl. destruct reps as [|rep2 reps].
      * inversion H; subst. by injection Hl as <-.
      * by apply H3.
    + constructor; [|exact H4]. intros z. rewrite (observe_eq rep res z E). split; [done|].
      intros E1 E2. unfold status_outcome. by rewrite E1, E2.
Qed.
End Exporter.
