(* ===== verification/ManagedDist.v ===== *)
(** * ManagedDist: managed distributed limiters

    The registry of [Managed] for the synchronous distributed limiter: the
    constructor's keyword arguments, what is persisted and what an update
    changes.  An update made in one process reaches every other one; what a
    process creates another process retrieves; and the races of the registry
    that lose an update are exhibited. *)

From S2P Require Import Prelude Float Text Json Redis Keyspace Scripts Py Base Managed Loop Heartbeat Dist Distributed Limiter.

Open Scope Z_scope.
Open Scope rl_scope.

(** ** Keyword arguments *)

Definition dist_keywords : list string :=
  ["limit"; "window"; "max_concurrency"; "max_age"; "lease_duration"; "on_heartbeat_failure";
   "jitter_enabled"; "jitter_min_pct"; "jitter_max_pct"; "drain_enabled"].

(** The signatures of the constructors along the method resolution order; the
    metrics callback is no JSON value and is left out.  With several invalid
    arguments the code may report another of them first. *)
Definition config_of_kwargs {F : Rounding} (limiter_id : string) (kw : list (string * json)) : exn + dist_config :=
  if forallb (fun k => existsb (String.eqb k) dist_keywords) (map fst kw) then
    limit ← kw_int "limit" None kw;
    window ← kw_num "window" None kw;
    max_concurrency ← kw_int "max_concurrency" None kw;
    max_age ← kw_int "max_age" (Some 3600) kw;
    lease_duration ← kw_int "lease_duration" (Some 30) kw;
    on_failure ← kw_str "on_heartbeat_failure" "warn" kw;
    jitter_enabled ← kw_bool "jitter_enabled" true kw;
    jitter_min_pct ← kw_num "jitter_min_pct" (Some (rnd (2 # 100))) kw;
    jitter_max_pct ← kw_num "jitter_max_pct" (Some (rnd (8 # 100))) kw;
    drain_enabled ← kw_bool "drain_enabled" true kw;
    inr (DistConfig limiter_id limit window max_concurrency max_age lease_duration on_failure
           jitter_enabled jitter_min_pct jitter_max_pct None drain_enabled)
  else inl (TypeError "unexpected keyword argument").

Definition blank_dist : dist :=
  MkDist (MkBase estr 0 0 0 0 ∅ ∅) 0 0 0 estr false 0 0 None false estr 0 0 None
    (HSched 0 ∅ [] false NoThread) None false false.

Section Instance.
Context {F : Rounding} {R : Type} {RS : RedisServer R} {P : Resources} {G : Digest}.
Context {B : Backend R dist}.

#[export] Instance managed_dist : Managed R dist := {|
  managed_base := dist_is_base dist;
  blank := blank_dist;
  construct := fun limiter_id kw => k ← of_sum (config_of_kwargs limiter_id kw); limiter_init k;
  start := skip;
  apply_config_overrides := dist_apply_overrides;
  persisted_config := build_persist_config;
|}.

(** The backend of a managed limiter: the drain refreshes the configuration. *)
Definition managed_backend : Backend R dist := {|
  has_local_capacity := has_local_capacity;
  dispatch_task := dispatch_task;
  check_backend_health := check_backend_health;
  refresh_hook := Some (_ ← refresh_config; skip);
|}.
End Instance.

(** ** Laws of a managed class *)

Class ManagedLaws {R O : Type} (M : Managed R O) := {
  storable : O -> Prop;           (* its configuration survives JSON *)
  agree : O -> O -> Prop;         (* equal persisted configurations *)
  persisted_wf : forall o, storable o -> jwf (JObj (persisted_config o)) = true;
  apply_persisted : forall o (w : world R O), storable o ->
    wp (apply_config_overrides (persisted_config o))
      (fun r w' => r = inr tt /\ agree o (w_obj w') /\
         b_id (base_of (w_obj w')) = b_id (base_of (w_obj w)) /\
         b_config_version (base_of (w_obj w')) = b_config_version (base_of (w_obj w)) /\
         w_srv w' = w_srv w /\ w_net w' = w_net w) w;
  agree_version : forall o o' n, agree o o' -> agree o (with_base (set_version n) o');
}.

Section Registry.
Context {R : Type} {RS : RedisServer R} {SP : RedisSpec R} {O : Type} {M : Managed R O} {L : ManagedLaws M}.

(** The registry as Redis holds it. *)
Definition stored_config (id : string) (db : db) : option string := hash_at registry_key db !! id.
Definition stored_version (id : string) (db : db) : option string := hash_at version_key db !! id.

(** The version of a limiter; none is version zero. *)
Definition version_at (id : string) (n : Z) (db : db) : Prop :=
  match stored_version id db with None => n = 0 | Some v => read_Z v = Some n end.

Record registry_ok (id : string) (n : Z) (db : db) : Prop := {
  ro_configs : is_hash registry_key db;
  ro_versions : is_hash version_key db;
  ro_version : version_at id n db;
  ro_bound : 0 <= n;
}.

Lemma hash_at_set k h db : hash_at k (set_val k (VHash h) db) = h.
Proof. unfold hash_at. by rewrite key_val_set_val. Qed.

Lemma hash_at_ne k k' v db : k <> k' -> hash_at k (set_val k' v db) = hash_at k db.
Proof. intros Hne. unfold hash_at. by rewrite key_val_set_val_ne. Qed.

Lemma is_hash_set k h db : is_hash k (set_val k (VHash h) db).
Proof. unfold is_hash. by rewrite key_val_set_val. Qed.

Lemma is_hash_ne k k' v db : k <> k' -> is_hash k db -> is_hash k (set_val k' v db).
Proof. intros Hne. unfold is_hash. by rewrite key_val_set_val_ne. Qed.

Lemma keys_differ : registry_key <> version_key.
Proof. done. Qed.

(** What [_persist_config] writes: the configuration, then the next version. *)
Lemma persist_wp (w : world R O) (n : Z) :
  let o := w_obj w in
  let id := b_id (base_of o) in
  w_net w = [] -> registry_ok id n (rview (w_srv w)) -> n < 2 ^ 62 ->
  wp persist_config (fun r w' => r = inr tt /\ registry_ok id (n + 1) (rview (w_srv w')) /\
    stored_config id (rview (w_srv w')) = Some (dumps (JObj (persisted_config o))) /\
    w_obj w' = with_base (set_version (n + 1)) o /\ w_net w' = []) w.
Proof.
  intros o id Hn [H1 H2 H3 H4] Hb.
  set (db := rview (w_srv w)) in *. set (text := dumps (JObj (persisted_config o))).
  unfold persist_config. apply wp_bind, wp_self. fold o. fold id. fold text.
  set (db1 := set_val registry_key (VHash (<[id := text]> (hash_at registry_key db))) db).
  set (db2 := set_val version_key (VHash (<[id := print_Z (n + 1)]> (hash_at version_key db))) db1).
  apply wp_bind. eapply (command_view _ _ _ db1); [done| |].
  { cbn [db_exec]. fold db. rewrite as_hash_at by done. reflexivity. }
  intros w1 Ev1 Eo1 En1 _. cbn [answer]. apply wp_bind. eapply (command_view _ _ (inr (n + 1)) db2); [done| |].
  { rewrite Ev1. cbn [db_exec].
    assert (E2 : hash_at version_key db1 = hash_at version_key db) by (by apply hash_at_ne).
    rewrite as_hash_at by (by apply is_hash_ne). rewrite E2. cbn [typed].
    unfold version_at, stored_version in H3. destruct (hash_at version_key db !! id) as [v|].
    - rewrite H3. unfold incr_reply. rewrite (proj2 (Z.ltb_lt _ _)) by (unfold max_int64; lia). done.
    - by subst n. }
  intros w2 Ev2 Eo2 En2 _. cbn [answer]. apply wp_modify. split; [done|].
  cbn [w_srv w_obj w_net set_obj]. rewrite Ev2. split; [|split; [|split; [|done]]].
  - split; [| | |lia].
    + apply is_hash_ne; [done|]. apply is_hash_set.
    + apply is_hash_set.
    + unfold version_at, stored_version, db2. rewrite hash_at_set, lookup_insert_eq. apply read_print_Z.
  - unfold stored_config, db2. rewrite hash_at_ne by done. unfold db1. by rewrite hash_at_set, lookup_insert_eq.
  - by rewrite Eo2, Eo1.
Qed.

Lemma parse_persisted o :
  storable o -> parse_raw_config (dumps (JObj (persisted_config o))) = inr (persisted_config o).
Proof. intros Ho. unfold parse_raw_config. by rewrite loads_dumps by by apply persisted_wf. Qed.

(** Reading a field of the registry leaves Redis alone. *)
Lemma hget_wp k f (w : world R O) (K : exn + option string -> world R O -> Prop) :
  w_net w = [] -> is_hash k (rview (w_srv w)) ->
  (forall w', rview (w_srv w') = rview (w_srv w) -> w_obj w' = w_obj w -> w_net w' = [] ->
     K (inr (hash_at k (rview (w_srv w)) !! f)) w') ->
  wp (command (HGET k f)) K w.
Proof.
  intros Hn Hh HK. eapply (command_view _ _ (inr _) (rview (w_srv w))); [done| |].
  { cbn [db_exec]. rewrite as_hash_at by done. reflexivity. }
  intros w' Ev Eo En _. by apply HK.
Qed.

(** A refresh on a quiet network. *)
Lemma refresh_wp (o : O) (w : world R O) (n : Z) :
  let id := b_id (base_of (w_obj w)) in
  let local := b_config_version (base_of (w_obj w)) in
  w_net w = [] -> registry_ok id n (rview (w_srv w)) -> storable o -> 0 <= local ->
  stored_config id (rview (w_srv w)) = Some (dumps (JObj (persisted_config o))) ->
  wp refresh_config (fun r w' => rview (w_srv w') = rview (w_srv w) /\ w_net w' = [] /\
    if n <=? local then r = inr false /\ w_obj w' = w_obj w
    else r = inr true /\ agree o (w_obj w') /\ b_id (base_of (w_obj w')) = id /\
         b_config_version (base_of (w_obj w')) = n) w.
Proof.
  intros id local Hn [H1 H2 H3 H4] Ho Hl Hc. unfold refresh_config. apply wp_bind, wp_self, wp_bind, hget_wp; [done..|].
  intros w1 Ev1 Eo1 En1. fold id. fold local. change (hash_at version_key _ !! id) with (stored_version id (rview (w_srv w))).
  unfold version_at in H3. destruct (stored_version id (rview (w_srv w))) as [v|].
  - apply wp_bind. unfold of_sum at 1. apply wp_of_sum. unfold parse_version. rewrite H3.
    destruct (Z.leb_spec n local) as [Hle|Hlt]; [by apply wp_ret|].
    apply wp_bind, hget_wp; [done|by rewrite Ev1|]. intros w2 Ev2 Eo2 En2. rewrite Ev1 in *.
    change (hash_at registry_key _ !! id) with (stored_config id (rview (w_srv w))). rewrite Hc.
    apply wp_bind, wp_catch, wp_bind. unfold of_sum. apply wp_of_sum. rewrite (parse_persisted o Ho).
    apply wp_ret, wp_bind. eapply wp_mono; [by apply apply_persisted|].
    intros r w3 (-> & Ha & Ei & _ & Es & En3). apply wp_bind, wp_modify, wp_ret.
    cbn [w_srv w_net w_obj set_obj]. split; [congruence|]. split; [congruence|]. split; [done|].
    split; [by apply agree_version|]. rewrite base_of_with. split; [|done]. cbn. rewrite Ei, Eo2, Eo1. done.
  - subst n. apply wp_ret. by rewrite (proj2 (Z.leb_le _ _)).
Qed.

(** C19. An update reaches every process.  After an instance persisted its
    configuration, the next refresh of any other instance of the same limiter
    that has not seen the new version adopts exactly that configuration and
    that version; a further refresh changes nothing. *)
Theorem update_propagates (wa wb : world R O) (n : Z) :
  let id := b_id (base_of (w_obj wa)) in
  let wa' := snd (persist_config wa) in
  let wb' := snd (refresh_config wb) in
  w_net wa = [] -> registry_ok id n (rview (w_srv wa)) -> n < 2 ^ 62 -> storable (w_obj wa) ->
  w_net wb = [] -> rview (w_srv wb) = rview (w_srv wa') -> b_id (base_of (w_obj wb)) = id ->
  0 <= b_config_version (base_of (w_obj wb)) <= n ->
  fst (persist_config wa) = inr tt /\
  fst (refresh_config wb) = inr true /\
  agree (w_obj wa) (w_obj wb') /\
  b_config_version (base_of (w_obj wb')) = b_config_version (base_of (w_obj wa')) /\
  fst (refresh_config wb') = inr false /\ w_obj (snd (refresh_config wb')) = w_obj wb'.
Proof.
  intros id wa' wb' Hna Hr Hb Hs Hnb Ev Ei Hv.
  destruct (persist_wp wa n Hna Hr Hb) as (Pa & Hr' & Hc & Eo & _). fold wa' in Hr', Hc, Eo.
  rewrite <- Ev in Hr', Hc. fold id in Hr', Hc. rewrite <- Ei in Hr', Hc.
  destruct (refresh_wp (w_obj wa) wb (n + 1) Hnb Hr' Hs ltac:(lia) Hc) as (Ev' & En' & Hcase). fold wb' in Ev', En', Hcase.
  rewrite (proj2 (Z.leb_gt _ _)) in Hcase by lia. destruct Hcase as (Rb & Ha & Eib & Evb).
  split; [done|]. split; [done|]. split; [done|]. split; [by rewrite Evb, Eo, base_of_with|].
  assert (Hr2 : registry_ok (b_id (base_of (w_obj wb'))) (n + 1) (rview (w_srv wb'))) by (by rewrite Ev', Eib).
  assert (Hc2 : stored_config (b_id (base_of (w_obj wb'))) (rview (w_srv wb')) = Some (dumps (JObj (persisted_config (w_obj wa)))))
    by (by rewrite Ev', Eib).
  destruct (refresh_wp (w_obj wa) wb' (n + 1) En' Hr2 Hs ltac:(rewrite Evb; destruct Hr; lia) Hc2) as (_ & _ & Hcase).
  rewrite (proj2 (Z.leb_le _ _)) in Hcase by lia. exact Hcase.
Qed.
End Registry.

(** ** The laws of the distributed limiter *)

Section Laws.
Context {F : Rounding} {FL : RoundingLaws F} {R : Type} {RS : RedisServer R} {SP : RedisSpec R}.
Context {P : Resources} {G : Digest} {B : Backend R dist}.

(** The window is a double that [float.__repr__] prints with at most
    seventeen digits. *)
Definition literal_ok (q : Q) : Prop := (rnd q == q)%Q /\ is_Some (try_digits 17 1 q).

Lemma try_digits_reads n p q m s :
  try_digits n p q = Some (m, s) -> (rnd (if 0 <=? s then m / (10 ^ s)%Z else m * (10 ^ (- s))%Z) == q)%Q.
Proof.
  revert p. induction n as [|n IH]; intros p; cbn [try_digits]; [done|].
  destruct (Qeq_bool _ q) eqn:E; [|apply IH]. intros [= <- <-]. by apply Qeq_bool_iff.
Qed.

Lemma Zpow_ne0 (k : Z) : 0 <= k -> ~ (inject_Z (10 ^ k) == 0)%Q.
Proof. intros Hk H. unfold Qeq in H. cbn in H. assert (0 < 10 ^ k) by (apply Z.pow_pos_nonneg; lia). lia. Qed.

(** The printed window reads back as the window. *)
Lemma float_json_reads q : literal_ok q -> exists q', py_num (float_json q) = Some q' /\ (q' == q)%Q.
Proof.
  intros [_ [[m s] E]]. unfold float_json. rewrite E. apply try_digits_reads in E.
  destruct (Z.leb_spec 1 s) as [H|H]; eexists; (split; [reflexivity|]).
  - rewrite Z2Nat.id by lia. rewrite (proj2 (Z.leb_le _ _)) in E by lia. exact E.
  - rewrite <- E. apply rnd_proper. change (10 ^ Z.of_nat 1) with 10.
    assert (H10 : (inject_Z (m * 10 ^ (1 - s)) / inject_Z 10 == m * (10 ^ (- s))%Z)%Q).
    { replace (1 - s) with (1 + - s) by lia. rewrite Z.pow_add_r, !inject_Z_mult by lia.
      change (inject_Z (10 ^ 1)) with (inject_Z 10). by field. }
    rewrite H10. destruct (Z.leb_spec 0 s) as [H0|H0]; [|done].
    assert (s = 0) as -> by lia. change (- 0) with 0. change (inject_Z (10 ^ 0)) with 1%Q. field.
Qed.

Lemma py_trunc_Z (n : Z) : py_trunc n = n.
Proof.
  unfold py_trunc. destruct (Qle_bool 0 n); [apply Qfloor_Z|].
  rewrite <- inject_Z_opp, Qfloor_Z. lia.
Qed.

Definition dist_agree (o o' : dist) : Prop :=
  d_limit o' = d_limit o /\ (d_window o' == d_window o)%Q /\ d_max_concurrency o' = d_max_concurrency o /\
  d_max_age o' = d_max_age o /\ d_lease_duration o' = d_lease_duration o.

#[export, refine] Instance dist_laws : ManagedLaws (R := R) managed_dist := {
  storable := fun o => literal_ok (d_window o);
  agree := dist_agree;
}.
Proof.
  - intros o Hq. cbn. unfold float_json. destruct Hq as [_ [[m s] ->]].
    destruct (Z.leb_spec 1 s); cbn; [|done]. destruct (Z.to_nat s) eqn:E; [lia|done].
  - intros o w Hq. cbn [apply_config_overrides managed_dist persisted_config].
    destruct (float_json_reads _ Hq) as (q' & Eq & Hq').
    unfold dist_apply_overrides, base_apply_overrides. apply wp_bind, wp_bind, wp_self, wp_bind.
    assert (Hw : dict_get "window" (build_persist_config o) = Some (float_json (d_window o))).
    { unfold dict_get. cbn. unfold float_json. destruct (try_digits _ _ _) as [[m s]|]; [by destruct (1 <=? s)|done]. }
    rewrite Hw, Eq.
    set (o0 := w_obj w). change (dist_of o0) with o0 in *.
    destruct (Qeq_bool q' (b_window (base_of o0))) eqn:Hq0.
    + apply Qeq_bool_iff in Hq0. change (base_of o0) with (d_base o0) in *. unfold wp, dist_agree. cbn -[py_trunc Qeq].
      rewrite py_trunc_Z. split_and!; try done. unfold d_window at 1. cbn -[Qeq]. fold o0. exact (Qeq_trans _ _ _ (Qeq_sym _ _ Hq0) Hq').
    + unfold wp, dist_agree. cbn -[py_trunc Qeq]. rewrite py_trunc_Z. split_and!; try done.
      unfold d_window at 1. cbn -[Qeq]. exact (Qeq_trans _ _ _ (rnd_proper _ _ Hq') (proj1 Hq)).
  - intros o o' n. unfold dist_agree. cbn. by destruct o'.
Defined.
End Laws.

(** ** Creating and retrieving *)

Section RoundTrip.
Context {F : Rounding} {FL : RoundingLaws F} {R : Type} {RS : RedisServer R} {SP : RedisSpec R}.
Context {P : Resources} {G : Digest} {B : Backend R dist}.
Hypothesis files : forall name, exists source, load_lua_script name resource_packages = inr source.

(** The settings an instance has for itself: they are not persisted. *)
Definition settings (d : dist) : string * bool * Q * Q * bool :=
  (d_on_failure d, d_jitter_enabled d, d_jitter_min_pct d, d_jitter_max_pct d, d_drain_enabled d).
Definition k_settings (k : dist_config) : string * bool * Q * Q * bool :=
  (k_on_failure k, k_jitter_enabled k, k_jitter_min_pct k, k_jitter_max_pct k, k_drain_enabled k).

(** Those of the constructor's defaults. *)
Definition default_settings : string * bool * Q * Q * bool := ("warn", true, rnd (2 # 100), rnd (8 # 100), true).

(** The configuration two limiters share. *)
Definition same_conf (d d' : dist) : Prop :=
  d_id d' = d_id d /\ d_limit d' = d_limit d /\ d_window d' = d_window d /\
  d_max_concurrency d' = d_max_concurrency d /\ d_max_age d' = d_max_age d /\
  d_lease_duration d' = d_lease_duration d /\ b_config_version (d_base d') = b_config_version (d_base d) /\
  settings d' = settings d.

(** A step of construction: Redis and the configuration stay. *)
Definition quiet_step (w w' : world R dist) : Prop :=
  w_srv w' = w_srv w /\ w_net w' = [] /\ same_conf (w_obj w) (w_obj w').

Lemma quiet_step_trans w1 w2 w3 : quiet_step w1 w2 -> quiet_step w2 w3 -> quiet_step w1 w3.
Proof.
  intros (E1 & N1 & ? & ? & ? & ? & ? & ? & ? & ?) (E2 & N2 & ? & ? & ? & ? & ? & ? & ? & ?).
  split; [congruence|]. split; [done|]. unfold same_conf. split_and!; congruence.
Qed.

Lemma register_step name (w : world R dist) :
  w_net w = [] -> wp (register_script name) (fun r w' => (exists sha, r = inr sha) /\ quiet_step w w') w.
Proof.
  intros Hn. pose proof (register_base name w) as [(f & Kf & Ef) _].
  destruct (register_quiet name w Hn (or_intror (files name))) as (sha & w' & Er & Es & En & _).
  unfold wp in *. rewrite Er in *. cbn [fst snd] in *. split; [by exists sha|]. split; [done|]. split; [done|].
  change (dist_of (w_obj w')) with (w_obj w') in Ef. change (dist_of (w_obj w)) with (w_obj w) in Ef.
  unfold same_conf. rewrite Ef. destruct (Kf (d_base (w_obj w))) as (K1 & K2 & K3 & K4 & _).
  unfold d_id, d_limit, d_window. cbn. by split_and!.
Qed.

Lemma step_then {A T} (m : py R dist A) (f : A -> py R dist T) (w w0 : world R dist) (K : exn + T -> world R dist -> Prop) :
  quiet_step w0 w ->
  wp m (fun r w' => (exists a, r = inr a) /\ quiet_step w w') w ->
  (forall a w', quiet_step w0 w' -> wp (f a) K w') -> wp (m ≫= f) K w.
Proof.
  intros H0 Hm Hf. apply wp_bind. eapply wp_mono; [exact Hm|]. intros r w' [(a & ->) Hs].
  apply Hf. by eapply quiet_step_trans.
Qed.

Lemma subscriber_step (w : world R dist) :
  w_net w = [] -> wp subscriber_start (fun r w' => (exists u, r = inr u) /\ quiet_step w w') w.
Proof.
  intros Hn. unfold subscriber_start. apply wp_bind. unfold wp at 1. rewrite trip_quiet by done. cbn [fst snd run answer].
  apply wp_bind, wp_emit, wp_modify. split; [by eexists|]. split; [done|]. by split.
Qed.

(** Construction with valid arguments succeeds. *)
Lemma limiter_init_wp (k : dist_config) (d : dist) (w : world R dist) :
  w_net w = [] -> dist_init k (uuid_str (default estr (head (w_uuid w)))) = inr d ->
  wp (limiter_init k) (fun r w' => r = inr tt /\ w_srv w' = w_srv w /\ w_net w' = [] /\ same_conf d (w_obj w')) w.
Proof.
  intros Hn Hd. unfold limiter_init. apply wp_bind, wp_uuid4, wp_bind. unfold of_sum at 1. apply wp_of_sum. rewrite Hd.
  apply wp_bind, wp_modify. set (w0 := set_obj _ _).
  assert (Hw0 : quiet_step w0 w0) by by split.
  assert (Hr : forall name w1, quiet_step w0 w1 -> wp (register_script name) (fun r w' => (exists a, r = inr a) /\ quiet_step w1 w') w1).
  { intros name w1 (_ & En & _). by apply register_step. }
  apply (step_then _ _ w0 w0); [done|by apply Hr|]. intros _ w1 H1.
  apply (step_then _ _ w1 w0); [done|by apply Hr|]. intros _ w2 H2.
  apply (step_then _ _ w2 w0); [done|by apply Hr|]. intros _ w3 H3.
  apply (step_then _ _ w3 w0); [done|by apply Hr|]. intros _ w4 H4.
  apply (step_then _ _ w4 w0); [done|by apply Hr|]. intros _ w5 H5.
  apply (step_then _ _ w5 w0); [done| |].
  - destruct (k_drain_enabled k).
    + assert (Hm : quiet_step w5 (set_obj (with_loop (Some (loop_init (watchdog_interval (w_obj w5)))) (w_obj w5)) w5)).
      { destruct H5 as (_ & En & _). by split. }
      apply (step_then _ _ w5 w5); [destruct H5 as (_ & En & _); by split| |].
      * apply wp_modify. split; [by eexists|]. exact Hm.
      * intros _ w6 H6. eapply wp_mono; [apply subscriber_step, H6|]. intros r w7 [Hr7 H7].
        split; [done|]. by eapply quiet_step_trans.
    + apply (wp_ret tt). split; [by eexists|]. destruct H5 as (_ & En & _). by split.
  - intros _ w6 H6. assert (Hend : forall w7, quiet_step w0 w7 ->
      inr tt = inr (A := exn) tt /\ w_srv w7 = w_srv w /\ w_net w7 = [] /\ same_conf d (w_obj w7)).
    { intros w7 (E7 & N7 & S7). split; [done|]. by split. }
    apply wp_when; [|by auto]. intros _. unfold monitor_start. apply wp_bind, wp_emit, wp_modify.
    apply Hend. destruct H6 as (E6 & N6 & S6). by split.
Qed.

(** ** Instances *)

Lemma on_wp {A} a (m : py R dist A) (o : dist) (w : world R (mclass dist)) (K : exn + A -> world R (mclass dist) -> Prop) :
  c_objects (w_obj w) !! a = Some o ->
  wp m (fun r w' => K r (with_object (MClass (c_client (w_obj w)) (c_context (w_obj w)) (c_instances (w_obj w))
                            (<[a := w_obj w']> (c_objects (w_obj w)))) w')) (with_object o w) ->
  wp (on a m) K w.
Proof. intros E. unfold wp, on. rewrite E. by destruct (m (with_object o w)) as [r w']. Qed.

Record valid_config (k : dist_config) : Prop := {
  vc_id : k_limiter_id k <> estr;
  vc_limit : 0 <= k_limit k;
  vc_window : (0 < k_window k)%Q;
  vc_conc : 1 <= k_max_concurrency k;
  vc_age : 1 <= k_max_age k;
  vc_lease : 1 <= k_lease_duration k;
}.

Definition conf_of (k : dist_config) (d : dist) : Prop :=
  d_id d = k_limiter_id k /\ d_limit d = k_limit k /\ d_window d = k_window k /\
  d_max_concurrency d = k_max_concurrency k /\ d_max_age d = k_max_age k /\
  d_lease_duration d = k_lease_duration k /\ b_config_version (d_base d) = 0 /\ settings d = k_settings k.

Lemma dist_init_valid k u : valid_config k -> exists d, dist_init k u = inr d /\ conf_of k d.
Proof.
  intros [H1 H2 H3 H4 H5 H6]. unfold dist_init, base_init.
  rewrite !(proj2 (Z.ltb_ge _ _)), (proj2 (String.eqb_neq _ _)) by (lia || done).
  destruct (Qle_bool (k_window k) 0) eqn:E; [apply Qle_bool_iff in E; lra|]. by eexists.
Qed.

(** A new instance of a valid configuration. *)
Lemma new_instance_wp limiter_id kw k (w : world R (mclass dist)) (K : exn + nat -> world R (mclass dist) -> Prop) :
  w_net w = [] -> config_of_kwargs limiter_id kw = inr k -> valid_config k ->
  (forall o w', w_srv w' = w_srv w -> w_net w' = [] -> conf_of k o ->
     w_obj w' = MClass (c_client (w_obj w)) (c_context (w_obj w)) (c_instances (w_obj w)) (c_objects (w_obj w) ++ [o]) ->
     K (inr (length (c_objects (w_obj w)))) w') ->
  wp (new_instance limiter_id kw) K w.
Proof.
  intros Hn Hk Hv HK. unfold new_instance. apply wp_bind. unfold allocate. unfold wp at 1. cbn [fst snd].
  set (c := w_obj w) in *. set (a := length (c_objects c)). apply wp_bind. apply (on_wp _ _ blank_dist).
  { cbn [w_obj set_obj c_objects]. by rewrite lookup_app_r, Nat.sub_diag by done. }
  cbn. unfold managed_init, require_internal_construction. apply wp_bind, (wp_ret tt). cbn.
  apply wp_bind. unfold of_sum at 1. apply wp_of_sum. rewrite Hk.
  destruct (dist_init_valid k (uuid_str (default estr (head (w_uuid w)))) Hv) as (d & Ed & Hd).
  eapply wp_mono; [apply (limiter_init_wp k d); [done|exact Ed]|].
  intros r w' (-> & Es & En & S1 & S2 & S3 & S4 & S5 & S6 & S7 & S8). apply wp_ret.
  apply (HK (w_obj w')); [exact Es|exact En| |].
  - destruct Hd as (D1 & D2 & D3 & D4 & D5 & D6 & D7 & D8). unfold conf_of. split_and!; congruence.
  - cbn. f_equal. unfold a. by rewrite insert_app_r_alt, Nat.sub_diag by lia.
Qed.

(** The persisted configuration is one the constructor accepts. *)
Lemma kwargs_of_persisted id (o : dist) :
  literal_ok (d_window o) ->
  exists k, config_of_kwargs id (build_persist_config o) = inr k /\ k_limiter_id k = id /\
    k_limit k = d_limit o /\ (k_window k == d_window o)%Q /\ k_max_concurrency k = d_max_concurrency o /\
    k_max_age k = d_max_age o /\ k_lease_duration k = d_lease_duration o /\ k_settings k = default_settings.
Proof.
  intros Hq. destruct (float_json_reads _ Hq) as (q & Eq & Hq').
  assert (Hw : kw_num "window" None (build_persist_config o) = inr q).
  { unfold kw_num, build_persist_config. cbn -[float_json py_num]. by rewrite Eq. }
  assert (E : exists j, config_of_kwargs id (build_persist_config o) =
    inr (DistConfig id (d_limit o) q (d_max_concurrency o) (d_max_age o) (d_lease_duration o) "warn"
           true (rnd (2 # 100)) (rnd (8 # 100)) j true)).
  { unfold config_of_kwargs. rewrite Hw. by eexists. }
  destruct E as [j E]. eexists. split; [exact E|]. by cbn.
Qed.

Lemma conf_valid k (o : dist) k' :
  valid_config k -> conf_of k o -> k_limiter_id k' = k_limiter_id k ->
  k_limit k' = d_limit o -> (k_window k' == d_window o)%Q -> k_max_concurrency k' = d_max_concurrency o ->
  k_max_age k' = d_max_age o -> k_lease_duration k' = d_lease_duration o -> valid_config k'.
Proof.
  intros [H1 H2 H3 H4 H5 H6] (C1 & C2 & C3 & C4 & C5 & C6 & C7) E1 E2 E3 E4 E5 E6.
  rewrite C2 in E2. rewrite C3 in E3. rewrite C4 in E4. rewrite C5 in E5. rewrite C6 in E6.
  split; [congruence|lia|rewrite E3; done|lia..].
Qed.

(** A process whose class is configured and does not know the limiter. *)
Record fresh_process (id : string) (w : world R (mclass dist)) : Prop := {
  fp_client : c_client (w_obj w) = true;
  fp_context : c_context (w_obj w) = true;
  fp_unknown : c_instances (w_obj w) !! id = None;
  fp_net : w_net w = [];
}.

(** Retrieval of a stored configuration. *)
Lemma get_wp (id : string) (k : dist_config) (o : dist) (n : Z) (w : world R (mclass dist)) :
  fresh_process id w -> valid_config k -> k_limiter_id k = id -> conf_of k o -> literal_ok (d_window o) ->
  registry_ok id n (rview (w_srv w)) -> 1 <= n ->
  stored_config id (rview (w_srv w)) = Some (dumps (JObj (build_persist_config o))) ->
  wp (managed_get id) (fun r w' => exists b o', r = inr b /\ c_instances (w_obj w') !! id = Some b /\
     c_objects (w_obj w') !! b = Some o' /\ d_id o' = id /\ dist_agree o o' /\ b_config_version (d_base o') = n /\
     settings o' = default_settings) w.
Proof.
  intros [F1 F2 F3 F4] Hv Hid Hc Hq [R1 R2 R3 R4] Hn Hs. unfold managed_get, hydrate. apply wp_bind, wp_self. rewrite F3.
  apply wp_bind. unfold require_configured. apply wp_bind, wp_self. rewrite F1, F2. cbn [negb orb]. apply (wp_ret tt).
  apply wp_bind, hget_wp; [done..|]. intros w1 V1 O1 N1.
  change (hash_at registry_key _ !! id) with (stored_config id (rview (w_srv w))). rewrite Hs.
  apply wp_bind. unfold of_sum at 1. apply wp_of_sum. rewrite (parse_persisted (L := dist_laws) o Hq).
  destruct (kwargs_of_persisted id o Hq) as (k' & Ek & K1 & K2 & K3 & K4 & K5 & K6 & K7).
  apply wp_bind, (new_instance_wp _ _ k'); [done|exact Ek|by eapply conf_valid; eauto; congruence|].
  intros o' w2 V2 N2 (C1 & C2 & C3 & C4 & C5 & C6 & C7 & C8) O2.
  set (b := length (c_objects (w_obj w1))) in *.
  apply wp_bind, hget_wp; [done|by rewrite V2, V1|]. intros w3 V3 O3 N3. rewrite V2, V1 in *.
  change (hash_at version_key _ !! id) with (stored_version id (rview (w_srv w))).
  unfold version_at in R3. destruct (stored_version id (rview (w_srv w))) as [v|]; [|lia].
  apply wp_bind, wp_bind. unfold of_sum at 1. apply wp_of_sum. unfold parse_version. rewrite R3.
  assert (Hb : (c_objects (w_obj w1) ++ [o']) !! b = Some o').
  { rewrite lookup_app_r by (unfold b; lia). unfold b. by rewrite Nat.sub_diag. }
  apply (on_wp _ _ o'); [by rewrite O3, O2|]. apply wp_modify. apply wp_bind. unfold remember.
  apply wp_modify, wp_ret. rewrite O3, O2. cbn. exists b. eexists. split; [done|]. split; [apply lookup_insert_eq|].
  split. { rewrite list_lookup_insert_eq; [done|]. by eapply lookup_lt_Some. }
  assert (Hset : settings o' = default_settings) by congruence.
  unfold dist_agree. cbn. unfold d_id, d_limit, d_window in *. cbn. split_and!; try congruence; try done; by rewrite C3.
Qed.

Lemma kwargs_id id kw k : config_of_kwargs id kw = inr k -> k_limiter_id k = id.
Proof.
  unfold config_of_kwargs. destruct (forallb _ _); [|done].
  repeat (match goal with |- mbind ?f ?x = _ -> _ => destruct x; cbn [mbind sum_bind]; [done|] end).
  by intros [= <-].
Qed.

(** A cached limiter is returned as it is. *)
Lemma get_cached id a (w : world R (mclass dist)) :
  c_instances (w_obj w) !! id = Some a -> managed_get id w = (inr a, w).
Proof. intros E. unfold managed_get, mbind, py_bind, pbnd, self. by rewrite E. Qed.

(** A creation that persists. *)
Lemma create_wp (id : string) (kw : list (string * json)) (k : dist_config) (n : Z) (w : world R (mclass dist)) :
  fresh_process id w -> config_of_kwargs id kw = inr k -> valid_config k ->
  registry_ok id n (rview (w_srv w)) -> n < 2 ^ 62 ->
  wp (managed_create id true false kw) (fun r w' => exists a o, r = inr a /\ c_instances (w_obj w') !! id = Some a /\
     c_objects (w_obj w') !! a = Some (with_base (set_version (n + 1)) o) /\ conf_of k o /\
     registry_ok id (n + 1) (rview (w_srv w')) /\
     stored_config id (rview (w_srv w')) = Some (dumps (JObj (build_persist_config o)))) w.
Proof.
  intros [F1 F2 F3 F4] Hk Hv Hr Hn. pose proof (kwargs_id _ _ _ Hk) as Hid.
  unfold managed_create. apply wp_bind. unfold require_configured. apply wp_bind, wp_self.
  rewrite F1, F2. cbn [negb orb]. apply (wp_ret tt), wp_bind, wp_self. rewrite F3. cbn [negb andb].
  rewrite bool_decide_eq_false_2 by (by intros [? ?]).
  apply wp_bind, (new_instance_wp _ _ k); [done..|].
  intros o w1 V1 N1 C O1. set (a := length (c_objects (w_obj w))) in *.
  assert (Ha : (c_objects (w_obj w) ++ [o]) !! a = Some o).
  { rewrite lookup_app_r by (unfold a; lia). unfold a. by rewrite Nat.sub_diag. }
  apply wp_bind. unfold remember at 1. apply wp_modify, wp_bind. unfold when at 1. cbn [negb].
  apply (on_wp _ _ o); [cbn; by rewrite O1|]. 
  eapply wp_mono; [apply (persist_wp _ n)|].
  { done. }
  { cbn. rewrite V1. destruct C as (C1 & _). change (b_id (d_base o)) with (d_id o). by rewrite C1, Hid. }
  { done. }
  cbn. intros r w2 (-> & Hr2 & Hs2 & Eo2 & N2). apply wp_ret. exists a, o.
  destruct C as (C1 & C2). change (b_id (d_base o)) with (d_id o) in *. rewrite C1, Hid in *. cbn. rewrite O1, Eo2. cbn.
  split; [done|]. split; [apply lookup_insert_eq|]. split.
  { rewrite list_lookup_insert_eq; [done|]. by eapply lookup_lt_Some. }
  split; [by split; [congruence|]|]. by split.
Qed.

(** C20. What one process creates another one retrieves, as far as it is
    persisted.  On an undisturbed network, [create] in a configured process
    that does not know the limiter, with valid arguments (among them a window
    that is read back as it is printed) and a version below 2^62 in the
    registry, succeeds, builds an instance with exactly the given limit,
    window, concurrency, age, lease and other settings, persists the first five
    and advances the version; [get] in a configured process that does not know
    the limiter, on the registry [create] left, builds an instance with those
    five values and that version, but with the constructor's defaults for the
    heartbeat failure policy, the jitter and whether it drains, whatever
    [create] was given for these; asking again returns the same object without
    touching Redis. *)
Theorem create_get_roundtrip (id : string) (kw : list (string * json)) (k : dist_config) (n : Z)
    (wa wb : world R (mclass dist)) :
  let wa' := snd (managed_create id true false kw wa) in
  let wb' := snd (managed_get id wb) in
  fresh_process id wa -> config_of_kwargs id kw = inr k -> valid_config k -> literal_ok (k_window k) ->
  registry_ok id n (rview (w_srv wa)) -> n < 2 ^ 62 ->
  fresh_process id wb -> rview (w_srv wb) = rview (w_srv wa') ->
  exists a b o o',
    fst (managed_create id true false kw wa) = inr a /\ c_objects (w_obj wa') !! a = Some o /\
    fst (managed_get id wb) = inr b /\ c_objects (w_obj wb') !! b = Some o' /\
    d_id o = id /\ d_limit o = k_limit k /\ d_window o = k_window k /\ d_max_concurrency o = k_max_concurrency k /\
    d_max_age o = k_max_age k /\ d_lease_duration o = k_lease_duration k /\ settings o = k_settings k /\
    d_id o' = id /\ dist_agree o o' /\ settings o' = default_settings /\
    b_config_version (d_base o) = n + 1 /\ b_config_version (d_base o') = n + 1 /\
    managed_get id wb' = (inr b, wb').
Proof.
  intros wa' wb' Fa Hk Hv Hq Hr Hn Fb Ev.
  destruct (create_wp id kw k n wa Fa Hk Hv Hr Hn) as (a & o & Ra & _ & Oa & C & Hr' & Hs').
  fold wa' in Oa, Hr', Hs'. rewrite <- Ev in Hr', Hs'. pose proof C as (C1 & C2 & C3 & C4 & C5 & C6 & C7 & C8).
  assert (Hid : k_limiter_id k = id).
  { apply (kwargs_id _ _ _ Hk). }
  destruct (get_wp id k o (n + 1) wb Fb Hv Hid C ltac:(by rewrite C3) Hr' ltac:(destruct Hr; lia) Hs')
    as (b & o' & Rb & Ib & Ob & D1 & D2 & D3 & D4). fold wb' in Ib, Ob.
  exists a, b, (with_base (set_version (n + 1)) o), o'. unfold dist_agree, d_id, d_limit, d_window in *. cbn.
  split_and!; try done; try congruence; try apply D2.
  by apply get_cached.
Qed.
End RoundTrip.

(** ** Concrete processes *)

#[local] Existing Instance binary64.
#[local] Existing Instance binary64_laws.
#[local] Existing Instance demo_resources.
#[local] Existing Instance demo_digest.
#[local] Existing Instance demo_backend.

Definition demo_class : mclass dist := MClass true true ∅ [].

(** A process with the class state [c] on the database [r]. *)
Definition demo_process (c : mclass dist) (r : db) (net : list (net db)) : world db (mclass dist) :=
  World r [] net 0 1700000000 [(1 # 2)%Q] ["0123456789abcdef0123456789abcdef"] [] c.

Definition demo_kwargs : list (string * json) :=
  [("limit", JInt 5); ("window", JDec 25 1); ("max_concurrency", JInt 3); ("on_heartbeat_failure", JStr "kill")].

Definition demo_k : dist_config := Eval vm_compute in
  match config_of_kwargs "demo" demo_kwargs with inr k => k | inl _ => DistConfig estr 0 0 0 0 0 estr false 0 0 None false end.

(** A process that created a limiter; the registry it left; the object. *)
Definition demo_creator : world db (mclass dist) :=
  snd (managed_create "demo" true false demo_kwargs (demo_process demo_class demo_empty [])).

Lemma demo_files name : exists source, load_lua_script name resource_packages = inr source.
Proof. unfold load_lua_script. cbn. by eexists. Qed.

Lemma create_get_roundtrip_witness :
  exists a b o o', fst (managed_create "demo" true false demo_kwargs (demo_process demo_class demo_empty [])) = inr a /\
    fst (managed_get "demo" (demo_process demo_class (w_srv demo_creator) [])) = inr b /\
    d_on_failure o = "kill" /\ d_max_age o = 3600 /\ d_limit o' = 5 /\ d_max_age o' = 3600 /\ d_on_failure o' = "warn".
Proof.
  destruct (create_get_roundtrip demo_files "demo" demo_kwargs demo_k 0
    (demo_process demo_class demo_empty []) (demo_process demo_class (w_srv demo_creator) []))
    as (a & b & o & o' & Ha & _ & Hb & _ & _ & L & _ & _ & A & _ & S & _ & (A1 & _ & _ & A2 & _) & S' & _).
  - by split.
  - by vm_compute.
  - by split; vm_compute.
  - split; [by vm_compute|]. eexists. by vm_compute.
  - split; by vm_compute.
  - done.
  - by split.
  - by vm_compute.
  - exists a, b, o, o'. do 2 (split; [done|]). injection S as S _ _ _ _. injection S' as S' _ _ _ _. cbn in *.
    split_and!; congruence.
Defined.

(** The registry a creation left, and the instance another process built. *)
Definition demo_reader : world db (mclass dist) :=
  snd (managed_get "demo" (demo_process demo_class (w_srv demo_creator) [])).

Definition demo_object (w : world db (mclass dist)) : dist := default blank_dist (head (c_objects (w_obj w))).

Definition demo_at (o : dist) (r : db) : world db dist :=
  World r [] [] 0 1700000000 [] [] [] o.

(** An instance whose limit was raised to nine, before it persists. *)
Definition demo_raised : dist := Eval vm_compute in
  w_obj (snd (dist_apply_overrides [("limit", JInt 9)] (demo_at (demo_object demo_creator) (w_srv demo_creator)))).

Lemma update_propagates_witness :
  fst (refresh_config (demo_at (demo_object demo_reader)
         (w_srv (snd (persist_config (demo_at demo_raised (w_srv demo_creator))))))) = inr true.
Proof.
  refine (proj1 (proj2 (update_propagates (M := managed_dist) (demo_at demo_raised (w_srv demo_creator))
    (demo_at (demo_object demo_reader) (w_srv (snd (persist_config (demo_at demo_raised (w_srv demo_creator)))))) 1
    _ _ _ _ _ _ _ _))).
  - reflexivity.
  - split; by vm_compute.
  - by vm_compute.
  - split; [by vm_compute|]. eexists. by vm_compute.
  - by vm_compute.
  - by vm_compute.
  - by vm_compute.
  - by vm_compute.
Defined.

(** What another process does between two round trips: it persists the raised
    limit. *)
Definition demo_update (r : db) : db := w_srv (snd (persist_config (demo_at demo_raised r))).

Definition quiet_net : net db := Net (fun r : db => r) Fine 0.

(** Retrieval with [k] undisturbed round trips before the update. *)
Definition demo_race (k : nat) : exn + nat * world db (mclass dist) :=
  let '(r, w) := managed_get "demo"
    (demo_process demo_class (w_srv demo_creator) (repeat quiet_net k ++ [Net demo_update Fine 0])) in
  match r with inr a => inr (a, w) | inl e => inl e end.

Definition demo_view (r : exn + nat * world db (mclass dist)) : option (Z * Z * bool) :=
  match r with
  | inr (_, w) =>
      let o := demo_object w in
      match fst (refresh_config (demo_at o (w_srv w))) with
      | inr b => Some (d_limit o, b_config_version (d_base o), b)
      | inl _ => None
      end
  | inl _ => None
  end.
(** A retrieval that races an update stays stale.  [get] reads the
    configuration before the version.  Whenever an update of another process
    takes effect at any of the seven round trips in between, the retrieved
    instance carries the old limit under the new version, so that no refresh
    repairs it although the registry holds the new limit; an update before
    the configuration is read is seen. *)
Theorem get_race :
  (forall (w : world db dist) (n : Z),
     w_net w = [] -> registry_ok (d_id (w_obj w)) n (w_srv w) -> n <= b_config_version (d_base (w_obj w)) ->
     fst (refresh_config w) = inr false /\ w_obj (snd (refresh_config w)) = w_obj w) /\
  map (fun k => demo_view (demo_race k)) (seq 0 8) =
    Some (9, 2, false) :: repeat (Some (5, 2, false)) 7 /\
  stored_config "demo" (demo_update (w_srv demo_creator)) = Some (dumps (JObj (build_persist_config demo_raised))) /\
  d_limit demo_raised = 9.
Proof.
  split; [|by vm_compute].
  intros w n Hn [R1 R2 R3 R4] Hle. change (wp refresh_config (fun r w' => r = inr false /\ w_obj w' = w_obj w) w).
  unfold refresh_config. apply wp_bind, wp_self, wp_bind, hget_wp; [done..|]. intros w1 V1 O1 N1.
  change (hash_at version_key _ !! _) with (stored_version (d_id (w_obj w)) (w_srv w)).
  unfold version_at in R3. destruct (stored_version _ _) as [v|]; [|by apply wp_ret].
  apply wp_bind. unfold of_sum at 1. apply wp_of_sum. unfold parse_version. rewrite R3.
  change (base_of (w_obj w)) with (d_base (w_obj w)). rewrite (proj2 (Z.leb_le _ _)) by done. by apply wp_ret.
Qed.

(** An update from a process that has not refreshed writes its old fields
    back: the limit another process raised is lost, for every process. *)
Definition demo_stale : option (Z * Z * Z) :=
  let c := w_obj demo_reader in
  let r := demo_update (w_srv demo_creator) in
  let '(x, w) := managed_update "demo" [("max_concurrency", JInt 7)] (demo_process c r []) in
  match x, parse_raw_config (default estr (stored_config "demo" (w_srv w))) with
  | inr _, inr kw =>
      match kw_int "limit" None kw, kw_int "max_concurrency" None kw with
      | inr l, inr m => Some (l, m, b_config_version (d_base (demo_object w)))
      | _, _ => None
      end
  | _, _ => None
  end.

Lemma stale_update_overwrites : demo_stale = Some (5, 7, 3).
Proof. by vm_compute. Qed.
