(* ===== verification/Rely.v ===== *)
(** * Rely: operations of a limiter under interference

    A method of a limiter makes several round trips, and between any two of
    them the other processes may do anything they do.  [Guarantee] is the
    interface between the scripts and the methods: a property of the server
    that every script a method runs keeps, and that it may rely on others to
    keep.  [triple] is a logic of Python computations over such a property; a
    computation that is [safe] keeps it in every interleaving and with every
    failure. *)

From S2P Require Import Prelude Float Text Json Redis Zset Keyspace Scripts Window State Store Consume Schedule Lease System Py Base Loop Heartbeat Dist Managed Distributed Limiter ManagedDist.

Open Scope Z_scope.
Open Scope rl_scope.

(** ** What is handed to the backend *)

(** The function path, the payload and the identifier of a task. *)
Abbreviation order := (json * json * json)%type.

(** What a drain hands over for an admitted document. *)
Definition order_of_json (t : json) : option order :=
  match json_item "func_path" t, json_item "payload" t, json_get "id" t with
  | inr f, inr p, inr i => Some (f, p, i)
  | _, _, _ => None
  end.

Definition order_of (raw : string) : option order := loads raw ≫= order_of_json.

(** The orders an outcome of consume.lua is good for. *)
Definition earned (o : string + consume_reply) : list order :=
  match o with inr rep => option_list (cr_task rep ≫= order_of) | inl _ => [] end.

(** The orders handed over in a trace. *)
Definition dispatches (tr : list event) : list order :=
  omap (fun e => match e with EDispatch f p t => Some (f, p, t) | _ => None end) tr.

(** ** The interface *)

(** The configuration as the registry holds it. *)
Definition config_fields {F : Rounding} (c : cfg) : list (string * json) :=
  [("limit", JInt (c_limit c)); ("window", float_json (c_window c));
   ("max_concurrency", JInt (c_conc c)); ("max_age", JInt (c_age c)); ("lease_duration", JInt (c_lease c))].

Section Interface.
Context {F : Rounding} {R : Type} {RS : RedisServer R} {SP : RedisSpec R}.
Context (base : string) (c : cfg) (workers : string -> Prop).

(** A limiter object of the fleet: its identifier, its configuration and a
    worker identifier. *)
Record member (d : dist) : Prop := {
  mb_id : d_id d = base;
  mb_limit : d_limit d = c_limit c;
  mb_window : d_window d = c_window c;
  mb_conc : d_max_concurrency d = c_conc c;
  mb_age : d_max_age d = c_age c;
  mb_lease : d_lease_duration d = c_lease c;
  mb_worker : workers (d_worker_id d);
}.

(** A property of the server and of the orders still to be accounted for that
    every script of the fleet keeps. *)
Class Guarantee (G : list order -> R -> Prop) := {
  gu_sub : forall ks ks' r, G ks r -> ks' ⊆+ ks -> G ks' r;
  gu_view : forall ks r r', G ks r -> rview r' = rview r -> G ks r';
  gu_schedule : forall ks r id path payload priority ov,
    G ks r -> schedulable path payload ov ->
    let fields := task_fields id path payload (inflight_k base id) in
    G ks (snd (run (schedule_lua (buffer_k base) (dumps (JObj fields)) priority ov) r));
  gu_consume : forall ks r w,
    G ks r -> workers w -> G (earned (fst (run_consume base c w r)) ++ ks) (snd (run_consume base c w r));
  gu_renew : forall ks r id lease,
    G ks r -> 0 <= lease < 10 ^ 15 -> G ks (snd (run (renew_lua (conc_k base) id lease) r));
  gu_release : forall ks r ch id w,
    G ks r -> G ks (snd (run (release_lua (conc_k base) (inflight_k base id) ch id w) r));
  gu_dedup : forall {B} ks r (k : rcmd B) id,
    G ks r -> cmd_key k = Some (inflight_k base id) -> G ks (snd (run (call k) r));
  gu_wake : forall ks r id, G ks r -> G ks (snd (run (call (LPOP (signal_k base id))) r));
  gu_publish : forall ks r ch m, G ks r -> G ks (snd (run (call (PUBLISH ch m)) r));
  gu_config : forall ks r raw,
    G ks r -> stored_config base (rview r) = Some raw -> raw = dumps (JObj (config_fields c));
}.

Context (G : list order -> R -> Prop) {GU : Guarantee G}.

(** Programs that only read. *)
Lemma gu_reads {A} ks r (p : prog A) :
  G ks r -> (forall d, snd (drun rcjson p d) = d) -> G ks (snd (run p r)).
Proof. intros HG Hp. eapply gu_view; [exact HG|]. by rewrite (proj2 (run_view _ _)). Qed.

(** ** The logic *)

Section Logic.
Context {O : Type} {D : IsDist O}.

Record good (ks : list order) (w : world R O) : Prop := {
  go_srv : G (ks ++ dispatches (w_trace w)) (w_srv w);
  go_env : forall n, n ∈ w_net w -> forall js r, G js r -> G js (n_env n r);
  go_member : member (dist_of (w_obj w));
}.

(** From the credit [x] the computation keeps the property; its outcome
    determines the credit that is left. *)
Definition triple {A} (x : list order) (m : py R O A) (y : exn + A -> list order) : Prop :=
  forall ks w, good (x ++ ks) w -> good (y (fst (m w)) ++ ks) (snd (m w)).

Definition safe {A} (m : py R O A) : Prop := triple [] m (fun _ => []).

Lemma good_sub ks ks' w : good ks w -> ks' ⊆+ ks -> good ks' w.
Proof.
  intros [H1 H2 H3] Hs. split; [|done..]. eapply gu_sub; [exact H1|]. by apply submseteq_app.
Qed.

Lemma triple_bind {A T} x (m : py R O A) y (f : A -> py R O T) z :
  triple x m y -> (forall e, z (inl e) ⊆+ y (inl e)) -> (forall a, triple (y (inr a)) (f a) z) ->
  triple x (m ≫= f) z.
Proof.
  intros Hm Hz Hf ks w Hw. specialize (Hm ks w Hw). rewrite bind_eq.
  destruct (m w) as [[e|a] w']; cbn [fst snd] in *; [|by apply Hf].
  eapply good_sub; [exact Hm|]. by apply submseteq_app.
Qed.

Lemma safe_bind {A T} (m : py R O A) (f : A -> py R O T) : safe m -> (forall a, safe (f a)) -> safe (m ≫= f).
Proof. intros Hm Hf. eapply triple_bind; [exact Hm|done|exact Hf]. Qed.

Lemma safe_then {A T} x (m : py R O A) (f : A -> py R O T) :
  triple x m (fun _ => []) -> (forall a, safe (f a)) -> triple x (m ≫= f) (fun _ => []).
Proof. intros Hm Hf. eapply triple_bind; [exact Hm|done|exact Hf]. Qed.

(** Credit may be lost. *)
Lemma triple_spend {A} x (m : py R O A) : safe m -> triple x m (fun _ => []).
Proof. intros Hm ks w Hw. apply (Hm ks). eapply good_sub; [exact Hw|]. by apply submseteq_inserts_l. Qed.

Lemma safe_catch {A} p (m : py R O A) h : safe m -> (forall e, safe (h e)) -> safe (catch p m h).
Proof.
  intros Hm Hh ks w Hw. specialize (Hm ks w Hw). unfold catch.
  destruct (m w) as [[e|a] w']; [|done]. destruct (p e); [by apply Hh|done].
Qed.

Lemma safe_finally {A} (m : py R O A) f : safe m -> safe f -> safe (finally m f).
Proof.
  intros Hm Hf ks w Hw. specialize (Hm ks w Hw). unfold finally. destruct (m w) as [r w1].
  specialize (Hf ks w1 Hm). by destruct (f w1) as [[e|u] w2].
Qed.

Lemma safe_ret {A} (a : A) : safe (mret a). Proof. by intros ks w. Qed.
Lemma safe_skip : safe skip. Proof. by intros ks w. Qed.
Lemma safe_raise {A} e : safe (A := A) (raise e). Proof. by intros ks w. Qed.
Lemma safe_of_sum {A} (x : exn + A) : safe (of_sum x). Proof. by intros ks w. Qed.
Lemma safe_monotonic : safe monotonic. Proof. by intros ks w. Qed.
Lemma safe_wall : safe wall_time. Proof. by intros ks w. Qed.
Lemma safe_random : safe random. Proof. intros ks w []. by split. Qed.
Lemma safe_uuid : safe uuid4. Proof. intros ks w []. by split. Qed.
Lemma safe_when b m : safe m -> safe (when b m). Proof. destruct b; [done|]. intros _. apply safe_skip. Qed.

(** An event, paid for when it hands over an order. *)
Lemma triple_emit e : triple (dispatches [e]) (emit e) (fun _ => []).
Proof.
  intros ks w [H1 H2 H3]. split; [|done..]. eapply gu_sub; [exact H1|]. cbn [w_trace emit snd].
  apply Permutation_submseteq. unfold dispatches. rewrite omap_app. cbn [omap list_omap]. solve_Permutation.
Qed.

Lemma safe_emit e : dispatches [e] = [] -> safe (emit e).
Proof. intros E. pose proof (triple_emit e) as H. by rewrite E in H. Qed.

(** Attributes outside the configuration change. *)
Lemma safe_modify f : (forall d, member d -> member (f d)) -> safe (modify (with_dist f)).
Proof. intros Hf ks w [H1 H2 H3]. split; [done..|]. cbn. rewrite dist_of_with. auto. Qed.

Lemma safe_obj f : (forall o, member (dist_of o) -> member (dist_of (f o))) -> safe (modify f).
Proof. intros Hf ks w [H1 H2 H3]. split; [done..|]. cbn. auto. Qed.

(** Reading attributes. *)
Lemma triple_me {A} x (f : dist -> py R O A) z : (forall d, member d -> triple x (f d) z) -> triple x (me ≫= f) z.
Proof. intros Hf ks w Hw. unfold me. rewrite bind_assoc, bind_eq. cbn [self]. apply Hf; [|done]. apply Hw. Qed.

Lemma safe_self {A} (f : O -> py R O A) : (forall o, member (dist_of o) -> safe (f o)) -> safe (self ≫= f).
Proof. intros Hf ks w Hw. rewrite bind_eq. cbn [self]. apply Hf; [|done]. apply Hw. Qed.

Lemma safe_get {A} (f : O -> py R O A) : (forall o, safe (f o)) -> safe (self ≫= f).
Proof. intros Hf. apply safe_self. auto. Qed.

(** ** Round trips *)

Context {P : Resources} {Dg : Digest}.

(** The credit of an outcome. *)
Definition credit {A} (e : A -> list order) (o : exn + A) : list order :=
  match o with inr a => e a | inl _ => [] end.

(** A script that keeps the property. *)
Definition keeps_srv {A} (p : prog A) (e : A -> list order) : Prop := forall ks r,
  G ks r -> G (match fst (run p r) with inr a => e a | inl _ => [] end ++ ks) (snd (run p r)).

Lemma good_arrive ks (w : world R O) : good ks w -> good ks (snd (arrive w)).
Proof.
  intros Hw. pose proof Hw as [H1 H2 H3]. unfold arrive.
  destruct (w_net w) as [|n ns] eqn:En; [exact Hw|].
  split; cbn; [apply H2; [by left|done]| |done]. intros n' Hn. apply H2. by right.
Qed.

Lemma good_ran {A} (p : prog A) e f ks (w : world R O) :
  keeps_srv p e -> good ks w ->
  good (credit e (answer f (fst (run p (w_srv w)))) ++ ks) (set_srv (snd (run p (w_srv w))) w).
Proof.
  intros Hp [H1 H2 H3]. specialize (Hp _ _ H1). split; [|done..]. cbn [w_srv w_trace set_srv].
  eapply gu_sub; [exact Hp|]. rewrite app_assoc. apply submseteq_app; [|done].
  apply submseteq_app; [|done].
  destruct (fst (run p (w_srv w))) as [m|a]; destruct f; cbn; done || apply submseteq_nil_l.
Qed.

Lemma triple_trip {A} (p : prog A) e : keeps_srv p e -> triple [] (trip p : py R O A) (credit e).
Proof.
  intros Hp ks w Hw. apply good_arrive in Hw. unfold trip. destruct (arrive w) as [f w1]. cbn [snd app] in Hw.
  pose proof (good_ran p e f ks w1 Hp Hw) as Hr.
  destruct f; [|exact Hw|..]; destruct (run p (w_srv w1)) as [o r]; exact Hr.
Qed.

Lemma triple_evalsha {A} sha (p : prog A) e : keeps_srv p e -> triple [] (evalsha sha p : py R O A) (credit e).
Proof.
  intros Hp ks w Hw. apply good_arrive in Hw. unfold evalsha. destruct (arrive w) as [f w1]. cbn [snd app] in Hw.
  pose proof (good_ran p e f ks w1 Hp Hw) as Hr.
  destruct f; [|exact Hw|..]; (case_bool_decide; [destruct (run p (w_srv w1)) as [o r]; exact Hr|exact Hw]).
Qed.

Lemma safe_load sha : safe (script_load sha : py R O string).
Proof.
  intros ks w Hw. apply good_arrive in Hw. unfold script_load. destruct (arrive w) as [f w1].
  destruct Hw as [H1 H2 H3]. by destruct f.
Qed.

(** A script or a command that keeps the property. *)
Lemma safe_trip {A} (p : prog A) :
  (forall ks r, G ks r -> G ks (snd (run p r))) -> safe (trip p : py R O A).
Proof.
  intros Hk ks w Hw. refine (_ (triple_trip p (fun _ => []) _ ks w Hw)).
  - intros Hg. eapply good_sub; [exact Hg|]. by apply submseteq_inserts_l.
  - intros js r Hr. specialize (Hk js r Hr). by destruct (fst (run p r)).
Qed.

Lemma safe_command {A} (k : rcmd A) :
  (forall ks r, G ks r -> G ks (snd (run (call k) r))) -> safe (command k : py R O A).
Proof. apply safe_trip. Qed.

Lemma safe_read {A} (k : rcmd A) : (forall d, snd (db_exec rcjson k d) = d) -> safe (command k : py R O A).
Proof. intros Hk. apply safe_command. intros ks r Hr. apply gu_reads; [done|]. intros d. by rewrite snd_drun_call. Qed.

Lemma safe_with_base f :
  (forall d, member d -> member (with_dbase f d)) -> safe (modify (with_base f) : py R O unit).
Proof. apply safe_modify. Qed.

Lemma safe_register name : safe (register_script name : py R O string).
Proof.
  unfold register_script. apply safe_get. intros o. apply safe_bind.
  - destruct (b_script_sources _ !! name); [apply safe_ret|]. apply safe_bind; [apply safe_of_sum|]. intros s.
    apply safe_bind; [apply safe_with_base; by intros d []|]. intros _. apply safe_ret.
  - intros s. apply safe_bind; [apply safe_load|]. intros sha.
    apply safe_bind; [apply safe_with_base; by intros d []|]. intros _. apply safe_ret.
Qed.

Lemma safe_cached name : safe (cached_sha name : py R O string).
Proof.
  unfold cached_sha. apply safe_get. intros o. destruct (b_script_shas _ !! name); [apply safe_ret|apply safe_raise].
Qed.

Lemma credit_inl {A} (e : A -> list order) x o : credit e (inl x) ⊆+ o.
Proof. apply submseteq_nil_l. Qed.

Lemma triple_catch {A} p (m : py R O A) h e :
  triple [] m (credit e) -> (forall x, triple [] (h x) (credit e)) -> triple [] (catch p m h) (credit e).
Proof.
  intros Hm Hh ks w Hw. specialize (Hm ks w Hw). unfold catch.
  destruct (m w) as [[x|a] w']; [|done]. destruct (p x); [by apply Hh|done].
Qed.

Lemma triple_after {A T} (m : py R O A) (f : A -> py R O T) e :
  safe m -> (forall a, triple [] (f a) (credit e)) -> triple [] (m ≫= f) (credit e).
Proof. intros Hm Hf. eapply triple_bind; [exact Hm|by intros|exact Hf]. Qed.

Lemma triple_raise {A} (e : A -> list order) x : triple [] (raise x : py R O A) (credit e).
Proof. by intros ks w. Qed.

(** Evaluating a script runs it, perhaps after a reload. *)
Lemma triple_eval {A} name (p : prog A) e : keeps_srv p e -> triple [] (eval_script name p : py R O A) (credit e).
Proof.
  intros Hp. unfold eval_script. apply triple_after; [by intros ks w|]. intros o.
  apply triple_after; [destruct (b_script_shas _ !! name); [apply safe_ret|apply safe_register]|]. intros _.
  apply triple_after; [apply safe_cached|]. intros sha. apply triple_catch; [by apply triple_evalsha|]. intros _.
  apply triple_after; [apply safe_register|]. intros _. apply triple_after; [apply safe_cached|]. intros sha'.
  apply triple_catch; [by apply triple_evalsha|]. intros _. apply triple_raise.
Qed.

Lemma safe_eval {A} name (p : prog A) :
  (forall ks r, G ks r -> G ks (snd (run p r))) -> safe (eval_script name p : py R O A).
Proof.
  intros Hp ks w Hw. refine (_ (triple_eval name p (fun _ => []) _ ks w Hw)).
  - intros Hg. eapply good_sub; [exact Hg|]. apply submseteq_inserts_l. done.
  - intros js r Hr. specialize (Hp js r Hr). by destruct (fst (run p r)).
Qed.
End Logic.
End Interface.

(** One step of a proof of [safe]; the interface is found by its class. *)
Ltac by_class := try (lazymatch goal with |- Guarantee _ _ _ _ => typeclasses eauto end).
Ltac sbind := apply safe_bind; by_class.
Ltac sme := let d := fresh "d" in let Hd := fresh "Hd" in apply triple_me; intros d Hd.
Ltac scatch := apply safe_catch; by_class.
Ltac swith := apply safe_modify; by intros ? [].
