(* ===== verification/Worker.v ===== *)
(** * Worker: task queue backends and their workers

    The decorator [rate_limited] (core/decorators.py), the generic workers and
    the Celery, RQ, Huey and Dramatiq backends.  A drain hands a
    task to the queue as a message; a worker process takes the message, finds
    the limiter in its registry and runs the function inside the lifecycle of
    the task.  Theorems: what is scheduled is what a worker runs, under the
    same task identifier; and the inline [acquire] of these backends breaks
    the script that serves it. *)

From S2P Require Import Prelude Float Text Json Redis Keyspace Scripts Window State Store Consume Schedule Lease System Py Base Importing Loop Heartbeat Dist Managed Distributed Limiter ManagedDist.

Open Scope Z_scope.
Open Scope rl_scope.

(** ** What the queue libraries and the application provide *)

(** [app.send_task], [queue.enqueue], [actor.send], the call of a Huey task. *)
Class Queue (R : Type) := send_message : json -> py R dist unit.

(** The call of an application function in a worker; the call of a custom Huey
    task and the [send] of a custom Dramatiq actor in a drain. *)
Class Application (R : Type) := {
  call_target : pyobj -> list json -> list (string * json) -> py R (mclass dist) json;
  call_inline : pyobj -> list json -> list (string * json) -> py R dist unit;
  actor_send : pyobj -> list json -> list (string * json) -> py R dist unit;
}.

(** A message names a task and carries its arguments. *)
Definition task_message (name : json) (args : list json) (kwargs : list (string * json)) : json :=
  JObj [("task", name); ("args", JArr args); ("kwargs", JObj kwargs)].

(** What the queue hands a worker. *)
Definition read_message (m : json) : option (json * list json * list (string * json)) :=
  match m with
  | JObj l =>
      match assoc_last "task" l, assoc_last "args" l, assoc_last "kwargs" l with
      | Some name, Some (JArr args), Some (JObj kwargs) => Some (name, args, kwargs)
      | _, _, _ => None
      end
  | _ => None
  end.

(** ** Python dictionaries *)

(** [d.get(k, v)] *)
Definition get_or (k : string) (v : json) (d : json) : exn + json :=
  match d with
  | JObj l => inr (default v (assoc_last k l))
  | _ => inl (AttributeError "get")
  end.

(** [d.pop(k)]: what is left. *)
Definition without (k : string) (l : list (string * json)) : list (string * json) :=
  List.filter (fun kv => negb (String.eqb k kv.1)) l.

Section Worker.
Context {F : Rounding} {R : Type} {RS : RedisServer R} {P : Resources} {G : Digest} {B : Backend R dist}.
Context {M : Modules} {MQ : Queue R} {App : Application R}.

Abbreviation cls := (py R (mclass dist)).
Abbreviation io := (py R dist).

(** ** [rate_limited] *)

(** A lookup of a limiter by what a message says. *)
Definition get_limiter (limiter_id : json) : cls nat :=
  match limiter_id with
  | JStr s => managed_get s
  | _ => raise (ValueError "Limiter not found in local cache or Redis.")
  end.

(** [_get_default_limiter]: the registry of the thread pool class. *)
Definition get_default_limiter : json -> cls nat := get_limiter.

(** [limiter_id or kwargs.get("limiter_id")] *)
Definition chosen_limiter (limiter_id : option string) (kwargs : list (string * json)) : option json :=
  match limiter_id with
  | Some s => if String.eqb s estr then dict_get "limiter_id" kwargs else Some (JStr s)
  | None => dict_get "limiter_id" kwargs
  end.

(** Task identifiers are strings. *)
Definition as_text (v : json) : exn + string :=
  match v with JStr s => inr s | _ => inl (TypeError "task_id") end.

(** [with limiter.task_lifecycle(task_id): body], the limiter at [a]. *)
Definition inside_lifecycle {T} (a : nat) (task_id : string) (body : cls T) : cls T :=
  t ← on a (task_lifecycle task_id None);
  t' ← on a (lifecycle_enter t);
  finally body (on a (lifecycle_exit t')).

Definition rate_limited {T} (limiter_id : option string) (getter : option (json -> cls nat))
    (func : list json -> list (string * json) -> cls T) (args : list json) (kwargs : list (string * json)) : cls T :=
  match chosen_limiter limiter_id kwargs with
  | None => raise (ValueError "Missing limiter id.")
  | Some id =>
      a ← default get_default_limiter getter id;
      match assoc_last "_rate_limit_task_id" kwargs with
      | None => raise (KeyError "_rate_limit_task_id")
      | Some v =>
          task_id ← of_sum (as_text v);
          inside_lifecycle a task_id (func args (without "_rate_limit_task_id" kwargs))
      end
  end.

(** ** Generic workers *)

(** [generic_rate_limited_worker(limiter_id, func_path, payload)], called with
    keywords. *)
Definition worker_body (args : list json) (kwargs : list (string * json)) : cls json :=
  match args, assoc_last "limiter_id" kwargs, assoc_last "func_path" kwargs, assoc_last "payload" kwargs with
  | [], Some _, Some func_path, Some payload =>
      if forallb (fun kv => existsb (String.eqb kv.1) ["limiter_id"; "func_path"; "payload"]) kwargs then
        path ← of_sum (match func_path with JStr s => inr s | _ => inl (AttributeError "rsplit") end);
        target_func ← of_sum (import_string path);
        match payload with
        | JObj kw => call_target target_func [] kw
        | _ => raise (TypeError "argument after ** must be a mapping")
        end
      else raise (TypeError "unexpected keyword argument")
  | _, _, _, _ => raise (TypeError "arguments")
  end.

Definition celery_worker : list json -> list (string * json) -> cls json :=
  rate_limited None (Some get_limiter) worker_body.
Definition rq_worker : list json -> list (string * json) -> cls json :=
  rate_limited None (Some get_limiter) worker_body.
Definition dramatiq_worker : list json -> list (string * json) -> cls json :=
  rate_limited None (Some get_limiter) worker_body.
Definition huey_worker : list json -> list (string * json) -> cls json :=
  rate_limited None (Some get_limiter) worker_body.

(** [register_worker]: the Huey instance the worker is registered with. *)
Definition register_worker (registered : option nat) (huey : nat) : option nat * list string :=
  match registered with
  | Some h => if Nat.eqb h huey then (Some h, []) else (Some huey, ["unregister"; "register"])
  | None => (Some huey, ["register"])
  end.

(** ** Scheduling and dispatch *)

(** [schedule_task] of the queue backends. *)
Definition celery_schedule (func_path : string) (payload : list (string * json)) (priority : pyfloat)
    (max_age : option Z) (use_executor : bool) : io (bool * string) :=
  schedule_task func_path (build_enhanced_payload payload use_executor) priority max_age.
Definition rq_schedule (func_path : string) (payload : list (string * json)) (priority : pyfloat)
    (max_age : option Z) (use_executor : bool) : io (bool * string) :=
  schedule_task func_path (build_enhanced_payload payload use_executor) priority max_age.
Definition huey_schedule (func_path : string) (payload : list (string * json)) (priority : pyfloat)
    (max_age : option Z) (use_executor : bool) : io (bool * string) :=
  schedule_task func_path (build_enhanced_payload payload use_executor) priority max_age.
Definition dramatiq_schedule (func_path : string) (payload : list (string * json)) (priority : pyfloat)
    (max_age : option Z) (use_executor : bool) : io (bool * string) :=
  schedule_task func_path (build_enhanced_payload payload use_executor) priority max_age.

(** The inherited [acquire] calls the overriding [schedule_task]. *)
Definition queue_acquire : Q -> pyfloat -> io lifecycle :=
  acquire_with (fun func_path payload priority max_age => celery_schedule func_path payload priority max_age true).

(** [payload.get("meta", {}).get("use_executor", True), payload.get("data", {})] *)
Definition unpack (payload : json) : exn + bool * json :=
  meta ← get_or "meta" (JObj []) payload;
  use_executor ← get_or "use_executor" (JBool true) meta;
  data ← get_or "data" (JObj []) payload;
  inr (truthy use_executor, data).

Definition worker_kwargs (limiter_id : string) (func_path data task_id : json) : list (string * json) :=
  [("limiter_id", JStr limiter_id); ("func_path", func_path); ("payload", data); ("_rate_limit_task_id", task_id)].

(** [CeleryRateLimiter._dispatch_task] *)
Definition celery_dispatch (func_path payload task_id : json) : io unit :=
  d ← me;
  u ← of_sum (unpack payload);
  let '(use_executor, data) := u in
  if use_executor : bool then
    send_message (task_message (JStr "redis_rate_limiter.generic_worker") [] (worker_kwargs (d_id d) func_path data task_id))
  else send_message (task_message func_path [data] [("_rate_limit_task_id", task_id)]).

(** [RQRateLimiter._dispatch_task]: a function is enqueued by its path. *)
Definition rq_dispatch (func_path payload task_id : json) : io unit :=
  d ← me;
  u ← of_sum (unpack payload);
  let '(use_executor, data) := u in
  if use_executor : bool then
    send_message (task_message (JStr "redis_rate_limiter.backends.rq.tasks.worker.generic_rate_limited_worker") []
                    (worker_kwargs (d_id d) func_path data task_id))
  else send_message (task_message func_path [data] [("_rate_limit_task_id", task_id)]).

Definition import_json (func_path : json) : io pyobj :=
  of_sum (match func_path with JStr s => import_string s | _ => inl (AttributeError "rsplit") end).

(** [HueyRateLimiter._dispatch_task]: a custom task is called, which enqueues
    it if it is a Huey task. *)
Definition huey_dispatch (func_path payload task_id : json) : io unit :=
  d ← me;
  u ← of_sum (unpack payload);
  let '(use_executor, data) := u in
  if use_executor : bool then
    send_message (task_message (JStr "rl_generic_worker") [] (worker_kwargs (d_id d) func_path data task_id))
  else
    task_func ← import_json func_path;
    call_inline task_func [data] [("_rate_limit_task_id", task_id)].

(** [DramatiqRateLimiter._dispatch_task] *)
Definition dramatiq_dispatch (func_path payload task_id : json) : io unit :=
  d ← me;
  u ← of_sum (unpack payload);
  let '(use_executor, data) := u in
  if use_executor : bool then
    send_message (task_message (JStr "generic_rate_limited_worker") [] (worker_kwargs (d_id d) func_path data task_id))
  else
    task_actor ← import_json func_path;
    actor_send task_actor [data] [("_rate_limit_task_id", task_id)].

(** [CeleryRateLimiter._check_backend_health]; [ping] answers with the number
    of workers. *)
Definition celery_health (ping : io Z) : io bool :=
  catch is_exception (n ← ping; mret (0 <? n)) (fun _ => mret false).

(** [RQRateLimiter._check_backend_health]: the queues of every worker. *)
Definition rq_health (queue_name : string) (workers : io (list (list string))) : io bool :=
  ws ← workers;
  mret (existsb (fun names => existsb (String.eqb queue_name) names) ws).

(** The four classes; capacity is that of the workers, not of this process. *)
Definition celery_backend (ping : io Z) : Backend R dist := {|
  has_local_capacity := mret true;
  dispatch_task := celery_dispatch;
  check_backend_health := Some (celery_health ping);
  refresh_hook := Some (_ ← refresh_config; skip);
|}.
Definition rq_backend (queue_name : string) (workers : io (list (list string))) : Backend R dist := {|
  has_local_capacity := mret true;
  dispatch_task := rq_dispatch;
  check_backend_health := Some (rq_health queue_name workers);
  refresh_hook := Some (_ ← refresh_config; skip);
|}.
Definition huey_backend : Backend R dist := {|
  has_local_capacity := mret true;
  dispatch_task := huey_dispatch;
  check_backend_health := None;
  refresh_hook := Some (_ ← refresh_config; skip);
|}.
Definition dramatiq_backend : Backend R dist := {|
  has_local_capacity := mret true;
  dispatch_task := dramatiq_dispatch;
  check_backend_health := None;
  refresh_hook := Some (_ ← refresh_config; skip);
|}.

(** [_configure_backend]: the context keyword of a backend is required. *)
Definition configure_backend (context_given : bool) : cls unit :=
  if context_given then set_context true
  else raise (RuntimeError "configure() requires the context of the backend").
End Worker.

(** ** Theorems *)

Section Laws.
Context {F : Rounding} {R : Type} {RS : RedisServer R} {P : Resources} {G : Digest} {B : Backend R dist}.
Context {M : Modules} {MQ : Queue R} {App : Application R}.

(** The run of one task in a worker. *)
Definition run_task (limiter_id func_path task_id : string) (payload : list (string * json)) : py R (mclass dist) json :=
  a ← get_limiter (JStr limiter_id);
  inside_lifecycle a task_id (f ← of_sum (import_string func_path); call_target f [] payload).

(** Whatever the body does, the lifecycle ends its heartbeats. *)
Lemma inside_lifecycle_clean {T} a task_id (body : py R (mclass dist) T) (w : world R (mclass dist)) :
  wp (inside_lifecycle a task_id body) (fun _ w' => is_Some (c_objects (w_obj w) !! a) -> forall o,
    c_objects (w_obj w') !! a = Some o -> hs_entries (d_heartbeats o) !! task_id = None) w.
Proof.
  unfold inside_lifecycle. apply wp_bind.
  destruct (c_objects (w_obj w) !! a) as [o|] eqn:E.
  2: { unfold wp, on. rewrite E. cbn. by intros []. }
  apply (on_wp _ _ o); [exact E|]. unfold task_lifecycle. apply wp_bind, me_wp, wp_ret.
  set (c1 := MClass _ _ _ _). set (w1 := with_object c1 _). set (act := lower _).
  apply wp_bind. eapply (on_wp _ _ o).
  { cbn. apply list_lookup_insert_eq. by eapply lookup_lt_Some. }
  unfold lifecycle_enter. apply wp_bind, wp_monotonic, wp_bind, wp_modify, wp_ret, wp_finally.
  eapply wp_mono; [apply wp_true|]. intros r w2 _.
  destruct (c_objects (w_obj w2) !! a) as [o2|] eqn:E2.
  2: { unfold wp, on. rewrite E2. cbn. rewrite E2. done. }
  apply (on_wp _ _ o2); [exact E2|]. eapply wp_mono; [apply (exit_deregisters (O := dist))|].
  intros r3 w3 [H3 _]. cbn in H3 |- *.
  assert (Hend : forall o', <[a:=w_obj w3]> (c_objects (w_obj w2)) !! a = Some o' -> hs_entries (d_heartbeats o') !! task_id = None).
  { intros o'. rewrite list_lookup_insert_eq by (by eapply lookup_lt_Some). by intros [= <-]. }
  destruct r3; intros _; exact Hend.
Qed.

(** C18. What is scheduled is what a worker runs.  For each of the four queue
    backends: dispatching a task to the generic worker sends one message; the
    worker that receives it runs the function of the scheduled import path with
    the scheduled payload, nothing added or left out, inside the lifecycle of
    the same task on the limiter of the same identifier; and whatever the
    function does, no heartbeat of the task remains. *)
Theorem queue_roundtrip (func_path task_id : string) (payload : list (string * json)) :
  let enhanced := JObj (build_enhanced_payload payload true) in
  Forall (fun '(dispatch, worker) =>
    forall w : world R dist, exists name args kwargs,
      dispatch (JStr func_path) enhanced (JStr task_id) w = send_message (task_message name args kwargs) w /\
      read_message (task_message name args kwargs) = Some (name, args, kwargs) /\
      forall w' : world R (mclass dist),
        worker args kwargs w' = run_task (d_id (w_obj w)) func_path task_id payload w')
    [(celery_dispatch, celery_worker); (rq_dispatch, rq_worker);
     (huey_dispatch, huey_worker); (dramatiq_dispatch, dramatiq_worker)] /\
  (forall T a (body : py R (mclass dist) T) (w : world R (mclass dist)) o,
     is_Some (c_objects (w_obj w) !! a) ->
     c_objects (w_obj (snd (inside_lifecycle a task_id body w))) !! a = Some o ->
     hs_entries (d_heartbeats o) !! task_id = None).
Proof.
  intros enhanced. split.
  - repeat apply Forall_cons_2; try apply Forall_nil_2;
      (intros w; do 3 eexists; split; [reflexivity|]; split; [reflexivity|]; reflexivity).
  - intros T a body w o Ha Ho. by apply (inside_lifecycle_clean a task_id body w Ha).
Qed.
End Laws.

(** ** Inline acquisition on a queue backend *)

#[local] Existing Instance binary64.
#[local] Existing Instance demo_resources.
#[local] Existing Instance demo_digest.

Definition demo_queue : Queue db := fun m => emit (ESend m).
Definition demo_modules : Modules := fun _ => inl (ImportError "no modules").
Definition demo_application : Application db :=
  {| call_target := fun _ _ _ => mret JNull; call_inline := fun _ _ _ => skip;
     actor_send := fun _ _ _ => skip |}.
#[local] Existing Instance demo_queue.
#[local] Existing Instance demo_modules.
#[local] Existing Instance demo_application.

(** The four backends, each with its [schedule_task] for the generic worker. *)
Definition queue_backends :
    list ((string -> list (string * json) -> pyfloat -> option Z -> py db dist (bool * string)) * Backend db dist) :=
  [(fun f p prio age => celery_schedule f p prio age true, celery_backend (B := demo_backend) (mret 1));
   (fun f p prio age => rq_schedule f p prio age true, rq_backend (B := demo_backend) "default" (mret [["default"]]));
   (fun f p prio age => huey_schedule f p prio age true, huey_backend (B := demo_backend));
   (fun f p prio age => dramatiq_schedule f p prio age true, dramatiq_backend (B := demo_backend))].

(** The marker of an [acquire] with a timeout of five seconds: the argument of
    [schedule_task]. *)
Definition demo_marker (schedule : string -> list (string * json) -> pyfloat -> option Z -> py db dist (bool * string)) :
    exn + (bool * string) * world db dist :=
  match schedule marker_path [("_uuid", JStr "u"); ("_acquire_timeout_ms", JInt 5000)] (Finite 0) (Some 60)
          (demo_world 0 demo_empty []) with
  | (inr r, w) => inr (r, w)
  | (inl e, _) => inl e
  end.

(** What a drain left. *)
Record aftermath := Aftermath {
  am_raised : bool;                 (* out of [drain] *)
  am_failures : Z;
  am_recovery : bool;               (* a drain is pending within a fifth of a second *)
  am_tokens : Z;                    (* spent in the current window *)
  am_leases : nat;
  am_buffered : nat;
  am_signal : option bool;          (* the signal of the caller: whether it expires *)
}.

(** A drain [seconds] later by the backend [B]. *)
Definition after_drain (B : Backend db dist) (seconds : Z) (m : exn + (bool * string) * world db dist) : option aftermath :=
  match m with
  | inl _ => None
  | inr ((_, id), w) =>
      let '(r, w') := drain (B := B)
        (World (Db (db_us (w_srv w) + seconds * 1000000) (db_keys (w_srv w)) (db_pub (w_srv w)))
           (w_cache w) [] (w_mono w + seconds)%Q (w_wall w + seconds)%Q (w_rand w) (w_uuid w) (w_trace w)
           (with_loop (Some (loop_init 5)) (w_obj w))) in
      let s := abs "demo" (w_srv w') in
      Some (Aftermath (match r with inl _ => true | inr _ => false end) (d_drain_failures (w_obj w'))
        (match d_drain_loop (w_obj w') ≫= l_next_wake with Some t => Qle_bool (t - w_mono w') (1 # 5) | None => false end)
        (s_count s (wstart (db_ms (w_srv w')) 2000)) (length (s_leases s)) (length (s_buffer s))
        ((fun e => bool_decide (is_Some (e_exp e))) <$> key_entry (signal_k "demo" id) (w_srv w')))
  end.

(** The admission of a wrapped marker, step by step. *)
Section Wrapped.
Context {F : Rounding} {FL : RoundingLaws F} (cj : string -> option json) (base : string) (W : Z).

Lemma wrapped_admission d doc id p b (cur window_ms ts : Q) (sec lease : Z) worker :
  let n := wstart (db_ms d) W in
  wt base W d -> clock_ok d -> 0 < W < 10 ^ 13 ->
  (cur == count_at (count_k base n) d)%Q -> count_at (count_k base n) d < 2 ^ 50 ->
  (window_ms == W)%Q -> (ts == sec)%Q -> 0 <= sec < 10 ^ 12 -> 0 <= lease < 10 ^ 15 ->
  jfield_str "id" doc = Some id -> is_marker doc = true ->
  jfield "payload" doc = Some (JObj (build_enhanced_payload p b)) ->
  exists e d',
    drun cj (admit_task base (conc_k base) (count_k base n) cur window_ms ts lease worker doc) d = (inl e, d') /\
    moved base W d d' (set_signal id (s_signal (abs base d) id ++ [id])
      (set_leases (zadd (sec + lease)%Z id (s_leases (abs base d))) (set_count n (s_count (abs base d) n + 1) (abs base d)))) /\
    key_entry (signal_k base id) d' ≫= e_exp = key_entry (signal_k base id) d ≫= e_exp.
Proof.
  intros n H Hclk HW Ecur Hlt Ew Ets Hsec Hl Hid Hm Hp. destruct Hclk as [Hus Hms].
  pose proof (wstart_bounds (db_ms d) W ltac:(unfold db_ms; apply Z.div_pos; lia) ltac:(lia)) as [Hn _].
  destruct (drun_bump cj base W n cur window_ms d (wt_count _ _ _ H n) Ecur ltac:(lia) Ew HW ltac:(lia))
    as (d1 & ex & Hex & Hw1 & R1).
  assert (H1 : wt base W d1).
  { eapply (wt_count_write base W); [exact H| |exact Hex|exact Hw1].
    pose proof (count_at_read _ _ (ckey_count _ _ _ _ (wt_count _ _ _ H n))). lia. }
  pose proof (abs_count base _ _ _ _ _ Hw1) as A1.
  destruct (step_zadd_lease cj base W d1 (ts ⊕ num lease) (sec + lease) id H1) as (ans & d2 & R2 & [H2 U2 P2 A2]).
  { rewrite Ets, num_int by b53. apply fadd_int. b53. }
  set (k := signal_k base id). assert (Ek : key_entry k d2 = key_entry k d).
  { pose proof (exec_frame cj (ZADD (conc_k base) (ts ⊕ num lease) id) d1 k ltac:(unfold k; intros [= E]; revert E; key_ne)) as Ef.
    rewrite R2 in Ef. cbn in Ef. rewrite Ef. apply (wr_ne _ _ _ _ Hw1). unfold k. key_ne. }
  destruct (exec_rpush cj k id d2 (wt_signal _ _ _ H2 id)) as [b3 R3].
  pose proof (wrote_set_list k (list_at k d2 ++ [id]) d2) as Hw3. set (d3 := set_list k _ d2) in *.
  assert (Ht : acquire_timeout doc = Ret None) by (unfold acquire_timeout; by rewrite Hp).
  eexists _, d3. split; [|split].
  - unfold admit_task. rewrite R1, Hid. cbn [need_some]. rewrite drun_ret, (drun_call _ _ _ _ _ _ R2), Hm, Ht.
    change (base +:+ ":acquire:" +:+ id) with k. cbn zeta. unfold drun at 1.
    etrans; [apply (drun_call cj (RPUSH k id) _ d2 b3 d3 R3)|]. done.
  - apply (moved_trans (d1 := d1) (s1 := set_count n (s_count (abs base d) n + 1) (abs base d))).
    { split; [done|apply Hw1|apply Hw1|exact A1]. }
    change (zset_at (conc_k base) d1) with (s_leases (abs base d1)) in A2. rewrite (le_leases _ _ A1), A1 in A2.
    apply (moved_trans (d1 := d2) (s1 := set_leases (zadd (sec + lease)%Z id (s_leases (abs base d)))
      (set_count n (s_count (abs base d) n + 1) (abs base d)))).
    { by split. }
    apply (moved_of Hw3); [by eapply wt_signal_write|]. rewrite (abs_signal base _ _ _ _ _ Hw3).
    change (list_at k d2) with (s_signal (abs base d2) id). by rewrite (le_signal _ _ A2), A2.
  - rewrite (wr_eq _ _ _ _ Hw3), Ek. by destruct (list_at k d2).
Qed.
End Wrapped.

(** C34. Inline acquisition fails on the queue backends.  They wrap every
    payload, also that of the acquire marker, so the admission finds no timeout
    in it.  On every server whose keyspace is well typed (the marker having
    been taken off the buffer), with less than 2^50 tokens spent, the admission
    of a wrapped marker raises an error, and by then it has spent a token of
    the window, entered the lease and pushed the signal, whose lifetime it
    leaves as it was: it has none if it is new.  On the reference server, with
    the [schedule_task] and the backend of any of the four libraries, the drain
    a second after the marker of a five second acquire returns normally but
    counts a failure and leaves a recovery drain pending; the marker is gone,
    its lease and its token are taken, and its signal never expires; the drain
    nine seconds after, when the caller has given up, does the same, where the
    marker of the plain [schedule_task] is admitted in the first case and
    dropped for nothing in the second. *)
Theorem queue_acquire_breaks :
  (forall {F : Rounding} {FL : RoundingLaws F} {R : Type} {RS : RedisServer R} {SP : RedisSpec R}
      base W (r : R) doc id p b (cur window_ms ts : Q) (sec lease : Z) worker,
     let d := rview r in
     let s := abs base d in
     let n := wstart (db_ms d) W in
     wt base W d -> clock_ok d -> 0 < W < 10 ^ 13 ->
     (cur == count_at (count_k base n) d)%Q -> count_at (count_k base n) d < 2 ^ 50 ->
     (window_ms == W)%Q -> (ts == sec)%Q -> 0 <= sec < 10 ^ 12 -> 0 <= lease < 10 ^ 15 ->
     jfield_str "id" doc = Some id -> is_marker doc = true ->
     jfield "payload" doc = Some (JObj (build_enhanced_payload p b)) ->
     let o := run (admit_task base (conc_k base) (count_k base n) cur window_ms ts lease worker doc) r in
     (exists e, fst o = inl e) /\
     moved base W d (rview (snd o)) (set_signal id (s_signal s id ++ [id])
       (set_leases (zadd (sec + lease)%Z id (s_leases s)) (set_count n (s_count s n + 1) s))) /\
     key_entry (signal_k base id) (rview (snd o)) ≫= e_exp = key_entry (signal_k base id) d ≫= e_exp) /\
  Forall (fun '(schedule, B) =>
    after_drain B 1 (demo_marker schedule) = Some (Aftermath false 1 true 1 1 0 (Some false)) /\
    after_drain B 9 (demo_marker schedule) = Some (Aftermath false 1 true 1 1 0 (Some false)) /\
    after_drain B 1 (demo_marker schedule_task) = Some (Aftermath false 0 false 1 1 0 (Some true)) /\
    after_drain B 9 (demo_marker schedule_task) = Some (Aftermath false 0 false 0 0 0 None)) queue_backends.
Proof.
  split.
  - intros F FL R RS SP base W r doc id p b cur window_ms ts sec lease worker d s n Hw Hk HW Ec Hlt Ew Ets Hs Hl Hid Hm Hp o.
    destruct (wrapped_admission rcjson base W d doc id p b cur window_ms ts sec lease worker Hw Hk HW Ec Hlt Ew Ets Hs Hl Hid Hm Hp)
      as (e & d' & E & M & X).
    subst o. rewrite (proj1 (run_view _ _)), (proj2 (run_view _ _)). fold d n in E |- *. rewrite E. split; [by exists e|]. by split.
  - unfold queue_backends. repeat (apply Forall_cons_2; [by split_and!; vm_compute|]). apply Forall_nil_2.
Qed.

(** The admission of the marker of the examples on the reference server. *)
Definition demo_wrapped (fields : list (string * json)) : json :=
  JObj (("id", JStr "m") :: ("func_path", JStr marker_path)
        :: ("payload", JObj (build_enhanced_payload fields true)) :: []).

Lemma queue_acquire_breaks_witness :
  exists e, fst (run (admit_task "demo" (conc_k "demo") (count_k "demo" (wstart (db_ms demo_empty) 2000)) 0 2000 1700000000 30 "w1"
    (demo_wrapped [("_acquire_timeout_ms", JInt 5000)])) demo_empty) = inl e.
Proof.
  refine (proj1 (proj1 queue_acquire_breaks binary64 binary64_laws db _ ref_spec "demo" 2000 demo_empty
    (demo_wrapped [("_acquire_timeout_ms", JInt 5000)]) "m" [("_acquire_timeout_ms", JInt 5000)] true
    0 2000 1700000000 1700000000 30 "w1" _ _ _ _ _ _ _ _ _ _ _ _)); try done.
  - apply wt_fresh. intros s. by vm_compute.
Defined.
