(* ===== verification/Asgi.v ===== *)
(** * Asgi: rate limiting of HTTP requests (backends/asgi)

    Key extraction, the limiter with its [acquire], and the middleware that
    wraps an application.  Theorems: a request reaches the application exactly
    when the sliding window has room, whatever fails is handled by the policy
    of the middleware, and the delay a refused client is told is the shortest
    whole number of seconds after which the window has moved on. *)

From S2P Require Import Prelude Float Text Json Redis Keyspace Scripts Window State Store Consume Schedule Lease System Py Base Managed Dist Distributed.

Open Scope Z_scope.
Open Scope rl_scope.

(** ** ASGI types (types.py) *)

(** The [client] entry of a scope: missing or [None], empty, or an address. *)
Inductive client_addr := NoClient | EmptyClient | Client (host : string) (port : option Z).

(** The part of a scope the package reads; headers are pairs of byte strings. *)
Record scope := Scope {
  sc_type : option string;
  sc_client : client_addr;
  sc_headers : option (list (string * string));
}.

(** A message to the server; [msg_rest] holds the other entries. *)
Record message := Message {
  msg_type : option string;
  msg_status : option Z;
  msg_headers : option (list (string * string));
  msg_body : option string;
  msg_rest : list (string * json);
}.

Record acquire_result := AcquireResult {
  ar_allowed : bool;
  ar_remaining : Z;
  ar_reset_in_ms : Z;
  ar_val_previous : Z;
  ar_val_current : Z;
}.

(** ** Key functions (keys.py) *)

Definition by_client_ip (s : scope) : option string :=
  match sc_client s with
  | Client host _ => Some host
  | NoClient | EmptyClient => None
  end.

(** The first header of that name.  Header names are ASCII; Latin-1 decoding
    maps every byte to the code point of the same number. *)
Fixpoint find_header (target : string) (headers : list (string * string)) : option string :=
  match headers with
  | [] => None
  | (header_name, header_value) :: hs =>
      if String.eqb header_name target then Some header_value else find_header target hs
  end.

Definition by_header (name : string) (s : scope) : option string :=
  find_header (lower name) (default [] (sc_headers s)).

(** ** ASGIRateLimiter (limiter.py) *)

Record asgi := MkAsgi { a_base : base; a_last_refresh : Q }.

#[export, refine] Instance asgi_is_base : IsBase asgi := {
  base_of := a_base;
  with_base := fun f a => MkAsgi (f (a_base a)) (a_last_refresh a);
}.
Proof. all: try done; try by intros []. by intros f g o ->. Defined.

Definition set_refreshed (t : Q) (a : asgi) : asgi := MkAsgi (a_base a) t.

Definition refresh_interval : Q := 5.

Section Limiter.
Context {F : Rounding} {R : Type} {RS : RedisServer R} {P : Resources} {G : Digest}.

Abbreviation io := (py R asgi).

Definition asgi_keywords : list string := ["limit"; "window"].

(** [__init__]; [object.__init__] refuses what no class consumed. *)
Definition asgi_init (limiter_id : string) (kw : list (string * json)) : exn + asgi :=
  limit ← kw_int "limit" None kw;
  window ← kw_num "window" None kw;
  b ← base_init limiter_id limit window;
  if forallb (fun k => existsb (String.eqb k) asgi_keywords) (map fst kw) then inr (MkAsgi b 0)
  else inl (TypeError "object.__init__() takes exactly one argument").

(** [start] *)
Definition asgi_start : io unit := _ ← async_register_script "acquire.lua"; skip.

Definition asgi_persist_config (a : asgi) : list (string * json) :=
  map (fun kv => (kv.1, match kv.2 with inl n => JInt n | inr q => float_json q end)) (base_persist_config (a_base a)).

#[export] Instance managed_asgi : Managed R asgi := {|
  managed_base := asgi_is_base;
  blank := MkAsgi (MkBase estr 0 0 0 0 ∅ ∅) 0;
  construct := fun limiter_id kw => a ← of_sum (asgi_init limiter_id kw); modify (fun _ => a);
  start := asgi_start;
  apply_config_overrides := base_apply_overrides;
  persisted_config := asgi_persist_config;
|}.

(** The class before [configure]: its backend needs no context. *)
Definition asgi_class : mclass asgi := MClass false true ∅ [].

(** The identity of a request, as a Redis key. *)
Definition full_key (id key : string) : string := id +:+ ":" +:+ key.

Definition parse_acquire (r : acquire_reply) : acquire_result :=
  AcquireResult (aq_allowed r =? 1) (aq_remaining r) (aq_reset_in_ms r) (aq_previous r) (aq_current r).

(** The refresh [acquire] makes at most once per interval. *)
Definition refresh_due (now : Q) (a : asgi) : bool := Qle_bool refresh_interval (now ⊖ a_last_refresh a).

(** [acquire] *)
Definition asgi_acquire (key : string) : io acquire_result :=
  now ← monotonic;
  o ← self;
  _ ← (if refresh_due now o then
         _ ← modify (set_refreshed now);
         _ ← async_refresh_config;
         skip
       else skip);
  o ← self;
  catch is_exception
    (result ← async_eval_script "acquire.lua"
       (acquire_lua (full_key (b_id (a_base o)) key) (b_window (a_base o)) (b_limit (a_base o)));
     mret (parse_acquire result))
    raise.

(** ** RateLimitMiddleware (middleware.py) *)

(** What the server hands the application: it sends messages. *)
Definition sender := message -> io unit.

Record middleware := Middleware {
  mw_app : scope -> sender -> io unit;
  mw_key_func : scope -> option string;
  mw_on_blocked : option (scope -> acquire_result -> sender -> io unit);
  mw_on_error : string;
}.

(** [__init__] *)
Definition middleware_init app key_func on_blocked (on_error : string) : middleware :=
  Middleware app key_func on_blocked (lower on_error).

Definition is_start (m : message) : bool :=
  match msg_type m with Some t => String.eqb t "http.response.start" | None => false end.

(** [_wrap_send] *)
Definition wrap_send (send : sender) (result : acquire_result) : sender := fun m =>
  if is_start m then
    o ← self;
    let headers := default [] (msg_headers m) ++
      [("x-ratelimit-limit", print_Z (b_limit (a_base o)));
       ("x-ratelimit-remaining", print_Z (ar_remaining result));
       ("x-ratelimit-reset", print_Z (ar_reset_in_ms result))] in
    send (Message (msg_type m) (msg_status m) (Some headers) (msg_body m) (msg_rest m))
  else send m.

Definition retry_after (reset_ms : Z) : Z := Z.max 1 ((reset_ms + 999) / 1000).

Definition response_start (status : Z) (headers : list (string * string)) : message :=
  Message (Some "http.response.start") (Some status) (Some headers) None [].
Definition response_body (body : string) : message :=
  Message (Some "http.response.body") None None (Some body) [].

(** [_send_blocked] *)
Definition send_blocked (send : sender) (result : acquire_result) : io unit :=
  let reset_ms := ar_reset_in_ms result in
  _ ← send (response_start 429
        [("content-type", "text/plain; charset=utf-8");
         ("retry-after", print_Z (retry_after reset_ms));
         ("x-ratelimit-remaining", "0");
         ("x-ratelimit-reset", print_Z reset_ms)]);
  send (response_body "Rate limit exceeded. Please retry later.").

(** [_send_error] *)
Definition send_error (send : sender) : io unit :=
  _ ← send (response_start 503 [("content-type", "text/plain; charset=utf-8")]);
  send (response_body "Service temporarily unavailable.").

(** [__call__]; the application and the callbacks run outside the [try]. *)
Definition middleware_call (m : middleware) (s : scope) (send : sender) : io unit :=
  if negb (match sc_type s with Some t => String.eqb t "http" | None => false end) then mw_app m s send
  else
    match mw_key_func m s with
    | None => mw_app m s send
    | Some key =>
        result ← catch is_exception (r ← asgi_acquire key; mret (inr r)) (fun e => mret (inl e));
        match result with
        | inl _ =>
            if String.eqb (mw_on_error m) "fail_closed" then send_error send else mw_app m s send
        | inr r =>
            if negb (ar_allowed r) then
              match mw_on_blocked m with
              | Some on_blocked => on_blocked s r send
              | None => send_blocked send r
              end
            else mw_app m s (wrap_send send r)
        end
    end.
End Limiter.

(** ** Theorems *)

Section Laws.
Context {F : Rounding} {R : Type} {RS : RedisServer R} {P : Resources} {G : Digest}.

(** Only exceptions that [except Exception] catches are raised. *)
Definition tame {O A} (m : py R O A) : Prop :=
  forall w, match fst (m w) with inl e => is_exception e = true | inr _ => True end.

Lemma tame_bind {O A T} (m : py R O A) (f : A -> py R O T) : tame m -> (forall a, tame (f a)) -> tame (m ≫= f).
Proof.
  intros Hm Hf w. specialize (Hm w). rewrite bind_eq. destruct (m w) as [[e|a] w']; [done|]. apply Hf.
Qed.

Lemma tame_catch {O A} p (m : py R O A) h : tame m -> (forall e, is_exception e = true -> tame (h e)) -> tame (catch p m h).
Proof.
  intros Hm Hh w. specialize (Hm w). unfold catch. destruct (m w) as [[e|a] w']; [|done].
  destruct (p e); [by apply Hh|done].
Qed.

Lemma tame_sum {O A} (x : exn + A) :
  match x with inl e => is_exception e = true | inr _ => True end -> tame (of_sum x : py R O A).
Proof. by intros H w. Qed.

Lemma tame_answer {A} f (o : string + A) : match answer f o with inl e => is_exception e = true | inr _ => True end.
Proof. by destruct f, o. Qed.

Lemma tame_trip {O A} (p : prog A) : tame (trip p : py R O A).
Proof.
  intros w. unfold trip. destruct (arrive w) as [f w1].
  destruct f; [|done| |]; destruct (run p (w_srv w1)) as [o r]; by destruct o.
Qed.

Lemma tame_load {O} sha : tame (script_load sha : py R O string).
Proof. intros w. unfold script_load. destruct (arrive w) as [f w1]. by destruct f. Qed.

Lemma tame_evalsha {O A} sha (p : prog A) : tame (evalsha sha p : py R O A).
Proof.
  intros w. unfold evalsha. destruct (arrive w) as [f w1].
  destruct f; [|done| |]; (case_bool_decide; [destruct (run p (w_srv w1)) as [o r]; by destruct o|done]).
Qed.

(** Close a goal [tame m] by the structure of [m]. *)
Ltac tame_tac :=
  repeat first
    [ apply tame_trip | apply tame_load | apply tame_evalsha
    | apply tame_bind; [|intros] | apply tame_catch; [|intros]
    | done
    | match goal with |- tame (match ?x with _ => _ end) => destruct x end ].

Lemma tame_register {O} `{IsBase O} name : tame (async_register_script name : py R O string).
Proof.
  unfold async_register_script. apply tame_bind; [done|]. intros o. apply tame_bind; [|intros; tame_tac].
  destruct (b_script_sources _ !! name); [done|]. apply tame_bind; [|intros; tame_tac].
  apply tame_sum. induction resource_packages as [|p ps IH]; cbn; [done|]. by destruct (read_resource p name).
Qed.

Lemma tame_eval {O A} `{IsBase O} name (p : prog A) : tame (async_eval_script name p : py R O A).
Proof.
  assert (Hc : tame (cached_sha name : py R O string)) by (unfold cached_sha; tame_tac).
  unfold async_eval_script. apply tame_bind; [done|]. intros o.
  apply tame_bind; [destruct (b_script_shas _ !! name); [done|apply tame_register]|]. intros _.
  apply tame_bind; [exact Hc|]. intros sha. apply tame_catch; [apply tame_evalsha|]. intros e _.
  apply tame_bind; [apply tame_register|]. intros _. apply tame_bind; [exact Hc|]. intros sha'.
  apply tame_catch; [apply tame_evalsha|done].
Qed.

Lemma tame_py_dict v : match py_dict v with inl e => is_exception e = true | inr _ => True end.
Proof.
  destruct v as [| | | |s|l|]; cbn; try done; [by destruct (String.eqb s estr)|].
  induction l as [|x l IH]; cbn; [done|].
  destruct x as [| | | |s|l'|]; try done.
  - destruct s as [|c s]; [done|]. destruct s as [|c' s]; [done|]. destruct s; [|done]. by destruct (dict_of_pairs l).
  - destruct l' as [|k l']; [done|]. destruct k; try done. destruct l' as [|v l']; [done|]. destruct l'; [|done].
    by destruct (dict_of_pairs l).
Qed.

Lemma tame_py_int v : match py_int v with inl e => is_exception e = true | inr _ => True end.
Proof. destruct v; cbn; try done. by destruct (read_Z _). Qed.

Lemma tame_overrides {O} `{IsBase O} l : tame (base_apply_overrides l : py R O unit).
Proof.
  unfold base_apply_overrides. apply tame_bind; [done|]. intros o. apply tame_bind.
  - tame_tac.
  - intros _. destruct (dict_get "limit" l); [|done]. apply tame_bind; [apply tame_sum, tame_py_int|done].
Qed.

Lemma tame_refresh : tame (async_refresh_config : py R asgi bool).
Proof.
  unfold async_refresh_config. apply tame_bind; [done|]. intros o. apply tame_bind; [apply tame_trip|]. intros [v|]; [|done].
  apply tame_bind. { apply tame_sum. unfold parse_version. by destruct (read_Z v). }
  intros n. destruct (n <=? _); [done|]. apply tame_bind; [apply tame_trip|]. intros [raw|]; [|done].
  apply tame_bind.
  - apply tame_catch; [|done]. apply tame_bind; [|done]. apply tame_sum. unfold parse_raw_config.
    destruct (loads raw); [apply tame_py_dict|done].
  - intros [c|]; [|done]. apply tame_bind; [apply tame_overrides|]. by intros.
Qed.

Lemma tame_acquire key : tame (asgi_acquire key : py R asgi acquire_result).
Proof.
  unfold asgi_acquire. apply tame_bind; [done|]. intros now. apply tame_bind; [done|]. intros o.
  apply tame_bind.
  - destruct (refresh_due now o); [|done]. apply tame_bind; [done|]. intros _. apply tame_bind; [apply tame_refresh|done].
  - intros _. apply tame_bind; [done|]. intros o'. apply tame_catch; [|by intros e He w].
    apply tame_bind; [apply tame_eval|done].
Qed.

(** What becomes of a request. *)
Inductive outcome :=
  | Plain                          (* the application, without headers *)
  | Limited (r : acquire_result)   (* the application, with headers *)
  | Refused (r : acquire_result)
  | Unavailable.

Definition handle (m : middleware (R := R)) (s : scope) (send : sender) (o : outcome) : py R asgi unit :=
  match o with
  | Plain => mw_app m s send
  | Limited r => mw_app m s (wrap_send send r)
  | Refused r => match mw_on_blocked m with Some f => f s r send | None => send_blocked send r end
  | Unavailable => send_error send
  end.

Definition rate_limits (m : middleware (R := R)) (s : scope) (key : string) : Prop :=
  sc_type s = Some "http" /\ mw_key_func m s = Some key.

Definition policy_of (m : middleware (R := R)) : outcome :=
  if String.eqb (mw_on_error m) "fail_closed" then Unavailable else Plain.

Definition outcome_of (m : middleware (R := R)) (r : exn + acquire_result) : outcome :=
  match r with
  | inl _ => policy_of m
  | inr r => if ar_allowed r then Limited r else Refused r
  end.

Lemma middleware_eq m s send key (w : world R asgi) :
  rate_limits m s key ->
  middleware_call m s send w = handle m s send (outcome_of m (fst (asgi_acquire key w))) (snd (asgi_acquire key w)).
Proof.
  intros [Ht Hk]. pose proof (tame_acquire key w) as Htame. unfold middleware_call. rewrite Ht, Hk, String.eqb_refl. cbn [negb]. rewrite bind_eq. unfold catch at 1.
  rewrite (bind_eq (asgi_acquire key)).
  destruct (asgi_acquire key w) as [[e|r] w1]; cbn [fst snd] in *.
  - rewrite Htame. cbn. unfold policy_of. by destruct (String.eqb _ _).
  - cbn. by destruct (ar_allowed r).
Qed.

(** C23. Every rate limited request is handled exactly once, whatever happens
    to Redis.  For every network - commands that fail, answers that are lost, a
    flushed script cache, other clients in between - the check ends in one
    outcome and no exception of the limiter escapes: an answer decides between
    the application with rate limit headers and the refusal, a failure is
    decided by the policy alone, [fail_closed] in any case of letters being the
    only one that keeps the request from the application. *)
Theorem request_handled_once app key_func on_blocked policy (s : scope) (send : sender) (key : string) (w : world R asgi) :
  let m := middleware_init app key_func on_blocked policy in
  rate_limits m s key ->
  exists o, middleware_call m s send w = handle m s send o (snd (asgi_acquire key w)) /\
    match o with
    | Limited r => fst (asgi_acquire key w) = inr r /\ ar_allowed r = true
    | Refused r => fst (asgi_acquire key w) = inr r /\ ar_allowed r = false
    | Plain => (exists e, fst (asgi_acquire key w) = inl e) /\ lower policy <> "fail_closed"
    | Unavailable => (exists e, fst (asgi_acquire key w) = inl e) /\ lower policy = "fail_closed"
    end.
Proof.
  intros m Hm. exists (outcome_of m (fst (asgi_acquire key w))).
  split; [by apply middleware_eq|]. destruct (fst (asgi_acquire key w)) as [e|r]; cbn.
  - unfold policy_of. cbn [mw_on_error middleware_init m]. destruct (String.eqb_spec (lower policy) "fail_closed"); eauto.
  - destruct (ar_allowed r) eqn:E; eauto.
Qed.

Lemma async_eval_eq {O A} `{IsBase O} name (p : prog A) (w : world R O) :
  async_eval_script name p w = eval_script name p w.
Proof. reflexivity. Qed.
End Laws.

Section Window.
Context {F : Rounding} {FL : RoundingLaws F} {R : Type} {RS : RedisServer R} {SP : RedisSpec R}.
Context {P : Resources} {G : Digest}.

(** C11. The middleware enforces the sliding window.  On an undisturbed
    network, with no refresh due, a request reaches the application exactly
    when the estimated load of its identity is below the limit; then the
    counter of the current window grows by one and nothing else changes, and
    otherwise nothing changes and the client is refused. *)
Theorem middleware_enforces (m : middleware) (s : scope) (send : sender) (key : string) (W : Z) (w : world R asgi) :
  let a := a_base (w_obj w) in
  let full := full_key (b_id a) key in
  let now := db_ms (rview (w_srv w)) in
  let st := abs full (rview (w_srv w)) in
  w_net w = [] -> script_found "acquire.lua" (w_obj w) -> refresh_due (w_mono w) (w_obj w) = false ->
  wt full W (rview (w_srv w)) -> clock_ok (rview (w_srv w)) -> window_ok (b_window a) W -> 1 <= b_limit a <= 2 ^ 50 ->
  rate_limits m s key ->
  exists r w1,
    middleware_call m s send w = handle m s send (if ar_allowed r then Limited r else Refused r) w1 /\
    (ar_allowed r = true <-> (load W now st < b_limit a)%Q) /\
    abs full (rview (w_srv w1)) ≡
      (if ar_allowed r then set_count (wstart now W) (s_count st (wstart now W) + 1) st else st) /\
    ar_reset_in_ms r = left_ms now W.
Proof.
  intros a full now st Hn Hf Hd Hwt Hk Hwin Hl Hm.
  destruct (acquire_steps rcjson full W (rview (w_srv w)) (b_window a) (b_limit a) Hwt Hk Hwin Hl) as (d' & Hrun & [M U P' A]).
  set (spec := acquire_spec (b_limit a) W now st) in *.
  assert (Ha : exists w1, asgi_acquire key w = (inr (parse_acquire (fst spec)), w1) /\ abs full (rview (w_srv w1)) ≡ snd spec).
  { destruct (eval_quiet "acquire.lua" (acquire_lua full (b_window a) (b_limit a)) w Hn Hf) as (w1 & E & Es & _).
    destruct (run_view (acquire_lua full (b_window a) (b_limit a)) (w_srv w)) as [V1 V2].
    rewrite Hrun in V1, V2. cbn [fst snd] in V1, V2. exists w1. split; [|by rewrite Es, V2].
    assert (Hw : wp (asgi_acquire key) (fun r w' => r = inr (parse_acquire (fst spec)) /\ w' = w1) w);
      [|destruct Hw as [H1 H2]; by rewrite (surjective_pairing (asgi_acquire key w)), H1, H2].
    unfold asgi_acquire. apply wp_bind, wp_monotonic, wp_bind, wp_self. rewrite Hd. apply wp_bind, (wp_ret tt), wp_bind, wp_self.
    apply wp_catch, wp_bind. unfold wp at 1. rewrite async_eval_eq. fold a. fold full. rewrite E, V1. by split. }
  destruct Ha as (w1 & Ea & Hs). exists (parse_acquire (fst spec)), w1.
  rewrite (middleware_eq m s send key w Hm), Ea. cbn [fst snd outcome_of].
  unfold spec, acquire_spec in *. fold now in Hs. destruct (Qltb (load W now st) (b_limit a)) eqn:E; cbn in *; (split; [done|]).
  - apply Qltb_lt in E. by split.
  - split; [|by split]. split; [done|]. intros H. apply Qltb_lt in H. congruence.
Qed.
End Window.

(** The delay of a refusal.  [Retry-After] is the least number of whole
    seconds, and at least one, after which the window that refused the
    request has ended: waiting that long lands in a later window, waiting any
    shorter number of seconds does not. *)
Theorem retry_after_exact (W now : Z) :
  0 < W -> 0 <= now ->
  let d := retry_after (left_ms now W) in
  1 <= d /\ wstart now W + W <= wstart (now + 1000 * d) W /\
  (forall n, 1 <= n < d -> wstart (now + 1000 * n) W = wstart now W).
Proof.
  intros HW Hn d. pose proof (left_ms_bounds now W HW) as Hb.
  assert (Hd : d = (left_ms now W + 999) / 1000 /\ 1 <= d).
  { unfold d, retry_after. assert (1 <= (left_ms now W + 999) / 1000) by (apply Z.div_le_lower_bound; lia). lia. }
  destruct Hd as [Hd H1]. pose proof (Z.div_mod (left_ms now W + 999) 1000 ltac:(lia)).
  pose proof (Z.mod_pos_bound (left_ms now W + 999) 1000 ltac:(lia)). rewrite <- Hd in *.
  pose proof (Z.div_mod now W ltac:(lia)). pose proof (Z.mod_pos_bound now W HW).
  unfold left_ms, wstart in *. split; [done|]. split.
  - replace (now / W * W + W) with ((now / W + 1) * W) by lia. apply Z.mul_le_mono_nonneg_r; [lia|].
    apply Z.div_le_lower_bound; [lia|]. lia.
  - intros n Hn'. f_equal. symmetry. apply Z.div_unique with (now mod W + 1000 * n); lia.
Qed.

(** ** Concrete requests *)

#[local] Existing Instance binary64.
#[local] Existing Instance binary64_laws.

Definition asgi_files : Resources := fun _ name => Some name.
Definition asgi_digest : Digest := fun source => source.
#[local] Existing Instance asgi_files.
#[local] Existing Instance asgi_digest.

Definition demo_asgi : asgi := MkAsgi (MkBase "api" 1 1 0 0 ∅ ∅) 0.

(** A process whose monotonic clock shows [t] seconds. *)
Definition asgi_world (t : Q) (r : db) (net : list (net db)) : world db asgi :=
  World r [] net t 1700000000 [] [] [] demo_asgi.

Definition asgi_db : db := Db 1700000000250000 ∅ [].

Definition log_send : sender (R := db) := fun m => emit (ESend (JStr (default estr (msg_body m)))).

(** An application that answers every request with its identity. *)
Definition demo_app : scope -> sender (R := db) -> py db asgi unit := fun s send =>
  send (response_body (default "anonymous" (by_client_ip s))).

Definition demo_mw (policy : string) : middleware := middleware_init demo_app by_client_ip None policy.
Definition demo_scope : scope := Scope (Some "http") (Client "10.0.0.1" (Some 443)) None.

Lemma middleware_enforces_witness :
  exists r w1,
    middleware_call (demo_mw "fail_open") demo_scope log_send (asgi_world 1 asgi_db []) =
      handle (demo_mw "fail_open") demo_scope log_send (if ar_allowed r then Limited r else Refused r) w1 /\
    ar_reset_in_ms r = 750.
Proof.
  destruct (middleware_enforces (demo_mw "fail_open") demo_scope log_send "10.0.0.1" 1000 (asgi_world 1 asgi_db []))
    as (r & w1 & E & _ & _ & Er).
  - reflexivity.
  - right. by eexists.
  - by vm_compute.
  - apply wt_fresh. intros s. by vm_compute.
  - by split; vm_compute.
  - split; by vm_compute.
  - by vm_compute.
  - by split.
  - exists r, w1. by split.
Defined.

Lemma request_handled_once_witness :
  let w := asgi_world 1 asgi_db [Net (fun r : db => r) Lost 0] in
  exists o, middleware_call (demo_mw "Fail_Closed") demo_scope log_send w =
    handle (demo_mw "Fail_Closed") demo_scope log_send o (snd (asgi_acquire "10.0.0.1" w)).
Proof.
  destruct (request_handled_once demo_app by_client_ip None "Fail_Closed" demo_scope log_send "10.0.0.1"
    (asgi_world 1 asgi_db [Net (fun r : db => r) Lost 0]) (conj eq_refl eq_refl)) as (o & E & _).
  by exists o.
Defined.

(** The first request of a window passes, the second is refused; a lost
    connection is refused under [fail_closed] and passes otherwise. *)
Definition demo_bodies (w : world db asgi) : list event := w_trace w.

Example demo_requests :
  let call p := middleware_call (demo_mw p) demo_scope log_send in
  let w1 := snd (call "fail_open" (asgi_world 1 asgi_db [])) in
  demo_bodies (snd (call "fail_open" w1)) =
    map (fun b => ESend (JStr b)) ["10.0.0.1"; estr; "Rate limit exceeded. Please retry later."] /\
  demo_bodies (snd (call "FAIL_CLOSED" (asgi_world 1 asgi_db [Net (fun r : db => r) Lost 0]))) =
    map (fun b => ESend (JStr b)) [estr; "Service temporarily unavailable."] /\
  demo_bodies (snd (call "open" (asgi_world 1 asgi_db [Net (fun r : db => r) Lost 0]))) =
    [ESend (JStr "10.0.0.1")].
Proof. vm_compute. by repeat split. Qed.

Lemma retry_after_exact_witness : retry_after (left_ms 1700000000250 60000) = 40.
Proof.
  pose proof (retry_after_exact 60000 1700000000250 ltac:(lia) ltac:(lia)) as (_ & _ & H).
  by vm_compute.
Defined.

(** A window that is no whole number of half milliseconds, here a third of a
    second: the first request of a window is counted, and then its expiry is
    refused; the counter never expires.  The dequeue script of such a limiter
    refuses every call. *)
Lemma fractional_window_fails :
  let window := rnd (1 # 3) in
  let r := run (acquire_lua "api:x" window 5) asgi_db in
  fst r = inl not_int /\ map (fun kv => e_exp kv.2) (map_to_list (db_keys (snd r))) = [None] /\
  fst (run (consume_lua "api" "api:buffer" "api:concurrency" "api:dlq"
              (ConsumeArgs window 5 1 (Some 60) (Some 30) "w1")) asgi_db) = inl not_int.
Proof. by vm_compute. Qed.
