(* ===== verification/AsyncLoop.v ===== *)
(** * AsyncLoop: the asyncio drain loop, heartbeat scheduler and monitor

    Model of [AsyncDrainLoop], [AsyncHeartbeatScheduler] and
    [AsyncBackendHealthMonitor] (core/async_limiters.py).  Unlike its
    counterpart on threads, [wake] only schedules a coroutine: the request is
    pending on the event loop until that coroutine takes the lock.  The
    heartbeat task looks at its heap in two critical sections. *)

From S2P Require Import Prelude Float Text Json Redis Py Loop Heartbeat.

Open Scope Z_scope.
Open Scope rl_scope.

Section AsyncLoop.
Context {F : Rounding}.

(** ** AsyncDrainLoop *)

Definition async_loop_init (watchdog_interval : Q) : loop := MkLoop None false watchdog_interval NoThread 0.

(** [wake]: the target of the coroutine put on the event loop. *)
Definition async_wake (now delay : Q) : Q := now ⊕ delay.

(** [_ensure_started] *)
Definition async_ensure_started (l : loop) : loop :=
  if not_running (l_thread l) then
    MkLoop (l_next_wake l) (l_shutdown l) (l_watchdog l) Running (S (l_started l))
  else l.

(** [_wake_async] *)
Definition wake_async (target : Q) (l : loop) : bool * loop :=
  let l := if negb (l_shutdown l) then async_ensure_started l else l in
  if (match l_next_wake l with None => true | Some t => Qltb target t end) then
    (true, MkLoop (Some target) (l_shutdown l) (l_watchdog l) (l_thread l) (l_started l))
  else (false, l).

Definition async_loop_shutdown (l : loop) : loop :=
  MkLoop (l_next_wake l) true (l_watchdog l) (l_thread l) (l_started l).

(** [_run] *)
Definition async_run_top (now : Q) (l : loop) : point * loop :=
  if l_shutdown l then
    (Returned, MkLoop (l_next_wake l) (l_shutdown l) (l_watchdog l) Finished (l_started l))
  else
    match l_next_wake l with
    | None => (WaitWatchdog (l_watchdog l), l)
    | Some t =>
        let remaining := t ⊖ now in
        if Qltb 0 remaining then (WaitWake remaining, l) else (Draining, clear_wake l)
    end.

Definition async_run_step (now : Q) (p : point) (l : loop) : point * loop :=
  match p with
  | Top => async_run_top now l
  | WaitWatchdog _ =>
      match l_next_wake l with
      | Some _ => (Top, l)
      | None => (Draining, clear_wake l)
      end
  | WaitWake _ => (Top, l)
  | Draining => (Top, l)
  | Returned => (Returned, l)
  end.

(** The coroutines of [wake] run in the order they were scheduled. *)
Definition settle (pending : list Q) (l : loop) : loop :=
  fold_left (fun l t => snd (wake_async t l)) pending l.

Record aloop := ALoop { al_now : Q; al_point : point; al_loop : loop; al_pending : list Q }.

(** Interleavings on the event loop: any pending coroutine may run next. *)
Inductive aloop_step : aloop -> aloop -> Prop :=
  | als_wake now p l ts d : aloop_step (ALoop now p l ts) (ALoop now p l (ts ++ [async_wake now d]))
  | als_run_wake now p l ts t ts' :
      aloop_step (ALoop now p l (ts ++ t :: ts')) (ALoop now p (snd (wake_async t l)) (ts ++ ts'))
  | als_shutdown now p l ts : aloop_step (ALoop now p l ts) (ALoop now p (async_loop_shutdown l) ts)
  | als_time now now' p l ts : (now <= now')%Q -> aloop_step (ALoop now p l ts) (ALoop now' p l ts)
  | als_run now p l ts :
      l_thread l = Running ->
      aloop_step (ALoop now p l ts)
        (ALoop now (fst (async_run_step now p l)) (snd (async_run_step now p l)) ts).

Inductive aquiet : aloop -> aloop -> Prop :=
  | aquiet_refl s : aquiet s s
  | aquiet_step s s' s'' :
      aloop_step s s' -> (al_point s' = Draining -> al_point s = Draining) -> aquiet s' s'' -> aquiet s s''.

(** A drain is pending for [t] or earlier: in the loop or on the event loop. *)
Definition adue_by (t : Q) (s : aloop) : Prop :=
  due_by t (al_loop s) \/ exists u, u ∈ al_pending s /\ (u <= t)%Q.

Lemma wake_async_next t l :
  l_next_wake (snd (wake_async t l)) = Some t \/
  (l_next_wake (snd (wake_async t l)) = l_next_wake l /\ exists u, l_next_wake l = Some u /\ (u <= t)%Q).
Proof.
  unfold wake_async. set (l' := if negb (l_shutdown l) then _ else l).
  assert (E : l_next_wake l' = l_next_wake l).
  { unfold l', async_ensure_started. by repeat case_match. }
  rewrite E. destruct (l_next_wake l) as [u|] eqn:El; [|by left].
  destruct (Qltb t u) eqn:Hq; [by left|]. right. rewrite <- E. split; [done|].
  exists u. split; [done|]. by apply Qltb_ge in Hq.
Qed.

Lemma wake_async_due t l : due_by t (snd (wake_async t l)).
Proof.
  destruct (wake_async_next t l) as [E|[E (u & Eu & Hu)]].
  - exists t. split; [done|lra].
  - exists u. by rewrite E.
Qed.

Lemma wake_async_keeps t t' l : due_by t l -> due_by t (snd (wake_async t' l)).
Proof.
  intros (u & Eu & Hu). unfold wake_async. set (l' := if negb (l_shutdown l) then _ else l).
  assert (E : l_next_wake l' = Some u).
  { unfold l', async_ensure_started. rewrite <- Eu. by repeat case_match. }
  rewrite E. destruct (Qltb t' u) eqn:Hq.
  - apply Qltb_lt in Hq. exists t'. split; [done|lra].
  - exists u. by split.
Qed.

Lemma async_step_keeps s s' t :
  aloop_step s s' -> (al_point s' = Draining -> al_point s = Draining) ->
  adue_by t s -> adue_by t s'.
Proof.
  intros Hs Hq Hd. inversion Hs as [now p l ts d|now p l ts u ts'|now p l ts|now now' p l ts Hn|now p l ts Ht];
    subst; destruct Hd as [Hd|(v & Hv & Hle)]; unfold adue_by in *; cbn in *.
  - by left.
  - right. exists v. rewrite elem_of_app. auto.
  - left. by apply wake_async_keeps.
  - apply elem_of_app in Hv as [Hv|Hv]; [right; exists v; rewrite elem_of_app; auto|].
    apply elem_of_cons in Hv as [->|Hv]; [|right; exists v; rewrite elem_of_app; auto].
    left. destruct (wake_async_due u l) as (x & Ex & Hx). exists x. split; [done|lra].
  - by left.
  - right. by exists v.
  - by left.
  - right. by exists v.
  - left. destruct p; cbn in *; try done.
    + unfold async_run_top in *. destruct Hd as (u & E & Hu). rewrite E in *.
      destruct (l_shutdown l); [by exists u|]. destruct (Qltb 0 (u ⊖ now)); [by exists u|].
      by specialize (Hq eq_refl).
    + destruct Hd as (u & E & Hu). rewrite E in *. by exists u.
  - right. by exists v.
Qed.

(** ** AsyncHeartbeatScheduler *)

Definition async_hs_init (lease_duration : Z) : hsched :=
  HSched (rnd lease_duration ⊘ 2) ∅ [] false NoThread.

Definition async_hs_ensure_started (s : hsched) : hsched :=
  if not_running (hs_thread s) then
    HSched (hs_interval s) (hs_entries s) (hs_heap s) false Running
  else s.

Definition async_hs_register (now : Q) (task_id action : string) (s : hsched) : hentry * hsched :=
  let entry := HEntry task_id action true 0 in
  let s := HSched (hs_interval s) (<[task_id := entry]> (hs_entries s)) (hs_heap s)
             (hs_shutdown s) (hs_thread s) in
  if String.eqb task_id estr then (entry, s)
  else
    let due := now ⊕ hs_interval s in
    (entry, async_hs_ensure_started
       (HSched (hs_interval s) (hs_entries s) (heap_push (due, task_id, 0) (hs_heap s))
          (hs_shutdown s) (hs_thread s))).

Definition async_hs_deregister (task_id : string) (s : hsched) : hsched :=
  HSched (hs_interval s) (delete task_id (hs_entries s)) (hs_heap s) (hs_shutdown s) (hs_thread s).

Definition async_hs_get_entry (task_id : string) (s : hsched) : option hentry := hs_entries s !! task_id.

Definition async_hs_shutdown (s : hsched) : hsched :=
  HSched (hs_interval s) (hs_entries s) (hs_heap s) true (hs_thread s).

(** The first critical section of [_run]: return, wait, or go on. *)
Inductive acheck := AReturn | AWait (timeout : Q) | AGo.

Definition async_check (now : Q) (s : hsched) : acheck :=
  if hs_shutdown s then AReturn
  else
    match hs_heap s with
    | [] => AWait (hs_interval s)
    | (due, _, _) :: _ => if Qltb now due then AWait (due ⊖ now) else AGo
    end.

(** The second one: [None] starts over. *)
Definition async_pop (now : Q) (s : hsched) : option (string * string) * hsched :=
  match hs_heap s with
  | [] => (None, s)
  | (due, task_id, generation) :: rest =>
      if Qltb now due then (None, s)
      else
        match hs_entries s !! task_id with
        | Some entry =>
            if he_generation entry =? generation
            then (Some (he_task entry, he_action entry), set_heap rest s)
            else (None, set_heap rest s)
        | None => (None, set_heap rest s)
        end
  end.

(** The third one, after the renewal. *)
Definition async_reschedule (now : Q) (task_id : string) (s : hsched) : hsched :=
  match hs_entries s !! task_id with
  | None => s
  | Some entry =>
      let g := he_generation entry + 1 in
      HSched (hs_interval s)
        (<[task_id := HEntry (he_task entry) (he_action entry) (he_healthy entry) g]> (hs_entries s))
        (heap_push (now ⊕ hs_interval s, task_id, g) (hs_heap s)) (hs_shutdown s) (hs_thread s)
  end.

Definition async_renew_one (task_id action : string) (outcome : exn + unit) (s : hsched)
    : renew_effect * hsched :=
  match outcome with
  | inl e =>
      if is_redis_error e then
        (if String.eqb action "kill" then RenewKill else RenewFailed, set_health task_id false s)
      else (RenewRaised e, s)
  | inr _ =>
      (RenewOk,
       match hs_entries s !! task_id with
       | Some entry => if he_healthy entry then s else set_health task_id true s
       | None => s
       end)
  end.

(** A pass of the asyncio task whose two sections see the same state is a
    pass of the thread. *)
Lemma async_pass now s :
  pop_due now s =
  match async_check now s with
  | AReturn => (HReturn, s)
  | AWait t => (HWait t, s)
  | AGo => match async_pop now s with
           | (Some (t, a), s') => (HRenew t a, s')
           | (None, s') => (HStale, s')
           end
  end.
Proof.
  unfold pop_due, async_check, async_pop. destruct (hs_shutdown s); [done|].
  destruct (hs_heap s) as [|[[due t] g] rest]; [done|]. destruct (Qltb now due); [done|].
  destruct (hs_entries s !! t) as [e|]; [|done]. by destruct (he_generation e =? g).
Qed.

(** ** AsyncBackendHealthMonitor *)

(** [_run_once] *)
Definition async_run_once (check : exn + bool) (healthy : bool) : list health_log * bool :=
  let now := match check with
             | inr b => b
             | inl e => if is_exception e then false else healthy
             end in
  ((if healthy && negb now then [BecameUnhealthy]
    else if negb healthy && now then [Recovered] else []), now).

(** ** Properties *)

(** On the event loop, too, a wake is never lost: from the moment [wake]
    returns, in every interleaving of the drain task, the pending coroutines
    and further wakes that starts no drain, a drain stays requested for the
    requested time or earlier, on the event loop or in the drain loop; and
    once no coroutine is pending it is the drain loop that holds it. *)
Theorem async_wake_not_lost (now d : Q) (p : point) (l : loop) (ts : list Q) (s : aloop) :
  aquiet (ALoop now p l (ts ++ [async_wake now d])) s ->
  adue_by (now ⊕ d) s /\ (al_pending s = [] -> due_by (now ⊕ d) (al_loop s)).
Proof.
  intros Hq. assert (Hd : adue_by (now ⊕ d) s).
  { remember (ALoop now p l (ts ++ [async_wake now d])) as s0.
    assert (H0 : adue_by (now ⊕ d) s0).
    { subst. right. exists (now ⊕ d). cbn. rewrite elem_of_app, list_elem_of_singleton.
      split; [by right|lra]. }
    clear Heqs0. induction Hq as [|s1 s2 s3 Hs Hn _ IH]; [done|]. apply IH. by eapply async_step_keeps. }
  split; [done|]. intros E. destruct Hd as [Hd|(u & Hu & _)]; [done|].
  rewrite E in Hu. by apply elem_of_nil in Hu.
Qed.

(** Settling leaves the earliest of the requests pending. *)
Lemma settle_due ts l t :
  t ∈ ts \/ due_by t l -> due_by t (settle ts l).
Proof.
  revert l. induction ts as [|u ts IH]; intros l [H|H]; cbn.
  - by apply elem_of_nil in H.
  - done.
  - apply IH. apply elem_of_cons in H as [->|H]; [right; apply wake_async_due|by left].
  - apply IH. right. by apply wake_async_keeps.
Qed.
End AsyncLoop.

Lemma async_wake_not_lost_witness :
  due_by 12 (al_loop (ALoop 10 Top (snd (wake_async 12 (async_loop_init 5))) [])).
Proof.
  apply (async_wake_not_lost (F := binary64) 10 2 Top (async_loop_init 5) []
    (ALoop 10 Top (snd (wake_async 12 (async_loop_init 5))) [])); [|done].
  eapply aquiet_step; [exact (als_run_wake (F := binary64) 10 Top (async_loop_init 5) [] 12 [])|done|].
  apply aquiet_refl.
Defined.
