(* ===== verification/AsyncDistributed.v ===== *)
(** * AsyncDistributed: the asynchronous distributed limiter

    Model of [AbstractAsyncDistributedRateLimiter], [AsyncTaskLifecycle] and
    [AsyncDrainSignalSubscriber] (core/async_limiters.py).  Each coroutine is
    translated from its own text.  What differs from the synchronous class is
    in the state: a wake is pending on the event loop until its coroutine
    runs, and the heartbeat scheduler exists only after [start]. *)

From S2P Require Import Prelude Float Text Json Redis Keyspace Scripts Md5 Py Base Loop Heartbeat Dist Distributed AsyncLoop.

Open Scope Z_scope.
Open Scope rl_scope.

(** What an asynchronous limiter has besides its configuration. *)
Record event_loop := EventLoop {
  el_wakes : list Q;       (* targets of the pending [_wake_async] coroutines *)
  el_scheduler : bool;     (* [start] created the heartbeat scheduler *)
}.

Class IsAsync (O : Type) := {
  async_dist :: IsDist O;
  extra_of : O -> event_loop;
  with_extra : (event_loop -> event_loop) -> O -> O;
}.

Record adist := ADist { a_dist : dist; a_extra : event_loop }.

#[export, refine] Instance adist_is_dist : IsDist adist := {
  dist_of := a_dist;
  with_dist := fun f o => ADist (f (a_dist o)) (a_extra o);
}.
Proof.
  - done.
  - intros f g o E. by rewrite E.
  - by intros [].
Defined.

#[export] Instance adist_is_async : IsAsync adist := {
  extra_of := a_extra;
  with_extra := fun f o => ADist (a_dist o) (f (a_extra o));
}.

Section AsyncLimiter.
Context {F : Rounding} {R : Type} {RS : RedisServer R} {O : Type} {D : IsAsync O}.
Context {P : Resources} {G : Digest} {B : Backend R O}.

Abbreviation io := (py R O).

Definition push_wake (target : Q) (e : event_loop) : event_loop :=
  EventLoop (el_wakes e ++ [target]) (el_scheduler e).

(** [_schedule_drain] and [AsyncDrainLoop.wake] *)
Definition async_schedule_drain (delay : Q) : io unit :=
  d ← me;
  match d_drain_loop d with
  | None => skip
  | Some _ =>
      now ← monotonic;
      _ ← emit (EWake delay);
      modify (with_extra (push_wake (async_wake now delay)))
  end.

(** The event loop runs the pending coroutines. *)
Definition run_wakes : io unit :=
  o ← self;
  let wakes := el_wakes (extra_of o) in
  _ ← modify (with_dist (fun d => with_loop (settle wakes <$> d_drain_loop d) d));
  modify (with_extra (fun e => EventLoop [] (el_scheduler e))).

(** ** Construction *)

(** [__init__] creates the loop, the subscriber and the monitor, and starts
    nothing. *)
Definition async_limiter_init (k : dist_config) : io unit :=
  h ← uuid4;
  d ← of_sum (dist_init k (uuid_str h));
  _ ← modify (with_extra (fun _ => EventLoop [] false));
  let has_health_monitor :=
    k_drain_enabled k && (match check_backend_health (R := R) (O := O) with Some _ => true | None => false end) in
  modify (with_dist (fun _ =>
    with_services (if has_health_monitor then Some true else None) false false
      (with_loop (if k_drain_enabled k then Some (async_loop_init (watchdog_interval d)) else None) d))).

(** [AsyncDrainSignalSubscriber.start] *)
Definition async_subscriber_start : io unit :=
  _ ← trip (Ret tt);
  _ ← emit (EThread "subscriber");
  modify (with_dist (fun d => with_services (d_healthy d) true (d_shutdown_called d) d)).

(** [start] *)
Definition async_start : io unit :=
  _ ← async_register_script "consume.lua";
  _ ← async_register_script "schedule.lua";
  _ ← async_register_script "health.lua";
  _ ← async_register_script "renew.lua";
  _ ← async_register_script "release.lua";
  _ ← modify (with_dist (fun d => with_heartbeats (async_hs_init (d_lease_duration d)) d));
  _ ← modify (with_extra (fun e => EventLoop (el_wakes e) true));
  d ← me;
  _ ← when (d_drain_enabled d) async_subscriber_start;
  match d_healthy d with Some _ => emit (EThread "health monitor") | None => skip end.

(** [self.limiter._heartbeat_scheduler] *)
Definition heartbeat_scheduler : io unit :=
  o ← self;
  when (negb (el_scheduler (extra_of o))) (raise (AttributeError "_heartbeat_scheduler")).

(** ** Drain requests, signals and metrics *)

(** [_publish_drain_signal] *)
Definition async_publish_drain_signal : io unit :=
  d ← me;
  catch is_exception (command (PUBLISH (drain_channel d) (d_worker_id d))) (fun _ => skip).

Definition async_trigger_consume : io unit :=
  _ ← async_schedule_drain 0;
  async_publish_drain_signal.

(** ** Scheduling *)

(** [_cleanup_inflight_key] *)
Definition async_cleanup_inflight_key (inflight_key : string) : io unit :=
  catch is_exception (_ ← command (DEL inflight_key); skip) (fun _ => skip).

Definition async_schedule_task (func_path : string) (payload : list (string * json)) (priority : pyfloat)
    (max_age : option Z) : io (bool * string) :=
  match priority with
  | Infinite _ | NotANumber => raise (ValueError "priority must be a finite number")
  | Finite prio =>
      d ← me;
      let task_id := task_id_of func_path payload in
      let inflight_key := get_inflight_key task_id d in
      let inflight_ttl := get_inflight_ttl max_age d in
      claimed ← command (SET inflight_key "1" (Ex inflight_ttl) true);
      if negb claimed then
        _ ← emit_metric "schedule" (schedule_metric false task_id);
        mret (false, task_id)
      else
        let full_data := get_task_data_str task_id func_path payload d in
        _ ← catch is_exception
              (async_eval_script "schedule.lua" (schedule_lua (buffer_key d) full_data prio (or_empty max_age)))
              (fun e => _ ← async_cleanup_inflight_key inflight_key; raise e);
        _ ← async_trigger_consume;
        _ ← emit_metric "schedule" (schedule_metric true task_id);
        mret (true, task_id)
  end.

(** [task_lifecycle] and [AsyncTaskLifecycle.__init__] *)
Definition async_task_lifecycle (task_id : string) (on_failure_override : option string) : io lifecycle :=
  d ← me;
  let strategy := match on_failure_override with
                  | Some s => if String.eqb s estr then d_on_failure d else s
                  | None => d_on_failure d
                  end in
  mret (Lifecycle task_id (lower strategy) Created).

(** [acquire] *)
Definition async_acquire (timeout : Q) (priority : pyfloat) : io lifecycle :=
  d ← me;
  if Qle_bool timeout 0 then raise (ValueError "timeout must be positive")
  else
    match d_drain_loop d with
    | None => raise (RuntimeError "acquire() requires drain_enabled=True")
    | Some _ =>
        let timeout_ms := py_trunc (timeout ⊗ 1000) in
        h ← uuid4;
        st ← async_schedule_task marker_path [("_uuid", JStr h); ("_acquire_timeout_ms", JInt timeout_ms)]
               priority (Some (Z.max 1 (Qceiling timeout)));
        let '(scheduled, task_id) := st in
        if negb scheduled then raise (RuntimeError "acquire marker rejected by buffer")
        else
          let signal_key := d_id d +:+ ":acquire:" +:+ task_id in
          signal ← blpop signal_key;
          match signal with
          | None => raise (AcquireTimeout "timed out")
          | Some _ => async_task_lifecycle task_id None
          end
    end.

(** ** Consumption and leases *)

Definition async_consume : io consume_result :=
  d ← me;
  result ← async_eval_script "consume.lua" (consume_script d);
  res ← of_sum (parse_consume result);
  _ ← (if truthy (task res) then _ ← of_sum (json_item "id" (task res)); skip else skip);
  _ ← emit_metric "consume" (consume_metric res);
  mret res.

Definition async_extend_lease (task_id : string) (duration : Z) : io unit :=
  d ← me;
  renewed ← async_eval_script "renew.lua" (renew_lua (concurrency_key d) task_id duration);
  when (negb (renewed =? 1)) (raise (KeyError "task id was not found in the concurrency set.")).

Definition async_get_buffer_count : io Z :=
  d ← me;
  command (ZCARD (buffer_key d)).

(** ** Drain *)

(** The branches of [_drain_inner] after the result of [consume]. *)
Definition async_rate_limited_delay (res : consume_result) : io Q :=
  d ← me;
  let base_delay := token_recovery_delay (val_previous res) (val_current res) (reset_in_ms res) d in
  let is_fallback := (val_previous res <=? 0) || (d_limit d <=? val_current res) in
  jitter ← (if is_fallback then
              if d_jitter_enabled d then
                u ← random;
                mret (smart_jitter (remaining_tasks res) (active_concurrency res) u d)
              else mret 0%Q
            else mret 0%Q);
  mret (round3 (fmax (rnd (1 # 1000)) (base_delay ⊕ jitter))).

Definition async_after_consume (res : consume_result) : io unit :=
  d ← me;
  if yielded res then async_schedule_drain (token_interval d)
  else if success res then
    match task res with
    | JNull => raise (AssertionError "task must be present when success is True")
    | t =>
        task_id ← of_sum (json_get "id" t);
        func_path ← of_sum (json_item "func_path" t);
        _ ← (if is_text marker_path func_path then skip
             else
               payload ← of_sum (json_item "payload" t);
               dispatch_task func_path payload task_id);
        when (0 <? remaining_tasks res) (async_schedule_drain 0)
    end
  else if remaining_tasks res =? 0 then skip
  else if d_max_concurrency d <=? active_concurrency res then skip
  else if marker_skipped res then when (0 <? remaining_tasks res) (async_schedule_drain 0)
  else if res_remaining_tokens res <=? 0 then
    delay ← async_rate_limited_delay res;
    async_schedule_drain delay
  else skip.

Definition async_drain_inner : io unit :=
  capacity ← has_local_capacity;
  if negb capacity then
    d ← me;
    async_schedule_drain (token_interval d)
  else
    res ← async_consume;
    async_after_consume res.

(** The body of the [try] of [drain]. *)
Definition async_drain_body : io unit :=
  now ← monotonic;
  d ← me;
  _ ← (match refresh_hook (R := R) (O := O) with
       | Some refresh_config =>
           if Qle_bool 1 (now ⊖ d_last_refresh_at d) then
             _ ← modify (with_dist (with_refreshed_at now));
             refresh_config
           else skip
       | None => skip
       end);
  d ← me;
  wall ← wall_time;
  let paused_until := b_drain_paused_until (d_base d) in
  if Qltb wall paused_until then async_schedule_drain (paused_until ⊖ wall)
  else
    _ ← async_drain_inner;
    modify (with_dist (with_failures 0)).

Definition async_drain_failed (_ : exn) : io unit :=
  _ ← modify (with_dist (fun d => with_failures (d_drain_failures d + 1) d));
  d ← me;
  delay ← of_sum (backoff (d_window d) (d_drain_failures d));
  catch is_exception (async_schedule_drain delay) (fun _ => skip).

Definition async_drain : io unit := catch is_exception async_drain_body async_drain_failed.

(** ** Task lifecycle *)

(** [__aenter__] *)
Definition async_lifecycle_enter (t : lifecycle) : io lifecycle :=
  _ ← heartbeat_scheduler;
  now ← monotonic;
  _ ← modify (with_dist (fun d =>
        with_heartbeats (snd (async_hs_register now (tl_task_id t) (tl_action t) (d_heartbeats d))) d));
  mret (Lifecycle (tl_task_id t) (tl_action t) Entered).

(** [is_healthy]: the flag of the entry the lifecycle holds. *)
Definition async_lifecycle_healthy (t : lifecycle) (d : dist) : bool :=
  match tl_phase t with
  | Created => true
  | Entered => match async_hs_get_entry (tl_task_id t) (d_heartbeats d) with Some e => he_healthy e | None => true end
  | Exited healthy => healthy
  end.

(** [__aexit__] *)
Definition async_lifecycle_exit (t : lifecycle) : io unit :=
  let task_id := tl_task_id t in
  _ ← heartbeat_scheduler;
  _ ← modify (with_dist (fun d => with_heartbeats (async_hs_deregister task_id (d_heartbeats d)) d));
  finally
    (d ← me;
     let inflight_key := if String.eqb task_id estr then estr else get_inflight_key task_id d in
     _ ← async_eval_script "release.lua"
           (release_lua (concurrency_key d) inflight_key (drain_channel d) task_id (d_worker_id d));
     skip)
    (async_schedule_drain 0).

(** [with limiter.async_task_lifecycle(task_id): body] *)
Definition async_with_lifecycle {A} (t : lifecycle) (body : io A) : io A :=
  t' ← async_lifecycle_enter t;
  finally body (async_lifecycle_exit t').

(** ** The async_drain signal subscriber *)

(** One turn of [AsyncDrainSignalSubscriber._run]: [get_message] returned nothing,
    a message with its type and data, or an exception. *)
Definition async_subscriber_poll (message : exn + option (string * string)) : io unit :=
  catch is_exception
    (m ← of_sum message;
     match m with
     | Some (kind, sender_id) =>
         d ← me;
         when (String.eqb kind "message" && negb (String.eqb sender_id (d_worker_id d))) (async_schedule_drain 0)
     | None => skip
     end)
    (fun _ => d ← me; when (d_subscribed d) (emit (ESleep 1))).

Fixpoint async_subscriber_run (messages : list (exn + option (string * string))) : io unit :=
  match messages with
  | [] => skip
  | m :: ms =>
      d ← me;
      if d_subscribed d then
        _ ← async_subscriber_poll m;
        async_subscriber_run ms
      else skip
  end.

(** ** Shutdown and status *)

(** [AsyncDrainSignalSubscriber.shutdown]: UNSUBSCRIBE and close, best effort;
    the task is cancelled. *)
Definition async_subscriber_shutdown : io unit :=
  _ ← modify (with_dist (fun d => with_services (d_healthy d) false (d_shutdown_called d) d));
  catch is_exception (_ ← trip (Ret tt); skip) (fun _ => skip).

Definition async_shutdown : io unit :=
  _ ← modify (with_dist (fun d => with_services (d_healthy d) (d_subscribed d) true d));
  d ← me;
  _ ← (match d_healthy d with Some _ => emit (EStop "health monitor") | None => skip end);
  _ ← (match d_drain_loop d with
       | Some l => modify (with_dist (with_loop (Some (async_loop_shutdown l))))
       | None => skip
       end);
  _ ← (if d_drain_enabled d then async_subscriber_shutdown else skip);
  o ← self;
  when (el_scheduler (extra_of o))
    (modify (with_dist (fun d => with_heartbeats (async_hs_shutdown (d_heartbeats d)) d))).

(** [__del__]: whether the ResourceWarning is raised. *)
Definition async_del_warns (d : dist) : bool :=
  (match d_drain_loop d with Some _ => true | None => false end) && negb (d_shutdown_called d).

(** [get_status] *)
Definition async_get_status : io json :=
  d ← me;
  r ← async_eval_script "health.lua" (health_lua (d_id d) (buffer_key d) (concurrency_key d) (d_window d));
  mret (JObj
    [("limiter_id", JStr (d_id d));
     ("concurrency", JObj [("current", JInt (hl_active r)); ("max", JInt (d_max_concurrency d));
                           ("available", JInt (Z.max 0 (d_max_concurrency d - hl_active r)))]);
     ("buffer", JObj [("count", JInt (hl_buffer r))]);
     ("rate_limit", JObj [("val_previous", JInt (hl_previous r)); ("val_current", JInt (hl_current r));
                          ("tokens_used", float_json (rnd (hl_estimated r)));
                          ("limit", JInt (d_limit d)); ("window", float_json (d_window d));
                          ("reset_in_ms", JInt (hl_reset_in_ms r))])]).

(** The renewal of one task by the heartbeat thread. *)
Definition async_renew_task (task_id action : string) : io unit :=
  fun w =>
    let '(outcome, w') := async_extend_lease task_id (d_lease_duration (dist_of (w_obj w))) w in
    let '(effect, s) := async_renew_one task_id action outcome (d_heartbeats (dist_of (w_obj w'))) in
    let w' := set_obj (with_dist (with_heartbeats s) (w_obj w')) w' in
    match effect with
    | RenewRaised e => (inl e, w')
    | RenewKill => emit EKill w'
    | RenewOk | RenewFailed => (inr tt, w')
    end.
End AsyncLimiter.
