(* ===== verification/AsyncSim.v ===== *)
(** * AsyncSim: the asynchronous limiter refines the synchronous one

    The two classes are written twice.  Here every coroutine of the
    asynchronous limiter is shown to simulate the method it mirrors: same
    result or exception, same commands to Redis, same observable calls, and
    the same state once the event loop has run the wakes that are pending. *)

From S2P Require Import Prelude Float Text Json Redis Keyspace Scripts Md5 Py Base Loop Heartbeat Dist Distributed Limiter AsyncLoop AsyncDistributed.

Open Scope Z_scope.
Open Scope rl_scope.

Section Sim.
Context {F : Rounding} {R : Type} {RS : RedisServer R} {P : Resources} {G : Digest}.

(** The synchronous limiter an asynchronous one stands for: its pending wakes
    are settled. It has been started and not shut down. *)
Record sim_obj (a : adist) (s : dist) : Prop := {
  so_started : el_scheduler (a_extra a) = true;
  so_dist : s = with_loop (settle (el_wakes (a_extra a)) <$> d_drain_loop (a_dist a)) (a_dist a);
  so_open : forall l, d_drain_loop (a_dist a) = Some l -> l_shutdown l = false;
}.

Record sim_world (wa : world R adist) (ws : world R dist) : Prop := {
  sw_srv : w_srv wa = w_srv ws;
  sw_cache : w_cache wa = w_cache ws;
  sw_net : w_net wa = w_net ws;
  sw_mono : w_mono wa = w_mono ws;
  sw_wall : w_wall wa = w_wall ws;
  sw_rand : w_rand wa = w_rand ws;
  sw_uuid : w_uuid wa = w_uuid ws;
  sw_trace : w_trace wa = w_trace ws;
  sw_obj : sim_obj (w_obj wa) (w_obj ws);
}.

(** Same outcome, related worlds. *)
Definition sim {A} (ma : py R adist A) (ms : py R dist A) : Prop := forall wa ws,
  sim_world wa ws -> fst (ma wa) = fst (ms ws) /\ sim_world (snd (ma wa)) (snd (ms ws)).

(** ** Rules *)

Lemma sim_ret {A} (a : A) : sim (mret a) (mret a).
Proof. by intros wa ws H. Qed.

Lemma sim_raise {A} e : sim (raise (A := A) e) (raise e).
Proof. by intros wa ws H. Qed.

Lemma sim_of_sum {A} (x : exn + A) : sim (of_sum x) (of_sum x).
Proof. by intros wa ws H. Qed.

Lemma sim_bind {A B} (ma : py R adist A) ms (fa : A -> py R adist B) fs :
  sim ma ms -> (forall a, sim (fa a) (fs a)) -> sim (ma ≫= fa) (ms ≫= fs).
Proof.
  intros Hm Hf wa ws H. destruct (Hm wa ws H) as [E1 E2]. rewrite !bind_eq.
  destruct (ma wa) as [ra wa'], (ms ws) as [rs ws']. cbn in E1, E2. subst rs.
  destruct ra as [e|a]; [done|]. by apply Hf.
Qed.

Lemma sim_catch {A} p (ma : py R adist A) ms ha hs :
  sim ma ms -> (forall e, sim (ha e) (hs e)) -> sim (catch p ma ha) (catch p ms hs).
Proof.
  intros Hm Hh wa ws H. destruct (Hm wa ws H) as [E1 E2]. unfold catch.
  destruct (ma wa) as [ra wa'], (ms ws) as [rs ws']. cbn in E1, E2. subst rs.
  destruct ra as [e|a]; [|done]. destruct (p e); [by apply Hh|done].
Qed.

Lemma sim_finally {A} (ma : py R adist A) ms fa fs :
  sim ma ms -> sim fa fs -> sim (finally ma fa) (finally ms fs).
Proof.
  intros Hm Hf wa ws H. destruct (Hm wa ws H) as [E1 E2]. unfold finally.
  destruct (ma wa) as [ra wa'], (ms ws) as [rs ws']. cbn in E1, E2. subst rs.
  destruct (Hf wa' ws' E2) as [E3 E4]. destruct (fa wa') as [r3 w3], (fs ws') as [r4 w4].
  cbn in E3, E4. subst r4. by destruct r3.
Qed.

Lemma sim_when c ma ms : sim ma ms -> sim (when c ma) (when c ms).
Proof. intros H. destruct c; [done|]. apply (sim_ret tt). Qed.

Lemma sim_monotonic : sim monotonic monotonic.
Proof. intros wa ws H. split; [|done]. cbn. by rewrite (sw_mono _ _ H). Qed.

Lemma sim_wall_time : sim wall_time wall_time.
Proof. intros wa ws H. split; [|done]. cbn. by rewrite (sw_wall _ _ H). Qed.

Lemma sim_random : sim random random.
Proof. intros wa ws []. split; cbn; [by do 3 f_equal|]. split; cbn; first [done|congruence]. Qed.

Lemma sim_uuid4 : sim uuid4 uuid4.
Proof. intros wa ws []. split; cbn; [by do 3 f_equal|]. split; cbn; first [done|congruence]. Qed.

Lemma sim_emit ev : sim (emit ev) (emit ev).
Proof. intros wa ws []. split; [done|]. split; cbn; first [done|congruence]. Qed.

(** Worlds that differ in the object only. *)
Ltac sim_close := split; [done|]; split; cbn; first [done|congruence].

Lemma sim_trip {A} (p : prog A) : sim (trip p) (trip p).
Proof.
  intros wa ws [E1 E2 E3 E4 E5 E6 E7 E8 E9]. unfold trip, arrive. rewrite E3.
  destruct (w_net ws) as [|n ns] eqn:En; rewrite E1.
  - destruct (run p (w_srv ws)) as [o r]. sim_close.
  - destruct (n_fault n); cbn; destruct (run p (n_env n (w_srv ws))) as [o r]; sim_close.
Qed.

Lemma sim_evalsha {A} sha (p : prog A) : sim (evalsha sha p) (evalsha sha p).
Proof.
  intros wa ws [E1 E2 E3 E4 E5 E6 E7 E8 E9]. unfold evalsha, arrive. rewrite E3.
  destruct (w_net ws) as [|n ns] eqn:En; rewrite E1, E2.
  - destruct (bool_decide (sha ∈ w_cache ws)); [destruct (run p (w_srv ws)) as [o r]|]; sim_close.
  - destruct (run p (n_env n (w_srv ws))) as [o r] eqn:Er.
    destruct (n_fault n); cbn [w_cache w_srv]; try case_bool_decide; try rewrite Er; sim_close.
Qed.

Lemma sim_script_load sha : sim (script_load sha) (script_load sha).
Proof.
  intros wa ws [E1 E2 E3 E4 E5 E6 E7 E8 E9]. unfold script_load, arrive. rewrite E3.
  destruct (w_net ws) as [|n ns] eqn:En; [sim_close|]. rewrite E1. destruct (n_fault n); sim_close.
Qed.

(** A change of attributes other than the drain loop. *)
Lemma sim_modify f :
  (forall l d, f (with_loop l d) = with_loop l (f d)) ->
  (forall d, d_drain_loop (f d) = d_drain_loop d) ->
  sim (modify (with_dist f)) (modify (with_dist f)).
Proof.
  intros Hc Hl wa ws [E1 E2 E3 E4 E5 E6 E7 E8 [S1 S2 S3]]. split; [done|].
  split; try done. split; cbn; [done| |].
  - by rewrite S2, Hc, Hl.
  - intros l. rewrite Hl. apply S3.
Qed.

Lemma sim_self_base {A} (fa : adist -> py R adist A) fs :
  (forall oa os, base_of oa = base_of os -> sim (fa oa) (fs os)) -> sim (self ≫= fa) (self ≫= fs).
Proof.
  intros Hf wa ws H. rewrite !bind_eq. cbn [self]. apply Hf; [|done].
  destruct H as [_ _ _ _ _ _ _ _ [_ S2 _]]. cbn. by rewrite S2.
Qed.

(** Reading the attributes: all but the drain loop agree. *)
Lemma sim_me {A} (fa : dist -> py R adist A) fs :
  (forall d l, (d_drain_loop d = None <-> l = None) -> sim (fa d) (fs (with_loop l d))) ->
  sim (me ≫= fa) (me ≫= fs).
Proof.
  intros Hf wa ws H. unfold me. rewrite !bind_assoc, !bind_eq. cbn [self]. rewrite !bind_eq.
  cbn [mret py_ret pret]. pose proof H as [_ _ _ _ _ _ _ _ [_ S2 _]]. cbn in S2.
  change (dist_of (w_obj wa)) with (a_dist (w_obj wa)). change (dist_of (w_obj ws)) with (w_obj ws).
  rewrite S2. apply Hf; [|done]. destruct (d_drain_loop (a_dist (w_obj wa))); by split.
Qed.

(** ** Scripts *)

Lemma sim_with_base f : sim (modify (with_base f)) (modify (with_base f)).
Proof. by apply sim_modify. Qed.

Lemma sim_register name : sim (async_register_script name) (register_script name).
Proof.
  unfold async_register_script, register_script. apply sim_self_base. intros oa os E. rewrite E.
  apply sim_bind.
  - destruct (b_script_sources (base_of os) !! name); [apply sim_ret|].
    apply sim_bind; [apply sim_of_sum|]. intros source. apply sim_bind; [apply sim_with_base|].
    intros _. apply sim_ret.
  - intros source. apply sim_bind; [apply sim_script_load|]. intros sha.
    apply sim_bind; [apply sim_with_base|]. intros _. apply sim_ret.
Qed.

Lemma sim_cached name : sim (cached_sha name) (cached_sha name).
Proof.
  unfold cached_sha. apply sim_self_base. intros oa os E. rewrite E.
  destruct (b_script_shas (base_of os) !! name); [apply sim_ret|apply sim_raise].
Qed.

Lemma sim_eval {A} name (p : prog A) : sim (async_eval_script name p) (eval_script name p).
Proof.
  unfold async_eval_script, eval_script. apply sim_self_base. intros oa os E. rewrite E.
  apply sim_bind; [destruct (b_script_shas (base_of os) !! name); [apply sim_ret|apply sim_register]|].
  intros _. apply sim_bind; [apply sim_cached|]. intros sha. apply sim_catch; [apply sim_evalsha|]. intros _.
  apply sim_bind; [apply sim_register|]. intros _. apply sim_bind; [apply sim_cached|]. intros sha'.
  apply sim_catch; [apply sim_evalsha|]. intros _. apply sim_raise.
Qed.
End Sim.

(** ** Operations *)

(** Backends whose hooks agree. *)
Class SimBackend {R : Type} `{Rounding} (BA : Backend R adist) (BS : Backend R dist) : Prop := {
  sim_capacity : sim (R := R) has_local_capacity has_local_capacity;
  sim_dispatch : forall f p t, sim (R := R) (dispatch_task f p t) (dispatch_task f p t);
  sim_refresh :
    match refresh_hook (R := R) (O := adist), refresh_hook (R := R) (O := dist) with
    | Some ra, Some rs => sim ra rs
    | None, None => True
    | _, _ => False
    end;
}.

Section Operations.
Context {F : Rounding} {R : Type} {RS : RedisServer R} {P : Resources} {G : Digest}.
Context {BA : Backend R adist} {BS : Backend R dist} {SB : SimBackend BA BS}.

Lemma settle_shutdown ts l : l_shutdown (settle ts l) = l_shutdown l.
Proof.
  revert l. induction ts as [|t ts IH]; intros l; [done|]. cbn. rewrite IH. unfold wake_async.
  destruct (l_shutdown l) eqn:E; cbn [negb]; unfold async_ensure_started; repeat case_match; cbn in *; congruence.
Qed.

(** A wake of the synchronous loop is the coroutine of the asynchronous one. *)
Lemma wake_settle now d ts l :
  l_shutdown l = false -> snd (wake now d (settle ts l)) = settle (ts ++ [async_wake now d]) l.
Proof.
  intros E. unfold settle. rewrite fold_left_app. cbn. change (fold_left _ ts l) with (settle ts l).
  unfold wake, wake_async, async_wake. rewrite settle_shutdown, E. done.
Qed.

Lemma sim_schedule_drain delay : sim (R := R) (async_schedule_drain delay) (schedule_drain delay).
Proof.
  intros wa ws H. pose proof H as [E1 E2 E3 E4 E5 E6 E7 E8 [S1 S2 S3]].
  unfold async_schedule_drain, schedule_drain, me. rewrite !bind_assoc, !bind_eq. cbn [self]. rewrite !bind_eq.
  cbn [mret py_ret pret]. change (dist_of (w_obj ws)) with (w_obj ws).
  change (dist_of (w_obj wa)) with (a_dist (w_obj wa)). rewrite S2. cbn [d_drain_loop with_loop].
  destruct (d_drain_loop (a_dist (w_obj wa))) as [l|] eqn:El; [|done]. cbn [fmap option_fmap option_map].
  rewrite !bind_eq. cbn [monotonic]. rewrite !bind_eq. cbn [emit]. split; [done|].
  split; cbn; try congruence. split; cbn; [done| |].
  - rewrite El. cbn. rewrite E4, <- wake_settle by by apply S3. rewrite S2. done.
  - intros l0 E0. apply S3. by rewrite <- E0, El.
Qed.

Lemma sim_command {A} (c : rcmd A) : sim (R := R) (command c) (command c).
Proof. apply sim_trip. Qed.

(** Attribute reads under [sim]: the limiter without its drain loop. *)
Ltac sim_me :=
  let d := fresh "d" in let l := fresh "l" in let Hl := fresh "Hl" in
  apply sim_me; intros d l Hl.

Lemma sim_emit_metric ev data : sim (R := R) (emit_metric ev data) (emit_metric ev data).
Proof.
  unfold emit_metric. sim_me. change (d_metrics_callback (with_loop l d)) with (d_metrics_callback d).
  destruct (d_metrics_callback d) as [cb|]; [|apply (sim_ret tt)]. apply sim_catch; [|intros; apply (sim_ret tt)].
  apply sim_bind; [apply sim_emit|]. intros _. destruct (cb ev data); [apply sim_raise|apply (sim_ret tt)].
Qed.

Lemma sim_publish : sim (R := R) async_publish_drain_signal publish_drain_signal.
Proof.
  unfold async_publish_drain_signal, publish_drain_signal. sim_me.
  apply sim_catch; [apply sim_command|]. intros _. apply (sim_ret tt).
Qed.

Lemma sim_trigger : sim (R := R) async_trigger_consume trigger_consume.
Proof. apply sim_bind; [apply sim_schedule_drain|]. intros _. apply sim_publish. Qed.

Lemma sim_cleanup k : sim (R := R) (async_cleanup_inflight_key k) (cleanup_inflight_key k).
Proof.
  apply sim_catch; [|intros; apply (sim_ret tt)]. apply sim_bind; [apply sim_command|].
  intros _. apply (sim_ret tt).
Qed.

Lemma sim_schedule_task f p prio age :
  sim (R := R) (async_schedule_task f p prio age) (schedule_task f p prio age).
Proof.
  unfold async_schedule_task, schedule_task. destruct prio as [q| |]; try apply sim_raise. sim_me.
  apply sim_bind; [apply sim_command|]. intros claimed. destruct claimed; cbn [negb].
  - apply sim_bind.
    { apply sim_catch; [apply sim_eval|]. intros e. apply sim_bind; [apply sim_cleanup|].
      intros _. apply sim_raise. }
    intros _. apply sim_bind; [apply sim_trigger|]. intros _.
    apply sim_bind; [apply sim_emit_metric|]. intros _. apply sim_ret.
  - apply sim_bind; [apply sim_emit_metric|]. intros _. apply sim_ret.
Qed.

Lemma sim_task_lifecycle id ov : sim (R := R) (async_task_lifecycle id ov) (task_lifecycle id ov).
Proof. unfold async_task_lifecycle, task_lifecycle. sim_me. apply sim_ret. Qed.

Lemma sim_acquire timeout prio : sim (R := R) (async_acquire timeout prio) (acquire timeout prio).
Proof.
  unfold async_acquire, acquire, acquire_with. sim_me. destruct (Qle_bool timeout 0); [apply sim_raise|].
  change (d_drain_loop (with_loop l d)) with l.
  destruct (d_drain_loop d) as [l1|], l as [l2|]; [|by destruct Hl as [_ Hl]; specialize (Hl eq_refl)
    |by destruct Hl as [Hl _]; specialize (Hl eq_refl)|apply sim_raise].
  apply sim_bind; [apply sim_uuid4|]. intros h. apply sim_bind; [apply sim_schedule_task|]. intros [ok id].
  destruct ok; cbn [negb]; [|apply sim_raise]. apply sim_bind; [apply sim_command|].
  intros [s|]; [apply sim_task_lifecycle|apply sim_raise].
Qed.

Lemma sim_consume : sim (R := R) async_consume consume.
Proof.
  unfold async_consume, consume. sim_me. apply sim_bind; [apply sim_eval|]. intros r.
  apply sim_bind; [apply sim_of_sum|]. intros res. apply sim_bind.
  - destruct (truthy (task res)); [|apply (sim_ret tt)]. apply sim_bind; [apply sim_of_sum|].
    intros _. apply (sim_ret tt).
  - intros _. apply sim_bind; [apply sim_emit_metric|]. intros _. apply sim_ret.
Qed.

Lemma sim_extend_lease id n : sim (R := R) (async_extend_lease id n) (extend_lease id n).
Proof.
  unfold async_extend_lease, extend_lease. sim_me. apply sim_bind; [apply sim_eval|].
  intros r. apply sim_when, sim_raise.
Qed.

Lemma sim_rate_limited res : sim (R := R) (async_rate_limited_delay res) (rate_limited_delay res).
Proof.
  unfold async_rate_limited_delay, rate_limited_delay. sim_me.
  change (d_limit (with_loop l d)) with (d_limit d).
  change (d_jitter_enabled (with_loop l d)) with (d_jitter_enabled d).
  apply sim_bind; [|intros j; apply sim_ret].
  destruct (_ || _); [|apply sim_ret]. destruct (d_jitter_enabled d); [|apply sim_ret].
  apply sim_bind; [apply sim_random|]. intros u. apply sim_ret.
Qed.

Lemma sim_dispatch_consumed t n : sim (R := R)
  (task_id ← of_sum (json_get "id" t); func_path ← of_sum (json_item "func_path" t);
   _ ← (if is_text marker_path func_path then skip
        else payload ← of_sum (json_item "payload" t); dispatch_task func_path payload task_id);
   when (0 <? n) (async_schedule_drain 0))
  (task_id ← of_sum (json_get "id" t); func_path ← of_sum (json_item "func_path" t);
   _ ← (if is_text marker_path func_path then skip
        else payload ← of_sum (json_item "payload" t); dispatch_task func_path payload task_id);
   when (0 <? n) (schedule_drain 0)).
Proof.
  apply sim_bind; [apply sim_of_sum|]. intros id. apply sim_bind; [apply sim_of_sum|]. intros fp.
  apply sim_bind.
  - destruct (is_text marker_path fp); [apply (sim_ret tt)|]. apply sim_bind; [apply sim_of_sum|].
    intros p. apply sim_dispatch.
  - intros _. apply sim_when, sim_schedule_drain.
Qed.

Lemma sim_after_consume res : sim (R := R) (async_after_consume res) (after_consume res).
Proof.
  unfold async_after_consume, after_consume. sim_me.
  change (token_interval (with_loop l d)) with (token_interval d).
  change (d_max_concurrency (with_loop l d)) with (d_max_concurrency d).
  destruct (yielded res); [apply sim_schedule_drain|]. destruct (success res).
  - destruct (task res); [apply sim_raise|apply sim_dispatch_consumed..].
  - destruct (remaining_tasks res =? 0); [apply (sim_ret tt)|].
    destruct (d_max_concurrency d <=? active_concurrency res); [apply (sim_ret tt)|].
    destruct (marker_skipped res); [apply sim_when, sim_schedule_drain|].
    destruct (res_remaining_tokens res <=? 0); [|apply (sim_ret tt)].
    apply sim_bind; [apply sim_rate_limited|]. intros delay. apply sim_schedule_drain.
Qed.

Lemma sim_drain_inner : sim (R := R) async_drain_inner drain_inner.
Proof.
  apply sim_bind; [apply sim_capacity|]. intros [|]; cbn [negb].
  - apply sim_bind; [apply sim_consume|]. intros res. apply sim_after_consume.
  - sim_me. apply sim_schedule_drain.
Qed.

Lemma sim_drain_body : sim (R := R) async_drain_body drain_body.
Proof.
  unfold async_drain_body, drain_body. apply sim_bind; [apply sim_monotonic|]. intros now. sim_me.
  apply sim_bind.
  - pose proof sim_refresh as Hr. destruct (refresh_hook (O := adist)) as [ra|], (refresh_hook (O := dist)) as [rs|];
      try done.
    change (d_last_refresh_at (with_loop l d)) with (d_last_refresh_at d).
    destruct (Qle_bool 1 _); [|apply (sim_ret tt)]. apply sim_bind; [by apply sim_modify|]. done.
  - intros _. sim_me. apply sim_bind; [apply sim_wall_time|]. intros wall.
    change (d_base (with_loop l0 d0)) with (d_base d0).
    destruct (Qltb wall _); [apply sim_schedule_drain|]. apply sim_bind; [apply sim_drain_inner|].
    intros _. by apply sim_modify.
Qed.

Lemma sim_drain : sim (R := R) async_drain drain.
Proof.
  apply sim_catch; [apply sim_drain_body|]. intros e. unfold async_drain_failed, drain_failed.
  apply sim_bind; [by apply sim_modify|]. intros _. sim_me.
  apply sim_bind; [apply sim_of_sum|]. intros delay. apply sim_catch; [apply sim_schedule_drain|].
  intros _. apply (sim_ret tt).
Qed.

Lemma sim_started : sim (R := R) heartbeat_scheduler skip.
Proof.
  intros wa ws H. unfold heartbeat_scheduler. rewrite bind_eq. cbn [self].
  destruct H as [? ? ? ? ? ? ? ? [S1 S2 S3]]. cbn. rewrite S1. cbn. done.
Qed.

Lemma bind_skip {O A} (m : py R O A) w : (_ ← skip; m) w = m w.
Proof. done. Qed.

Lemma sim_after_started {A} (ma : py R adist A) ms :
  sim ma ms -> sim (_ ← heartbeat_scheduler; ma) ms.
Proof.
  intros Hm wa ws H. rewrite <- (bind_skip ms). by apply (sim_bind _ _ _ (fun _ => ms) sim_started).
Qed.

Lemma sim_enter t : sim (R := R) (async_lifecycle_enter t) (lifecycle_enter t).
Proof.
  apply sim_after_started, sim_bind; [apply sim_monotonic|]. intros now.
  apply sim_bind; [by apply sim_modify|]. intros _. apply sim_ret.
Qed.

Lemma sim_exit t : sim (R := R) (async_lifecycle_exit t) (lifecycle_exit t).
Proof.
  apply sim_after_started, sim_bind; [by apply sim_modify|]. intros _. apply sim_finally; [|apply sim_schedule_drain].
  sim_me. apply sim_bind; [apply sim_eval|]. intros _. apply (sim_ret tt).
Qed.

Lemma sim_subscriber_poll m : sim (R := R) (async_subscriber_poll m) (subscriber_poll m).
Proof.
  apply sim_catch.
  - apply sim_bind; [apply sim_of_sum|]. intros [[kind sender]|]; [|apply (sim_ret tt)].
    sim_me. apply sim_when, sim_schedule_drain.
  - intros _. sim_me. apply sim_when, sim_emit.
Qed.

Lemma sim_get_status : sim (R := R) async_get_status get_status.
Proof.
  unfold async_get_status, get_status. sim_me. apply sim_bind; [apply sim_eval|]. intros r. apply sim_ret.
Qed.

Lemma sim_buffer_count : sim (R := R) async_get_buffer_count get_buffer_count.
Proof. unfold async_get_buffer_count, get_buffer_count. sim_me. apply sim_command. Qed.

(** C15. The asynchronous limiter refines the synchronous one.  From related
    worlds, with the same interference, failures, clocks and random numbers,
    each operation returns the same result or exception, sends the same
    commands and makes the same calls as the operation it mirrors, and once the
    pending wakes have run the two limiters are in the same state. *)
Theorem async_refines :
  (forall f p prio age, sim (R := R) (async_schedule_task f p prio age) (schedule_task f p prio age)) /\
  (forall timeout prio, sim (R := R) (async_acquire timeout prio) (acquire timeout prio)) /\
  sim (R := R) async_consume consume /\
  (forall id n, sim (R := R) (async_extend_lease id n) (extend_lease id n)) /\
  sim (R := R) async_drain drain /\
  (forall t, sim (R := R) (async_lifecycle_enter t) (lifecycle_enter t)) /\
  (forall t, sim (R := R) (async_lifecycle_exit t) (lifecycle_exit t)) /\
  (forall m, sim (R := R) (async_subscriber_poll m) (subscriber_poll m)) /\
  sim (R := R) async_get_status get_status /\
  sim (R := R) async_get_buffer_count get_buffer_count.
Proof.
  split_and!; auto using sim_schedule_task, sim_acquire, sim_consume, sim_extend_lease, sim_drain, sim_enter,
    sim_exit, sim_subscriber_poll, sim_get_status, sim_buffer_count.
Qed.

(** Running the pending wakes is a step of the event loop only. *)
Lemma sim_run_wakes : sim (R := R) run_wakes skip.
Proof.
  intros wa ws H. pose proof H as [E1 E2 E3 E4 E5 E6 E7 E8 [S1 S2 S3]].
  unfold run_wakes. rewrite bind_eq. cbn [self]. rewrite bind_eq. cbn [modify]. split; [done|].
  split; cbn; try congruence. split; cbn; [done| |].
  - rewrite S2. destruct (a_dist (w_obj wa)) as [? ? ? ? ? ? ? ? ? ? ? ? ? lp]. cbn. by destruct lp.
  - intros l. rewrite fmap_Some. intros (l0 & El & ->). rewrite settle_shutdown. by apply S3.
Qed.
End Operations.

(** ** Witness *)

#[local] Existing Instance binary64.
#[local] Existing Instance demo_resources.
#[local] Existing Instance demo_digest.
#[local] Existing Instance demo_backend.

Definition demo_async_backend : Backend db adist := {|
  has_local_capacity := mret true;
  dispatch_task := fun f p t => emit (EDispatch f p t);
  check_backend_health := None;
  refresh_hook := None;
|}.
#[local] Existing Instance demo_async_backend.

Lemma demo_sim_backend : SimBackend demo_async_backend demo_backend.
Proof. split; [apply sim_ret|intros f p t; apply sim_emit|done]. Qed.

Lemma async_refines_witness :
  sim (R := db) async_consume consume /\ sim (R := db) async_drain drain.
Proof.
  destruct (async_refines (SB := demo_sim_backend)) as (_ & _ & H1 & _ & H2 & _). by split.
Defined.
