(* ===== verification/Pool.v ===== *)
(** * Pool: backends that run tasks in the own process

    The thread pool, process pool and asyncio backends.  Each counts the tasks
    it has dispatched and not seen completed, and refuses to drain when the
    count reaches the size of the pool.  Theorems: with drains, submissions,
    completions, cancellations and shutdowns interleaved in any way the pool
    is never overcommitted, and the count is exact up to the submissions the
    executor refused and the tasks cancelled before they began; and what a
    refused submission leaves behind. *)

From S2P Require Import Prelude Float Text Json Redis Keyspace Scripts Py Base Importing Loop Heartbeat Dist Managed Distributed Limiter ManagedDist AsyncLoop AsyncDistributed.

Open Scope Z_scope.
Open Scope rl_scope.

(** A submitted task. *)
Record ltask := LTask { lt_func : pyobj; lt_payload : json; lt_id : string }.

(** A limiter with its pool: [lo_tasks] are submitted and not started,
    [lo_running] have entered their lifecycle (the process pool enters it on
    submission and keeps both lists in step), [lo_cancelled] were cancelled
    while they were queued (the asyncio limiter keeps them in [_active_tasks]
    for good, together with the two others); [lo_broken] says that the
    executor is shut down or broken and refuses submissions. *)
Record local (D : Type) := Local {
  lo_limiter : D;
  lo_max : Z;                     (* [_local_max_workers], [max_tasks] *)
  lo_dispatched : Z;              (* [_local_dispatched], [_active_count] *)
  lo_tasks : list ltask;
  lo_running : list lifecycle;
  lo_cancelled : list ltask;
  lo_broken : bool;
}.
Arguments Local {D} _ _ _ _ _ _ _.
Arguments lo_limiter {D} _.
Arguments lo_max {D} _.
Arguments lo_dispatched {D} _.
Arguments lo_tasks {D} _.
Arguments lo_running {D} _.
Arguments lo_cancelled {D} _.
Arguments lo_broken {D} _.

Definition with_limiter {D} (f : D -> D) (o : local D) : local D :=
  Local (f (lo_limiter o)) (lo_max o) (lo_dispatched o) (lo_tasks o) (lo_running o) (lo_cancelled o) (lo_broken o).
Definition with_count {D} (f : Z -> Z) (o : local D) : local D :=
  Local (lo_limiter o) (lo_max o) (f (lo_dispatched o)) (lo_tasks o) (lo_running o) (lo_cancelled o) (lo_broken o).
Definition with_tasks {D} (f : list ltask -> list ltask) (o : local D) : local D :=
  Local (lo_limiter o) (lo_max o) (lo_dispatched o) (f (lo_tasks o)) (lo_running o) (lo_cancelled o) (lo_broken o).
Definition with_running {D} (f : list lifecycle -> list lifecycle) (o : local D) : local D :=
  Local (lo_limiter o) (lo_max o) (lo_dispatched o) (lo_tasks o) (f (lo_running o)) (lo_cancelled o) (lo_broken o).
Definition with_cancelled {D} (f : list ltask -> list ltask) (o : local D) : local D :=
  Local (lo_limiter o) (lo_max o) (lo_dispatched o) (lo_tasks o) (lo_running o) (f (lo_cancelled o)) (lo_broken o).

#[export, refine] Instance local_is_dist {D} `{IsDist D} : IsDist (local D) := {
  dist_of := fun o => dist_of (lo_limiter o);
  with_dist := fun f o => with_limiter (with_dist f) o;
}.
Proof.
  - intros f o. apply dist_of_with.
  - intros f g o E. unfold with_limiter. by rewrite (with_dist_ext f g).
  - intros []. unfold with_limiter. cbn. by rewrite with_dist_id.
Defined.

#[export] Instance local_is_async {D} `{IsAsync D} : IsAsync (local D) := {
  async_dist := local_is_dist;
  extra_of := fun o => extra_of (lo_limiter o);
  with_extra := fun f o => with_limiter (with_extra f) o;
}.

(** Application code of a task, and whether a function is a coroutine. *)
Class Tasks (R O : Type) := call_task : pyobj -> json -> py R O unit.
Class Coroutines := is_coroutine : pyobj -> bool.

(** [import_string(func_path)] of a parsed document. *)
Definition import_path {R O} {M : Modules} (func_path : json) : py R O pyobj :=
  of_sum (match func_path with JStr s => import_string s | _ => inl (AttributeError "rsplit") end).

Definition task_text (task_id : json) : string := match task_id with JStr s => s | _ => estr end.

Section Pool.
Context {F : Rounding} {R : Type} {RS : RedisServer R} {P : Resources} {G : Digest} {M : Modules}.

(** ** Shared bookkeeping *)

Section Shared.
Context {D : Type}.

Definition count_up : py R (local D) unit := modify (with_count (fun n => n + 1)).
Definition count_down : py R (local D) unit := modify (with_count (fun n => n - 1)).

(** [_has_local_capacity] *)
Definition local_capacity : py R (local D) bool := o ← self; mret (lo_dispatched o <? lo_max o).

(** [executor.submit] *)
Definition submit (t : ltask) : py R (local D) unit :=
  o ← self;
  if lo_broken o then raise (RuntimeError "cannot schedule new futures")
  else modify (with_tasks (fun ts => ts ++ [t])).

(** Construction: the pool of the backend and an empty count. *)
Definition local_init (max : Z) (init : py R (local D) unit) : py R (local D) unit :=
  _ ← init;
  modify (fun o => Local (lo_limiter o) max 0 [] [] [] (lo_broken o)).

(** A task is cancelled while it is queued: the future by a shutdown of the
    executor with [cancel_futures], the asyncio task by any [cancel] before
    its first step.  [_run_task] does not run, nor does its [finally]. *)
Definition queued_cancelled (i : nat) : py R (local D) unit :=
  o ← self;
  match lo_tasks o !! i with
  | None => skip
  | Some t => modify (fun o => with_tasks (delete i) (with_cancelled (fun ts => ts ++ [t]) o))
  end.
End Shared.

(** ** ThreadPoolRateLimiter *)

Section Threads.
Context {B : Backend R (local dist)} {T : Tasks R (local dist)}.

Abbreviation io := (py R (local dist)).

Definition thread_init (max_workers : Z) (k : dist_config) : io unit := local_init max_workers (limiter_init k).

(** [_has_local_capacity], [_dispatch_task] *)
Definition thread_capacity : io bool := local_capacity.

Definition thread_dispatch (func_path payload task_id : json) : io unit :=
  target_func ← import_path func_path;
  _ ← count_up;
  submit (LTask target_func payload (task_text task_id)).

(** [_run_task] up to the call of the target, by a thread of the pool, which
    takes the oldest task.  An exception is kept in the future and logged. *)
Definition thread_begin : io unit :=
  o ← self;
  match lo_tasks o with
  | [] => skip
  | t :: ts =>
      _ ← modify (with_tasks (fun _ => ts));
      catch (fun _ => true)
        (l' ← (l ← task_lifecycle (lt_id t) None; lifecycle_enter l);
         modify (with_running (fun ls => ls ++ [l'])))
        (fun _ => count_down)
  end.

Definition thread_body (t : ltask) : io unit := call_task (lt_func t) (lt_payload t).

(** The rest of [_run_task]: the target has returned or raised; the lifecycle
    ends, and then the count goes down, whatever the exit does. *)
Definition thread_end (i : nat) : io unit :=
  o ← self;
  match lo_running o !! i with
  | None => skip
  | Some l =>
      _ ← modify (with_running (delete i));
      catch (fun _ => true) (finally (lifecycle_exit l) count_down) (fun _ => skip)
  end.

(** The class in the registry; [executor] is the context of the class. *)
Definition managed_threads (max_workers : Z) : Managed R (local dist) := {|
  managed_base := dist_is_base (local dist);
  blank := Local blank_dist 0 0 [] [] [] false;
  construct := fun limiter_id kw => k ← of_sum (config_of_kwargs limiter_id kw); thread_init max_workers k;
  start := skip;
  apply_config_overrides := dist_apply_overrides;
  persisted_config := fun o => build_persist_config (dist_of o);
|}.

Definition thread_backend (max_workers : Z) : Backend R (local dist) := {|
  has_local_capacity := thread_capacity;
  dispatch_task := thread_dispatch;
  check_backend_health := None;
  refresh_hook := Some (_ ← refresh_config (M := managed_threads max_workers); skip);
|}.

(** ** ProcessPoolRateLimiter *)

Definition process_init (max_workers : Z) (k : dist_config) : io unit := local_init max_workers (limiter_init k).

Definition process_capacity : io bool := local_capacity.

(** The lifecycle is entered in the parent, before the submission. *)
Definition process_dispatch (func_path payload task_id : json) : io unit :=
  target_func ← import_path func_path;
  _ ← count_up;
  lifecycle ← task_lifecycle (task_text task_id) None;
  l ← lifecycle_enter lifecycle;
  _ ← submit (LTask target_func payload (task_text task_id));
  modify (with_running (fun ls => ls ++ [l])).

Definition managed_processes (max_workers : Z) : Managed R (local dist) := {|
  managed_base := dist_is_base (local dist);
  blank := Local blank_dist 0 0 [] [] [] false;
  construct := fun limiter_id kw => k ← of_sum (config_of_kwargs limiter_id kw); process_init max_workers k;
  start := skip;
  apply_config_overrides := dist_apply_overrides;
  persisted_config := fun o => build_persist_config (dist_of o);
|}.

Definition process_backend (max_workers : Z) : Backend R (local dist) := {|
  has_local_capacity := process_capacity;
  dispatch_task := process_dispatch;
  check_backend_health := None;
  refresh_hook := Some (_ ← refresh_config (M := managed_processes max_workers); skip);
|}.

(** [_on_done]: the future of task [i] is done, or was cancelled, whereupon
    [f.exception()] raises; the executor logs what a callback raises. *)
Definition process_on_done (i : nat) (cancelled : bool) : io unit :=
  o ← self;
  match lo_running o !! i with
  | None => skip
  | Some l =>
      _ ← modify (fun o => with_tasks (delete i) (with_running (delete i) o));
      if cancelled then skip
      else catch is_exception (finally (lifecycle_exit l) count_down) (fun _ => skip)
  end.
End Threads.

(** ** AsyncIOTaskLimiter *)

Section Asyncio.
Context {B : Backend R (local adist)} {T : Tasks R (local adist)} {C : Coroutines}.

Abbreviation aio := (py R (local adist)).

Definition asyncio_init (max_tasks : Z) (k : dist_config) : aio unit := local_init max_tasks (async_limiter_init k).

Definition asyncio_capacity : aio bool := local_capacity.

(** [asyncio.create_task] always succeeds inside a running loop. *)
Definition asyncio_dispatch (func_path payload task_id : json) : aio unit :=
  target_func ← import_path func_path;
  _ ← count_up;
  modify (with_tasks (fun ts => ts ++ [LTask target_func payload (task_text task_id)])).

(** [_run_task]: the first step of the oldest task ... *)
Definition asyncio_begin : aio unit :=
  o ← self;
  match lo_tasks o with
  | [] => skip
  | t :: ts =>
      _ ← modify (with_tasks (fun _ => ts));
      catch (fun _ => true)
        (l' ← (l ← async_task_lifecycle (lt_id t) None; async_lifecycle_enter l);
         modify (with_running (fun ls => ls ++ [l'])))
        (fun _ => count_down)
  end.

(** ... the body of its lifecycle ... *)
Definition asyncio_body (func_path : string) (t : ltask) : aio unit :=
  if negb (is_coroutine (lt_func t)) then raise (TypeError func_path)
  else call_task (lt_func t) (lt_payload t).

(** ... and its end, after the body returned, raised or was cancelled. *)
Definition asyncio_end (i : nat) : aio unit :=
  o ← self;
  match lo_running o !! i with
  | None => skip
  | Some l =>
      _ ← modify (with_running (delete i));
      catch (fun _ => true) (finally (async_lifecycle_exit l) count_down) (fun _ => skip)
  end.

(** The cancelled tasks end; one that has not started never runs. *)
Fixpoint asyncio_cancel (n : nat) : aio unit :=
  match n with
  | 0%nat => skip
  | S n => _ ← asyncio_end 0; asyncio_cancel n
  end.

(** [shutdown] *)
Definition asyncio_shutdown : aio unit :=
  _ ← async_shutdown;
  o ← self;
  match lo_tasks o, lo_running o, lo_cancelled o with
  | [], [], [] => skip
  | _, ls, _ =>
      _ ← asyncio_cancel (length ls);
      modify (fun o => Local (lo_limiter o) (lo_max o) 0 [] [] [] (lo_broken o))
  end.

(** The class in the registry. *)
Definition managed_asyncio (max_tasks : Z) : Managed R (local adist) := {|
  managed_base := dist_is_base (local adist);
  blank := Local (ADist blank_dist (EventLoop [] false)) 0 0 [] [] [] false;
  construct := fun limiter_id kw => k ← of_sum (config_of_kwargs limiter_id kw); asyncio_init max_tasks k;
  start := async_start;
  apply_config_overrides := dist_apply_overrides;
  persisted_config := fun o => build_persist_config (dist_of o);
|}.

Definition asyncio_backend (max_tasks : Z) : Backend R (local adist) := {|
  has_local_capacity := asyncio_capacity;
  dispatch_task := asyncio_dispatch;
  check_backend_health := None;
  refresh_hook := Some (_ ← async_refresh_config (M := managed_asyncio max_tasks); skip);
|}.
End Asyncio.
End Pool.

(** ** Frames *)

Section Frame.
Context {F : Rounding} {R : Type} {RS : RedisServer R} {O : Type} {D : IsDist O} {P : Resources} {G : Digest}.
Context (I : O -> Prop).

Definition keeps {A} (m : py R O A) : Prop := forall w, I (w_obj w) -> I (w_obj (snd (m w))).

Lemma keeps_bind {A T} (m : py R O A) (f : A -> py R O T) : keeps m -> (forall a, keeps (f a)) -> keeps (m ≫= f).
Proof.
  intros Hm Hf w Hw. specialize (Hm w Hw). rewrite bind_eq. destruct (m w) as [[e|a] w1]; [done|]. by apply Hf.
Qed.

Lemma keeps_catch {A} p (m : py R O A) h : keeps m -> (forall e, keeps (h e)) -> keeps (catch p m h).
Proof.
  intros Hm Hh w Hw. specialize (Hm w Hw). unfold catch. destruct (m w) as [[e|a] w1]; [|done].
  destruct (p e); [by apply Hh|done].
Qed.

Lemma keeps_finally {A} (m : py R O A) f : keeps m -> keeps f -> keeps (finally m f).
Proof.
  intros Hm Hf w Hw. specialize (Hm w Hw). unfold finally. destruct (m w) as [r w1].
  specialize (Hf w1 Hm). by destruct (f w1) as [[e|u] w2].
Qed.

Lemma keeps_obj {A} (m : py R O A) : (forall w, w_obj (snd (m w)) = w_obj w) -> keeps m.
Proof. intros H w Hw. by rewrite H. Qed.

Lemma trip_obj {A} (p : prog A) (w : world R O) : w_obj (snd (trip p w)) = w_obj w.
Proof.
  unfold trip. pose proof (arrive_obj w) as [H _]. destruct (arrive w) as [f w1]. cbn in H.
  destruct f; [| done | |]; by destruct (run p (w_srv w1)).
Qed.

Lemma load_obj sha (w : world R O) : w_obj (snd (script_load sha w)) = w_obj w.
Proof.
  unfold script_load. pose proof (arrive_obj w) as [H _]. destruct (arrive w) as [f w1]. by destruct f.
Qed.

Lemma evalsha_obj {A} sha (p : prog A) (w : world R O) : w_obj (snd (evalsha sha p w)) = w_obj w.
Proof.
  unfold evalsha. pose proof (arrive_obj w) as [H _]. destruct (arrive w) as [f w1].
  destruct f; [|done| |]; (case_bool_decide; [by destruct (run p (w_srv w1))|done]).
Qed.

Hypothesis closed : forall f o, I o -> I (with_dist f o).

Lemma keeps_modify f : keeps (modify (with_dist f)).
Proof. intros w Hw. by apply closed. Qed.

Lemma keeps_register name : keeps (register_script name).
Proof.
  unfold register_script. apply keeps_bind; [by apply keeps_obj|]. intros o. apply keeps_bind.
  - destruct (b_script_sources _ !! name); [by apply keeps_obj|]. apply keeps_bind; [by apply keeps_obj|]. intros s.
    apply keeps_bind; [apply (keeps_modify (with_dbase _))|]. intros _. by apply keeps_obj.
  - intros s. apply keeps_bind; [apply keeps_obj, load_obj|]. intros sha.
    apply keeps_bind; [apply (keeps_modify (with_dbase _))|]. intros _. by apply keeps_obj.
Qed.

Lemma cached_obj name (w : world R O) : w_obj (snd (cached_sha name w)) = w_obj w.
Proof. unfold cached_sha. rewrite bind_eq. cbn [self]. by destruct (b_script_shas _ !! name). Qed.

Lemma keeps_eval {A} name (p : prog A) : keeps (eval_script name p).
Proof.
  unfold eval_script. apply keeps_bind; [by apply keeps_obj|]. intros o.
  apply keeps_bind; [destruct (b_script_shas _ !! name); [by apply keeps_obj|apply keeps_register]|]. intros _.
  apply keeps_bind; [apply keeps_obj, cached_obj|]. intros sha.
  apply keeps_catch; [apply keeps_obj, evalsha_obj|]. intros e. apply keeps_bind; [apply keeps_register|]. intros _.
  apply keeps_bind; [apply keeps_obj, cached_obj|]. intros sha'.
  apply keeps_catch; [apply keeps_obj, evalsha_obj|]. intros e'. by apply keeps_obj.
Qed.

Lemma keeps_drain_request delay : keeps (schedule_drain delay).
Proof.
  unfold schedule_drain. apply keeps_bind; [by apply keeps_obj|]. intros d. destruct (d_drain_loop d); [|by apply keeps_obj].
  apply keeps_bind; [by apply keeps_obj|]. intros now. apply keeps_bind; [by apply keeps_obj|]. intros _. apply keeps_modify.
Qed.

Lemma keeps_exit t : keeps (lifecycle_exit t).
Proof.
  unfold lifecycle_exit. apply keeps_bind; [apply keeps_modify|]. intros _. apply keeps_finally; [|apply keeps_drain_request].
  apply keeps_bind; [by apply keeps_obj|]. intros d. apply keeps_bind; [apply keeps_eval|]. intros _. by apply keeps_obj.
Qed.

Lemma keeps_enter task_id override : keeps (l ← task_lifecycle task_id override; lifecycle_enter l).
Proof.
  apply keeps_bind; [by apply keeps_obj|]. intros l. apply keeps_bind; [by apply keeps_obj|]. intros now.
  apply keeps_bind; [apply keeps_modify|]. intros _. by apply keeps_obj.
Qed.

Lemma keeps_shutdown : keeps (shutdown : py R O unit).
Proof.
  unfold shutdown, subscriber_shutdown. apply keeps_bind; [apply keeps_modify|]. intros _.
  apply keeps_bind; [by apply keeps_obj|]. intros d.
  apply keeps_bind; [destruct (d_healthy d); by apply keeps_obj|]. intros _.
  apply keeps_bind; [destruct (d_drain_loop d); [apply keeps_modify|by apply keeps_obj]|]. intros _.
  apply keeps_bind; [|intros _; apply keeps_modify].
  destruct (d_drain_enabled d); [|by apply keeps_obj].
  apply keeps_bind; [by apply keeps_obj|]. intros d'. apply keeps_bind; [apply keeps_modify|]. intros _.
  apply keeps_catch; [apply keeps_obj, trip_obj|]. intros e. by apply keeps_obj.
Qed.
End Frame.

Section AsyncFrame.
Context {F : Rounding} {R : Type} {RS : RedisServer R} {O : Type} {D : IsAsync O} {P : Resources} {G : Digest}.
Context (I : O -> Prop).
Hypothesis closed : forall f o, I o -> I (with_dist f o).
Hypothesis closed_extra : forall f o, I o -> I (with_extra f o).

Lemma scheduler_obj (w : world R O) : w_obj (snd (heartbeat_scheduler w)) = w_obj w.
Proof. unfold heartbeat_scheduler. rewrite bind_eq. cbn [self]. unfold when. by destruct (negb _). Qed.

Lemma keeps_async_exit t : keeps I (async_lifecycle_exit t : py R O unit).
Proof.
  unfold async_lifecycle_exit. apply keeps_bind; [apply keeps_obj, scheduler_obj|]. intros _.
  apply keeps_bind; [by apply keeps_modify|]. intros _. apply keeps_finally.
  - apply keeps_bind; [by apply keeps_obj|]. intros d.
    apply keeps_bind; [exact (keeps_eval I closed "release.lua" _)|]. intros _. by apply keeps_obj.
  - unfold async_schedule_drain. apply keeps_bind; [by apply keeps_obj|]. intros d.
    destruct (d_drain_loop d); [|by apply keeps_obj]. apply keeps_bind; [by apply keeps_obj|]. intros now.
    apply keeps_bind; [by apply keeps_obj|]. intros _ w Hw. by apply closed_extra.
Qed.

Lemma keeps_async_enter task_id override :
  keeps I (l ← async_task_lifecycle task_id override; async_lifecycle_enter l : py R O lifecycle).
Proof.
  apply keeps_bind; [by apply keeps_obj|]. intros l. apply keeps_bind; [apply keeps_obj, scheduler_obj|]. intros _.
  apply keeps_bind; [by apply keeps_obj|]. intros now.
  apply keeps_bind; [by apply keeps_modify|]. intros _. by apply keeps_obj.
Qed.

Lemma keeps_async_shutdown : keeps I (async_shutdown : py R O unit).
Proof.
  unfold async_shutdown, async_subscriber_shutdown. apply keeps_bind; [by apply keeps_modify|]. intros _.
  apply keeps_bind; [by apply keeps_obj|]. intros d.
  apply keeps_bind; [destruct (d_healthy d); by apply keeps_obj|]. intros _.
  apply keeps_bind; [destruct (d_drain_loop d); [by apply keeps_modify|by apply keeps_obj]|]. intros _.
  apply keeps_bind.
  { destruct (d_drain_enabled d); [|by apply keeps_obj]. apply keeps_bind; [by apply keeps_modify|]. intros _.
    apply keeps_catch; [|intros e; by apply keeps_obj]. apply keeps_bind; [apply keeps_obj, trip_obj|].
    intros _. by apply keeps_obj. }
  intros _. apply keeps_bind; [by apply keeps_obj|]. intros o. unfold when.
  destruct (el_scheduler (extra_of o)); [by apply keeps_modify|by apply keeps_obj].
Qed.
End AsyncFrame.

(** ** Interleavings of one pool *)

(** The pool of a limiter, without the limiter and the executor. *)
Definition pool_view {D} (o : local D) := (lo_max o, lo_dispatched o, lo_tasks o, lo_running o, lo_cancelled o).

(** What a backend does with its pool: a dispatch, the begin of the oldest
    task, the end of a task, which may be a cancellation, the cancellation of
    a queued task, and the shutdown of the limiter; what a dispatch, an end
    and a cancellation leak, and what a shutdown leaves of the leaks; and the
    number of tasks the count is meant to count. *)
Record pool_ops (R D : Type) := PoolOps {
  po_dispatch : json -> json -> json -> py R (local D) unit;
  po_begin : py R (local D) unit;
  po_end : nat -> bool -> py R (local D) unit;
  po_cancel : nat -> py R (local D) unit;
  po_shutdown : py R (local D) unit;
  po_refuses : json -> world R (local D) -> Z;
  po_leaks : nat -> bool -> world R (local D) -> Z;
  po_drops : nat -> world R (local D) -> Z;
  po_left : Z -> world R (local D) -> Z;
  po_busy : list ltask -> list lifecycle -> list ltask -> Z;
}.
Arguments PoolOps {R D} _ _ _ _ _ _ _ _ _ _.
Arguments po_dispatch {R D} _ _ _ _ _.
Arguments po_begin {R D} _ _.
Arguments po_end {R D} _ _ _ _.
Arguments po_refuses {R D} _ _ _.
Arguments po_leaks {R D} _ _ _ _.
Arguments po_cancel {R D} _ _ _.
Arguments po_shutdown {R D} _ _.
Arguments po_drops {R D} _ _ _.
Arguments po_left {R D} _ _ _.
Arguments po_busy {R D} _ _ _ _.

Section Slots.
Context {R D : Type} (ops : pool_ops R D).

Abbreviation pool_world := (world R (local D)).

(** One drain checks the capacity and later dispatches or gives up; the tasks
    of the pool begin, end and are cancelled at any time, and the limiter is
    shut down; everything else changes the limiter, Redis or the executor.
    The flag says that the drain has seen capacity, the number counts what
    dispatches, ends and cancellations leaked. *)
Inductive pool_step : bool * Z * pool_world -> bool * Z * pool_world -> Prop :=
  | ps_check n w b : fst (local_capacity w) = inr b -> pool_step (false, n, w) (b, n, w)
  | ps_abandon n w : pool_step (true, n, w) (false, n, w)
  | ps_dispatch n w f p t :
      pool_step (true, n, w) (false, n + po_refuses ops f w, snd (po_dispatch ops f p t w))
  | ps_begin a n w : pool_step (a, n, w) (a, n, snd (po_begin ops w))
  | ps_end a n w i b : pool_step (a, n, w) (a, n + po_leaks ops i b w, snd (po_end ops i b w))
  | ps_cancel a n w i : pool_step (a, n, w) (a, n + po_drops ops i w, snd (po_cancel ops i w))
  | ps_shutdown a n w : pool_step (a, n, w) (a, po_left ops n w, snd (po_shutdown ops w))
  | ps_other a n w w' : pool_view (w_obj w') = pool_view (w_obj w) -> pool_step (a, n, w) (a, n, w').

Inductive pool_reach (max : Z) : bool * Z * pool_world -> Prop :=
  | pr_start w : pool_view (w_obj w) = (max, 0, [], [], []) -> pool_reach max (false, 0, w)
  | pr_step s s' : pool_reach max s -> pool_step s s' -> pool_reach max s'.

Definition busy (o : local D) : Z := po_busy ops (lo_tasks o) (lo_running o) (lo_cancelled o).

Definition pool_ok (max : Z) (s : bool * Z * pool_world) : Prop :=
  let '(allowed, n, w) := s in
  let o := w_obj w in
  lo_max o = max /\ 0 <= n /\ lo_dispatched o = busy o + n /\
  lo_dispatched o <= max /\ (allowed = true -> lo_dispatched o < max).

Lemma view_ok max a n w w' :
  pool_view (w_obj w') = pool_view (w_obj w) -> pool_ok max (a, n, w) -> pool_ok max (a, n, w').
Proof. intros E. unfold pool_view in E. injection E as E1 E2 E3 E4 E5. unfold pool_ok, busy. by rewrite E1, E2, E3, E4, E5. Qed.

(** The operations of a backend keep the books. *)
Record books_kept : Prop := {
  bk_dispatch : forall max n w f p t,
    pool_ok max (true, n, w) -> pool_ok max (false, n + po_refuses ops f w, snd (po_dispatch ops f p t w));
  bk_begin : forall max a n w, pool_ok max (a, n, w) -> pool_ok max (a, n, snd (po_begin ops w));
  bk_end : forall max a n w i b,
    pool_ok max (a, n, w) -> pool_ok max (a, n + po_leaks ops i b w, snd (po_end ops i b w));
  bk_cancel : forall max a n w i,
    pool_ok max (a, n, w) -> pool_ok max (a, n + po_drops ops i w, snd (po_cancel ops i w));
  bk_shutdown : forall max a n w,
    0 <= max -> pool_ok max (a, n, w) -> pool_ok max (a, po_left ops n w, snd (po_shutdown ops w));
  bk_empty : po_busy ops [] [] [] = 0;
}.

Lemma pool_reach_ok max s : books_kept -> 0 <= max -> pool_reach max s -> pool_ok max s.
Proof.
  intros [K1 K2 K3 K4 K5 K6] Hm. induction 1 as [w E|s s' _ IH Hs].
  - unfold pool_view in E. injection E as E1 E2 E3 E4 E5. unfold pool_ok, busy. rewrite E1, E2, E3, E4, E5, K6. by split_and!.
  - destruct Hs as [n w b Hb|n w|n w f p t|a n w|a n w i b|a n w i|a n w|a n w w' E].
    + destruct IH as (H1 & H2 & H3 & H4 & _). split_and!; try done. intros ->. injection Hb as Hb. apply Z.ltb_lt in Hb. lia.
    + destruct IH as (H1 & H2 & H3 & H4 & _). by split_and!.
    + by apply K1.
    + by apply K2.
    + by apply K3.
    + by apply K4.
    + by apply K5.
    + by eapply view_ok.
Qed.

(** A queue of tasks and the tasks that run; and some more. *)
Definition queued_and_running (ts : list ltask) (ls : list lifecycle) : Z := Z.of_nat (length ts) + Z.of_nat (length ls).
Context (more : list ltask -> Z).
Hypothesis both : forall ts ls cs, po_busy ops ts ls cs = queued_and_running ts ls + more cs.

(** The oldest task enters its lifecycle, or fails to and is done. *)
Lemma begin_ok (enter : string -> py R (local D) lifecycle) max a n w :
  (forall id v, keeps (fun o => pool_view o = v) (enter id)) ->
  pool_ok max (a, n, w) ->
  pool_ok max (a, n, snd ((o ← self;
    match lo_tasks o with
    | [] => skip
    | t :: ts =>
        _ ← modify (with_tasks (fun _ => ts));
        catch (fun _ => true) (l' ← enter (lt_id t); modify (with_running (fun ls => ls ++ [l']))) (fun _ => count_down)
    end) w)).
Proof.
  intros Hk H. rewrite bind_eq. cbn [self].
  destruct (lo_tasks (w_obj w)) as [|t ts] eqn:Et; [exact H|].
  unfold pool_ok, busy, queued_and_running in *. rewrite both in *.
  destruct H as (E1 & E2 & E3 & E4 & E5). rewrite Et in E3. cbn [length] in E3.
  rewrite bind_eq. cbn [modify]. set (w1 := set_obj _ w). unfold catch. rewrite bind_eq.
  specialize (Hk (lt_id t) (pool_view (w_obj w1)) w1 eq_refl). destruct (enter (lt_id t) w1) as [r w2].
  cbn [snd] in Hk. unfold w1, pool_view in Hk. cbn in Hk. injection Hk as V1 V2 V3 V4 V5.
  destruct r; cbn; rewrite V1, V2, V3, V4, V5, ?length_app; cbn [length]; split_and!; try done; try lia.
Qed.

(** A running task leaves its lifecycle and is done. *)
Lemma end_ok (exit : lifecycle -> py R (local D) unit) max a n w i :
  (forall l v, keeps (fun o => pool_view o = v) (exit l)) ->
  pool_ok max (a, n, w) ->
  pool_ok max (a, n, snd ((o ← self;
    match lo_running o !! i with
    | None => skip
    | Some l =>
        _ ← modify (with_running (delete i));
        catch (fun _ => true) (finally (exit l) count_down) (fun _ => skip)
    end) w)).
Proof.
  intros Hk H. rewrite bind_eq. cbn [self].
  destruct (lo_running (w_obj w) !! i) as [l|] eqn:El; [|exact H].
  unfold pool_ok, busy, queued_and_running in *. rewrite both in *.
  destruct H as (E1 & E2 & E3 & E4 & E5).
  rewrite bind_eq. cbn [modify]. set (w1 := set_obj _ w).
  specialize (Hk l (pool_view (w_obj w1)) w1 eq_refl).
  assert (Hl : length (delete i (lo_running (w_obj w))) = (length (lo_running (w_obj w)) - 1)%nat) by (by apply length_delete).
  assert (Hpos : (0 < length (lo_running (w_obj w)))%nat) by (apply lookup_lt_Some in El; lia).
  unfold catch, finally, count_down, modify, skip, pret. destruct (exit l w1) as [r w2]. cbn [snd] in Hk.
  unfold w1, pool_view in Hk. cbn in Hk. injection Hk as V1 V2 V3 V4 V5.
  destruct r; cbn; rewrite V1, V2, V3, V4, V5, Hl; split_and!; try done; try lia.
Qed.

(** The capacity check of a pool whose books are kept. *)
Lemma capacity_iff max a n (w : pool_world) :
  pool_ok max (a, n, w) -> fst (local_capacity w) = inr false <-> busy (w_obj w) + n = max.
Proof.
  intros (H1 & H2 & H3 & H4 & _).
  unfold local_capacity, mbind, py_bind, pbnd, self, mret, py_ret, pret.
  cbn [fst]. rewrite H1, H3. destruct (Z.ltb_spec (busy (w_obj w) + n) max); split; intros E; try done; try lia.
Qed.

(** The books and the check of a reachable pool. *)
Lemma slots_ok max a n (w : pool_world) :
  books_kept -> 0 <= max -> pool_reach max (a, n, w) ->
  lo_dispatched (w_obj w) = busy (w_obj w) + n /\ 0 <= n /\ busy (w_obj w) + n <= max /\
  (fst (local_capacity w) = inr false <-> busy (w_obj w) + n = max).
Proof.
  intros Hb Hm Hr. pose proof (pool_reach_ok max _ Hb Hm Hr) as Hok. split_and!.
  - apply Hok.
  - apply Hok.
  - destruct Hok as (_ & _ & H3 & H4 & _). lia.
  - by eapply capacity_iff.
Qed.
End Slots.

Section Backends.
Context {F : Rounding} {R : Type} {RS : RedisServer R} {P : Resources} {G : Digest} {M : Modules}.

(** Whether the executor refuses the task of a dispatch. *)
Definition refuses (func_path : json) (w : world R (local dist)) : Z :=
  match fst (import_path func_path w) with
  | inr _ => if lo_broken (w_obj w) then 1 else 0
  | inl _ => 0
  end.

(** A cancelled future of the process pool leaks its slot. *)
Definition cancels (i : nat) (cancelled : bool) (w : world R (local dist)) : Z :=
  match lo_running (w_obj w) !! i with Some _ => if cancelled then 1 else 0 | None => 0 end.

(** A queued task that exists can be cancelled. *)
Definition drops (i : nat) (w : world R (local dist)) : Z :=
  match lo_tasks (w_obj w) !! i with Some _ => 1 | None => 0 end.

(** The shutdown of the asyncio limiter clears the count, if it gets there. *)
Definition asyncio_left (n : Z) (w : world R (local adist)) : Z :=
  match fst (async_shutdown w), lo_tasks (w_obj w), lo_running (w_obj w), lo_cancelled (w_obj w) with
  | inl _, _, _, _ => n
  | inr _, [], [], [] => n
  | inr _, _, _, _ => 0
  end.

(** The lifecycle of a task of the process pool is that of its future: those
    are the unfinished tasks; the cancellation of a future ends it.  The
    asyncio count is meant to count the tasks of [_active_tasks]. *)
Definition thread_ops : pool_ops R dist :=
  PoolOps thread_dispatch thread_begin (fun i _ => thread_end i) queued_cancelled shutdown
    refuses (fun _ _ _ => 0) drops (fun n _ => n) (fun ts ls _ => queued_and_running ts ls).
Definition process_ops : pool_ops R dist :=
  PoolOps process_dispatch skip process_on_done (fun _ => skip) shutdown
    refuses cancels (fun _ _ => 0) (fun n _ => n) (fun _ ls _ => Z.of_nat (length ls)).
Definition asyncio_ops : pool_ops R adist :=
  PoolOps asyncio_dispatch asyncio_begin (fun i _ => asyncio_end i) queued_cancelled asyncio_shutdown
    (fun _ _ => 0) (fun _ _ _ => 0) (fun _ _ => 0) asyncio_left
    (fun ts ls cs => queued_and_running ts ls + Z.of_nat (length cs)).

(** A base shutdown leaves the pool alone. *)
Lemma shutdown_view (w : world R (local dist)) : pool_view (w_obj (snd (shutdown w))) = pool_view (w_obj w).
Proof. exact (keeps_shutdown (O := local dist) (fun o => pool_view o = pool_view (w_obj w)) (fun f o E => E) w eq_refl). Qed.

Lemma async_shutdown_view (w : world R (local adist)) : pool_view (w_obj (snd (async_shutdown w))) = pool_view (w_obj w).
Proof.
  exact (keeps_async_shutdown (O := local adist) (fun o => pool_view o = pool_view (w_obj w))
    (fun f o E => E) w eq_refl).
Qed.

Lemma thread_books : books_kept thread_ops.
Proof.
  split; [| | | | |done].
  - intros max n w f p t (E1 & E2 & E3 & E4 & E5). specialize (E5 eq_refl). cbn [po_refuses po_dispatch thread_ops].
    unfold busy in E3. cbn in E3. unfold queued_and_running in E3. unfold thread_dispatch, refuses, import_path, of_sum, pool_ok, busy.
    rewrite bind_eq. destruct (match f with JStr s => import_string s | _ => _ end) as [e|g]; cbn [fst snd].
    + split_and!; try done; cbn; unfold queued_and_running; lia.
    + unfold submit, count_up, mbind, py_bind, pbnd, modify, self. cbn. destruct (lo_broken (w_obj w)); cbn;
        unfold queued_and_running; rewrite ?length_app; cbn; split_and!; try done; lia.
  - intros max a n w H. apply (begin_ok thread_ops (fun _ => 0) ltac:(intros; cbn; lia) (fun id => l ← task_lifecycle id None; lifecycle_enter l)); [|exact H].
    intros id v. by apply keeps_enter.
  - intros max a n w i b H. cbn [po_leaks thread_ops]. rewrite Z.add_0_r.
    apply (end_ok thread_ops (fun _ => 0) ltac:(intros; cbn; lia) lifecycle_exit); [|exact H]. intros l v. by apply keeps_exit.
  - intros max a n w i (E1 & E2 & E3 & E4 & E5). cbn [po_drops po_cancel thread_ops]. unfold queued_cancelled, drops.
    rewrite bind_eq. cbn [self]. unfold pool_ok, busy in *. cbn [po_busy thread_ops] in *. unfold queued_and_running in *.
    destruct (lo_tasks (w_obj w) !! i) as [t|] eqn:Et; [|by rewrite Z.add_0_r; split_and!].
    pose proof (lookup_lt_Some _ _ _ Et). cbn. rewrite (length_delete _ i (mk_is_Some _ _ Et)). split_and!; (done || lia).
  - intros max a n w _ H. cbn [po_left po_shutdown thread_ops]. eapply view_ok; [apply shutdown_view|exact H].
Qed.

Lemma process_books : books_kept process_ops.
Proof.
  split; [| | | | |done].
  - intros max n w f p t (E1 & E2 & E3 & E4 & E5). specialize (E5 eq_refl). cbn [po_refuses po_dispatch process_ops].
    unfold busy in E3. cbn in E3. unfold process_dispatch, refuses, import_path, of_sum, pool_ok, busy.
    rewrite bind_eq. destruct (match f with JStr s => import_string s | _ => _ end) as [e|g]; cbn [fst snd].
    + split_and!; try done; cbn; lia.
    + unfold submit, count_up, task_lifecycle, lifecycle_enter, me, monotonic, mbind, py_bind, pbnd, modify, self, mret, py_ret, pret.
      cbn. destruct (lo_broken (w_obj w)); cbn; rewrite ?length_app; cbn; split_and!; try done; lia.
  - intros max a n w H. exact H.
  - intros max a n w i b H. cbn [po_leaks po_end process_ops]. unfold process_on_done, cancels.
    rewrite bind_eq. cbn [self]. destruct (lo_running (w_obj w) !! i) as [l|] eqn:El; [|by rewrite Z.add_0_r].
    unfold pool_ok, busy in *. cbn in H. destruct H as (E1 & E2 & E3 & E4 & E5).
    assert (Hl : length (delete i (lo_running (w_obj w))) = (length (lo_running (w_obj w)) - 1)%nat) by (by apply length_delete).
    assert (Hpos : (0 < length (lo_running (w_obj w)))%nat) by (apply lookup_lt_Some in El; lia).
    rewrite bind_eq. cbn [modify]. set (w1 := set_obj _ w). destruct b; [cbn; rewrite Hl; split_and!; (done || lia)|].
    pose proof (keeps_exit (R := R) (O := local dist) (fun o => pool_view o = pool_view (w_obj w1)) (fun f o E => E) l w1 eq_refl) as Hk.
    unfold catch, finally, count_down, modify, skip, pret. destruct (lifecycle_exit l w1) as [r w2]. cbn [snd] in Hk.
    unfold w1, pool_view in Hk. cbn in Hk. injection Hk as V1 V2 V3 V4 V5.
    destruct r as [e|]; [destruct (is_exception e) eqn:Ee|]; cbn; rewrite ?Ee; cbn; rewrite V1, V2, V4, Hl; split_and!; (done || lia).
  - intros max a n w i H. cbn [po_drops po_cancel process_ops]. by rewrite Z.add_0_r.
  - intros max a n w _ H. cbn [po_left po_shutdown process_ops]. eapply view_ok; [apply shutdown_view|exact H].
Qed.

Lemma asyncio_end_ok max a n w i :
  pool_ok asyncio_ops max (a, n, w) -> pool_ok asyncio_ops max (a, n, snd (asyncio_end i w)).
Proof.
  apply (end_ok asyncio_ops (fun cs => Z.of_nat (length cs)) ltac:(done) async_lifecycle_exit).
  intros l v. by apply keeps_async_exit.
Qed.

Lemma asyncio_cancel_ok max a n k w :
  pool_ok asyncio_ops max (a, n, w) -> pool_ok asyncio_ops max (a, n, snd (asyncio_cancel k w)).
Proof.
  revert w. induction k as [|k IH]; intros w H; [exact H|]. cbn [asyncio_cancel]. rewrite bind_eq.
  pose proof (asyncio_end_ok max a n w 0 H) as H1. destruct (asyncio_end 0 w) as [[e|[]] w1]; [exact H1|by apply IH].
Qed.

(** [asyncio_end] keeps what its body and its exit raise in the task. *)
Lemma asyncio_cancel_returns k w : fst (asyncio_cancel (R := R) k w) = inr tt.
Proof.
  revert w. induction k as [|k IH]; intros w; [done|]. cbn [asyncio_cancel]. rewrite bind_eq.
  assert (E : fst (asyncio_end 0 w) = inr tt).
  { unfold asyncio_end. rewrite bind_eq. cbn [self]. destruct (lo_running (w_obj w) !! 0%nat); [|done].
    rewrite bind_eq. cbn [modify]. unfold catch. by destruct (finally _ _ _) as [[e|[]] w1]. }
  destruct (asyncio_end 0 w) as [r w1]. cbn in E. subst r. apply IH.
Qed.

Lemma asyncio_shutdown_ok max a n w :
  0 <= max -> pool_ok asyncio_ops max (a, n, w) ->
  pool_ok asyncio_ops max (a, asyncio_left n w, snd (asyncio_shutdown w)).
Proof.
  intros Hm H. pose proof (async_shutdown_view w) as Ev. unfold asyncio_shutdown, asyncio_left. rewrite bind_eq.
  destruct (async_shutdown w) as [[e|[]] w1]; cbn [fst snd] in *; [by eapply view_ok|].
  assert (H1 : pool_ok asyncio_ops max (a, n, w1)) by (eapply view_ok; [exact Ev|exact H]). unfold pool_view in Ev. injection Ev as _ _ <- <- <-.
  rewrite bind_eq. cbn [self].
  assert (Hr : forall ls : list lifecycle, pool_ok asyncio_ops max (a, 0, snd ((_ ← asyncio_cancel (length ls);
      modify (fun o => Local (lo_limiter o) (lo_max o) 0 [] [] [] (lo_broken o))) w1))).
  { intros ls. rewrite bind_eq. pose proof (asyncio_cancel_ok max a n (length ls) w1 H1) as H2.
    pose proof (asyncio_cancel_returns (length ls) w1) as E. destruct (asyncio_cancel _ w1) as [r w2]. cbn in E. subst r.
    destruct H2 as (E1 & E2 & E3 & E4 & E5). unfold pool_ok, busy in *. cbn in *. unfold queued_and_running in *.
    split_and!; try done. intros ->. specialize (E5 eq_refl). lia. }
  destruct (lo_tasks (w_obj w1)), (lo_running (w_obj w1)) as [|x xs], (lo_cancelled (w_obj w1)); first [exact H1|apply Hr|apply (Hr [])].
Qed.

Lemma asyncio_books : books_kept asyncio_ops.
Proof.
  split; [| | | | |done].
  - intros max n w f p t (E1 & E2 & E3 & E4 & E5). specialize (E5 eq_refl). cbn [po_refuses po_dispatch asyncio_ops].
    unfold busy in E3. cbn in E3. unfold queued_and_running in E3. unfold asyncio_dispatch, import_path, of_sum, pool_ok, busy.
    rewrite bind_eq. destruct (match f with JStr s => import_string s | _ => _ end) as [e|g]; cbn [fst snd].
    + split_and!; try done; cbn; unfold queued_and_running; lia.
    + unfold count_up, mbind, py_bind, pbnd, modify. cbn. unfold queued_and_running. rewrite length_app. cbn.
      split_and!; try done; lia.
  - intros max a n w H. apply (begin_ok asyncio_ops (fun cs => Z.of_nat (length cs)) ltac:(done) (fun id => l ← async_task_lifecycle id None; async_lifecycle_enter l)); [|exact H].
    intros id v. by apply keeps_async_enter.
  - intros max a n w i b H. cbn [po_leaks asyncio_ops]. rewrite Z.add_0_r.
    by apply asyncio_end_ok.
  - intros max a n w i (E1 & E2 & E3 & E4 & E5). cbn [po_drops po_cancel asyncio_ops]. unfold queued_cancelled.
    rewrite bind_eq. cbn [self]. unfold pool_ok, busy in *. cbn [po_busy asyncio_ops] in *. unfold queued_and_running in *.
    rewrite Z.add_0_r. destruct (lo_tasks (w_obj w) !! i) as [t|] eqn:Et; [|by split_and!].
    pose proof (lookup_lt_Some _ _ _ Et). cbn. rewrite (length_delete _ i (mk_is_Some _ _ Et)), length_app. cbn. split_and!; (done || lia).
  - exact asyncio_shutdown_ok.
Qed.

Lemma asyncio_left_zero w : asyncio_left 0 w = 0.
Proof. unfold asyncio_left. by repeat case_match. Qed.

(** Nothing escapes the set of active tasks. *)
Lemma asyncio_never_refused max a n (w : world R (local adist)) : pool_reach asyncio_ops max (a, n, w) -> n = 0.
Proof.
  intros H. remember (a, n, w) as s eqn:E. revert a n w E.
  induction H as [w E|s s' _ IH Hs]; intros a n w' Es; [by injection Es|].
  destruct Hs; injection Es as <- <- <-; cbn [po_refuses po_leaks po_drops po_left asyncio_ops]; rewrite ?Z.add_0_r; eauto.
  rewrite (IH _ _ _ eq_refl). apply asyncio_left_zero.
Qed.

(** The leaks of the executors are never taken back. *)
Lemma refuses_pos f w : 0 <= refuses f w.
Proof. unfold refuses. repeat case_match; lia. Qed.

Lemma thread_leaks_kept a n w a' n' w' : pool_step thread_ops (a, n, w) (a', n', w') -> n <= n'.
Proof.
  intros Hs. inversion Hs; subst; cbn [po_refuses po_leaks po_drops po_left thread_ops]; unfold drops in *;
    try pose proof (refuses_pos f w); repeat case_match; lia.
Qed.

Lemma process_leaks_kept a n w a' n' w' : pool_step process_ops (a, n, w) (a', n', w') -> n <= n'.
Proof.
  intros Hs. inversion Hs; subst; cbn [po_refuses po_leaks po_drops po_left process_ops]; unfold cancels in *;
    try pose proof (refuses_pos f w); repeat case_match; lia.
Qed.

(** A shutdown that returns leaves no active task. *)
Lemma asyncio_shutdown_clears (w : world R (local adist)) n :
  fst (asyncio_shutdown w) = inr tt ->
  lo_dispatched (w_obj (snd (asyncio_shutdown w))) = busy asyncio_ops (w_obj (snd (asyncio_shutdown w))) + n ->
  n = 0 -> lo_dispatched (w_obj (snd (asyncio_shutdown w))) = 0.
Proof.
  unfold asyncio_shutdown. rewrite bind_eq. destruct (async_shutdown w) as [[e|[]] w1]; [done|]. rewrite bind_eq. cbn [self].
  assert (Hr : forall ls : list lifecycle, lo_dispatched (w_obj (snd ((_ ← asyncio_cancel (length ls);
      modify (fun o => Local (lo_limiter o) (lo_max o) 0 [] [] [] (lo_broken o))) w1))) = 0).
  { intros ls. rewrite bind_eq. pose proof (asyncio_cancel_returns (length ls) w1) as E.
    destruct (asyncio_cancel _ w1) as [r w2]. cbn in E. by subst r. }
  destruct (lo_tasks (w_obj w1)) eqn:E1, (lo_running (w_obj w1)) as [|x xs] eqn:E2, (lo_cancelled (w_obj w1)) eqn:E3; intros _ Hb ->;
    first [apply Hr|apply (Hr [])|idtac].
  unfold busy in Hb. cbn in Hb. by rewrite E1, E2, E3 in Hb.
Qed.

(** C17. A local pool is never overcommitted.  However drains, the tasks of
    the pool, cancellations of queued tasks, shutdowns of the limiter and
    everything else interleave, the count of the thread pool is exactly the
    number of submitted and unfinished tasks plus a leak (the submissions the
    executor refused and the queued futures it cancelled), which no step
    lowers; and the count never exceeds the number of workers.  So a drain
    finds no capacity exactly while the busy and the leaked slots are all there
    are, and a count that leaked once per worker stops all drains of the
    process for good, although no task is left.  For the process pool the same
    holds, its cancelled futures leaking.  The asyncio count is exactly the
    number of the tasks in [_active_tasks]: those queued, those running, and
    those cancelled before their first step; a shutdown of the limiter that
    returns clears it. *)
Theorem local_slots (max : Z) :
  0 <= max ->
  (forall allowed leaked (w : world R (local dist)), pool_reach thread_ops max (allowed, leaked, w) ->
     let busy := Z.of_nat (length (lo_tasks (w_obj w))) + Z.of_nat (length (lo_running (w_obj w))) in
     lo_dispatched (w_obj w) = busy + leaked /\ 0 <= leaked /\ busy + leaked <= max /\
     (fst (thread_capacity w) = inr false <-> busy + leaked = max) /\
     (forall a' leaked' w', pool_step thread_ops (allowed, leaked, w) (a', leaked', w') -> leaked <= leaked')) /\
  (forall allowed leaked (w : world R (local dist)), pool_reach process_ops max (allowed, leaked, w) ->
     let busy := Z.of_nat (length (lo_running (w_obj w))) in
     lo_dispatched (w_obj w) = busy + leaked /\ 0 <= leaked /\ busy + leaked <= max /\
     (fst (process_capacity w) = inr false <-> busy + leaked = max) /\
     (forall a' leaked' w', pool_step process_ops (allowed, leaked, w) (a', leaked', w') -> leaked <= leaked')) /\
  (forall allowed leaked (w : world R (local adist)), pool_reach asyncio_ops max (allowed, leaked, w) ->
     let active := Z.of_nat (length (lo_tasks (w_obj w))) + Z.of_nat (length (lo_running (w_obj w)))
                   + Z.of_nat (length (lo_cancelled (w_obj w))) in
     lo_dispatched (w_obj w) = active /\ active <= max /\
     (fst (asyncio_capacity w) = inr false <-> active = max) /\
     (fst (asyncio_shutdown w) = inr tt -> lo_dispatched (w_obj (snd (asyncio_shutdown w))) = 0)).
Proof.
  intros Hm. split_and!; intros allowed leaked w Hr.
  - destruct (slots_ok thread_ops max _ _ w thread_books Hm Hr) as (H1 & H2 & H3 & H4).
    split_and!; try done. intros a' l' w'. by apply thread_leaks_kept.
  - destruct (slots_ok process_ops max _ _ w process_books Hm Hr) as (H1 & H2 & H3 & H4).
    split_and!; try done. intros a' l' w'. by apply process_leaks_kept.
  - pose proof (asyncio_never_refused _ _ _ _ Hr) as ->.
    pose proof (slots_ok asyncio_ops max _ _ w asyncio_books Hm Hr) as (H1 & _ & H2).
    change (busy asyncio_ops) with (fun o : local adist => Z.of_nat (length (lo_tasks o)) + Z.of_nat (length (lo_running o))
      + Z.of_nat (length (lo_cancelled o))) in *. cbn beta in *. rewrite !Z.add_0_r in *.
    split; [exact H1|]. split; [apply H2|]. split; [apply H2|]. intros E.
    pose proof (asyncio_shutdown_ok max _ _ w Hm (pool_reach_ok _ max _ asyncio_books Hm Hr)) as (_ & _ & H3 & _).
    by eapply (asyncio_shutdown_clears w _ E H3), asyncio_left_zero.
Qed.
End Backends.

(** A refused submission to the process pool leaks a slot of the fleet.
    The process pool enters the lifecycle before it submits: when the executor
    is broken the dispatch raises, no task will ever run, and yet the count
    has grown and the heartbeat of the task is registered, which renews its
    lease for as long as the process lives.  The thread pool loses the count
    only. *)
Theorem refused_submission_leaks {F : Rounding} {R : Type} {RS : RedisServer R} {M : Modules}
    (func_path : string) (payload : json) (task_id : string) (w : world R (local dist)) (g : pyobj) :
  import_string func_path = inr g -> lo_broken (w_obj w) = true ->
  let e := RuntimeError "cannot schedule new futures" in
  let wp := snd (process_dispatch (JStr func_path) payload (JStr task_id) w) in
  let wt := snd (thread_dispatch (JStr func_path) payload (JStr task_id) w) in
  fst (process_dispatch (JStr func_path) payload (JStr task_id) w) = inl e /\
  fst (thread_dispatch (JStr func_path) payload (JStr task_id) w) = inl e /\
  pool_view (w_obj wp) = pool_view (with_count (fun n => n + 1) (w_obj w)) /\
  pool_view (w_obj wt) = pool_view (with_count (fun n => n + 1) (w_obj w)) /\
  (exists h, hs_entries (d_heartbeats (dist_of (w_obj wp))) !! task_id = Some h /\ he_healthy h = true) /\
  lo_limiter (w_obj wt) = lo_limiter (w_obj w).
Proof.
  intros Hg Hb e wp wt. subst e wp wt. unfold process_dispatch, thread_dispatch, import_path. rewrite Hg.
  unfold of_sum, count_up, task_lifecycle, lifecycle_enter, submit, me, mbind, py_bind, pbnd, modify, self, monotonic, mret, py_ret, pret.
  cbn. rewrite Hb. cbn. split_and!; try done.
  unfold hs_register. destruct (String.eqb task_id estr); cbn; [by rewrite lookup_insert_eq; eexists|].
  unfold hs_ensure_started. cbn. eexists. destruct (not_running _); cbn; by rewrite lookup_insert_eq.
Qed.

(** ** Concrete pools *)

#[local] Existing Instance binary64.
#[local] Existing Instance demo_resources.
#[local] Existing Instance demo_digest.

Definition demo_function : pyobj := PyObj 1 true (Some "app") (Some "run").
Definition demo_app : Modules := fun m => if String.eqb m "app" then inr (fun f => if String.eqb f "run" then Some demo_function else None)
                                          else inl (ImportError m).
#[local] Existing Instance demo_app.

Definition demo_pool (broken : bool) : world db (local dist) :=
  World demo_empty [] [] 0 1700000000 [] [] [] (Local demo_node 1 0 [] [] [] broken).

Lemma refused_submission_leaks_witness :
  fst (process_dispatch (JStr "app.run") (JObj []) (JStr "t1") (demo_pool true))
    = inl (RuntimeError "cannot schedule new futures").
Proof. exact (proj1 (refused_submission_leaks "app.run" (JObj []) "t1" (demo_pool true) demo_function eq_refl eq_refl)). Defined.

(** One check, one dispatch: the only worker is busy. *)
Definition demo_busy : world db (local dist) :=
  snd (thread_dispatch (JStr "app.run") (JObj []) (JStr "t1") (demo_pool false)).

Lemma demo_busy_reach : pool_reach thread_ops 1 (false, 0, demo_busy).
Proof.
  eapply pr_step; [|exact (ps_dispatch thread_ops 0 (demo_pool false) (JStr "app.run") (JObj []) (JStr "t1"))].
  apply (pr_step _ 1 (false, 0, demo_pool false)); [by apply pr_start|]. by constructor.
Qed.

(** The executor is shut down and cancels the task it had queued. *)
Definition demo_dropped : world db (local dist) := snd (queued_cancelled 0 demo_busy).

Lemma demo_dropped_reach : pool_reach thread_ops 1 (false, 1, demo_dropped).
Proof. eapply pr_step; [exact demo_busy_reach|]. exact (ps_cancel thread_ops false 0 demo_busy 0). Qed.

Lemma local_slots_witness :
  lo_dispatched (w_obj demo_busy) = 1 /\ (fst (thread_capacity demo_busy) = inr false <-> 1 = 1) /\
  lo_tasks (w_obj demo_dropped) = [] /\ lo_dispatched (w_obj demo_dropped) = 1 /\
  fst (thread_capacity demo_dropped) = inr false.
Proof.
  destruct (local_slots (F := binary64) (RS := ref_server) 1 ltac:(lia)) as [H _].
  destruct (H false 0 demo_busy demo_busy_reach) as (H1 & _ & _ & H3 & _).
  destruct (H false 1 demo_dropped demo_dropped_reach) as (D1 & _ & _ & D3 & _).
  split; [exact H1|]. split; [exact H3|]. split; [done|]. split; [exact D1|by apply D3].
Defined.
