(* ===== verification/Registry.v ===== *)
(** * Registry: one instance per identifier

    The registry of limiters as an object store: whatever sequence of calls a
    process makes, whatever Redis answers and wherever a call fails, the cache
    maps each identifier to a live object of that identifier, and what [get]
    returns once it returns until the entry is replaced.  Calls that overlap
    at an await are another matter: two retrievals of one identifier build two
    instances. *)

From S2P Require Import Prelude Float Text Json Redis Keyspace Scripts Md5 Py Base Loop Heartbeat Dist Managed Distributed Limiter ManagedDist AsyncLoop AsyncDistributed Pool.

Open Scope Z_scope.
Open Scope rl_scope.

Section Store.
Context {R : Type} {RS : RedisServer R} {O : Type} {M : Managed R O}.

Definition called (id : string) (o : O) : Prop := b_id (base_of o) = id.

(** Identifiers are set by the constructor and never change. *)
Class Named := {
  nm_construct id kw (w : world R O) : wp (construct id kw) (fun r w' => r = inr tt -> called id (w_obj w')) w;
  nm_start id : keeps (called id) start;
  nm_apply id kw : keeps (called id) (apply_config_overrides kw);
}.

(** Objects stay where they are and keep their identifiers. *)
Definition extends (c c' : mclass O) : Prop := forall a o,
  c_objects c !! a = Some o -> exists o', c_objects c' !! a = Some o' /\ b_id (base_of o') = b_id (base_of o).

#[global] Instance extends_preorder : PreOrder extends.
Proof.
  split.
  - intros c a o H. by exists o.
  - intros c1 c2 c3 H1 H2 a o H. destruct (H1 a o H) as (o' & H' & E'). destruct (H2 a o' H') as (o2 & H2' & E2).
    exists o2. split; [done|congruence].
Qed.

(** Every entry of the cache names an object of that identifier. *)
Definition named (c : mclass O) : Prop := forall id a,
  c_instances c !! id = Some a -> exists o, c_objects c !! a = Some o /\ called id o.

Lemma named_extends c c' : named c -> extends c c' -> c_instances c' = c_instances c -> named c'.
Proof.
  intros Hn He Ei id a Ha. rewrite Ei in Ha. destruct (Hn id a Ha) as (o & Ho & Hc).
  destruct (He a o Ho) as (o' & Ho' & E'). exists o'. split; [done|]. unfold called in *. congruence.
Qed.

Lemma named_injective c id id' a :
  named c -> c_instances c !! id = Some a -> c_instances c !! id' = Some a -> id = id'.
Proof.
  intros Hn H1 H2. destruct (Hn _ _ H1) as (o & Ho & <-). destruct (Hn _ _ H2) as (o' & Ho' & <-). congruence.
Qed.

(** ** Calls that leave the cache alone *)

Definition grows {A} (m : py R (mclass O) A) : Prop := forall w,
  c_instances (w_obj (snd (m w))) = c_instances (w_obj w) /\ extends (w_obj w) (w_obj (snd (m w))).

Lemma grows_obj {A} (m : py R (mclass O) A) : (forall w, w_obj (snd (m w)) = w_obj w) -> grows m.
Proof. intros H w. by rewrite H. Qed.

Lemma grows_bind {A T} (m : py R (mclass O) A) (f : A -> py R (mclass O) T) :
  grows m -> (forall a, grows (f a)) -> grows (m ≫= f).
Proof.
  intros Hm Hf w. rewrite bind_eq. specialize (Hm w). destruct (m w) as [[e|a] w1]; [done|].
  destruct Hm as [E1 X1], (Hf a w1) as [E2 X2]. cbn in *. split; [by rewrite E2|by etrans].
Qed.

Lemma grows_on {A} a (m : py R O A) : (forall id, keeps (called id) m) -> grows (on a m).
Proof.
  intros Hm w. unfold on. destruct (c_objects (w_obj w) !! a) as [o|] eqn:Eo; [|done].
  pose proof (Hm (b_id (base_of o)) (with_object o w) eq_refl) as Hid.
  destruct (m (with_object o w)) as [r w1]. cbn in *. unfold called in Hid.
  split; [done|]. intros a' o' Ho'. cbn. destruct (decide (a' = a)) as [->|Hne].
  - exists (w_obj w1). split; [|congruence]. apply list_lookup_insert_eq. by eapply lookup_lt_Some.
  - exists o'. by rewrite list_lookup_insert_ne.
Qed.

Lemma grows_allocate : grows allocate.
Proof. intros w. split; [done|]. intros a o Ho. exists o. split; [|done]. cbn. by apply lookup_app_l_Some. Qed.

Lemma grows_configured : grows require_configured.
Proof.
  apply grows_bind; [by apply grows_obj|]. intros c. unfold when. by destruct (_ || _); apply grows_obj.
Qed.

Lemma command_obj {A} (k : rcmd A) (w : world R (mclass O)) : w_obj (snd (command k w)) = w_obj w.
Proof. apply trip_obj. Qed.

Context {N : Named}.

(** A new object is where none was, and has the identifier. *)
Lemma built (rest : nat -> py R (mclass O) nat) id kw w :
  (forall a, grows (rest a)) -> (forall a w', match fst (rest a w') with inr b => b = a | inl _ => True end) ->
  wp (a ← allocate; _ ← on a (_ ← require_internal_construction true; construct id kw); rest a)
    (fun r w' => c_instances (w_obj w') = c_instances (w_obj w) /\ extends (w_obj w) (w_obj w') /\
      forall a, r = inr a -> a = length (c_objects (w_obj w)) /\
        exists o, c_objects (w_obj w') !! a = Some o /\ called id o) w.
Proof.
  intros Hg Hr. apply wp_bind. set (a := length (c_objects (w_obj w))). unfold wp at 1, allocate. cbn zeta. cbn [fst snd].
  fold a.
  set (w1 := set_obj _ w). assert (Ea : c_objects (w_obj w1) !! a = Some blank).
  { cbn. rewrite lookup_app_r by done. by rewrite Nat.sub_diag. }
  assert (E1 : c_instances (w_obj w1) = c_instances (w_obj w) /\ extends (w_obj w) (w_obj w1)) by apply (grows_allocate w).
  apply wp_bind. unfold wp at 1, on. rewrite Ea. cbn [require_internal_construction when negb].
  pose proof (nm_construct id kw (with_object blank w1)) as Hc. unfold wp in Hc. rewrite bind_eq. cbn.
  destruct (construct id kw (with_object blank w1)) as [r w2]. cbn [fst snd] in *.
  set (w3 := with_object _ w2).
  assert (E3 : c_instances (w_obj w3) = c_instances (w_obj w) /\ extends (w_obj w) (w_obj w3)).
  { split; [done|]. intros a' o' Ho'. exists o'. split; [|done]. cbn. rewrite list_lookup_insert_ne.
    - by apply lookup_app_l_Some.
    - intros <-. apply lookup_lt_Some in Ho'. unfold a in Ho'. lia. }
  destruct r as [e|[]]; [by destruct E3|]. specialize (Hc eq_refl).
  specialize (Hg a w3). specialize (Hr a w3). unfold wp. destruct (rest a w3) as [r4 w4]. cbn [fst snd] in *.
  destruct E3 as [I3 X3], Hg as [I4 X4]. split; [congruence|]. split; [by etrans|].
  intros b ->. rewrite Hr. split; [done|].
  assert (E : c_objects (w_obj w3) !! a = Some (w_obj w2)).
  { cbn. apply list_lookup_insert_eq. rewrite length_app. unfold a. cbn. lia. }
  destruct (X4 a _ E) as (o & Ho & Eo). exists o. split; [done|]. unfold called in *. congruence.
Qed.

(** What a new instance promises to those who build one. *)
Definition builds (id : string) (m : py R (mclass O) nat) : Prop := forall w,
  wp m (fun r w' => c_instances (w_obj w') = c_instances (w_obj w) /\ extends (w_obj w) (w_obj w') /\
    forall a, r = inr a -> a = length (c_objects (w_obj w)) /\
      exists o, c_objects (w_obj w') !! a = Some o /\ called id o) w.

Lemma builds_sync id kw : builds id (new_instance id kw).
Proof. intros w. apply (built (fun a => mret a)); [intros a; by apply grows_obj|done]. Qed.

Lemma builds_async id kw : builds id (async_new_instance id kw).
Proof.
  intros w. apply (built (fun a => _ ← on a start; mret a)).
  - intros a. apply grows_bind; [apply grows_on; intros; apply nm_start|]. intros _. by apply grows_obj.
  - intros a w'. rewrite bind_eq. by destruct (on a start w') as [[e|[]] w1].
Qed.

(** ** Calls that add to the cache *)

(** From [w], a call that concerns [id] and answers [r] in [w']. *)
Record concerns (id : string) (w : world R (mclass O)) (r : exn + nat) (w' : world R (mclass O)) : Prop := {
  cc_named : named (w_obj w) -> named (w_obj w');
  cc_extends : extends (w_obj w) (w_obj w');
  cc_others : forall id', id' <> id -> c_instances (w_obj w') !! id' = c_instances (w_obj w) !! id';
  cc_cached : forall a, r = inr a -> c_instances (w_obj w') !! id = Some a;
  cc_entry : c_instances (w_obj w') !! id = c_instances (w_obj w) !! id \/
    c_instances (w_obj w') !! id = Some (length (c_objects (w_obj w)));
}.

Lemma concerns_grown id w e w' :
  c_instances (w_obj w') = c_instances (w_obj w) -> extends (w_obj w) (w_obj w') -> concerns id w (inl e) w'.
Proof. intros Ei He. split; try done; [intros Hn; by eapply named_extends|intros; by rewrite Ei|rewrite Ei; auto]. Qed.

Lemma concerns_after id w w1 r w' : w_obj w1 = w_obj w -> concerns id w1 r w' -> concerns id w r w'.
Proof. intros E []. split; by rewrite <- ?E. Qed.

(** A call that builds its answer. *)
Definition made (id : string) (w : world R (mclass O)) (r : exn + nat) (w' : world R (mclass O)) : Prop :=
  concerns id w r w' /\ forall a, r = inr a -> a = length (c_objects (w_obj w)).

Lemma made_grown id w e w' :
  c_instances (w_obj w') = c_instances (w_obj w) -> extends (w_obj w) (w_obj w') -> made id w (inl e) w'.
Proof. intros Ei He. split; [by apply concerns_grown|done]. Qed.

Lemma made_concerns id m w : wp m (made id w) w -> wp m (concerns id w) w.
Proof. by intros [? _]. Qed.

(** A new instance, a step that leaves the cache alone, the entry, and the
    rest of the call. *)
Lemma installed id (m : py R (mclass O) nat) (step : nat -> py R (mclass O) unit) (rest : nat -> py R (mclass O) nat) w :
  builds id m -> (forall a, grows (step a)) -> (forall a, grows (rest a)) ->
  (forall a w', match fst (rest a w') with inr b => b = a | inl _ => True end) ->
  wp (a ← m; _ ← step a; _ ← remember id a; rest a) (made id w) w.
Proof.
  intros Hm Hs Hg Hr. apply wp_bind. eapply wp_mono; [apply Hm|]. intros r1 w1 (I1 & X1 & B1).
  destruct r1 as [e|a]; [by apply made_grown|]. destruct (B1 a eq_refl) as (Ea & o & Ho & Hc). clear B1.
  apply wp_bind. unfold wp at 1. destruct (Hs a w1) as [I2 X2]. destruct (step a w1) as [[e|[]] w2]; cbn [fst snd] in *.
  { apply made_grown; [congruence|by etrans]. }
  apply wp_bind, wp_modify. set (w3 := set_obj _ w2).
  destruct (Hg a w3) as [I4 X4]. specialize (Hr a w3). unfold wp. destruct (rest a w3) as [r4 w4]. cbn [fst snd] in *.
  destruct (X2 a o Ho) as (o2 & Ho2 & E2).
  assert (I3 : c_instances (w_obj w3) = <[id := a]> (c_instances (w_obj w))) by (cbn; congruence).
  assert (X3 : extends (w_obj w) (w_obj w3)) by (etrans; [exact X1|exact X2]).
  split; [|intros b ->; congruence].
  split.
  - intros Hn. eapply named_extends; [|exact X4|exact I4]. intros id' a'. rewrite I3.
    destruct (decide (id' = id)) as [->|Hne].
    + rewrite lookup_insert_eq. intros [= <-]. exists o2. split; [done|]. unfold called in *. congruence.
    + rewrite lookup_insert_ne by done. intros Ha'. destruct (Hn _ _ Ha') as (o' & Ho' & Hc').
      destruct (X3 a' o' Ho') as (o3 & Ho3 & E3). exists o3. split; [done|]. unfold called in *. congruence.
  - by etrans.
  - intros id' Hne. by rewrite I4, I3, lookup_insert_ne.
  - intros b ->. rewrite I4, I3, Hr. apply lookup_insert_eq.
  - right. rewrite I4, I3, lookup_insert_eq. congruence.
Qed.

Lemma grows_version a (raw : option string) :
  grows (match raw with
         | Some v => version ← of_sum (parse_version v); on a (modify (with_base (set_version version)))
         | None => skip
         end).
Proof.
  destruct raw as [v|]; [|by apply grows_obj]. apply grows_bind; [apply grows_obj; intros w; by destruct (parse_version v)|].
  intros n. apply grows_on. intros id w Hw. unfold called in *. cbn. rewrite base_of_with. exact Hw.
Qed.

Lemma keeps_base (f : base -> base) id :
  (forall b, b_id (f b) = b_id b) -> keeps (called id) (modify (R := R) (with_base f)).
Proof. intros Hf w Hw. unfold called in *. cbn. by rewrite base_of_with, Hf. Qed.

Lemma keeps_persist id : keeps (called id) persist_config.
Proof.
  apply keeps_bind; [by apply keeps_obj|]. intros o. apply keeps_bind; [apply keeps_obj, trip_obj|]. intros _.
  apply keeps_bind; [apply keeps_obj, trip_obj|]. intros n. by apply keeps_base.
Qed.

Lemma bind_step {A B C} (m : py R (mclass O) A) (c : py R (mclass O) B) (f : A -> B -> py R (mclass O) unit)
    (k : A -> py R (mclass O) C) w :
  (a ← m; b ← c; _ ← f a b; k a) w = (a ← m; _ ← (b ← c; f a b); k a) w.
Proof. rewrite !bind_eq. destruct (m w) as [[e|a] w1]; [done|]. rewrite !bind_eq. by destruct (c w1) as [[e|b] w2]. Qed.

(** A retrieval from the answer of the registry on. *)
Lemma install_versioned id (m : py R (mclass O) nat) w :
  builds id m ->
  wp (a ← m; raw ← command (HGET version_key id);
      _ ← match raw with
          | Some v => version ← of_sum (parse_version v); on a (modify (with_base (set_version version)))
          | None => skip
          end;
      _ ← remember id a; mret a) (made id w) w.
Proof.
  intros Hm. unfold wp. rewrite bind_step. apply installed; [done| | |done].
  - intros a. apply grows_bind; [apply grows_obj, command_obj|]. intros raw. apply grows_version.
  - intros a. by apply grows_obj.
Qed.

Lemma hydrate_made id raw w : wp (hydrate id raw) (made id w) w.
Proof.
  unfold hydrate. destruct raw as [raw|]; [|by apply made_grown].
  apply wp_bind. unfold of_sum at 1. apply wp_of_sum. destruct (parse_raw_config raw) as [e|kw]; [by apply made_grown|].
  apply install_versioned, builds_sync.
Qed.

Lemma async_hydrate_made id raw w : wp (async_hydrate id raw) (made id w) w.
Proof.
  unfold async_hydrate. destruct raw as [raw|]; [|by apply made_grown].
  apply wp_bind. unfold of_sum at 1. apply wp_of_sum. destruct (parse_raw_config raw) as [e|kw]; [by apply made_grown|].
  apply install_versioned, builds_async.
Qed.

Lemma concerns_cached id a w : c_instances (w_obj w) !! id = Some a -> concerns id w (inr a) w.
Proof. intros E. split; try done; [|by left]. by intros b [= <-]. Qed.

(** A call that asks whether the class is configured, then Redis. *)
Lemma asks_concerns id (k : option string -> py R (mclass O) nat) w :
  (forall raw w1, wp (k raw) (concerns id w1) w1) ->
  wp (_ ← require_configured; raw ← command (HGET registry_key id); k raw) (concerns id w) w.
Proof.
  intros Hk. apply wp_bind. unfold require_configured. apply wp_bind, wp_self, wp_when.
  { intros _. by apply concerns_grown. }
  intros _. apply wp_bind. unfold wp at 1. pose proof (command_obj (HGET registry_key id) w) as E.
  destruct (command _ w) as [[e|raw] w1]; cbn [fst snd] in *; [apply concerns_grown; by rewrite E|].
  eapply wp_mono; [apply Hk|]. intros r w' Hc. by eapply concerns_after.
Qed.

Lemma get_concerns id w : wp (managed_get id) (concerns id w) w.
Proof.
  unfold managed_get. apply wp_bind, wp_self. destruct (c_instances (w_obj w) !! id) eqn:E; [by apply concerns_cached|].
  apply asks_concerns; intros; apply made_concerns, hydrate_made.
Qed.

Lemma async_get_concerns id w : wp (async_managed_get id) (concerns id w) w.
Proof.
  unfold async_managed_get. apply wp_bind, wp_self. destruct (c_instances (w_obj w) !! id) eqn:E; [by apply concerns_cached|].
  apply asks_concerns; intros; apply made_concerns, async_hydrate_made.
Qed.

(** A creation; the entry is made before the configuration is persisted. *)
Lemma creates_concerns id (persist override : bool) (m : py R (mclass O) nat) (save : py R O unit) w :
  builds id m -> (forall id', keeps (called id') save) ->
  wp (_ ← require_configured; c ← self;
      if negb override && bool_decide (is_Some (c_instances c !! id)) then raise (ValueError "Limiter already exists.")
      else a ← m; _ ← remember id a; _ ← when persist (on a save); mret a) (concerns id w) w.
Proof.
  intros Hm Hs. apply wp_bind. unfold require_configured. apply wp_bind, wp_self, wp_when.
  { intros _. by apply concerns_grown. }
  intros _. apply wp_bind, wp_self. destruct (_ && _); [by apply concerns_grown|].
  pose proof (installed id m (fun _ => skip) (fun a => _ ← when persist (on a save); mret a) w Hm) as Hi.
  assert (E : forall w, (a ← m; _ ← remember id a; _ ← when persist (on a save); mret a) w =
                        (a ← m; _ ← skip; _ ← remember id a; _ ← when persist (on a save); mret a) w).
  { intros w0. rewrite !bind_eq. by destruct (m w0) as [[e|a] w1]. }
  apply made_concerns. unfold wp. rewrite E. apply Hi.
  - intros a. by apply grows_obj.
  - intros a. apply grows_bind; [|intros _; by apply grows_obj]. unfold when. destruct persist; [by apply grows_on|by apply grows_obj].
  - intros a w'. rewrite bind_eq. by destruct (when persist (on a save) w') as [[e|[]] w1].
Qed.

Lemma create_concerns id persist override kw w : wp (managed_create id persist override kw) (concerns id w) w.
Proof. apply creates_concerns; [apply builds_sync|apply keeps_persist]. Qed.

Lemma async_create_concerns id persist override kw w : wp (async_managed_create id persist override kw) (concerns id w) w.
Proof. apply creates_concerns; [apply builds_async|apply keeps_persist]. Qed.

Lemma grows_update a kw (save : py R O unit) :
  (forall id, keeps (called id) save) ->
  grows (_ ← on a (apply_config_overrides kw); _ ← on a save; mret a).
Proof.
  intros Hs. apply grows_bind; [apply grows_on; intros; apply nm_apply|]. intros _.
  apply grows_bind; [by apply grows_on|]. intros _. by apply grows_obj.
Qed.

(** ** A process *)

(** The states of the class under calls that do not overlap, with whatever
    the server, the network and the clocks do, and whatever the methods of
    the instances do besides. *)
Inductive registry : world R (mclass O) -> Prop :=
  | rg_start w : w_obj w = init_subclass -> registry w
  | rg_env w w' : registry w -> w_obj w' = w_obj w -> registry w'
  | rg_configure backend w : registry w ->
      (forall w', c_instances (w_obj (snd (backend w'))) = c_instances (w_obj w') /\
                  c_objects (w_obj (snd (backend w'))) = c_objects (w_obj w')) ->
      registry (snd (configure backend w))
  | rg_reset backend w : registry w ->
      (forall w', c_instances (w_obj (snd (backend w'))) = c_instances (w_obj w') /\
                  c_objects (w_obj (snd (backend w'))) = c_objects (w_obj w')) ->
      registry (snd (reset backend w))
  | rg_create id persist override kw w : registry w -> registry (snd (managed_create id persist override kw w))
  | rg_get id w : registry w -> registry (snd (managed_get id w))
  | rg_update id kw w : registry w -> registry (snd (managed_update id kw w))
  | rg_async_create id persist override kw w :
      registry w -> registry (snd (async_managed_create id persist override kw w))
  | rg_async_get id w : registry w -> registry (snd (async_managed_get id w))
  | rg_async_update id kw w : registry w -> registry (snd (async_managed_update id kw w))
  | rg_method {A} a (m : py R O A) w :
      registry w -> (forall id, keeps (called id) m) -> registry (snd (on a m w)).

Lemma named_grown {A} (m : py R (mclass O) A) w : grows m -> named (w_obj w) -> named (w_obj (snd (m w))).
Proof. intros Hg Hn. destruct (Hg w). by eapply named_extends. Qed.

Lemma named_then {A} (m : py R (mclass O) nat) (f : nat -> py R (mclass O) A) id w :
  wp m (concerns id w) w -> (forall a, grows (f a)) -> named (w_obj w) -> named (w_obj (snd ((m ≫= f) w))).
Proof.
  intros Hc Hf Hn. rewrite bind_eq. pose proof (cc_named _ _ _ _ Hc Hn) as Hn1. destruct (m w) as [[e|a] w1]; [done|].
  by apply named_grown.
Qed.

Lemma named_same (w w' : world R (mclass O)) : named (w_obj w) ->
  c_instances (w_obj w') = c_instances (w_obj w) /\ c_objects (w_obj w') = c_objects (w_obj w) -> named (w_obj w').
Proof. intros Hn [E1 E2] id a. rewrite E1, E2. apply Hn. Qed.

Lemma registry_named w : registry w -> named (w_obj w).
Proof.
  induction 1 as [w E|w w' _ IH E|b w _ IH Hb|b w _ IH Hb|id p o kw w _ IH|id w _ IH|id kw w _ IH
                 |id p o kw w _ IH|id w _ IH|id kw w _ IH|A a m w _ IH Hm].
  - rewrite E. by intros id a ?.
  - by rewrite E.
  - unfold configure, set_client. rewrite bind_eq. cbn [modify fst snd]. eapply named_same; [|apply Hb]. exact IH.
  - unfold reset, set_client. rewrite !bind_eq. cbn [modify fst snd]. eapply named_same; [|apply Hb]. by intros id a ?.
  - exact (cc_named _ _ _ _ (create_concerns id p o kw w) IH).
  - exact (cc_named _ _ _ _ (get_concerns id w) IH).
  - eapply named_then; [apply get_concerns| |exact IH]. intros a. apply grows_update, keeps_persist.
  - exact (cc_named _ _ _ _ (async_create_concerns id p o kw w) IH).
  - exact (cc_named _ _ _ _ (async_get_concerns id w) IH).
  - eapply named_then; [apply async_get_concerns| |exact IH]. intros a. apply grows_update, keeps_persist.
  - apply named_grown; [by apply grows_on|exact IH].
Qed.

Lemma get_hit id a (w : world R (mclass O)) : c_instances (w_obj w) !! id = Some a -> managed_get id w = (inr a, w).
Proof. intros E. unfold managed_get. rewrite bind_eq. cbn [self]. by rewrite E. Qed.

Lemma async_get_hit id a (w : world R (mclass O)) : c_instances (w_obj w) !! id = Some a -> async_managed_get id w = (inr a, w).
Proof. intros E. unfold async_managed_get. rewrite bind_eq. cbn [self]. by rewrite E. Qed.

Lemma concerns_kept id id' (w : world R (mclass O)) r w' a :
  concerns id' w r w' -> (id' = id -> w' = w) -> c_instances (w_obj w) !! id = Some a ->
  c_instances (w_obj w') !! id = Some a.
Proof.
  intros Hc Hw E. destruct (decide (id = id')) as [<-|Hne]; [by rewrite Hw|]. by rewrite (cc_others _ _ _ _ Hc).
Qed.

(** C21. One instance per identifier.  Whatever calls a process makes on the
    class, one after the other, whatever Redis answers and wherever a call
    fails: the cache maps an identifier to an object of that identifier, so no
    two identifiers share one; once [get] has answered with an instance it
    keeps answering with it, without asking Redis; and no retrieval of another
    identifier, successful or not, changes that. *)
Theorem one_instance w :
  registry w ->
  (forall id a, c_instances (w_obj w) !! id = Some a ->
     exists o, c_objects (w_obj w) !! a = Some o /\ b_id (base_of o) = id) /\
  (forall id id' a, c_instances (w_obj w) !! id = Some a -> c_instances (w_obj w) !! id' = Some a -> id = id') /\
  (forall id a, fst (managed_get id w) = inr a ->
     managed_get id (snd (managed_get id w)) = (inr a, snd (managed_get id w))) /\
  (forall id a, fst (async_managed_get id w) = inr a ->
     async_managed_get id (snd (async_managed_get id w)) = (inr a, snd (async_managed_get id w))) /\
  (forall id id' a, c_instances (w_obj w) !! id = Some a ->
     c_instances (w_obj (snd (managed_get id' w))) !! id = Some a /\
     c_instances (w_obj (snd (async_managed_get id' w))) !! id = Some a).
Proof.
  intros Hw. pose proof (registry_named w Hw) as Hn. split; [exact Hn|].
  split; [intros; by eapply named_injective|].
  split; [intros id a E; apply get_hit; by apply (cc_cached _ _ _ _ (get_concerns id w))|].
  split; [intros id a E; apply async_get_hit; by apply (cc_cached _ _ _ _ (async_get_concerns id w))|].
  intros id id' a E. split.
  - apply (concerns_kept id id' w _ _ a (get_concerns id' w)); [|done]. intros ->. by rewrite (get_hit id a).
  - apply (concerns_kept id id' w _ _ a (async_get_concerns id' w)); [|done]. intros ->. by rewrite (async_get_hit id a).
Qed.

(** *** Overlapping retrievals *)

(** The first call up to its await, and from there on. *)
Lemma get_awaits id w0 :
  c_instances (w_obj w0) !! id = None -> c_client (w_obj w0) = true -> c_context (w_obj w0) = true ->
  async_managed_get id w0 =
    match command (HGET registry_key id) w0 with (inr raw, w) => async_hydrate id raw w | (inl e, w) => (inl e, w) end.
Proof.
  intros Hid Hcl Hcx. unfold async_managed_get, require_configured, mbind, py_bind, pbnd, self. rewrite Hid, Hcl, Hcx.
  cbn [negb orb when]. unfold skip, pret. by destruct (command _ w0) as [[e|raw] w].
Qed.

Lemma overlapping_entries w0 id a1 a2 raw :
  registry w0 -> let asked := command (HGET registry_key id) w0 in fst asked = inr raw ->
  let w1 := snd (async_managed_get id (snd asked)) in
  let w2 := snd (async_hydrate id raw w1) in
  fst (async_managed_get id (snd asked)) = inr a1 -> fst (async_hydrate id raw w1) = inr a2 ->
  a1 <> a2 /\ c_instances (w_obj w2) !! id = Some a2 /\
  (forall a, a = a1 \/ a = a2 -> exists o, c_objects (w_obj w2) !! a = Some o /\ called id o) /\
  forall id', c_instances (w_obj w2) !! id' <> Some a1 /\ fst (async_managed_get id' w2) <> inr a1.
Proof.
  intros Hw asked Eraw w1 w2 E1 E2.
  assert (Hn1 : named (w_obj (snd asked))) by (unfold asked; rewrite command_obj; by apply registry_named).
  pose proof (async_get_concerns id (snd asked)) as C1. pose proof (async_hydrate_made id raw w1) as [C2 F2].
  pose proof (cc_cached _ _ _ _ C1 a1 E1) as K1. pose proof (cc_cached _ _ _ _ C2 a2 E2) as K2.
  pose proof (cc_named _ _ _ _ C2 (cc_named _ _ _ _ C1 Hn1)) as Hn2. fold w2 in K2, Hn2.
  destruct (cc_named _ _ _ _ C1 Hn1 id a1 K1) as (o1 & Ho1 & Hc1).
  destruct (cc_extends _ _ _ _ C2 a1 o1 Ho1) as (o2 & Ho2 & Hc2). fold w2 in Ho2.
  assert (Hne : a1 <> a2).
  { rewrite (F2 a2 E2). intros ->. apply lookup_lt_Some in Ho1. fold w1 in Ho1. lia. }
  assert (Hgone : forall id', c_instances (w_obj w2) !! id' <> Some a1).
  { intros id' Hid'. assert (id' = id) as ->; [|congruence].
    destruct (Hn2 id' a1 Hid') as (o3 & Ho3 & <-). unfold called in Hc1. congruence. }
  split; [done|]. split; [done|]. split.
  { intros a [-> | ->]; [exists o2; split; [done|]; unfold called in *; congruence|]. by apply Hn2. }
  intros id'. split; [apply Hgone|]. intros E3. pose proof (async_get_concerns id' w2) as C3.
  pose proof (cc_cached _ _ _ _ C3 a1 E3) as K3. destruct (cc_entry _ _ _ _ C3) as [E|E]; rewrite K3 in E.
  - by destruct (Hgone id').
  - injection E as E. apply lookup_lt_Some in Ho2. lia.
Qed.

(** A new instance that was constructed and started, and the others as they
    were. *)
Section Born.
Context (half born : O -> Prop).
Hypothesis half_constructed : forall id kw (w : world R O), wp (construct id kw) (fun r w' => r = inr tt -> half (w_obj w')) w.
Hypothesis half_started : forall w : world R O, half (w_obj w) -> wp start (fun r w' => r = inr tt -> born (w_obj w')) w.
Hypothesis born_versioned : forall n o, born o -> born (with_base (set_version n) o).

Definition leaves_old (w w' : world R (mclass O)) : Prop := forall a,
  (a < length (c_objects (w_obj w)))%nat -> c_objects (w_obj w') !! a = c_objects (w_obj w) !! a.

Lemma on_object {A} a (m : py R O A) (o : O) (w : world R (mclass O)) (post : exn + A -> O -> Prop) :
  c_objects (w_obj w) !! a = Some o ->
  (forall w1, w_obj w1 = o -> wp m (fun r w' => post r (w_obj w')) w1) ->
  wp (on a m) (fun r w' => exists o', c_objects (w_obj w') = <[a := o']> (c_objects (w_obj w)) /\ post r o') w.
Proof.
  intros Ea Hm. unfold wp, on. rewrite Ea. specialize (Hm (with_object o w) eq_refl). unfold wp in Hm.
  destruct (m (with_object o w)) as [r w1]. cbn in *. by exists (w_obj w1).
Qed.

Lemma new_born id kw w :
  wp (async_new_instance id kw) (fun r w' => leaves_old w w' /\
    forall a, r = inr a -> a = length (c_objects (w_obj w)) /\
      exists o, c_objects (w_obj w') = c_objects (w_obj w) ++ [o] /\ born o) w.
Proof.
  unfold async_new_instance. apply wp_bind. set (a := length (c_objects (w_obj w))). unfold wp at 1, allocate. cbn zeta. cbn [fst snd].
  fold a. set (w1 := set_obj _ w).
  assert (Eins : forall o o', <[a := o]> (c_objects (w_obj w) ++ [o']) = c_objects (w_obj w) ++ [o]).
  { intros o o'. unfold a. rewrite insert_app_r_alt by lia. by rewrite Nat.sub_diag. }
  assert (Hlast : forall o, (c_objects (w_obj w) ++ [o]) !! a = Some o).
  { intros o. unfold a. rewrite lookup_app_r by done. by rewrite Nat.sub_diag. }
  assert (Hold : forall w' o, c_objects (w_obj w') = c_objects (w_obj w) ++ [o] -> leaves_old w w').
  { intros w' o E a' Ha'. rewrite E. by apply lookup_app_l. }
  apply wp_bind. eapply wp_mono; [apply (on_object a _ blank _ (fun r o => r = inr tt -> half o)); [apply Hlast|]|].
  { intros w2 E2. unfold async_managed_init. cbn [require_internal_construction when negb].
    pose proof (half_constructed id kw w2) as Hh. unfold wp in *. by rewrite bind_eq. }
  intros r w2 (o & Eo & Hh). cbn in Eo. rewrite Eins in Eo. destruct r as [e|[]]; [split; [by eapply Hold|done]|].
  apply wp_bind. eapply wp_mono; [apply (on_object a _ o _ (fun r o => r = inr tt -> born o)); [rewrite Eo; apply Hlast|]|].
  { intros w3 E3. apply half_started. rewrite E3. by apply Hh. }
  intros r w3 (o' & Eo' & Hb). rewrite Eo, Eins in Eo'. destruct r as [e|[]]; [split; [by eapply Hold|done]|].
  apply wp_ret. split; [by eapply Hold|]. intros a' [= <-]. split; [done|]. exists o'. split; [done|]. by apply Hb.
Qed.

Lemma hydrate_born id raw w :
  wp (async_hydrate id raw) (fun r w' => leaves_old w w' /\
    forall a, r = inr a -> exists o, c_objects (w_obj w') !! a = Some o /\ born o) w.
Proof.
  unfold async_hydrate. destruct raw as [raw|]; [|by split].
  apply wp_bind. unfold of_sum at 1. apply wp_of_sum. destruct (parse_raw_config raw) as [e|kw]; [by split|].
  apply wp_bind. eapply wp_mono; [apply new_born|]. intros [e|a] w1 [Hold Hb]; [by split|].
  destruct (Hb a eq_refl) as (Ea & o & Eo & Ho). clear Hb.
  apply wp_bind. unfold wp at 1. pose proof (command_obj (HGET version_key id) w1) as E.
  destruct (command _ w1) as [[e|v] w2]; cbn [fst snd] in *; [split; [|done]; intros a' Ha'; rewrite E; by apply Hold|].
  assert (Ha : c_objects (w_obj w2) !! a = Some o).
  { rewrite E, Eo, Ea, lookup_app_r by done. by rewrite Nat.sub_diag. }
  assert (Hold2 : leaves_old w w2) by (intros a' Ha'; rewrite E; by apply Hold).
  apply wp_bind. apply (wp_mono _ (fun r w3 => leaves_old w w3 /\ exists o', c_objects (w_obj w3) !! a = Some o' /\ born o')).
  - destruct v as [v|]; [|apply wp_ret; split; [done|by exists o]].
    apply wp_bind. unfold of_sum. apply wp_of_sum. destruct (parse_version v) as [e|n]; [split; [done|by exists o]|].
    eapply wp_mono; [apply (on_object a _ o _ (fun _ o => born o)); [exact Ha|]|].
    { intros w3 E3. apply wp_modify. cbn. rewrite E3. by apply born_versioned. }
    intros r w3 (o' & Eo' & Ho'). rewrite Eo'. split.
    + intros a' Ha'. rewrite Eo', list_lookup_insert_ne by lia. by apply Hold2.
    + exists o'. split; [|done]. apply list_lookup_insert_eq. by eapply lookup_lt_Some.
  - intros [e|[]] w3 [Hold3 Hb]; [by split|]. apply wp_bind. unfold remember. apply wp_modify, wp_ret.
    split; [exact Hold3|]. intros a' [= <-]. exact Hb.
Qed.

Lemma get_born id w :
  c_instances (w_obj w) !! id = None ->
  wp (async_managed_get id) (fun r w' => forall a, r = inr a -> exists o, c_objects (w_obj w') !! a = Some o /\ born o) w.
Proof.
  intros Hid. unfold async_managed_get. apply wp_bind, wp_self. rewrite Hid. apply wp_bind.
  unfold require_configured. apply wp_bind, wp_self, wp_when; [done|]. intros _.
  apply wp_bind. unfold wp at 1. destruct (command _ w) as [[e|raw] w1]; [done|]. cbn [fst snd].
  eapply wp_mono; [apply hydrate_born|]. by intros r w2 [_ H].
Qed.
End Born.
End Store.

(** ** The distributed limiters have identifiers *)

Section Dist.
Context {F : Rounding} {R : Type} {RS : RedisServer R} {O : Type} {D : IsDist O} {P : Resources} {G : Digest}.

Definition dist_called (id : string) (o : O) : Prop := d_id (dist_of o) = id.

Abbreviation idle id m := (keeps (R := R) (dist_called id) m).

Lemma keeps_dist (f : dist -> dist) id : (forall d, d_id (f d) = d_id d) -> idle id (modify (with_dist f)).
Proof. intros Hf w Hw. unfold dist_called in *. cbn. by rewrite dist_of_with, Hf. Qed.

Lemma keeps_sum {A} id (x : exn + A) : keeps (R := R) (dist_called id) (of_sum x).
Proof. apply keeps_obj. intros w. by destruct x. Qed.

Lemma keeps_override k kw set id :
  (forall n d, d_id (set n d) = d_id d) -> idle id (override_int k kw set).
Proof.
  intros Hs. unfold override_int. destruct (assoc_last k kw) as [[]|]; try (by apply keeps_obj). by apply keeps_dist.
Qed.

Lemma keeps_overrides kw id : idle id (dist_apply_overrides kw).
Proof.
  unfold dist_apply_overrides. apply keeps_bind.
  - unfold base_apply_overrides. apply keeps_bind; [by apply keeps_obj|]. intros o. apply keeps_bind.
    + destruct (dict_get "window" kw); [|by apply keeps_obj]. destruct (py_num _); [|by apply keeps_obj].
      destruct (Qeq_bool _ _); [by apply keeps_obj|]. apply keeps_bind; [by apply keeps_obj|]. intros now.
      by apply (keeps_dist (with_dbase _)).
    + intros _. destruct (dict_get "limit" kw); [|by apply keeps_obj]. apply keeps_bind; [apply keeps_sum|]. intros n.
      by apply (keeps_dist (with_dbase _)).
  - intros _. apply keeps_bind; [by apply keeps_override|]. intros _.
    apply keeps_bind; [by apply keeps_override|]. intros _. by apply keeps_override.
Qed.

Lemma keeps_registered name id : keeps (dist_called id) (register_script (R := R) name).
Proof.
  intros w Hw. destruct (register_base name w) as [(f & Kf & E) _]. unfold dist_called, d_id in *. rewrite E. cbn.
  by destruct (Kf (d_base (dist_of (w_obj w)))) as (-> & _).
Qed.

Lemma config_of_id id kw k : config_of_kwargs id kw = inr k -> k_limiter_id k = id.
Proof.
  unfold config_of_kwargs. destruct (forallb _ _); [|done]. unfold mbind, sum_bind. intros H.
  repeat match type of H with context [match ?x with inl _ => _ | inr _ => _ end] => destruct x; [done|] end.
  by injection H as <-.
Qed.

Lemma dist_init_id k u d : dist_init k u = inr d -> d_id d = k_limiter_id k.
Proof.
  unfold dist_init, base_init, d_id. repeat case_match; try discriminate.
  all: intros [= <-]; simplify_eq; done.
Qed.

(** The first assignment of a constructor is the identity. *)
Lemma construct_called id kw (rest : dist_config -> dist -> py R O unit) (w : world R O) (init : dist_config -> py R O unit) :
  (forall k w, init k w = (h ← uuid4; d ← of_sum (dist_init k (uuid_str h)); rest k d) w) ->
  (forall k d w, d_id d = k_limiter_id k -> wp (rest k d) (fun _ w' => dist_called (k_limiter_id k) (w_obj w')) w) ->
  wp (k ← of_sum (config_of_kwargs id kw); init k) (fun r w' => r = inr tt -> dist_called id (w_obj w')) w.
Proof.
  intros Hi Hr. apply wp_bind. unfold of_sum at 1. apply wp_of_sum.
  destruct (config_of_kwargs id kw) as [e|k] eqn:Ek; [done|]. pose proof (config_of_id id kw k Ek) as <-.
  unfold wp. rewrite Hi. change (wp (h ← uuid4; d ← of_sum (dist_init k (uuid_str h)); rest k d)
    (fun r w' => r = inr tt -> dist_called (k_limiter_id k) (w_obj w')) w). apply wp_bind, wp_uuid4, wp_bind. unfold of_sum at 1. apply wp_of_sum.
  destruct (dist_init k _) as [e|d] eqn:Ed; [done|]. eapply wp_mono; [apply Hr; by eapply dist_init_id|]. auto.
Qed.

Lemma keeps_wp {A} (I : O -> Prop) (m : py R O A) w : keeps I m -> I (w_obj w) -> wp m (fun _ w' => I (w_obj w')) w.
Proof. intros Hm. apply Hm. Qed.

Lemma keeps_when (I : O -> Prop) b (m : py R O unit) : keeps I m -> keeps I (when b m).
Proof. intros Hm. unfold when. destruct b; [exact Hm|by apply keeps_obj]. Qed.

Lemma limiter_called {B : Backend R O} id kw (w : world R O) :
  wp (k ← of_sum (config_of_kwargs id kw); limiter_init k) (fun r w' => r = inr tt -> dist_called id (w_obj w')) w.
Proof.
  eapply construct_called; [intros k w0; reflexivity|]. intros k d w1 Hd. apply wp_bind, wp_modify.
  apply keeps_wp; [|unfold dist_called; cbn; by rewrite dist_of_with].
  do 5 (apply keeps_bind; [apply keeps_registered|]; intros _). cbn zeta.
  apply keeps_bind; [|intros _; apply keeps_when].
  - destruct (k_drain_enabled k); [|by apply keeps_obj]. apply keeps_bind; [by apply keeps_dist|]. intros _.
    unfold subscriber_start. apply keeps_bind; [apply keeps_obj, trip_obj|]. intros _.
    apply keeps_bind; [by apply keeps_obj|]. intros _. by apply keeps_dist.
  - unfold monitor_start. apply keeps_bind; [by apply keeps_obj|]. intros _. by apply keeps_dist.
Qed.
End Dist.

#[export] Instance dist_named {F : Rounding} {R : Type} {RS : RedisServer R} {P : Resources} {G : Digest}
    {B : Backend R dist} : Named (M := managed_dist).
Proof.
  split.
  - intros id kw w. exact (limiter_called (O := dist) id kw w).
  - intros id. by apply keeps_obj.
  - intros id kw. exact (keeps_overrides (O := dist) kw id).
Qed.

#[export] Instance asyncio_named {F : Rounding} {R : Type} {RS : RedisServer R} {P : Resources} {G : Digest}
    {B : Backend R (local adist)} max_tasks : Named (M := managed_asyncio max_tasks).
Proof.
  split.
  - intros id kw w. eapply (construct_called (O := local adist) id kw
      (fun k d => _ ← modify (with_extra (fun _ => EventLoop [] false));
                  _ ← modify (with_dist (fun _ => _)); modify (fun o => Local (lo_limiter o) max_tasks 0 [] [] [] (lo_broken o)))).
    + intros k w0. unfold asyncio_init, local_init, async_limiter_init. rewrite !bind_eq. cbn [uuid4]. 
      destruct (dist_init _ _); reflexivity.
    + intros k d w1 Hd. apply wp_bind, wp_modify, wp_bind, wp_modify, wp_modify. exact Hd.
  - intros id. change (keeps (R := R) (dist_called (O := local adist) id) async_start). unfold async_start.
    do 5 (apply keeps_bind; [exact (keeps_registered (O := local adist) _ id)|]; intros _).
    apply keeps_bind; [by apply keeps_dist|]. intros _. apply keeps_bind; [by intros w Hw|]. intros _.
    apply keeps_bind; [by apply keeps_obj|]. intros d. apply keeps_bind.
    + apply keeps_when. unfold async_subscriber_start. apply keeps_bind; [apply keeps_obj, trip_obj|]. intros _.
      apply keeps_bind; [by apply keeps_obj|]. intros _. by apply keeps_dist.
    + intros _. by destruct (d_healthy d); apply keeps_obj.
  - intros id kw. exact (keeps_overrides (O := local adist) kw id).
Qed.

(** ** Two retrievals of an asyncio limiter *)

(** A limiter with its own count, its own drain loop if it drains, and, once
    it has been started, its own heartbeats and its own subscription. *)
Definition own_pool (o : local adist) : Prop :=
  lo_dispatched o = 0 /\ lo_tasks o = [] /\
  (d_drain_enabled (dist_of o) = true -> is_Some (d_drain_loop (dist_of o))).

Definition own_services (o : local adist) : Prop :=
  own_pool o /\ el_scheduler (extra_of o) = true /\
  (d_drain_enabled (dist_of o) = true -> d_subscribed (dist_of o) = true).

Section Asyncio.
Context {F : Rounding} {R : Type} {RS : RedisServer R} {P : Resources} {G : Digest}.
Context {B : Backend R (local adist)} (max_tasks : Z).

#[local] Instance asyncio_class : Managed R (local adist) := managed_asyncio max_tasks.

Lemma dist_init_drains k u d : dist_init k u = inr d -> d_drain_enabled d = k_drain_enabled k.
Proof.
  unfold dist_init. repeat case_match; try discriminate.
  all: intros [= <-]; done.
Qed.

Lemma asyncio_constructed id kw (w : world R (local adist)) :
  wp (construct id kw) (fun r w' => r = inr tt -> own_pool (w_obj w')) w.
Proof.
  cbn [construct asyncio_class managed_asyncio]. apply wp_bind. unfold of_sum at 1. apply wp_of_sum.
  destruct (config_of_kwargs id kw) as [e|k]; [done|].
  unfold asyncio_init, local_init, async_limiter_init. apply wp_bind, wp_bind, wp_uuid4, wp_bind. unfold of_sum at 1. apply wp_of_sum.
  destruct (dist_init k _) as [e|d] eqn:Ed; [done|]. apply wp_bind, wp_modify, wp_modify, wp_modify. intros _.
  unfold own_pool. cbn. split_and!; try done. rewrite (dist_init_drains _ _ _ Ed). intros ->. by eexists.
Qed.

Lemma own_pool_base (f : base -> base) (o : local adist) : own_pool o -> own_pool (with_base f o).
Proof. done. Qed.

Lemma own_pool_registered name : keeps (R := R) own_pool (register_script name).
Proof.
  intros w Hw. unfold own_pool in *. destruct (register_base name w) as [(f & Kf & E) _]. rewrite E.
  pose proof (keeps_register (O := local adist) (fun o => pool_view o = pool_view (w_obj w)) (fun f o E => E) name w eq_refl) as V.
  cbn in V. unfold pool_view in V. injection V as _ -> -> _ _. exact Hw.
Qed.

Lemma asyncio_started (w : world R (local adist)) :
  own_pool (w_obj w) -> wp start (fun r w' => r = inr tt -> own_services (w_obj w')) w.
Proof.
  intros Hw. cbn [start asyncio_class managed_asyncio]. unfold async_start.
  do 5 (apply wp_bind; eapply wp_mono; [apply (keeps_wp own_pool); [apply own_pool_registered|exact Hw]|];
        clear w Hw; intros [e|s] w Hw; [done|]; clear s).
  apply wp_bind, wp_modify, wp_bind, wp_modify, wp_bind, me_wp, wp_bind. cbn [w_obj set_obj].
  set (w1 := set_obj _ _). assert (H1 : own_pool (w_obj w1) /\ el_scheduler (extra_of (w_obj w1)) = true) by exact (conj Hw eq_refl).
  set (d1 := dist_of _). assert (Ed : d1 = dist_of (w_obj w1)) by done. clearbody w1 d1. subst d1.
  assert (Hlast : forall w2 : world R (local adist), own_services (w_obj w2) ->
    wp (match d_healthy (dist_of (w_obj w1)) with Some _ => emit (EThread "health monitor") | None => skip end)
      (fun r w' => r = inr tt -> own_services (w_obj w')) w2).
  { intros w2 H2. destruct (d_healthy _); [by apply wp_emit|by apply (wp_ret tt)]. }
  destruct H1 as [Hp Hs]. apply wp_when.
  - intros _. unfold async_subscriber_start. apply wp_bind. unfold wp at 1.
    pose proof (trip_obj (Ret tt) w1) as E. destruct (trip (Ret tt) w1) as [[e|[]] w2]; [done|]. cbn [fst snd] in *.
    apply wp_bind, wp_emit, wp_modify, Hlast. unfold own_services, own_pool in *. cbn. rewrite E. by split_and!; try apply Hp.
  - intros Hoff. apply (Hlast w1). split_and!; [done|done|]. congruence.
Qed.

Lemma own_services_versioned n (o : local adist) : own_services o -> own_services (with_base (set_version n) o).
Proof. done. Qed.

(** C22. Retrievals that overlap build two instances.  In a configured
    process, the coroutine [get] of the asyncio limiter asks Redis after it
    found no instance, and another [get] of the same identifier may run while
    it waits.  When both return, they return two objects, both of that
    identifier, both started, each with its own count of tasks, heartbeats and,
    if it drains, its own drain loop and subscription; the cache keeps the
    second, names the first under no identifier, and the next [get], of
    whatever identifier, does not return the first. *)
Theorem overlapping_gets_split w0 id a1 a2 :
  registry w0 -> c_instances (w_obj w0) !! id = None -> c_client (w_obj w0) = true -> c_context (w_obj w0) = true ->
  let asked := command (HGET registry_key id) w0 in           (* the first call, up to its await *)
  async_managed_get id w0 =
    (match asked with (inr raw, w) => async_hydrate id raw w | (inl e, w) => (inl e, w) end) /\
  forall raw, fst asked = inr raw ->
  let w1 := snd (async_managed_get id (snd asked)) in         (* the second call, to its end *)
  let w2 := snd (async_hydrate id raw w1) in                  (* the rest of the first *)
  fst (async_managed_get id (snd asked)) = inr a1 -> fst (async_hydrate id raw w1) = inr a2 ->
  a1 <> a2 /\ c_instances (w_obj w2) !! id = Some a2 /\
  (forall a, a = a1 \/ a = a2 ->
     exists o, c_objects (w_obj w2) !! a = Some o /\ d_id (dist_of o) = id /\ own_services o) /\
  forall id', c_instances (w_obj w2) !! id' <> Some a1 /\ fst (async_managed_get id' w2) <> inr a1.
Proof.
  intros Hw Hid Hcl Hcx asked. split; [by apply get_awaits|].
  intros raw Eraw w1 w2 E1 E2.
  destruct (overlapping_entries (N := asyncio_named max_tasks) w0 id a1 a2 raw Hw Eraw E1 E2) as (H1 & H2 & H3 & H4).
  split; [done|]. split; [done|]. split; [|done]. intros a Ha. destruct (H3 a Ha) as (o & Ho & Hc). exists o.
  split; [exact Ho|]. split; [exact Hc|]. change (c_objects (w_obj w2) !! a = Some o) in Ho.
  destruct (hydrate_born own_pool own_services asyncio_constructed asyncio_started own_services_versioned id raw w1) as [Hold Hb].
  destruct Ha as [-> | ->]; [|destruct (Hb a2 E2) as (o' & Ho' & Hs); fold w2 in Ho'; by assert (o = o') as -> by congruence].
  assert (Hid' : c_instances (w_obj (snd asked)) !! id = None) by (unfold asked; by rewrite command_obj).
  destruct (get_born own_pool own_services asyncio_constructed asyncio_started own_services_versioned id (snd asked) Hid' a1 E1)
    as (o' & Ho' & Hs).
  assert (Ho2 : c_objects (w_obj w2) !! a1 = Some o') by (unfold w2; rewrite (Hold a1) by (by eapply lookup_lt_Some); exact Ho').
  by assert (o = o') as -> by congruence.
Qed.
End Asyncio.

(** ** Two coroutines of one process *)

#[local] Existing Instance binary64.
#[local] Existing Instance demo_resources.
#[local] Existing Instance demo_digest.

#[local] Instance demo_asyncio : Backend db (local adist) := {|
  has_local_capacity := mret true;
  dispatch_task := fun _ _ _ => skip;
  check_backend_health := None;
  refresh_hook := None;
|}.

#[local] Instance demo_managed : Managed db (local adist) := managed_asyncio 4.

(** A process that has been configured; another one created the limiter. *)
Definition demo_configured : world db (mclass (local adist)) :=
  snd (configure (set_context true)
    (World (w_srv demo_creator) [] [] 0 1700000000 [] ["0123456789abcdef0123456789abcdef"] [] init_subclass)).

Lemma demo_configured_registry : registry demo_configured.
Proof. apply rg_configure; [by apply rg_start|]. done. Qed.

Lemma one_instance_witness :
  fst (async_managed_get "demo" (snd (async_managed_get "demo" demo_configured))) = inr 0%nat.
Proof.
  pose proof (one_instance (N := asyncio_named 4) demo_configured demo_configured_registry) as (_ & _ & _ & Hg & _).
  exact (f_equal fst (Hg "demo" 0%nat ltac:(by vm_compute))).
Defined.

Definition demo_asked : world db (mclass (local adist)) := snd (command (HGET registry_key "demo") demo_configured).
Definition demo_answer : option string := stored_config "demo" (w_srv demo_creator).

Lemma overlapping_gets_split_witness :
  let w1 := snd (async_managed_get "demo" demo_asked) in
  let w2 := snd (async_hydrate "demo" demo_answer w1) in
  c_instances (w_obj w2) !! "demo" = Some 1%nat /\ length (c_objects (w_obj w2)) = 2%nat /\
  (exists o, c_objects (w_obj w2) !! 0%nat = Some o /\ d_id (dist_of o) = "demo" /\ own_services o) /\
  forall id', c_instances (w_obj w2) !! id' <> Some 0%nat.
Proof.
  destruct (overlapping_gets_split 4 demo_configured "demo" 0%nat 1%nat demo_configured_registry
    eq_refl eq_refl eq_refl) as [_ H].
  destruct (H demo_answer ltac:(by vm_compute) ltac:(by vm_compute) ltac:(by vm_compute)) as (_ & H1 & H2 & H3).
  split; [exact H1|]. split; [by vm_compute|]. split; [apply H2; by left|]. intros id'. apply H3.
Defined.
