(* ===== verification/Methods.v ===== *)
(** * Methods: every method of a limiter against the scripts

    The scripts are safe in every interleaving of script calls ([System]); the
    methods of the limiters are sequences of script calls with whatever the
    other processes do in between.  In the logic of [Rely], every method of
    the synchronous and of the asynchronous limiter, with every failure of the
    network and every interference, is shown to make only the steps the
    scripts were proved safe for, and to order from its backend only what it
    earned by an admission.  The backend is an interface, [FleetBackend];
    [Fleet] proves it of the concrete ones and draws the conclusions. *)

From S2P Require Import Prelude Float Text Json Redis Zset Keyspace Scripts Window State Store Consume Schedule Lease System Safety Md5 Py Base Loop Heartbeat Dist Managed Distributed Limiter ManagedDist Rely AsyncLoop AsyncDistributed.

Open Scope Z_scope.
Open Scope rl_scope.

(** What a result of consume is good for. *)
Definition owed (res : consume_result) : list order := option_list (order_of_json (task res)).

(** Programs of commands that change nothing. *)
Fixpoint reads {A} (p : prog A) : Prop :=
  match p with
  | Ret _ | Fail _ => True
  | Call k f => (forall cj d, snd (db_exec cj k d) = d) /\ forall b, reads (f b)
  end.

Lemma drun_reads cj {A} (p : prog A) d : reads p -> snd (drun cj p d) = d.
Proof.
  unfold drun. revert d. induction p as [a|e|B k f IH]; intros d Hp; [done|done|]. destruct Hp as [Hk Hf].
  cbn [run]. change (@rexec db (db_server cj) B k d) with (db_exec cj k d). specialize (Hk cj d).
  destruct (db_exec cj k d) as [[e|b] d']; cbn [snd] in *; subst; [done|]. by apply IH.
Qed.

Lemma reads_bind {A B} (m : prog A) (f : A -> prog B) : reads m -> (forall a, reads (f a)) -> reads (m ≫= f).
Proof.
  intros Hm Hf. induction m as [a|e|C k g IH]; [apply Hf|done|]. destruct Hm as [Hk Hg]. split; [done|].
  intros b. by apply IH.
Qed.

Lemma reads_call {B} (k : rcmd B) : (forall cj d, snd (db_exec cj k d) = d) -> reads (call k).
Proof. by split. Qed.

Lemma health_reads {F : Rounding} (base_key bk ck : string) window : reads (health_lua base_key bk ck window).
Proof.
  assert (Hg : forall k, reads (call (GET k))) by (intros k; apply reads_call; intros cj d; cbn [db_exec]; by destruct (as_str _)).
  assert (Hz : forall k, reads (call (ZCARD k))) by (intros k; apply reads_call; intros cj d; cbn [db_exec]; by destruct (as_zset _)).
  assert (Hn : forall v, reads (lua_count v)) by (intros [v|]; cbn; [by destruct (read_Z v)|done]).
  unfold health_lua. repeat (apply reads_bind; [auto|intros]); [by apply reads_call|done].
Qed.

Section Methods.
Context {F : Rounding} {FL : RoundingLaws F} {R : Type} {RS : RedisServer R} {SP : RedisSpec R}.
Context (base : string) (c : cfg) (workers : string -> Prop).
Context (G : list order -> R -> Prop) {GU : Guarantee base c workers G}.
Hypothesis lease_range : 0 <= c_lease c < 10 ^ 15.
Context {P : Resources} {Dg : Digest}.

Section Shared.
Context {O : Type} {D : IsDist O}.

Abbreviation io := (py R O).
Abbreviation member := (member base c workers).
Abbreviation good := (good base c workers G).
Abbreviation triple := (triple base c workers G).
Abbreviation safe := (safe base c workers G).

(** ** The scripts of a member *)

Lemma member_consume d : member d ->
  consume_script d = consume_lua base (buffer_k base) (conc_k base) (dlq_k base) (args_of c (d_worker_id d)).
Proof.
  intros [E1 E2 E3 E4 E5 E6 _]. unfold consume_script, args_of, buffer_key, concurrency_key, dlq_key.
  by rewrite E1, E2, E3, E4, E5, E6.
Qed.

Lemma keeps_consume d : member d ->
  keeps_srv G (consume_script d) (fun rep => option_list (cr_task rep ≫= order_of)).
Proof.
  intros Hd ks r Hr. rewrite (member_consume d Hd).
  exact (gu_consume base c workers ks r _ Hr (mb_worker _ _ _ _ Hd)).
Qed.

(** Redis reads no document for the empty text, and neither does Python. *)
Lemma parse_owed rep res :
  parse_consume rep = inr res -> owed res = option_list (cr_task rep ≫= order_of).
Proof.
  assert (E0 : loads estr = None) by by vm_compute.
  unfold parse_consume, parse_task, owed. destruct (cr_task rep) as [s|].
  - destruct (String.eqb_spec s estr) as [->|].
    + intros [= <-]. unfold mbind, option_bind, order_of. by rewrite E0.
    + unfold mbind, option_bind, order_of. destruct (loads s) as [v|]; [|done]. by intros [= <-].
  - by intros [= <-].
Qed.

(** ** Requests, signals and metrics *)

Lemma safe_schedule_drain delay : safe (schedule_drain delay : io unit).
Proof.
  sme. destruct (d_drain_loop d); [|apply safe_skip]. sbind; [apply safe_monotonic|]. intros now.
  sbind; [by apply safe_emit|]. intros _. swith.
Qed.

Lemma safe_publish ch m : safe (command (PUBLISH ch m) : io unit).
Proof. apply safe_command; by_class. intros. by apply (gu_publish base c workers). Qed.

Lemma safe_trigger : safe (trigger_consume : io unit).
Proof.
  sbind; [apply safe_schedule_drain|]. intros _. sme. scatch; [apply safe_publish|]. intros. apply safe_skip.
Qed.

Lemma safe_emit_metric ev data : safe (emit_metric ev data : io unit).
Proof.
  sme. destruct (d_metrics_callback d); [|apply safe_skip]. scatch; [|intros; apply safe_skip].
  sbind; [by apply safe_emit|]. intros _. case_match; [apply safe_raise|apply safe_skip].
Qed.

(** ** Scheduling *)

Lemma safe_inflight {A} (k : rcmd A) id : cmd_key k = Some (inflight_k base id) -> safe (command k : io A).
Proof. intros Hk. apply safe_command; by_class. intros. by apply (gu_dedup base c workers _ _ _ id). Qed.

Lemma member_inflight d id : member d -> get_inflight_key id d = inflight_k base id.
Proof. intros Hd. unfold get_inflight_key. by rewrite (mb_id _ _ _ _ Hd). Qed.

Lemma safe_schedule func_path payload prio age :
  schedulable func_path payload (or_empty age) -> safe (schedule_task func_path payload prio age : io (bool * string)).
Proof.
  intros Hs. unfold schedule_task. destruct prio as [q| |]; try apply safe_raise. sme.
  rewrite (member_inflight d _ Hd). sbind; [by eapply safe_inflight|]. intros [|]; cbn [negb].
  - sbind; [|intros _; sbind; [apply safe_trigger|]; intros _; sbind; [apply safe_emit_metric|]; intros _; apply safe_ret].
    scatch.
    + apply safe_eval; by_class. intros ks r Hr. unfold get_task_data_str, get_task_data, buffer_key.
      rewrite (member_inflight d _ Hd), (mb_id _ _ _ _ Hd). by apply (gu_schedule base c workers).
    + intros e. sbind; [|intros; apply safe_raise]. scatch; [|intros; apply safe_skip].
      sbind; [by eapply safe_inflight|]. intros _. apply safe_skip.
  - sbind; [apply safe_emit_metric|]. intros _. apply safe_ret.
Qed.

Lemma safe_task_lifecycle id ov : safe (task_lifecycle id ov : io lifecycle).
Proof. sme. apply safe_ret. Qed.

(** The marker of an inline acquisition can be scheduled. *)
Lemma marker_schedulable h timeout :
  0 <= py_trunc (timeout ⊗ 1000) < 10 ^ 15 -> Z.max 1 (Qceiling timeout) < 10 ^ 14 ->
  schedulable marker_path [("_uuid", JStr h); ("_acquire_timeout_ms", JInt (py_trunc (timeout ⊗ 1000)))]
    (or_empty (Some (Z.max 1 (Qceiling timeout)))).
Proof.
  intros H1 H2. split; [done| | |intros _; exists (py_trunc (timeout ⊗ 1000)); reflexivity].
  - unfold or_empty. destruct (Z.max 1 (Qceiling timeout)) eqn:E; [done|lia|lia].
  - exact H1.
Qed.

Lemma positive_marker h timeout :
  Qle_bool timeout 0 = false ->
  py_trunc (timeout ⊗ 1000) < 10 ^ 15 -> Z.max 1 (Qceiling timeout) < 10 ^ 14 ->
  schedulable marker_path [("_uuid", JStr h); ("_acquire_timeout_ms", JInt (py_trunc (timeout ⊗ 1000)))]
    (or_empty (Some (Z.max 1 (Qceiling timeout)))).
Proof.
  intros Et H1 H2. apply marker_schedulable; [|done]. split; [|done]. unfold py_trunc.
  assert (Hp : (0 <= timeout ⊗ 1000)%Q).
  { apply rnd_nonneg. apply Qmult_le_0_compat; [|done]. destruct (Qlt_le_dec 0 timeout) as [|Hle]; [lra|].
    by rewrite (proj2 (Qle_bool_iff _ _) Hle) in Et. }
  rewrite (proj2 (Qle_bool_iff _ _) Hp). change 0 with (Qfloor 0). by apply Qfloor_resp_le.
Qed.

Lemma safe_acquire timeout prio :
  py_trunc (timeout ⊗ 1000) < 10 ^ 15 -> Z.max 1 (Qceiling timeout) < 10 ^ 14 ->
  safe (acquire timeout prio : io lifecycle).
Proof.
  intros H1 H2. unfold acquire, acquire_with. sme. destruct (Qle_bool timeout 0) eqn:Et; [apply safe_raise|].
  destruct (d_drain_loop d); [|apply safe_raise]. sbind; [apply safe_uuid|]. intros h.
  sbind; [by apply safe_schedule, positive_marker|].
  intros [ok id]. destruct ok; cbn [negb]; [|apply safe_raise]. sbind.
  - apply safe_command; by_class. intros. rewrite (mb_id _ _ _ _ Hd). by apply (gu_wake base c workers).
  - intros [s|]; [apply safe_task_lifecycle|apply safe_raise].
Qed.

(** ** Consumption and leases *)

(** Credit rides through a safe computation. *)
Lemma safe_frame {A} x (m : io A) : safe m -> triple x m (fun _ => x).
Proof. intros Hm ks w Hw. exact (Hm (x ++ ks) w Hw). Qed.

Lemma triple_parse rep :
  triple (option_list (cr_task rep ≫= order_of)) (of_sum (parse_consume rep) : io consume_result) (credit owed).
Proof.
  intros ks w Hw. unfold of_sum. cbn [fst snd]. destruct (parse_consume rep) as [e|res] eqn:E; cbn [credit].
  - eapply good_sub; [by_class|exact Hw|]. by apply submseteq_inserts_l.
  - by rewrite (parse_owed _ _ E).
Qed.

Lemma triple_consume : triple [] (consume : io consume_result) (credit owed).
Proof.
  sme. eapply (triple_bind base c workers G); [by apply triple_eval, keeps_consume|by intros|]. intros rep. cbn [credit].
  eapply (triple_bind base c workers G); [apply triple_parse|by intros|]. intros res. cbn [credit].
  eapply (triple_bind base c workers G); [apply safe_frame|intros; apply submseteq_nil_l|].
  - destruct (truthy (task res)); [|apply safe_skip]. sbind; [apply safe_of_sum|]. intros _. apply safe_skip.
  - intros u. eapply (triple_bind base c workers G); [apply safe_frame, safe_emit_metric|intros; apply submseteq_nil_l|].
    by intros u' ks w Hw.
Qed.

Lemma safe_consume : safe (consume : io consume_result).
Proof.
  intros ks w Hw. eapply good_sub; [by_class|exact (triple_consume ks w Hw)|]. by apply submseteq_inserts_l.
Qed.

Lemma safe_extend_lease id n : 0 <= n < 10 ^ 15 -> safe (extend_lease id n : io unit).
Proof.
  intros Hn. sme. sbind; [|intros z; apply safe_when, safe_raise]. apply safe_eval; by_class. intros ks r Hr.
  unfold concurrency_key. rewrite (mb_id _ _ _ _ Hd). by apply (gu_renew base c workers).
Qed.

Lemma safe_buffer_count : safe (get_buffer_count : io Z).
Proof. sme. apply safe_read; by_class. intros db. cbn [db_exec]. by destruct (as_zset _). Qed.

(** ** Drain *)

(** A backend of the fleet: its hooks are safe, and to hand over an order
    costs the credit for it. *)
Class FleetBackend (B : Backend R O) : Prop := {
  fb_capacity : safe has_local_capacity;
  fb_dispatch : forall f p t, triple [(f, p, t)] (dispatch_task f p t) (fun _ => []);
  fb_refresh : match refresh_hook with Some m => safe m | None => True end;
}.

Context {B : Backend R O} {FB : FleetBackend B}.

Lemma safe_rate_limited res : safe (rate_limited_delay res : io Q).
Proof.
  sme. sbind; [|intros j; apply safe_ret]. destruct (_ || _); [|apply safe_ret].
  destruct (d_jitter_enabled d); [|apply safe_ret]. sbind; [apply safe_random|]. intros u. apply safe_ret.
Qed.

(** A parsed field, or the end. *)
Lemma triple_sum {A T} x (v : exn + A) (f : A -> io T) :
  (forall a, v = inr a -> triple x (f a) (fun _ => [])) -> triple x (of_sum v ≫= f) (fun _ => []).
Proof.
  intros Hf. destruct v as [e|a]; [|intros ks w; by apply (Hf a)].
  apply triple_spend; by_class. by intros ks w.
Qed.

Lemma triple_dispatch (t : json) n : triple (option_list (order_of_json t))
  (task_id ← of_sum (json_get "id" t);
   func_path ← of_sum (json_item "func_path" t);
   _ ← (if is_text marker_path func_path then skip
        else payload ← of_sum (json_item "payload" t); dispatch_task func_path payload task_id);
   when (0 <? n) (schedule_drain 0)) (fun _ => []).
Proof.
  apply triple_sum. intros i Ei. apply triple_sum. intros f Ef.
  apply safe_then; by_class; [|intros _; apply safe_when, safe_schedule_drain].
  destruct (is_text marker_path f); [apply triple_spend; by_class; apply safe_skip|].
  apply triple_sum. intros p Ep. unfold order_of_json. rewrite Ei, Ef, Ep. apply fb_dispatch.
Qed.

Lemma triple_after_consume res : triple (owed res) (after_consume res : io unit) (fun _ => []).
Proof.
  sme. destruct (yielded res); [apply triple_spend; by_class; apply safe_schedule_drain|].
  destruct (success res).
  - unfold owed. destruct (task res); [apply triple_spend; by_class; apply safe_raise|apply triple_dispatch..].
  - apply triple_spend; by_class. destruct (remaining_tasks res =? 0); [apply safe_skip|].
    destruct (_ <=? _); [apply safe_skip|]. destruct (marker_skipped res); [apply safe_when, safe_schedule_drain|].
    destruct (_ <=? _); [|apply safe_skip]. sbind; [apply safe_rate_limited|]. intros delay. apply safe_schedule_drain.
Qed.

Lemma safe_drain_inner : safe (drain_inner : io unit).
Proof.
  sbind; [apply fb_capacity|]. intros [|]; cbn [negb]; [|sme; apply safe_schedule_drain].
  eapply (triple_bind base c workers G); [apply triple_consume|by intros|]. apply triple_after_consume.
Qed.

Lemma safe_drain : safe (drain : io unit).
Proof.
  scatch.
  - sbind; [apply safe_monotonic|]. intros now. sme. sbind.
    + pose proof fb_refresh as Hr. destruct refresh_hook as [m|]; [|apply safe_skip].
      destruct (Qle_bool 1 _); [|apply safe_skip]. sbind; [swith|]. by intros _.
    + intros _. sme. sbind; [apply safe_wall|]. intros wall. cbn zeta.
      destruct (Qltb wall (b_drain_paused_until (d_base d0))); [apply safe_schedule_drain|].
      sbind; [apply safe_drain_inner|]. intros _. swith.
  - intros e. sbind; [swith|]. intros _. sme. sbind; [apply safe_of_sum|]. intros delay.
    scatch; [apply safe_schedule_drain|]. intros. apply safe_skip.
Qed.

(** ** Task lifecycle *)

Lemma safe_enter t : safe (lifecycle_enter t : io lifecycle).
Proof. sbind; [apply safe_monotonic|]. intros now. sbind; [swith|]. intros _. apply safe_ret. Qed.

(** The release of a task; without an identifier no key is touched. *)
Lemma gu_release_any d ks r id :
  member d -> G ks r ->
  G ks (snd (run (release_lua (concurrency_key d) (if String.eqb id estr then estr else get_inflight_key id d)
                    (drain_channel d) id (d_worker_id d)) r)).
Proof.
  intros Hd Hr. unfold concurrency_key. rewrite (member_inflight d _ Hd), (mb_id _ _ _ _ Hd).
  pose proof (gu_release base c workers ks r (drain_channel d) id (d_worker_id d) Hr) as Hg.
  destruct (String.eqb_spec id estr) as [->|]; exact Hg.
Qed.

Lemma safe_exit t : safe (lifecycle_exit t : io unit).
Proof.
  sbind; [swith|]. intros _. apply safe_finally; [|apply safe_schedule_drain]. sme.
  sbind; [|intros _; apply safe_skip]. apply safe_eval; by_class. intros. by apply gu_release_any.
Qed.

Lemma safe_poll m : safe (subscriber_poll m : io unit).
Proof.
  scatch; [|intros e; sme; apply safe_when; by apply safe_emit]. sbind; [apply safe_of_sum|].
  intros [[k sender]|]; [|apply safe_skip]. sme. apply safe_when, safe_schedule_drain.
Qed.

(** ** Status, renewal and shutdown *)

Lemma safe_status : safe (get_status : io json).
Proof.
  sme. sbind; [|intros r; apply safe_ret]. apply safe_eval; by_class. intros ks r Hr.
  apply (gu_reads base c workers G); [done|]. intros db. apply drun_reads, health_reads.
Qed.

Lemma safe_renew id action : safe (renew_task id action : io unit).
Proof.
  intros ks w Hw. pose proof (mb_lease _ _ _ _ (go_member _ _ _ _ _ _ Hw)) as El. unfold renew_task. rewrite El.
  pose proof (safe_extend_lease id _ lease_range ks w Hw) as He.
  destruct (extend_lease id (c_lease c) w) as [o w1]. cbn [snd app] in He.
  destruct (renew_one _ _ _ _) as [effect s].
  assert (Hs : good ks (set_obj (with_dist (with_heartbeats s) (w_obj w1)) w1)).
  { refine (safe_modify base c workers G (with_heartbeats s) _ ks w1 He). by intros ? []. }
  destruct effect; [exact Hs|exact Hs| |exact Hs]. exact (safe_emit base c workers G EKill eq_refl ks _ Hs).
Qed.

Lemma safe_shutdown : safe (shutdown : io unit).
Proof.
  sbind; [swith|]. intros _. sme. sbind; [destruct (d_healthy d); [by apply safe_emit|apply safe_skip]|]. intros _.
  sbind; [destruct (d_drain_loop d); [swith|apply safe_skip]|]. intros _.
  sbind; [|intros _; swith]. destruct (d_drain_enabled d); [|apply safe_skip].
  sme. sbind; [swith|]. intros _. scatch; [apply safe_publish|]. intros. apply safe_skip.
Qed.
End Shared.

(** ** The asynchronous limiter *)

(** The event loop of an object is no part of its configuration. *)
Class AsyncLaws (O : Type) `{IsAsync O} : Prop := {
  extra_apart : forall f (o : O), dist_of (with_extra f o) = dist_of o;
}.

Section Async.
Context {O : Type} {D : IsAsync O} {L : AsyncLaws O}.

Abbreviation io := (py R O).
Abbreviation member := (member base c workers).
Abbreviation good := (good base c workers G).
Abbreviation triple := (triple base c workers G).
Abbreviation safe := (safe base c workers G).

Lemma async_eval_same {A} name (p : prog A) : async_eval_script name p = (eval_script name p : io A).
Proof. done. Qed.

Lemma safe_extra f : safe (modify (with_extra f) : io unit).
Proof. apply safe_obj. intros o. by rewrite extra_apart. Qed.

Lemma safe_async_schedule_drain delay : safe (async_schedule_drain delay : io unit).
Proof.
  sme. destruct (d_drain_loop d); [|apply safe_skip]. sbind; [apply safe_monotonic|]. intros now.
  sbind; [by apply safe_emit|]. intros _. apply safe_extra.
Qed.

Lemma safe_run_wakes : safe (run_wakes : io unit).
Proof. apply safe_get; by_class. intros o. sbind; [swith|]. intros _. apply safe_extra. Qed.

Lemma safe_async_trigger : safe (async_trigger_consume : io unit).
Proof.
  sbind; [apply safe_async_schedule_drain|]. intros _. sme. scatch; [apply safe_publish|]. intros. apply safe_skip.
Qed.

Lemma safe_async_schedule func_path payload prio age :
  schedulable func_path payload (or_empty age) -> safe (async_schedule_task func_path payload prio age : io (bool * string)).
Proof.
  intros Hs. unfold async_schedule_task. destruct prio as [q| |]; try apply safe_raise. sme.
  rewrite (member_inflight d _ Hd). sbind; [by eapply safe_inflight|]. intros [|]; cbn [negb].
  - sbind; [|intros _; sbind; [apply safe_async_trigger|]; intros _; sbind; [apply safe_emit_metric|]; intros _; apply safe_ret].
    scatch.
    + rewrite async_eval_same. apply safe_eval; by_class. intros ks r Hr. unfold get_task_data_str, get_task_data, buffer_key.
      rewrite (member_inflight d _ Hd), (mb_id _ _ _ _ Hd). by apply (gu_schedule base c workers).
    + intros e. sbind; [|intros; apply safe_raise]. scatch; [|intros; apply safe_skip].
      sbind; [by eapply safe_inflight|]. intros _. apply safe_skip.
  - sbind; [apply safe_emit_metric|]. intros _. apply safe_ret.
Qed.

Lemma safe_async_acquire timeout prio :
  py_trunc (timeout ⊗ 1000) < 10 ^ 15 -> Z.max 1 (Qceiling timeout) < 10 ^ 14 ->
  safe (async_acquire timeout prio : io lifecycle).
Proof.
  intros H1 H2. unfold async_acquire. sme. destruct (Qle_bool timeout 0) eqn:Et; [apply safe_raise|].
  destruct (d_drain_loop d); [|apply safe_raise]. sbind; [apply safe_uuid|]. intros h.
  sbind; [by apply safe_async_schedule, positive_marker|]. intros [ok id].
  destruct ok; cbn [negb]; [|apply safe_raise]. sbind.
  - apply safe_command; by_class. intros. rewrite (mb_id _ _ _ _ Hd). by apply (gu_wake base c workers).
  - intros [s|]; [|apply safe_raise]. sme. apply safe_ret.
Qed.

Lemma triple_async_consume : triple [] (async_consume : io consume_result) (credit owed).
Proof. exact triple_consume. Qed.

Lemma safe_async_extend id n : 0 <= n < 10 ^ 15 -> safe (async_extend_lease id n : io unit).
Proof. exact (safe_extend_lease id n). Qed.

Lemma safe_async_status : safe (async_get_status : io json).
Proof. exact safe_status. Qed.

Lemma safe_async_count : safe (async_get_buffer_count : io Z).
Proof. exact safe_buffer_count. Qed.

Context {B : Backend R O} {FB : FleetBackend B}.

Lemma triple_async_after res : triple (owed res) (async_after_consume res : io unit) (fun _ => []).
Proof.
  assert (Hdispatch : forall t n, triple (option_list (order_of_json t))
    (task_id ← of_sum (json_get "id" t);
     func_path ← of_sum (json_item "func_path" t);
     _ ← (if is_text marker_path func_path then skip
          else payload ← of_sum (json_item "payload" t); dispatch_task func_path payload task_id);
     when (0 <? n) (async_schedule_drain 0)) (fun _ => [])).
  { intros t n. apply triple_sum. intros i Ei. apply triple_sum. intros f Ef.
    apply safe_then; by_class; [|intros _; apply safe_when, safe_async_schedule_drain].
    destruct (is_text marker_path f); [apply triple_spend; by_class; apply safe_skip|].
    apply triple_sum. intros p Ep. unfold order_of_json. rewrite Ei, Ef, Ep. apply fb_dispatch. }
  sme. destruct (yielded res); [apply triple_spend; by_class; apply safe_async_schedule_drain|].
  destruct (success res).
  - unfold owed. destruct (task res); [apply triple_spend; by_class; apply safe_raise|apply Hdispatch..].
  - apply triple_spend; by_class. destruct (remaining_tasks res =? 0); [apply safe_skip|].
    destruct (_ <=? _); [apply safe_skip|]. destruct (marker_skipped res); [apply safe_when, safe_async_schedule_drain|].
    destruct (_ <=? _); [|apply safe_skip]. sbind; [apply safe_rate_limited|]. intros delay. apply safe_async_schedule_drain.
Qed.

Lemma safe_async_inner : safe (async_drain_inner : io unit).
Proof.
  sbind; [apply fb_capacity|]. intros [|]; cbn [negb]; [|sme; apply safe_async_schedule_drain].
  eapply (triple_bind base c workers G); [apply triple_async_consume|by intros|]. apply triple_async_after.
Qed.

Lemma safe_async_drain : safe (async_drain : io unit).
Proof.
  scatch.
  - sbind; [apply safe_monotonic|]. intros now. sme. sbind.
    + pose proof fb_refresh as Hr. destruct refresh_hook as [m|]; [|apply safe_skip].
      destruct (Qle_bool 1 _); [|apply safe_skip]. sbind; [swith|]. by intros _.
    + intros _. sme. sbind; [apply safe_wall|]. intros wall. cbn zeta.
      destruct (Qltb wall (b_drain_paused_until (d_base d0))); [apply safe_async_schedule_drain|].
      sbind; [apply safe_async_inner|]. intros _. swith.
  - intros e. sbind; [swith|]. intros _. sme. sbind; [apply safe_of_sum|]. intros delay.
    scatch; [apply safe_async_schedule_drain|]. intros. apply safe_skip.
Qed.

Lemma safe_scheduler : safe (heartbeat_scheduler : io unit).
Proof. apply safe_get; by_class. intros o. apply safe_when, safe_raise. Qed.

Lemma safe_async_enter t : safe (async_lifecycle_enter t : io lifecycle).
Proof.
  sbind; [apply safe_scheduler|]. intros _. sbind; [apply safe_monotonic|]. intros now. sbind; [swith|]. intros _. apply safe_ret.
Qed.

Lemma safe_async_exit t : safe (async_lifecycle_exit t : io unit).
Proof.
  sbind; [apply safe_scheduler|]. intros _. sbind; [swith|]. intros _.
  apply safe_finally; [|apply safe_async_schedule_drain]. sme.
  sbind; [|intros _; apply safe_skip]. rewrite async_eval_same. apply safe_eval; by_class. intros. by apply gu_release_any.
Qed.

Lemma safe_async_poll m : safe (async_subscriber_poll m : io unit).
Proof.
  scatch; [|intros e; sme; apply safe_when; by apply safe_emit]. sbind; [apply safe_of_sum|].
  intros [[k sender]|]; [|apply safe_skip]. sme. apply safe_when, safe_async_schedule_drain.
Qed.

Lemma safe_async_renew id action : safe (async_renew_task id action : io unit).
Proof.
  intros ks w Hw. pose proof (mb_lease _ _ _ _ (go_member _ _ _ _ _ _ Hw)) as El. unfold async_renew_task. rewrite El.
  pose proof (safe_async_extend id _ lease_range ks w Hw) as He.
  destruct (async_extend_lease id (c_lease c) w) as [o w1]. cbn [snd app] in He.
  destruct (async_renew_one _ _ _ _) as [effect s].
  assert (Hs : good ks (set_obj (with_dist (with_heartbeats s) (w_obj w1)) w1)).
  { refine (safe_modify base c workers G (with_heartbeats s) _ ks w1 He). by intros ? []. }
  destruct effect; [exact Hs|exact Hs| |exact Hs]. exact (safe_emit base c workers G EKill eq_refl ks _ Hs).
Qed.

Lemma safe_async_shutdown : safe (async_shutdown : io unit).
Proof.
  sbind; [swith|]. intros _. sme. sbind; [destruct (d_healthy d); [by apply safe_emit|apply safe_skip]|]. intros _.
  sbind; [destruct (d_drain_loop d); [swith|apply safe_skip]|]. intros _. sbind.
  - destruct (d_drain_enabled d); [|apply safe_skip]. sbind; [swith|]. intros _.
    scatch; [|intros; apply safe_skip]. sbind; [|intros; apply safe_skip].
    apply safe_trip; by_class. by intros ks r Hr.
  - intros _. apply safe_get; by_class. intros o. apply safe_when. swith.
Qed.
End Async.

(** ** Managed limiters *)

Section Managed.
Context {O : Type} {D : IsDist O}.
Hypothesis window_literal : literal_ok (c_window c).

Abbreviation io := (py R O).
Abbreviation member := (member base c workers).
Abbreviation good := (good base c workers G).
Abbreviation safe := (safe base c workers G).

(** A member that adopts the stored configuration stays what it is. *)
Lemma safe_adopt : safe (dist_apply_overrides (config_fields c) : io unit).
Proof.
  destruct (float_json_reads _ window_literal) as (q & Eq & Hq).
  assert (Ew : dict_get "window" (config_fields c) = Some (float_json (c_window c))).
  { unfold dict_get. cbn. unfold float_json. destruct (try_digits _ _ _) as [[m s]|]; [by destruct (1 <=? s)|done]. }
  assert (El : dict_get "limit" (config_fields c) = Some (JInt (c_limit c))) by done.
  unfold dist_apply_overrides, base_apply_overrides. sbind.
  - apply safe_self. intros o Ho. rewrite Ew, Eq, El. sbind.
    + cbn zeta. change (b_window (base_of o)) with (d_window (dist_of o)). rewrite (mb_window _ _ _ _ Ho).
      rewrite (proj2 (Qeq_bool_iff _ _) Hq). apply safe_skip.
    + intros _. unfold py_int. cbn [py_num]. rewrite py_trunc_Z. apply triple_sum. intros n [= <-].
      apply safe_modify. intros d []. by split.
  - intros _. change (override_int (R := R) (O := O) "max_concurrency" (config_fields c)) with
      (fun set => modify (R := R) (with_dist (O := O) (set (c_conc c)))).
    change (override_int (R := R) (O := O) "max_age" (config_fields c)) with
      (fun set => modify (R := R) (with_dist (O := O) (set (c_age c)))).
    change (override_int (R := R) (O := O) "lease_duration" (config_fields c)) with
      (fun set => modify (R := R) (with_dist (O := O) (set (c_lease c)))).
    cbn beta. sbind; [swith|]. intros _. sbind; [swith|]. intros _. swith.
Qed.

(** The stored configuration is that of the fleet. *)
Lemma config_read ks (w : world R O) raw :
  good ks w -> fst (command (HGET registry_key base) w) = inr (Some raw) -> raw = dumps (JObj (config_fields c)).
Proof.
  intros Hw. apply (good_arrive base c workers G) in Hw. unfold command, trip. destruct (arrive w) as [f w1].
  cbn [snd] in Hw. pose proof (gu_config base c workers _ _ raw (go_srv _ _ _ _ _ _ Hw)) as Hc.
  destruct (run_view (call (HGET registry_key base)) (w_srv w1)) as [Ho _].
  destruct (run (call (HGET registry_key base)) (w_srv w1)) as [o r]. cbn [fst] in Ho.
  assert (Hr : o = inr (Some raw) -> raw = dumps (JObj (config_fields c))).
  { intros ->. apply Hc. unfold stored_config, hash_at. revert Ho. unfold drun. cbn.
    unfold as_hash. destruct (key_val registry_key (rview (w_srv w1))) as [[]|]; cbn; by intros [= <-]. }
  destruct f, o as [e|a]; cbn; intros E; try done; apply Hr; congruence.
Qed.

(** A refresh leaves a member a member. *)
Lemma safe_refresh (M : Managed R O) :
  managed_base = dist_is_base O -> apply_config_overrides = dist_apply_overrides (R := R) (O := O) ->
  safe (refresh_config (M := M) : io bool).
Proof.
  destruct M as [mb bl co st ap pc]. cbn. intros -> ->. unfold refresh_config. cbn [managed_base].
  apply safe_self. intros o Ho. cbn zeta. change (b_id (base_of o)) with (d_id (dist_of o)). rewrite (mb_id _ _ _ _ Ho).
  sbind; [apply safe_read; by_class; intros db; cbn [db_exec]; by destruct (as_hash _)|].
  intros [v|]; [|apply safe_ret]. sbind; [apply safe_of_sum|]. intros n. destruct (n <=? _); [apply safe_ret|].
  intros ks w Hw. pose proof (config_read ks w) as Hc.
  assert (Hs : safe (command (HGET registry_key base) : io _)).
  { apply safe_read; by_class. intros db. cbn [db_exec]. by destruct (as_hash _). }
  specialize (Hs ks w Hw). rewrite bind_eq. destruct (command (HGET registry_key base) w) as [[e|[raw|]] w1]; [done| |done].
  rewrite (Hc raw Hw eq_refl). clear Hc.
  assert (Hp : parse_raw_config (dumps (JObj (config_fields c))) = inr (config_fields c)).
  { unfold parse_raw_config. rewrite loads_dumps; [done|]. destruct window_literal as [_ [[m s] E]].
    unfold config_fields, float_json. rewrite E. destruct (Z.leb_spec 1 s); cbn; [|done].
    destruct (Z.to_nat s) eqn:Es; [lia|done]. }
  rewrite Hp.
  assert (Hk : safe (_ ← dist_apply_overrides (config_fields c); _ ← modify (with_base (set_version n)); mret true : io bool)).
  { sbind; [apply safe_adopt|]. intros _. sbind; [|intros; apply safe_ret]. apply safe_with_base. by intros d []. }
  exact (Hk ks w1 Hs).
Qed.
End Managed.
End Methods.
