(* ===== verification/Fleet.v ===== *)
(** * Fleet: processes, interference and failures

    The limits hold for script calls in any order ([System]); the methods of
    the limiters make only such calls ([Methods]).  Here the two meet: a fleet
    of synchronous and asynchronous limiters of one configuration, in any
    number of processes, each method interrupted anywhere by the others, by
    failures of the network and by crashes, never leaves the states for which
    the limits were proved; and what a worker hands to its backend was
    scheduled, and at most as often.  Outside the fleet are updates of the
    configuration and the [acquire] of the task queues. *)

From S2P Require Import Prelude Float Text Json Redis Zset Keyspace Scripts Window State Store Consume Schedule Lease System Safety Md5 Py Base Importing Loop Heartbeat Dist Managed Distributed Limiter ManagedDist Rely Worker AsyncLoop AsyncDistributed Pool Methods.

Open Scope Z_scope.
Open Scope rl_scope.

(** ** The registry and the keys of a limiter *)

Lemma subkey_suffix base s : subkey base s = base +:+ String ":" s.
Proof. done. Qed.

(** No limiter uses the registry, whatever its identifier: neither for one of
    its keys nor for the counter of a window, even one that is not whole. *)
Lemma registry_apart base s :
  (forall t, alphabetic t = true -> s = t -> t = "buffer" \/ t = "concurrency" \/ t = "dlq" \/
     t = "last_consumer" \/ t = "last_caller" \/ (exists i, t = "inflight:" +:+ i) \/ (exists i, t = "acquire:" +:+ i)) ->
  subkey base s <> registry_key.
Proof.
  intros Hs E. rewrite subkey_suffix in E. unfold registry_key in E.
  do 20 (destruct base as [|? base];
    [cbn in E; try discriminate; injection E as E;
     match type of E with _ = ?t =>
       destruct (Hs t eq_refl E) as [?|[?|[?|[?|[?|[[i ?]|[i ?]]]]]]]; discriminate end
    |rewrite str_app_cons in E; try discriminate; injection E as _ E]).
Qed.

Lemma owns_registry base : ~ owns base registry_key.
Proof.
  intros Ho. remember registry_key as k eqn:Ek. destruct Ho; revert Ek; apply registry_apart; intros t Ha Et; subst t;
    eauto 10. by destruct (print_Z_not_alphabetic n _ Ha).
Qed.

Lemma window_key_registry base q : window_key base q <> registry_key.
Proof. apply registry_apart. intros t Ha Et. by destruct (lua_tostring_not_alphabetic q t Ha). Qed.

(** A program that may delete the key [k] but not write it. *)
Definition is_del {B} (k : rcmd B) : bool := match k with DEL _ => true | _ => false end.

Fixpoint spares (k : string) {A} (p : prog A) : Prop :=
  match p with
  | Ret _ | Fail _ => True
  | Call m f => (is_del m = true \/ cmd_key m <> Some k) /\ forall b, spares k (f b)
  end.

Lemma exec_spares cj k {B} (m : rcmd B) d :
  is_del m = true \/ cmd_key m <> Some k ->
  key_entry k (snd (db_exec cj m d)) = key_entry k d \/ key_entry k (snd (db_exec cj m d)) = None.
Proof.
  intros [Hd|Hk]; [|left; by apply exec_frame]. destruct m; try done. cbn [db_exec ok snd].
  destruct (decide (k = k0)) as [->|Hne]; [right; apply key_entry_del_eq|left; by apply key_entry_del_ne].
Qed.

Lemma drun_spares cj k {A} (p : prog A) d :
  spares k p -> key_entry k (snd (drun cj p d)) = key_entry k d \/ key_entry k (snd (drun cj p d)) = None.
Proof.
  unfold drun. revert d. induction p as [a|e|B m f IH]; intros d Hp; [by left|by left|]. destruct Hp as [Hm Hf].
  cbn [run]. change (@rexec db (db_server cj) B m d) with (db_exec cj m d).
  pose proof (exec_spares cj k m d Hm) as He. destruct (db_exec cj m d) as [[e|b] d']; cbn [snd] in *; [done|].
  destruct (IH b d' (Hf b)) as [->|]; [|by right]. exact He.
Qed.

Lemma spares_bind k {A B} (m : prog A) (f : A -> prog B) : spares k m -> (forall a, spares k (f a)) -> spares k (m ≫= f).
Proof.
  intros Hm Hf. induction m as [a|e|C m g IH]; [apply Hf|done|]. destruct Hm as [Hk Hg]. split; [done|].
  intros b. by apply IH.
Qed.

Lemma spares_read k {B} (m : rcmd B) : cmd_key m = None -> spares k (call m).
Proof. intros E. split; [|done]. right. by rewrite E. Qed.

Lemma spares_del k k' : spares k (call (DEL k')).
Proof. split; [by left|done]. Qed.

(** The scripts of a limiter write its own keys. *)
Lemma spares_owned base k {B} (m : rcmd B) : cmd_key m = Some k -> owns base k -> spares registry_key (call m).
Proof. intros E Ho. split; [|done]. right. rewrite E. intros [= ->]. by apply (owns_registry base). Qed.

Ltac spares_tac base :=
  repeat first
    [ lazymatch goal with
      | |- spares _ (mbind _ _) => apply spares_bind; [|intros]
      | |- spares _ (call _) =>
          first [apply spares_read; reflexivity | apply spares_del | eapply (spares_owned base); [reflexivity|solve [auto with rl | apply (own_signal base)]]]
      | |- spares _ (Ret _) => exact I
      | |- spares _ (Fail _) => exact I
      end
    | match goal with
      | |- spares _ (match ?x with _ => _ end) => destruct x
      | |- spares _ (need_some ?x) => destruct x; exact I
      end ].

Section Spares.
Context {F : Rounding} (base : string).

Lemma spares_schedule doc prio age : spares registry_key (schedule_lua (buffer_k base) doc prio age).
Proof. unfold schedule_lua. spares_tac base. Qed.

Lemma spares_renew id lease : spares registry_key (renew_lua (conc_k base) id lease).
Proof. unfold renew_lua. spares_tac base. Qed.

Lemma spares_release id ch w : spares registry_key (release_lua (conc_k base) (inflight_k base id) ch id w).
Proof. unfold release_lua. spares_tac base. Qed.

Lemma spares_count v : spares registry_key (lua_count v).
Proof. destruct v as [v|]; cbn; [by destruct (read_Z v)|done]. Qed.

Lemma spares_timeout t : spares registry_key (acquire_timeout t).
Proof. unfold acquire_timeout. spares_tac base. Qed.

Lemma spares_verdict t age a b : spares registry_key (head_verdict t age a b).
Proof. unfold head_verdict, effective_max_age. spares_tac base. apply spares_timeout. Qed.

Lemma spares_admit cur cc wm ts lease w t :
  ~ (cur = registry_key) ->
  spares registry_key (admit_task base (conc_k base) cur cc wm ts lease w t).
Proof.
  intros Hc. assert (Hcur : forall A (m : rcmd A), cmd_key m = Some cur -> spares registry_key (call m)).
  { intros A m E. split; [|done]. right. rewrite E. congruence. }
  unfold admit_task. spares_tac base; try (by apply Hcur); try apply spares_timeout.
Qed.

Lemma spares_consume c w :
  spares registry_key (consume_lua base (buffer_k base) (conc_k base) (dlq_k base) (args_of c w)).
Proof.
  unfold consume_lua, take_head, reply_with.
  spares_tac base; auto using spares_count, spares_verdict, spares_admit, window_key_registry.
Qed.
End Spares.

(** ** Reachable states as a guarantee *)

Section Reach.
Context {F : Rounding} {FL : RoundingLaws F} {R : Type} {RS : RedisServer R} {SP : RedisSpec R}.
Context (base : string) (c : cfg) (workers : string -> Prop).

(** The registry holds the configuration of the fleet, or none. *)
Definition stable (r : R) : Prop := forall raw,
  stored_config base (rview r) = Some raw -> raw = dumps (JObj (config_fields c)).

Lemma stable_same r r' :
  stable r ->
  key_entry registry_key (rview r') = key_entry registry_key (rview r) \/ key_entry registry_key (rview r') = None ->
  stable r'.
Proof.
  unfold stable, stored_config, hash_at, key_val. intros Hs [->| ->]; [exact Hs|]. cbn. intros raw. by rewrite lookup_empty.
Qed.

Lemma stable_run {A} r (p : prog A) : stable r -> spares registry_key p -> stable (snd (run p r)).
Proof. intros Hs Hp. eapply stable_same; [exact Hs|]. rewrite (proj2 (run_view _ _)). by apply drun_spares. Qed.

(** The orders a history has admitted. *)
Definition orders (h : history) : list order := omap order_of (snd <$> h_admitted h).

Lemma orders_consumed now hd o h : orders (note_consumed now hd o h) = earned o ++ orders h.
Proof.
  unfold orders, note_consumed, earned. destruct o as [e|rep]; [done|].
  destruct (cr_task rep) as [raw|].
  - cbn [h_admitted]. rewrite fmap_cons. cbn [snd omap list_omap mbind option_bind]. by destruct (order_of raw).
  - by destruct (_ || _).
Qed.

(** What is claimed of the orders of a history. *)
Class Accounting (K : list order -> history -> Prop) : Prop := {
  ac_sub : forall ks ks' h, K ks h -> ks' ⊆+ ks -> K ks' h;
  ac_schedule : forall ks raw h, K ks h -> K ks (note_scheduled raw h);
  ac_consume : forall ks now hd o h, K ks h -> K (earned o ++ ks) (note_consumed now hd o h);
}.

(** Nothing, or that they were admitted. *)
Definition no_account (ks : list order) (h : history) : Prop := True.
Definition admitted (ks : list order) (h : history) : Prop := ks ⊆+ orders h.

#[export] Instance no_accounting : Accounting no_account.
Proof. by split. Qed.

#[export] Instance admitted_accounting : Accounting admitted.
Proof.
  split; unfold admitted.
  - intros ks ks' h Hk Hs. by etrans.
  - done.
  - intros ks now hd o h Hk. rewrite orders_consumed. by apply submseteq_app.
Qed.

Context (K : list order -> history -> Prop) {AK : Accounting K}.

Definition reaches (ks : list order) (r : R) : Prop :=
  (exists h, reach base c workers r h /\ K ks h) /\ stable r.

Hypothesis Hc : cfg_ok c.

#[export] Instance reach_guarantee : Guarantee base c workers reaches.
Proof.
  assert (Hstep : forall {A} ks ks' r (p : prog A),
    reaches ks r -> spares registry_key p ->
    (forall h, reach base c workers r h -> K ks h -> exists h', reach base c workers (snd (run p r)) h' /\ K ks' h') ->
    reaches ks' (snd (run p r))).
  { intros A ks ks' r p [(h & Hr & Hk) Hs] Hp Hh. split; [by eapply Hh|by apply stable_run]. }
  split.
  - intros ks ks' r [(h & Hr & Hk) Hs] Hsub. split; [|done]. exists h. split; [done|]. by eapply ac_sub.
  - intros ks r r' [(h & Hr & Hk) Hs] E. pose proof (inv_clock _ _ _ _ _ (reach_Inv base c workers Hc r h Hr)) as Hclk. split.
    + exists h. split; [|done]. eapply (reach_time base c workers r r' h (db_us (rview r))); [done|done|rewrite E|by rewrite E].
      by destruct (rview r).
    + unfold stable. by rewrite E.
  - intros ks r id path payload priority ov Hr Hs fields. eapply Hstep; [exact Hr|apply spares_schedule|].
    intros h Hh Hk. eexists. split; [by apply reach_schedule|by apply ac_schedule].
  - intros ks r w Hr Hw. eapply Hstep; [exact Hr|apply spares_consume|].
    intros h Hh Hk. eexists. split; [by apply reach_consume|by apply ac_consume].
  - intros ks r id lease Hr Hl. eapply Hstep; [exact Hr|apply spares_renew|]. intros h Hh Hk. exists h. split; [by apply reach_renew|done].
  - intros ks r ch id w Hr. eapply Hstep; [exact Hr|apply spares_release|]. intros h Hh Hk. exists h. split; [by apply reach_release|done].
  - intros B ks r k id Hr E. eapply Hstep; [exact Hr|eapply (spares_owned base); [exact E|auto with rl]|].
    intros h Hh Hk. exists h. split; [by eapply reach_dedup|done].
  - intros ks r id Hr. eapply Hstep; [exact Hr|eapply (spares_owned base); [reflexivity|auto with rl]|].
    intros h Hh Hk. exists h. split; [by apply reach_wake|done].
  - intros ks r ch m Hr. eapply Hstep; [exact Hr|by apply spares_read|].
    intros h Hh Hk. exists h. split; [by apply reach_foreign|done].
  - intros ks r raw [_ Hs]. apply Hs.
Qed.
End Reach.

(** ** The backends of the repository *)

#[export] Instance adist_laws : AsyncLaws adist.
Proof. by split. Qed.

#[export] Instance local_async_laws {D} `{AsyncLaws D} : AsyncLaws (local D).
Proof. split. intros f o. exact (extra_apart f (lo_limiter o)). Qed.

(** A backend whose dispatches are recorded. *)
Definition recorded {R O} (B : Backend R O) : Backend R O := {|
  has_local_capacity := has_local_capacity;
  dispatch_task := fun f p t => _ ← emit (EDispatch f p t); dispatch_task f p t;
  check_backend_health := check_backend_health;
  refresh_hook := refresh_hook;
|}.

Section Backends.
Context {F : Rounding} {FL : RoundingLaws F} {R : Type} {RS : RedisServer R} {SP : RedisSpec R}.
Context (base : string) (c : cfg) (workers : string -> Prop).
Context (G : list order -> R -> Prop) {GU : Guarantee base c workers G}.
Context {P : Resources} {Dg : Digest} {M : Modules}.

Abbreviation safe := (safe base c workers G).
Abbreviation fleet_backend := (FleetBackend base c workers G).

(** The hooks of a backend keep the guarantee. *)
Class SafeBackend {O} `{IsDist O} (B : Backend R O) : Prop := {
  sb_capacity : safe has_local_capacity;
  sb_dispatch : forall f p t, safe (dispatch_task f p t);
  sb_refresh : match refresh_hook with Some m => safe m | None => True end;
}.

#[export] Instance safe_fleet {O} `{IsDist O} (B : Backend R O) : SafeBackend B -> fleet_backend B.
Proof. intros [H1 H2 H3]. split; [exact H1| |exact H3]. intros f p t. apply triple_spend; by_class. apply H2. Qed.

#[export] Instance recorded_fleet {O} `{IsDist O} (B : Backend R O) : SafeBackend B -> fleet_backend (recorded B).
Proof.
  intros [H1 H2 H3]. split; [exact H1| |exact H3]. intros f p t. apply safe_then; by_class; [|intros _; apply H2].
  apply (triple_emit base c workers G (EDispatch f p t)).
Qed.

(** Bookkeeping of a pool. *)
Section Pools.
Context {D : Type} `{IsDist D}.

Lemma safe_local f : (forall o : local D, lo_limiter (f o) = lo_limiter o) -> safe (modify f : py R (local D) unit).
Proof. intros Hf. apply safe_obj. intros o. cbn. by rewrite Hf. Qed.

Lemma safe_capacity : safe (local_capacity : py R (local D) bool).
Proof. apply safe_get; by_class. intros o. apply safe_ret. Qed.

Lemma safe_import f : safe (import_path f : py R (local D) pyobj).
Proof. apply safe_of_sum. Qed.

Lemma safe_submit t : safe (submit t : py R (local D) unit).
Proof. apply safe_get; by_class. intros o. destruct (lo_broken o); [apply safe_raise|by apply safe_local]. Qed.
End Pools.

Hypothesis window_literal : literal_ok (c_window c).

Lemma safe_refresh_hook {O} `{IsDist O} (X : Managed R O) :
  managed_base = dist_is_base O -> apply_config_overrides = dist_apply_overrides (R := R) (O := O) ->
  safe (_ ← refresh_config (M := X); skip).
Proof. intros E1 E2. sbind; [by apply safe_refresh|]. intros _. apply safe_skip. Qed.

Lemma thread_safe {T : Backend R (local dist)} n : SafeBackend (thread_backend n).
Proof.
  split; [apply safe_capacity| |].
  - intros f p t. sbind; [apply safe_import|]. intros g. sbind; [by apply safe_local|]. intros _. apply safe_submit.
  - by apply safe_refresh_hook.
Qed.

Lemma process_safe {T : Backend R (local dist)} n : SafeBackend (process_backend n).
Proof.
  split; [apply safe_capacity| |].
  - intros f p t. sbind; [apply safe_import|]. intros g. sbind; [by apply safe_local|]. intros _.
    sbind; [apply safe_task_lifecycle|]. intros l. sbind; [apply safe_enter; by_class|]. intros l'.
    sbind; [apply safe_submit; by_class|]. intros _. by apply safe_local.
  - by apply safe_refresh_hook.
Qed.

Lemma asyncio_safe {T : Backend R (local adist)} n : SafeBackend (asyncio_backend n).
Proof.
  split; [apply safe_capacity| |].
  - intros f p t. sbind; [apply safe_import|]. intros g. sbind; [by apply safe_local|]. intros _. by apply safe_local.
  - by apply (safe_refresh_hook (managed_asyncio n)).
Qed.

(** The task queues, whose messages and inline calls leave the keys of the
    limiter alone. *)
Section Queues.
Context {B0 : Backend R dist} {MQ : Queue R} {App : Application R}.

Class SafeQueue : Prop := {
  sq_send : forall m, safe (send_message m);
  sq_call : forall f args kwargs, safe (call_inline f args kwargs);
  sq_actor : forall f args kwargs, safe (actor_send f args kwargs);
}.
Context {SQ : SafeQueue}.

(** Every dispatch of a queue ends in a message or in a call. *)
Lemma safe_queue_dispatch payload (generic : dist -> json -> json) (custom : json -> py R dist unit) :
  (forall data, safe (custom data)) ->
  safe (d ← me; u ← of_sum (unpack payload);
        let '(use_executor, data) := u in if use_executor : bool then send_message (generic d data) else custom data).
Proof.
  intros Hcustom. apply triple_me; by_class. intros d Hd. sbind; [apply safe_of_sum|].
  intros [[|] data]; [apply sq_send|apply Hcustom].
Qed.

Ltac queue_safe :=
  split; [apply safe_ret| |by apply safe_refresh_hook]; intros f p t;
  match goal with |- safe (dispatch_task f p t) => apply safe_queue_dispatch end; intros data.

Lemma celery_safe ping : SafeBackend (celery_backend (B := B0) ping).
Proof. queue_safe. apply sq_send. Qed.

Lemma rq_safe queue_name queues : SafeBackend (rq_backend (B := B0) queue_name queues).
Proof. queue_safe. apply sq_send. Qed.

Lemma huey_safe : SafeBackend (huey_backend (B := B0)).
Proof. queue_safe. sbind; [apply safe_of_sum|]. intros g. apply sq_call. Qed.

Lemma dramatiq_safe : SafeBackend (dramatiq_backend (B := B0)).
Proof. queue_safe. sbind; [apply safe_of_sum|]. intros g. apply sq_actor. Qed.
End Queues.
End Backends.

(** ** The methods of a limiter *)

Inductive deed :=
  | Schedule (func_path : string) (payload : list (string * json)) (priority : pyfloat) (max_age : option Z)
  | Acquire (timeout : Q) (priority : pyfloat)
  | Drain
  | Enter (t : lifecycle)
  | Leave (t : lifecycle)
  | Renew (task_id action : string)
  | Extend (task_id : string) (duration : Z)
  | Poll (message : exn + option (string * string))
  | Status
  | Count
  | Shutdown.

(** Documents and numbers are in the range of the scripts. *)
Definition permitted {F : Rounding} (d : deed) : Prop :=
  match d with
  | Schedule func_path payload _ max_age => schedulable func_path payload (or_empty max_age)
  | Acquire timeout _ => py_trunc (timeout ⊗ 1000) < 10 ^ 15 /\ Z.max 1 (Qceiling timeout) < 10 ^ 14
  | Extend _ duration => 0 <= duration < 10 ^ 15
  | _ => True
  end.

(** The same for a queue, except for [acquire]: it wraps the marker, which
    consume.lua cannot serve. *)
Definition queue_permitted {F : Rounding} (d : deed) : Prop :=
  match d with
  | Schedule func_path payload _ max_age => func_path <> marker_path /\ schedulable func_path payload (or_empty max_age)
  | Acquire _ _ => False
  | _ => permitted d
  end.

Lemma wrapped_schedulable path payload b ov :
  path <> marker_path -> schedulable path payload ov -> schedulable path (build_enhanced_payload payload b) ov.
Proof.
  intros Hm [Hj Ha _ _]. split; [|done|done|done]. unfold build_enhanced_payload. cbn. by rewrite andb_true_r.
Qed.

Section Deeds.
Context {F : Rounding} {R : Type} {RS : RedisServer R} {P : Resources} {Dg : Digest}.

Definition perform {O} {D : IsDist O} {B : Backend R O} (d : deed) : py R O unit :=
  match d with
  | Schedule f p q a => _ ← schedule_task f p q a; skip
  | Acquire t q => _ ← acquire t q; skip
  | Drain => drain
  | Enter t => _ ← lifecycle_enter t; skip
  | Leave t => lifecycle_exit t
  | Renew id action => renew_task id action
  | Extend id n => extend_lease id n
  | Poll m => subscriber_poll m
  | Status => _ ← get_status; skip
  | Count => _ ← get_buffer_count; skip
  | Shutdown => shutdown
  end.

Definition async_perform {O} {D : IsAsync O} {B : Backend R O} (d : deed) : py R O unit :=
  match d with
  | Schedule f p q a => _ ← async_schedule_task f p q a; skip
  | Acquire t q => _ ← async_acquire t q; skip
  | Drain => async_drain
  | Enter t => _ ← async_lifecycle_enter t; skip
  | Leave t => async_lifecycle_exit t
  | Renew id action => async_renew_task id action
  | Extend id n => async_extend_lease id n
  | Poll m => async_subscriber_poll m
  | Status => _ ← async_get_status; skip
  | Count => _ ← async_get_buffer_count; skip
  | Shutdown => async_shutdown
  end.

(** The methods of a limiter over a task queue, which wraps what it schedules. *)
Definition queue_schedules : list (string -> list (string * json) -> pyfloat -> option Z -> bool -> py R dist (bool * string)) :=
  [celery_schedule; rq_schedule; huey_schedule; dramatiq_schedule].

Definition queue_perform {B : Backend R dist} schedule (use_executor : bool) (d : deed) : py R dist unit :=
  match d with
  | Schedule f p q a => _ ← (schedule f p q a use_executor : py R dist (bool * string)); skip
  | Acquire t q => _ ← queue_acquire t q; skip
  | _ => perform d
  end.

(** One method after the other; the application goes on after an exception. *)
Fixpoint performs {O} {D : IsDist O} {B : Backend R O} (ds : list deed) : py R O unit :=
  match ds with
  | [] => skip
  | d :: ds' => _ ← catch (fun _ => true) (perform d) (fun _ => skip); performs ds'
  end.
End Deeds.

Section Performed.
Context {F : Rounding} {FL : RoundingLaws F} {R : Type} {RS : RedisServer R} {SP : RedisSpec R}.
Context (base : string) (c : cfg) (workers : string -> Prop).
Context (G : list order -> R -> Prop) {GU : Guarantee base c workers G}.
Context {P : Resources} {Dg : Digest}.
Hypothesis lease_range : 0 <= c_lease c < 10 ^ 15.

Abbreviation safe := (safe base c workers G).

Lemma safe_ignore {O A} `{IsDist O} (m : py R O A) : safe m -> safe (_ ← m; skip).
Proof. intros Hm. sbind; [done|]. intros _. apply safe_skip. Qed.

Lemma safe_perform {O} {D : IsDist O} {B : Backend R O} {FB : FleetBackend base c workers G B} d :
  permitted d -> safe (perform d : py R O unit).
Proof.
  destruct d; cbn [permitted perform]; intros Hd; try apply safe_ignore.
  - by apply safe_schedule.
  - destruct Hd. by apply safe_acquire.
  - by apply safe_drain.
  - apply safe_enter; by_class.
  - by apply safe_exit.
  - by apply safe_renew.
  - by apply safe_extend_lease.
  - apply safe_poll; by_class.
  - by apply safe_status.
  - apply safe_buffer_count; by_class.
  - apply safe_shutdown; by_class.
Qed.

Lemma safe_async_perform {O} {D : IsAsync O} {L : AsyncLaws O} {B : Backend R O}
    {FB : FleetBackend base c workers G B} d :
  permitted d -> safe (async_perform d : py R O unit).
Proof.
  destruct d; cbn [permitted async_perform]; intros Hd; try apply safe_ignore.
  - by apply safe_async_schedule.
  - destruct Hd. by apply safe_async_acquire.
  - by apply safe_async_drain.
  - apply safe_async_enter; by_class; try typeclasses eauto.
  - by apply safe_async_exit.
  - by apply safe_async_renew.
  - by apply safe_async_extend.
  - apply safe_async_poll; by_class; try typeclasses eauto.
  - by apply safe_async_status.
  - apply safe_async_count; by_class; try typeclasses eauto.
  - apply safe_async_shutdown; by_class; try typeclasses eauto.
Qed.

Lemma safe_queue_perform {B : Backend R dist} {FB : FleetBackend base c workers G B} schedule b d :
  schedule ∈ queue_schedules -> queue_permitted d -> safe (queue_perform schedule b d).
Proof.
  intros Hs Hd. destruct d; try done; try by apply safe_perform. destruct Hd. apply safe_ignore. unfold queue_schedules in Hs.
  repeat (apply elem_of_cons in Hs as [->|Hs]; [by apply safe_schedule, wrapped_schedulable|]). by apply elem_of_nil in Hs.
Qed.

Lemma safe_performs {O} {D : IsDist O} {B : Backend R O} {FB : FleetBackend base c workers G B} ds :
  Forall permitted ds -> safe (performs ds : py R O unit).
Proof.
  induction 1 as [|d ds Hd _ IH]; [apply safe_skip|]. cbn [performs]. sbind; [|by intros _].
  scatch; [by apply safe_perform|]. intros. apply safe_skip.
Qed.
End Performed.

(** ** Fleets *)

(** Two multisets by their occurrences. *)
Lemma occ_submseteq l k : (forall x, (occ x l <= occ x k)%nat) -> l ⊆+ k.
Proof.
  revert k. induction l as [|x l IH]; intros k Hk; [apply submseteq_nil_l|].
  assert (Hx : x ∈ k).
  { apply occ_pos. specialize (Hk x). rewrite occ_cons, decide_True in Hk by done. lia. }
  apply elem_of_Permutation in Hx as [k' Ek]. rewrite Ek. apply submseteq_skip, IH. intros y.
  specialize (Hk y). rewrite (occ_perm y k _ Ek), !occ_cons in Hk. lia.
Qed.

#[export] Instance omap_submseteq {A B} (f : A -> option B) : Proper (submseteq ==> submseteq) (omap f).
Proof.
  intros l k Hs. apply submseteq_Permutation in Hs as [r Er]. rewrite Er, omap_app. by apply submseteq_inserts_r.
Qed.

Section Fleets.
Context {F : Rounding} {FL : RoundingLaws F} {R : Type} {RS : RedisServer R} {SP : RedisSpec R}.
Context (base : string) (c : cfg) (workers : string -> Prop).
Context {P : Resources} {Dg : Digest}.

Abbreviation member := (member base c workers).

(** The environment of a method: what it finds at each round trip. *)
Definition within (S : R -> Prop) (ns : list (net R)) : Prop := forall n r, n ∈ ns -> S (n_env n r).

(** A command of some other client: on keys that are not the limiter's, and
    not replacing its configuration. *)
Definition bystander {B} (k : rcmd B) : Prop := foreign base k /\ (is_del k = true \/ cmd_key k <> Some registry_key).

(** The states of the server under a fleet.  A method runs in the world of its
    process, against any states of the server and with any faults; a run cut
    off after some round trip is one whose later round trips are all lost, so
    the states in the middle of a method, interleaved with the others or
    abandoned by a crash, are states of the fleet as well.  [fl_method] runs
    the methods of the base class, [fl_queue] those a task queue overrides. *)
Inductive fleet : R -> Prop :=
  | fl_start r : clock_ok (rview r) -> fresh base (rview r) -> stable base c r -> fleet r
  | fl_time r r' us :
      fleet r -> db_us (rview r) <= us -> rview r' = tick us (rview r) -> clock_ok (rview r') -> fleet r'
  | fl_other {B} r (k : rcmd B) : fleet r -> bystander k -> fleet (snd (run (call k) r))
  | fl_method {O} {D : IsDist O} {B : Backend R O} (w : world R O) d :
      FleetBackend base c workers (reaches base c workers no_account) B ->
      fleet (w_srv w) -> (forall n r, n ∈ w_net w -> fleet (n_env n r)) -> member (dist_of (w_obj w)) -> permitted d ->
      fleet (w_srv (snd (perform d w)))
  | fl_queue {B : Backend R dist} (w : world R dist) schedule use_executor d :
      FleetBackend base c workers (reaches base c workers no_account) B ->
      fleet (w_srv w) -> (forall n r, n ∈ w_net w -> fleet (n_env n r)) -> member (dist_of (w_obj w)) ->
      schedule ∈ queue_schedules -> queue_permitted d -> fleet (w_srv (snd (queue_perform schedule use_executor d w)))
  | fl_async {O} {D : IsAsync O} {L : AsyncLaws O} {B : Backend R O} (w : world R O) d :
      FleetBackend base c workers (reaches base c workers no_account) B ->
      fleet (w_srv w) -> (forall n r, n ∈ w_net w -> fleet (n_env n r)) -> member (dist_of (w_obj w)) -> permitted d ->
      fleet (w_srv (snd (async_perform d w))).

Hypothesis Hc : cfg_ok c.

Let G := reaches base c workers no_account.

Lemma within_good {O} `{IsDist O} (w : world R O) :
  G [] (w_srv w) -> within (fun r => G [] r) (w_net w) -> member (dist_of (w_obj w)) ->
  good base c workers G [] w.
Proof.
  intros Hs Hn Hm. assert (Hk : forall ks r, G [] r -> G ks r) by (by intros ks r [[h [Hr _]] Hst]; split; [exists h|]).
  split; [by apply Hk| |done]. intros n Hin js r _. by apply Hk, Hn.
Qed.

(** A fleet stays within the reachable states of the scripts. *)
Lemma fleet_reaches r : fleet r -> G [] r.
Proof.
  pose proof (reach_guarantee base c workers no_account Hc) as GU.
  assert (Hlease : 0 <= c_lease c < 10 ^ 15) by apply Hc.
  induction 1 as [r Hclk Hf Hs|r r' us _ [[h [Hr _]] Hst] Hus E Hclk|B r k _ [[h [Hr _]] Hst] [Hf Hk]
    |O D B w d FB _ IHs _ IHn Hm Hd|B w schedule b d FB _ IHs _ IHn Hm Hsch Hd|O D L B w d FB _ IHs _ IHn Hm Hd].
  - split; [|done]. eexists. split; [by apply reach_start|done].
  - split; [exists h; split; [by eapply reach_time|done]|]. eapply stable_same; [exact Hst|]. rewrite E.
    destruct (key_entry_tick_cases registry_key us (rview r) Hus) as [->|[-> _]]; auto.
  - split; [exists h; split; [by apply reach_foreign|done]|]. apply stable_run; [done|]. by split.
  - apply (go_srv _ _ _ _ _ _ (safe_perform base c workers _ Hlease d Hd [] w (within_good w IHs IHn Hm))).
  - apply (go_srv _ _ _ _ _ _ (safe_queue_perform base c workers _ Hlease schedule b d Hsch Hd [] w (within_good w IHs IHn Hm))).
  - apply (go_srv _ _ _ _ _ _ (safe_async_perform base c workers _ Hlease d Hd [] w (within_good w IHs IHn Hm))).
Qed.
End Fleets.

(** The backends of the repository may be those of a fleet. *)
Section Repository.
Context {F : Rounding} {FL : RoundingLaws F} {R : Type} {RS : RedisServer R} {SP : RedisSpec R}.
Context (base : string) (c : cfg) (workers : string -> Prop).
Context {P : Resources} {Dg : Digest} {M : Modules}.

Abbreviation in_fleet := (FleetBackend base c workers (reaches base c workers no_account)).

Record repository_backends : Prop := {
  rb_thread : forall (T : Backend R (local dist)) n, in_fleet (thread_backend n);
  rb_process : forall (T : Backend R (local dist)) n, in_fleet (process_backend n);
  rb_asyncio : forall (T : Backend R (local adist)) n, in_fleet (asyncio_backend n);
  rb_queues : forall (B0 : Backend R dist) (MQ : Queue R) (App : Application R),
    SafeQueue base c workers (reaches base c workers no_account) ->
    (forall ping, in_fleet (celery_backend (B := B0) ping)) /\
    (forall queue_name queues, in_fleet (rq_backend (B := B0) queue_name queues)) /\
    in_fleet (huey_backend (B := B0)) /\ in_fleet (dramatiq_backend (B := B0));
}.

Lemma backends_in_fleet : cfg_ok c -> literal_ok (c_window c) -> repository_backends.
Proof.
  intros Hc Hl. pose proof (reach_guarantee base c workers no_account Hc) as GU. split.
  - intros T n. by apply safe_fleet, thread_safe.
  - intros T n. by apply safe_fleet, process_safe.
  - intros T n. by apply safe_fleet, asyncio_safe.
  - intros B0 MQ App SQ. split_and!; intros;
      [apply safe_fleet, (celery_safe base c workers _ Hl)|apply safe_fleet, (rq_safe base c workers _ Hl)
      |apply safe_fleet, (huey_safe base c workers _ Hl)|apply safe_fleet, (dramatiq_safe base c workers _ Hl)]; done.
Qed.
End Repository.

Section Theorems.
Context {F : Rounding} {FL : RoundingLaws F} {R : Type} {RS : RedisServer R} {SP : RedisSpec R}.
Context {P : Resources} {Dg : Digest}.

(** C2. A fleet keeps the limits.  Synchronous and asynchronous limiters of
    one configuration, which the registry holds and nobody updates, in any
    number of processes, run their methods interleaved at every round trip,
    with lost commands, lost answers, flushed script caches, crashes and the
    commands of other clients: the server only ever is in a state the scripts
    lead to, so its keys keep their types, no more than max_concurrency leases
    are held, and no window has admitted more tasks than the limit.  The
    limiters may have any backend whose hooks keep those states; the thread,
    process and asyncio pools do, for a window that is read back as it is
    printed, and the four task queues if in addition their messages and inline
    calls do.  The methods are scheduling and inline acquisition, drains,
    leases, the lifecycle, the subscriber and the status, but not create, get
    and update; and a limiter over a task queue does everything except
    [acquire], which wraps its marker so that consume.lua fails. *)
Theorem fleet_safe (base : string) (c : cfg) (workers : string -> Prop) (r : R) :
  cfg_ok c -> fleet base c workers r ->
  (exists h, reach base c workers r h) /\
  wt base (c_ms c) (rview r) /\
  Z.of_nat (length (s_leases (abs base (rview r)))) <= c_conc c /\
  (forall n, db_ms (rview r) <= n + 2 * c_ms c -> s_count (abs base (rview r)) n <= c_limit c) /\
  forall M : Modules, literal_ok (c_window c) -> repository_backends base c workers.
Proof.
  intros Hc Hf. destruct (fleet_reaches base c workers Hc r Hf) as [(h & Hr & _) _].
  destruct (reach_Inv base c workers Hc r h Hr). split; [by exists h|]. split; [done|]. split; [done|].
  split; [|intros M Hl; by apply backends_in_fleet]. intros n Hn. rewrite inv_count by done. apply inv_limit.
Qed.

(** Interference that only adds to the history. *)
Definition interferes (base : string) (c : cfg) (workers : string -> Prop) (e : R -> R) : Prop := forall r h,
  reach base c workers r h -> stable base c r ->
  stable base c (e r) /\ exists h', reach base c workers (e r) h' /\ submseteq (orders h) (orders h').

(** C3. What is handed to a backend was scheduled.  Whatever methods of the
    base class a limiter of the fleet runs, with whatever failures and
    interference that keeps the configuration, each task it hands to its
    backend was admitted by the script and scheduled before, and it hands a
    task over at most as often as it was admitted, hence at most as often as it
    was scheduled. *)
Theorem dispatched_once {O} {D : IsDist O} {B : Backend R O} (base : string) (c : cfg) (workers : string -> Prop)
    (ds : list deed) (w : world R O) (h : history) :
  cfg_ok c -> SafeBackend base c workers (reaches base c workers admitted) B ->
  reach base c workers (w_srv w) h -> stable base c (w_srv w) ->
  (forall n, n ∈ w_net w -> interferes base c workers (n_env n)) ->
  member base c workers (dist_of (w_obj w)) -> Forall permitted ds -> w_trace w = [] ->
  let w' := snd (performs (B := recorded B) ds w) in
  exists h', reach base c workers (w_srv w') h' /\
    submseteq (dispatches (w_trace w')) (orders h') /\
    submseteq (dispatches (w_trace w')) (omap order_of (h_scheduled h')).
Proof.
  intros Hc HB Hr Hs Hn Hm Hd Ht w'. pose proof (reach_guarantee base c workers admitted Hc) as GU.
  assert (Hg : good base c workers (reaches base c workers admitted) [] w).
  { split; [|intros n Hin js r [(h1 & Hr1 & Hk1) Hs1]|done].
    - split; [|done]. exists h. split; [done|]. rewrite Ht. apply submseteq_nil_l.
    - destruct (Hn n Hin r h1 Hr1 Hs1) as [Hs2 (h2 & Hr2 & Ho)]. split; [|done]. exists h2. split; [done|].
      unfold admitted in *. by etrans. }
  pose proof (safe_performs (B := recorded B) base c workers _ (ck_lease _ Hc) ds Hd [] w Hg) as [[(h' & Hr' & Hk) _] _ _].
  exists h'. split; [exact Hr'|]. split; [exact Hk|]. etrans; [exact Hk|]. unfold orders. apply omap_submseteq, occ_submseteq.
  intros raw. pose proof (inv_once _ _ _ _ _ (reach_Inv base c workers Hc _ _ Hr') raw). lia.
Qed.
End Theorems.

(** ** A concrete fleet *)

#[local] Existing Instance binary64.
#[local] Existing Instance binary64_laws.
#[local] Existing Instance demo_resources.
#[local] Existing Instance demo_digest.
#[local] Existing Instance demo_app.
#[local] Existing Instance demo_backend.

(** The configuration of the limiters of the examples. *)
Definition fleet_cfg : cfg := Cfg 2 2000 10 4 3600 30.

Lemma fleet_cfg_ok : cfg_ok (F := binary64) fleet_cfg.
Proof. split; cbn; try lia. split; cbn; try lia. by vm_compute. Qed.

Lemma fleet_literal : literal_ok (F := binary64) (c_window fleet_cfg).
Proof. split; [by vm_compute|]. eexists. vm_compute. reflexivity. Qed.

Lemma demo_member : member "demo" fleet_cfg (fun _ => True) demo_node.
Proof. by split. Qed.

Lemma demo_fleet_backend G (GU : Guarantee "demo" fleet_cfg (fun _ => True) G) :
  FleetBackend "demo" fleet_cfg (fun _ => True) G demo_backend.
Proof.
  split; [apply safe_ret| |done]. intros f p t. exact (triple_emit _ _ _ G (EDispatch f p t)).
Qed.

Lemma demo_empty_fleet : fleet "demo" fleet_cfg (fun _ => True) (w_srv (demo_world 0 demo_empty [])).
Proof. apply fl_start; [by split; vm_compute|done|done]. Qed.

(** A worker schedules a task; another acts before its first command. *)
Definition demo_first : world db dist :=
  demo_world 0 demo_empty [Net (fun _ : db => w_srv (demo_world 0 demo_empty [])) Fine 0].

Definition demo_scheduled (path : string) : db :=
  w_srv (snd (perform (Schedule path [] (Finite 1) None) demo_first)).

Definition demo_left : db := demo_scheduled "app.pay".

(** Another worker drains. *)
Definition demo_drained : db := w_srv (snd (perform Drain (demo_world 1 demo_left []))).

Lemma demo_scheduled_fleet path : schedulable path [] None -> fleet "demo" fleet_cfg (fun _ => True) (demo_scheduled path).
Proof.
  intros Hp.
  pose proof (reach_guarantee (F := binary64) "demo" fleet_cfg (fun _ => True) no_account fleet_cfg_ok) as GU.
  refine (fl_method "demo" fleet_cfg _ demo_first (Schedule path [] (Finite 1) None) _ _ _ _ _);
    [by apply demo_fleet_backend|exact demo_empty_fleet| |exact demo_member|exact Hp].
  intros n r Hn. unfold demo_first, demo_world in Hn. cbn [w_net] in Hn.
  repeat (apply elem_of_cons in Hn as [->|Hn]; [exact demo_empty_fleet|]). by apply elem_of_nil in Hn.
Qed.

Lemma demo_drained_fleet : fleet "demo" fleet_cfg (fun _ => True) demo_drained.
Proof.
  pose proof (reach_guarantee (F := binary64) "demo" fleet_cfg (fun _ => True) no_account fleet_cfg_ok) as GU.
  refine (fl_method "demo" fleet_cfg _ (demo_world 1 demo_left []) Drain _ _ _ _ _);
    [by apply demo_fleet_backend| | |exact demo_member|done].
  - eapply (fl_time _ _ _ demo_left _ (1700000000000000 + 1 * 1000000)); [by apply demo_scheduled_fleet; split|by vm_compute|by vm_compute|].
    by split; vm_compute.
  - by intros n r ?%elem_of_nil.
Qed.

Lemma fleet_safe_witness :
  length (s_leases (abs "demo" demo_drained)) = 1%nat /\
  Z.of_nat (length (s_leases (abs "demo" demo_drained))) <= 4.
Proof.
  split; [by vm_compute|].
  exact (proj1 (proj2 (proj2 (fleet_safe "demo" fleet_cfg (fun _ => True) demo_drained fleet_cfg_ok demo_drained_fleet)))).
Defined.

(** A thread pool schedules a task and drains. *)
Definition demo_threads : world db (local dist) :=
  set_srv (w_srv (demo_world 0 demo_empty [])) (demo_pool false).

Definition demo_deeds : list deed := [Schedule "app.run" [] (Finite 1) None; Drain; Drain].

#[local] Instance demo_inner : Backend db (local dist) := {|
  has_local_capacity := mret true;
  dispatch_task := fun _ _ _ => skip;
  check_backend_health := None;
  refresh_hook := None;
|}.

Definition demo_handed : list order :=
  dispatches (w_trace (snd (performs (B := recorded (thread_backend 1)) demo_deeds demo_threads))).

Lemma dispatched_once_witness :
  length demo_handed = 1%nat /\ exists h, submseteq demo_handed (omap order_of (h_scheduled h)).
Proof.
  split; [by vm_compute|].
  pose proof (reach_guarantee (F := binary64) "demo" fleet_cfg (fun _ => True) admitted fleet_cfg_ok) as GU.
  edestruct (dispatched_once (B := thread_backend 1) "demo" fleet_cfg (fun _ => True) demo_deeds demo_threads
    (History [] [] [])) as (h & _ & _ & Hs).
  - exact fleet_cfg_ok.
  - by apply thread_safe, fleet_literal.
  - apply reach_start; [by split; vm_compute|done].
  - done.
  - by intros n ?%elem_of_nil.
  - exact demo_member.
  - by repeat (constructor; [by split|]).
  - done.
  - exists h. exact Hs.
Defined.
