(* ===== verification/Cycle.v ===== *)
(** * Cycle: what a drain does with the task it is given

    The drain of a limiter, from its configuration to the backend: the task
    the contract of consume.lua admits is the one the backend is handed, with
    its function, payload and identifier, after the server has moved exactly
    as the contract says; and what becomes of the task when the backend
    refuses it. *)

From S2P Require Import Prelude Float Text Json Redis Zset Keyspace Scripts Window State Store Consume Schedule Lease System Safety Md5 Py Base Loop Heartbeat Dist Managed Distributed ManagedDist Rely AsyncLoop AsyncDistributed Limiter Importing Pool Methods Fleet.

Open Scope Z_scope.
Open Scope rl_scope.

(** The fields a drain reads of an admitted document. *)
Lemma task_fields_read raw t :
  task_of raw = Some t -> exists fields payload,
    loads raw = Some (JObj fields) /\ fields <> [] /\
    assoc_last "id" fields = Some (JStr (t_id t)) /\
    assoc_last "func_path" fields = Some (JStr (t_path t)) /\
    assoc_last "payload" fields = Some (JObj payload).
Proof.
  unfold task_of. intros H. apply bind_Some in H as (fields & Hf & H).
  apply bind_Some in Hf as (v & Hv & Hj). destruct v; try done. injection Hj as ->.
  apply bind_Some in H as (id & Hid & H). apply bind_Some in Hid as (vi & Hi & Hs). destruct vi; try done. injection Hs as ->.
  apply bind_Some in H as (path & Hp & H). apply bind_Some in Hp as (vp & Hp & Hs). destruct vp; try done. injection Hs as ->.
  apply bind_Some in H as (infl & _ & H).
  apply bind_Some in H as (payload & Hl & H). apply bind_Some in Hl as (vl & Hl & Hs). destruct vl; try done. injection Hs as ->.
  apply bind_Some in H as (arrived & _ & H). apply bind_Some in H as (age & _ & [= <-]).
  exists fields, payload. split; [done|]. split; [intros ->; done|]. done.
Qed.

Section Drain.
Context {F : Rounding} {FL : RoundingLaws F} {R : Type} {RS : RedisServer R} {SP : RedisSpec R}.
Context {O : Type} {D : IsDist O} {P : Resources} {Dg : Digest} {B : Backend R O}.
Context (base : string) (c : cfg) (workers : string -> Prop).
Hypothesis Hc : cfg_ok c.

Abbreviation member := (member base c workers).

(** What the handler of a failed drain reads of the limiter. *)
Record same_drains (d d' : dist) : Prop := {
  sd_failures : d_drain_failures d' = d_drain_failures d;
  sd_loop : d_drain_loop d' = d_drain_loop d;
  sd_window : d_window d' = d_window d;
}.

Lemma same_drains_base_only (w w' : world R O) :
  base_only w w' -> same_drains (dist_of (w_obj w)) (dist_of (w_obj w')).
Proof.
  intros [(f & Kf & ->) _]. destruct (Kf (d_base (dist_of (w_obj w)))) as (_ & _ & K & _).
  by split; [| |unfold d_window; cbn].
Qed.

(** The whole of consume on an undisturbed network. *)
Lemma consume_wp (w : world R O) rep s' :
  w_net w = [] -> script_found "consume.lua" (w_obj w) -> metrics_safe (dist_of (w_obj w)) ->
  member (dist_of (w_obj w)) -> wt base (c_ms c) (rview (w_srv w)) -> clock_ok (rview (w_srv w)) ->
  consume_spec c (d_worker_id (dist_of (w_obj w))) (db_sec (rview (w_srv w))) (db_ms (rview (w_srv w)))
    (abs base (rview (w_srv w))) = (rep, s') ->
  forall raw t, cr_task rep = Some raw -> cr_status rep = 1 -> task_of raw = Some t ->
  wp consume (fun r w' => exists res fields payload,
    r = inr res /\ yielded res = false /\ success res = true /\ Distributed.task res = JObj fields /\
    loads raw = Some (JObj fields) /\
    assoc_last "id" fields = Some (JStr (t_id t)) /\
    assoc_last "func_path" fields = Some (JStr (t_path t)) /\
    assoc_last "payload" fields = Some (JObj payload) /\
    moved base (c_ms c) (rview (w_srv w)) (rview (w_srv w')) s' /\
    w_net w' = [] /\ same_drains (dist_of (w_obj w)) (dist_of (w_obj w'))) w.
Proof.
  intros Hn Hf Hm Hd Hwt Hk Es raw t Eraw Est Et. unfold consume. apply wp_bind, me_wp, wp_bind.
  set (d := dist_of (w_obj w)) in *. rewrite (member_consume base c workers d Hd).
  destruct (consume_steps rcjson rcjson_spec base c (d_worker_id d) Hc (rview (w_srv w)) Hwt Hk) as (db' & Hr & Mv).
  rewrite Es in Hr, Mv. cbn [fst snd] in Hr, Mv.
  eapply eval_view; [done|done|exact Hr|]. intros w1 Ev1 En1 Em1 Ew1 Hb1. cbn [answer].
  destruct (task_fields_read raw t Et) as (fields & payload & Hl & Hne & Hid & Hfp & Hp).
  apply wp_bind. unfold of_sum at 1. apply wp_of_sum.
  unfold parse_consume, parse_task. rewrite Eraw.
  assert (Hraw : String.eqb raw estr = false).
  { apply String.eqb_neq. intros ->. vm_compute in Hl. discriminate. }
  rewrite Hraw, Hl, Est. cbn [Distributed.task]. apply wp_bind.
  assert (Ht : truthy (JObj fields) = true) by (by destruct fields). rewrite Ht.
  apply wp_bind. unfold of_sum at 1. apply wp_of_sum. cbn [json_item]. rewrite Hid. apply (wp_ret tt).
  apply wp_bind. eapply wp_mono; [apply emit_metric_wp|].
  { destruct Hb1 as [(f & _ & Ef) _]. by rewrite Ef. }
  intros r2 w2 (-> & Eo2 & Es2 & En2). apply wp_ret. do 3 eexists. split_and!; try done.
  - by rewrite Es2, Ev1.
  - by rewrite En2.
  - rewrite Eo2. by apply same_drains_base_only.
Qed.

(** A request for a drain leaves the server alone. *)
Lemma schedule_drain_srv delay (w : world R O) : wp (schedule_drain delay) (fun r w' => r = inr tt /\ w_srv w' = w_srv w) w.
Proof. apply schedule_drain_wp. intros w' _ Es _ _ _ _. by split. Qed.

Lemma drain_failed_srv e (w : world R O) : w_srv (snd (drain_failed e w)) = w_srv w.
Proof.
  change (wp (drain_failed e) (fun _ w' => w_srv w' = w_srv w) w).
  unfold drain_failed. apply wp_bind, wp_modify, wp_bind, me_wp, wp_bind. unfold of_sum. apply wp_of_sum.
  destruct (backoff _ _) as [e'|q]; [done|]. apply wp_catch. eapply wp_mono; [apply schedule_drain_srv|].
  by intros r w' [-> ->].
Qed.

(** Nothing of the drain comes before the capacity check: no configuration is
    to be fetched and the limiter is not paused. *)
Record due (w : world R O) : Prop := {
  du_refresh : match refresh_hook (R := R) (O := O) with
               | Some _ => Qle_bool 1 (w_mono w ⊖ d_last_refresh_at (dist_of (w_obj w))) = false
               | None => True
               end;
  du_open : Qltb (w_wall w) (b_drain_paused_until (d_base (dist_of (w_obj w)))) = false;
  du_capacity : has_local_capacity w = (inr true, w);
}.

(** The backend takes the order in [w1], and what follows is the drain's. *)
Definition handed_over (t : State.task) (payload : list (string * json)) (w1 w' : world R O) (r : exn + unit) : Prop :=
  if t_marker t then r = inr tt /\ w_srv w' = w_srv w1
  else
    let '(o, w2) := dispatch_task (JStr (t_path t)) (JObj payload) (JStr (t_id t)) w1 in
    w_srv w' = w_srv w2 /\
    match o with inr _ => r = inr tt /\ d_drain_failures (dist_of (w_obj w')) = 0 | inl _ => True end.

(** After a successful result: the order, then the follow-up. *)
Lemma after_success res fields payload t (w1 : world R O) :
  yielded res = false -> success res = true -> Distributed.task res = JObj fields ->
  assoc_last "id" fields = Some (JStr (t_id t)) ->
  assoc_last "func_path" fields = Some (JStr (t_path t)) ->
  assoc_last "payload" fields = Some (JObj payload) ->
  wp (after_consume res) (fun r w' =>
    if t_marker t then r = inr tt /\ w_srv w' = w_srv w1
    else let '(o, w2) := dispatch_task (JStr (t_path t)) (JObj payload) (JStr (t_id t)) w1 in
      match o with
      | inr _ => r = inr tt /\ w_srv w' = w_srv w2
      | inl e => r = inl e /\ w' = w2
      end) w1.
Proof.
  intros Hy Hs Ht Hid Hf Hp. unfold after_consume. apply wp_bind, me_wp. rewrite Hy, Hs, Ht.
  apply wp_bind. unfold of_sum at 1. apply wp_of_sum. cbn [json_get]. rewrite Hid. cbn [default].
  apply wp_bind. unfold of_sum at 1. apply wp_of_sum. cbn [json_item]. rewrite Hf. cbn [is_text].
  fold (t_marker t). apply wp_bind. destruct (t_marker t).
  - apply (wp_ret tt). apply wp_when; [|done]. intros _. apply schedule_drain_srv.
  - apply wp_bind. unfold of_sum at 1. apply wp_of_sum. rewrite Hp. unfold wp at 1.
    destruct (dispatch_task _ _ _ w1) as [[e|[]] w2]; cbn [fst snd]; [done|].
    apply wp_when; [|done]. intros _. apply schedule_drain_srv.
Qed.

(** The body of a drain that is due: the server moves as the contract of the
    dequeue script says, and the backend is handed what it admitted. *)
Lemma drain_body_serves (w : world R O) rep s' raw :
  let d := dist_of (w_obj w) in
  let db := rview (w_srv w) in
  w_net w = [] -> script_found "consume.lua" (w_obj w) -> metrics_safe d -> member d ->
  wt base (c_ms c) db -> clock_ok db -> due w ->
  consume_spec c (d_worker_id d) (db_sec db) (db_ms db) (abs base db) = (rep, s') ->
  cr_task rep = Some raw ->
  exists t payload, task_of raw = Some t /\
    (fields ← loads raw ≫= jobj; assoc_last "payload" fields) = Some (JObj payload) /\
    wp drain_body (fun r w' => exists w1, moved base (c_ms c) db (rview (w_srv w1)) s' /\
      same_drains d (dist_of (w_obj w1)) /\
      if t_marker t then r = inr tt /\ w_srv w' = w_srv w1
      else let '(o, w2) := dispatch_task (JStr (t_path t)) (JObj payload) (JStr (t_id t)) w1 in
        match o with
        | inr _ => r = inr tt /\ w_srv w' = w_srv w2 /\ d_drain_failures (dist_of (w_obj w')) = 0
        | inl e => r = inl e /\ w' = w2
        end) w.
Proof.
  intros d db Hn Hf Hm Hd Hwt Hk [Hr Hp Hcap] Es Eraw.
  pose proof (consume_effect c (d_worker_id d) (db_sec db) (db_ms db) (abs base db)) as He. rewrite Es in He. cbn [fst snd] in He.
  assert (Ht : cr_status rep = 1 /\ exists t, task_of raw = Some t).
  { inversion He as [| | |? p raw' rest t Hb Ht Hst Hraw _]; subst; try congruence. split; [done|]. exists t. congruence. }
  destruct Ht as [Est (t & Et)]. destruct (task_fields_read raw t Et) as (fields & payload & Hl & _ & Hid & Hfp & Hpl).
  exists t, payload. split; [done|]. rewrite Hl. cbn. split; [done|].
  unfold drain_body. apply wp_bind, wp_monotonic, wp_bind, me_wp, wp_bind. fold d in Hr, Hp |- *.
  apply (wp_eq _ _ _ (inr tt) w).
  { destruct refresh_hook; [by rewrite Hr|done]. }
  apply wp_bind, me_wp, wp_bind, wp_wall_time. fold d. rewrite Hp. apply wp_bind.
  unfold drain_inner. apply wp_bind. apply (wp_eq _ _ _ _ _ Hcap). cbn [negb]. apply wp_bind.
  eapply wp_mono; [by eapply (consume_wp w rep s')|].
  intros r1 w1 (res & fields' & payload' & -> & Hy & Hs & Htk & Hl' & Hid' & Hf' & Hp' & Mv & Hn1 & Hsd).
  rewrite Hl in Hl'. injection Hl' as <-. rewrite Hpl in Hp'. injection Hp' as <-.
  eapply wp_mono; [by eapply (after_success res fields payload t w1)|]. intros r2 w2 H2.
  destruct (t_marker t) eqn:Emk.
  - destruct H2 as [-> H2]. apply wp_modify. exists w1. by split_and!.
  - destruct (dispatch_task _ _ _ w1) as [[e|[]] w3] eqn:Ed; destruct H2 as [-> H2].
    + subst w2. exists w1. rewrite Ed. by split_and!.
    + apply wp_modify. exists w1. rewrite Ed. do 4 (split; [done|]).
      cbn [w_obj set_obj]. by rewrite dist_of_with.
Qed.

(** C4. A drain that is due serves the head of the queue.  Take a limiter of
    that configuration that is not paused, has a free local slot and no refresh
    of its configuration outstanding, on an undisturbed network, with well
    typed keys, the script file in place and a metrics callback that does not
    raise.  When the contract of the dequeue script admits a task, its drain
    moves the server exactly as the contract says and hands the backend the
    function, the payload and the identifier of that task, once, and nothing
    when it is the marker of an inline acquisition; afterwards it asks no more
    of the server than the backend did. *)
Theorem drain_serves_head (w : world R O) rep s' raw :
  let d := dist_of (w_obj w) in
  let db := rview (w_srv w) in
  w_net w = [] -> script_found "consume.lua" (w_obj w) -> metrics_safe d -> member d ->
  wt base (c_ms c) db -> clock_ok db -> due w ->
  consume_spec c (d_worker_id d) (db_sec db) (db_ms db) (abs base db) = (rep, s') ->
  cr_task rep = Some raw ->
  exists t payload w1,
    task_of raw = Some t /\
    (fields ← loads raw ≫= jobj; assoc_last "payload" fields) = Some (JObj payload) /\
    moved base (c_ms c) db (rview (w_srv w1)) s' /\
    handed_over t payload w1 (snd (drain w)) (fst (drain w)).
Proof.
  intros d db Hn Hf Hm Hd Hwt Hk Hdue Es Eraw.
  destruct (drain_body_serves w rep s' raw Hn Hf Hm Hd Hwt Hk Hdue Es Eraw) as (t & payload & Ht & Hpl & w1 & Mv & _ & Hb).
  exists t, payload, w1. split_and!; try done.
  unfold handed_over, drain, catch. destruct (drain_body w) as [r w3]. cbn [fst snd] in Hb.
  destruct (t_marker t); [by destruct Hb as [-> Hb]|].
  destruct (dispatch_task _ _ _ w1) as [[e|[]] w2]; [|by destruct Hb as (-> & Hb & Hz)].
  destruct Hb as [-> ->]. split; [|done]. destruct (is_exception e); [apply drain_failed_srv|done].
Qed.

(** A backend that refuses a task: it raises, asks nothing of the server and
    leaves the drains of the limiter alone. *)
Definition refused (t : State.task) : Prop := forall payload w1, exists e w2,
  dispatch_task (R := R) (O := O) (JStr (t_path t)) (JObj payload) (JStr (t_id t)) w1 = (inl e, w2) /\
  is_exception e = true /\ w_srv w2 = w_srv w1 /\ same_drains (dist_of (w_obj w1)) (dist_of (w_obj w2)).

(** What the drain of a refused task leaves behind. *)
Lemma refused_drain (w : world R O) rep s' raw t :
  let d := dist_of (w_obj w) in
  let db := rview (w_srv w) in
  let w' := snd (drain w) in
  w_net w = [] -> script_found "consume.lua" (w_obj w) -> metrics_safe d -> member d ->
  wt base (c_ms c) db -> clock_ok db -> due w ->
  consume_spec c (d_worker_id d) (db_sec db) (db_ms db) (abs base db) = (rep, s') ->
  cr_task rep = Some raw -> task_of raw = Some t -> t_marker t = false -> refused t ->
  0 <= d_drain_failures d < 1024 ->
  moved base (c_ms c) db (rview (w_srv w')) s' /\
  fst (drain w) = inr tt /\ d_drain_failures (dist_of (w_obj w')) = d_drain_failures d + 1 /\
  drain_by (w_mono w' ⊕ fmin (d_window d) (rnd (1 # 10) ⊗ rnd (2 ^ d_drain_failures d)%Z)) (dist_of (w_obj w')) /\
  (is_Some (d_drain_loop d) -> is_Some (d_drain_loop (dist_of (w_obj w')))).
Proof.
  intros d db w' Hn Hf Hm Hd Hwt Hk Hdue Es Eraw Et Emk Hrefuse Hfl.
  destruct (drain_body_serves w rep s' raw Hn Hf Hm Hd Hwt Hk Hdue Es Eraw) as (t' & payload & Et' & _ & w1 & Mv & Hsd & Hb).
  rewrite Et in Et'. injection Et' as <-. rewrite Emk in Hb.
  destruct (Hrefuse payload w1) as (e & w2 & Ed & He & Esrv & [S1 S2 S3]). rewrite Ed in Hb. destruct Hb as [Hr1 Hr2].
  destruct Hsd as [T1 T2 T3]. fold d in T1, T2, T3.
  assert (Eb : drain_body w = (inl e, w2)) by (destruct (drain_body w); cbn [fst snd] in *; congruence).
  destruct (recovers_in_range e w w2 (d_drain_failures d) Eb He ltac:(congruence) Hfl) as (H1 & H2 & H3 & H4 & H5).
  fold w' in H2, H3, H4, H5. split; [|split; [exact H1|split; [exact H2|]]].
  - subst w'. unfold drain, catch. by rewrite Eb, He, drain_failed_srv, Esrv.
  - rewrite H4, <- T3, <- S3. split; [exact H3|]. intros Hl. apply H5. by rewrite S2, T2.
Qed.

(** C13. A refused dispatch loses the task.  Take a limiter that is not
    paused, has a free local slot and no refresh outstanding, with fewer than
    1024 failed drains in a row, on an undisturbed network, with well typed
    keys, the script file in place and a metrics callback that does not raise;
    let the contract of the dequeue script admit a task that is no marker; and
    take a backend that raises over the task it is handed (its function cannot
    be imported, its broker is away, its pool is broken) and leaves the server
    and the drains of the limiter alone.  The drain returns normally, counts
    the failure and leaves a recovery drain pending within the backoff, in a
    loop that exists; but the server has moved on as if the task had been
    taken: it is neither in the buffer nor in the dead letter queue, its lease
    is held and a token of its window is spent, and the claim that rejects
    another submission of it stays. *)
Theorem failed_dispatch_loses (w : world R O) rep s' raw t :
  let d := dist_of (w_obj w) in
  let db := rview (w_srv w) in
  let s := abs base db in
  let w' := snd (drain w) in
  let d1 := dist_of (w_obj w') in
  let s1 := abs base (rview (w_srv w')) in
  w_net w = [] -> script_found "consume.lua" (w_obj w) -> metrics_safe d -> member d ->
  wt base (c_ms c) db -> clock_ok db -> due w ->
  consume_spec c (d_worker_id d) (db_sec db) (db_ms db) s = (rep, s') ->
  cr_task rep = Some raw -> task_of raw = Some t -> t_marker t = false -> refused t ->
  0 <= d_drain_failures d < 1024 ->
  fst (drain w) = inr tt /\ d_drain_failures d1 = d_drain_failures d + 1 /\
  drain_by (w_mono w' ⊕ fmin (d_window d) (rnd (1 # 10) ⊗ rnd (2 ^ d_drain_failures d)%Z)) d1 /\
  (is_Some (d_drain_loop d) -> is_Some (d_drain_loop d1)) /\
  raw ∈ members (s_buffer s) /\ raw ∉ members (s_buffer s1) /\ s_dlq s1 = s_dlq s /\
  t_id t ∈ members (s_leases s1) /\ s_inflight s1 (t_id t) = s_inflight s (t_id t) /\
  s_count s1 (wstart (db_ms db) (c_ms c)) = s_count s (wstart (db_ms db) (c_ms c)) + 1.
Proof.
  intros d db s w' d1 s1 Hn Hf Hm Hd Hwt Hk Hdue Es Eraw Et Emk Hrefuse Hfl.
  destruct (refused_drain w rep s' raw t Hn Hf Hm Hd Hwt Hk Hdue Es Eraw Et Emk Hrefuse Hfl) as (Mv & H1 & H2 & H3 & H4).
  do 4 (split; [done|]).
  pose proof (consume_effect c (d_worker_id d) (db_sec db) (db_ms db) s) as Hef. fold s in Es. rewrite Es in Hef. cbn [fst snd] in Hef.
  inversion Hef as [| | |? p raw' rest t' Hbuf Ht' Hst Hraw _ E1 E2]; try congruence.
  assert (raw' = raw) as -> by congruence. assert (t' = t) as -> by congruence. subst rep0.
  pose proof (mv_abs _ _ _ _ _ Mv) as Hs1. fold w' s1 in Hs1.
  assert (Hnd : raw ∉ members rest).
  { pose proof (zwf_nodup _ (zk_wf _ _ (wt_buffer _ _ _ Hwt))) as Hnd. change (zset_at (buffer_k base) db) with (s_buffer s) in Hnd.
    rewrite Hbuf in Hnd. by apply NoDup_cons in Hnd as [? _]. }
  rewrite Hs1, <- E2, Hbuf. unfold admit_spec. rewrite Emk. cbn. unfold upd. rewrite decide_True by done.
  split; [left|]. split; [done|]. split; [done|]. split; [|done].
  apply zadd_members. auto.
Qed.
End Drain.

(** ** A thread pool that can run one task and not another *)

#[local] Existing Instance binary64.
#[local] Existing Instance binary64_laws.
#[local] Existing Instance demo_resources.
#[local] Existing Instance demo_digest.
#[local] Existing Instance demo_app.

#[local] Instance demo_threads_backend : Backend db (local dist) := thread_backend (B := demo_inner) 1.

(** A task the pool can import has been scheduled, or one it cannot; the
    servers are given in normal form. *)
Definition run_scheduled : db := Eval vm_compute in demo_scheduled "app.run".
Definition gone_scheduled : db := Eval vm_compute in demo_scheduled "app.gone".

Lemma run_scheduled_eq : demo_scheduled "app.run" = run_scheduled.
Proof. by vm_compute. Qed.
Lemma gone_scheduled_eq : demo_scheduled "app.gone" = gone_scheduled.
Proof. by vm_compute. Qed.

(** The pool comes to drain. *)
Definition demo_due (r : db) : world db (local dist) := set_srv r (demo_pool false).

Definition demo_verdict (r : db) : consume_reply * lstate :=
  consume_spec fleet_cfg (d_worker_id demo_node) (db_sec r) (db_ms r) (abs "demo" r).

Definition demo_raw (r : db) : string := default estr (cr_task (fst (demo_verdict r))).

Lemma demo_due_ok path :
  schedulable path [] None -> wt "demo" (c_ms fleet_cfg) (demo_scheduled path) /\ clock_ok (demo_scheduled path).
Proof.
  intros Hp.
  destruct (fleet_reaches "demo" fleet_cfg (fun _ => True) fleet_cfg_ok _ (demo_scheduled_fleet path Hp)) as [(h & Hr & _) _].
  by destruct (reach_Inv _ _ _ fleet_cfg_ok _ _ Hr).
Qed.

Lemma drain_serves_head_witness :
  (t_path <$> task_of (demo_raw run_scheduled)) = Some "app.run" /\
  exists t payload w1, task_of (demo_raw run_scheduled) = Some t /\
    handed_over t payload w1 (snd (drain (demo_due run_scheduled))) (fst (drain (demo_due run_scheduled))).
Proof.
  destruct (demo_due_ok "app.run") as [Hwt Hk]; [by split|]. rewrite run_scheduled_eq in Hwt, Hk.
  split; [by vm_compute|].
  edestruct (drain_serves_head "demo" fleet_cfg (fun _ => True) fleet_cfg_ok (demo_due run_scheduled)
    (fst (demo_verdict run_scheduled)) (snd (demo_verdict run_scheduled)) (demo_raw run_scheduled))
    as (t & payload & w1 & Ht & _ & _ & Hh).
  - done.
  - right. by exists "consume.lua".
  - done.
  - by split.
  - exact Hwt.
  - exact Hk.
  - split; [by vm_compute|by vm_compute|reflexivity].
  - apply surjective_pairing.
  - by vm_compute.
  - exists t, payload, w1. by split.
Defined.

(** The pool cannot import the task: it is gone. *)
Lemma failed_dispatch_loses_witness :
  let w' := snd (drain (demo_due gone_scheduled)) in
  let after := abs "demo" (w_srv w') in
  fst (drain (demo_due gone_scheduled)) = inr tt /\ d_drain_failures (dist_of (w_obj w')) = 1 /\
  demo_raw gone_scheduled ∉ members (s_buffer after) /\ s_dlq after = [] /\ s_leases after <> [].
Proof.
  destruct (demo_due_ok "app.gone") as [Hwt Hk]; [by split|]. rewrite gone_scheduled_eq in Hwt, Hk.
  destruct (task_of (demo_raw gone_scheduled)) as [t|] eqn:Et; [|by vm_compute in Et].
  edestruct (failed_dispatch_loses "demo" fleet_cfg (fun _ => True) fleet_cfg_ok (demo_due gone_scheduled)
    (fst (demo_verdict gone_scheduled)) (snd (demo_verdict gone_scheduled)) (demo_raw gone_scheduled) t)
    as (Hr & Hfl & _ & _ & _ & Hbuf & Hdlq & Hl & _).
  - done.
  - right. by exists "consume.lua".
  - done.
  - by split.
  - exact Hwt.
  - exact Hk.
  - split; [by vm_compute|by vm_compute|reflexivity].
  - apply surjective_pairing.
  - by vm_compute.
  - exact Et.
  - vm_compute in Et. injection Et as <-. by vm_compute.
  - intros payload w1. vm_compute in Et. injection Et as <-. eexists _, w1. by split_and!.
  - by split; vm_compute.
  - split; [exact Hr|]. split; [exact Hfl|]. split; [exact Hbuf|]. split; [etrans; [exact Hdlq|by vm_compute]|].
    intros E. revert Hl. change (t_id t ∈ members (s_leases (abs "demo" (w_srv (snd (drain (demo_due gone_scheduled)))))) -> False).
    rewrite E. by intros ?%elem_of_nil.
Defined.
