(* ===== verification/Kills.v ===== *)
(** * Kills: which tests kill which mutant (scripts/mutmut_shared.py)

    The mutation testing scripts run the tests against one mutant per child
    process.  A pytest plugin in the child, [KilledByCollector], records the
    tests that fail and leaves them in a file named after the process; the
    parent, [KilledByAccumulator], reads the file when it registers the result
    of the child.  The subclass of scripts/run_mutmut.py also records the test
    that is running. *)

From S2P Require Import Prelude Float Text Json Py Base Distributed.

Open Scope Z_scope.
Open Scope rl_scope.

(** ** Dictionaries in insertion order *)

Section Dict.
Context {A : Type}.

Definition pydict := list (string * A).

(** [d[k] = f(d.get(k))]: a key keeps its place. *)
Fixpoint dict_alter (f : option A -> A) (k : string) (d : pydict) : pydict :=
  match d with
  | [] => [(k, f None)]
  | (k', v) :: d' => if String.eqb k' k then (k', f (Some v)) :: d' else (k', v) :: dict_alter f k d'
  end.

Definition dict_set (k : string) (v : A) : pydict -> pydict := dict_alter (fun _ => v) k.

Fixpoint dict_find (k : string) (d : pydict) : option A :=
  match d with
  | [] => None
  | (k', v) :: d' => if String.eqb k' k then Some v else dict_find k d'
  end.

Lemma dict_find_alter f k d : dict_find k (dict_alter f k d) = Some (f (dict_find k d)).
Proof.
  induction d as [|[k' v] d IH]; cbn; [by rewrite String.eqb_refl|]. destruct (String.eqb k' k) eqn:E; cbn; by rewrite E.
Qed.

Lemma dict_find_alter_ne f k k' d : k' <> k -> dict_find k' (dict_alter f k d) = dict_find k' d.
Proof.
  intros Hne. induction d as [|[j v] d IH]; cbn.
  - destruct (String.eqb_spec k k'); [congruence|done].
  - destruct (String.eqb_spec j k) as [->|]; cbn; [|by rewrite IH].
    destruct (String.eqb_spec k k'); [congruence|done].
Qed.

Lemma dict_keys_alter f k d : fst <$> dict_alter f k d = (fst <$> d) ++ (if decide (k ∈ fst <$> d) then [] else [k]).
Proof.
  induction d as [|[j v] d IH]; [done|]. cbn. destruct (String.eqb_spec j k) as [->|Hne].
  - rewrite decide_True by left. by rewrite app_nil_r.
  - cbn. f_equal. rewrite IH. f_equal. apply decide_ext. rewrite elem_of_cons. naive_solver.
Qed.

Lemma dict_nodup_alter f k d : NoDup (fst <$> d) -> NoDup (fst <$> dict_alter f k d).
Proof.
  intros Hd. rewrite dict_keys_alter. case_decide; [by rewrite app_nil_r|].
  apply NoDup_app. split; [done|]. split; [|apply NoDup_singleton]. intros x Hx ->%list_elem_of_singleton. done.
Qed.

Lemma dict_find_elem k v d : NoDup (fst <$> d) -> dict_find k d = Some v <-> (k, v) ∈ d.
Proof.
  induction d as [|[j u] d IH]; cbn; intros Hd; [split; [done|by intros ?%elem_of_nil]|].
  apply NoDup_cons in Hd as [Hj Hd]. rewrite elem_of_cons. destruct (String.eqb_spec j k) as [->|Hne].
  - split; [intros [= ->]; by left|]. intros [[= ->]|Hin]; [done|]. destruct Hj. apply list_elem_of_fmap. by exists (k, v).
  - rewrite IH by done. naive_solver.
Qed.

Lemma dict_find_none k d : dict_find k d = None <-> k ∉ fst <$> d.
Proof.
  induction d as [|[j u] d IH]; cbn; [split; [intros _; apply not_elem_of_nil|done]|].
  rewrite not_elem_of_cons. destruct (String.eqb_spec j k) as [->|Hne]; [naive_solver|]. rewrite IH. naive_solver.
Qed.
End Dict.
Arguments pydict : clear implicits.

(** ** KilledByCollector *)

(** The plugin of analyze_superfluity.py, and the one of run_mutmut.py that
    tracks the running test. *)
Inductive plugin := FullMatrix | FirstKiller.

Record collector := Collector {
  kc_plugin : plugin;
  kc_mutant : option string;
  kc_killed_by : list string;
  kc_selected : list string;
  kc_ran : list string;
  kc_current : option string;
}.

(** [__init__] *)
Definition collector_init (p : plugin) (mutant_name : option string) : collector :=
  Collector p mutant_name [] [] [] None.

(** [_extra_payload] *)
Definition extra_payload (c : collector) : list (string * json) :=
  match kc_plugin c, kc_current c with
  | FirstKiller, Some test => [("killed_during", JStr test)]
  | _, _ => []
  end.

Definition texts (l : list string) : json := JArr (JStr <$> l).

Definition payload (mutant_name : string) (partial : bool) (c : collector) : json :=
  JObj ([("mutant_name", JStr mutant_name); ("killed_by", texts (kc_killed_by c));
         ("tests_selected", texts (kc_selected c)); ("tests_ran", texts (kc_ran c));
         ("partial", JBool partial)] ++ extra_payload c).

(** [write_temp_file]: the content of the file of the process, if it writes. *)
Definition write_temp_file (partial : bool) (c : collector) : option string :=
  match kc_mutant c with
  | None => None
  | Some mutant_name =>
      if negb partial && bool_decide (kc_killed_by c = []) && bool_decide (kc_selected c = []) then None
      else Some (dumps (payload mutant_name partial c))
  end.

(** What pytest tells the plugin. *)
Inductive event :=
  | Collected (tests : list string)                       (* [pytest_collection_modifyitems] *)
  | Called (test : string)                                (* [pytest_runtest_call] *)
  | Reported (test : string) (during_call failed : bool). (* [pytest_runtest_makereport] *)

Definition with_current (t : option string) (c : collector) : collector :=
  Collector (kc_plugin c) (kc_mutant c) (kc_killed_by c) (kc_selected c) (kc_ran c) t.

(** The process: the plugin and its file. *)
Definition child := (collector * option string)%type.

Definition flush_file (partial : bool) (s : child) : child :=
  (fst s, match write_temp_file partial (fst s) with Some f => Some f | None => snd s end).

(** [pytest_runtest_makereport] of the base class *)
Definition base_makereport (test : string) (during_call failed : bool) (s : child) : child :=
  let '(c, f) := s in
  if during_call then
    let killed_by := if failed then kc_killed_by c ++ [test] else kc_killed_by c in
    let c' := Collector (kc_plugin c) (kc_mutant c) killed_by (kc_selected c) (kc_ran c ++ [test]) (kc_current c) in
    if failed then flush_file false (c', f) else (c', f)
  else (c, f).

Definition collector_step (s : child) (e : event) : child :=
  match e with
  | Collected tests =>
      let '(c, f) := s in
      (Collector (kc_plugin c) (kc_mutant c) (kc_killed_by c) tests (kc_ran c) (kc_current c), f)
  | Called test =>
      match kc_plugin (fst s) with
      | FullMatrix => s
      | FirstKiller => (with_current (Some test) (fst s), snd s)
      end
  | Reported test during_call failed =>
      let s' := base_makereport test during_call failed s in
      match kc_plugin (fst s) with
      | FirstKiller => if during_call then (with_current None (fst s'), snd s') else s'
      | FullMatrix => s'
      end
  end.

Definition collect (es : list event) (s : child) : child := foldl collector_step s es.

(** How a child ends: pytest returned and [_patched_run_tests] writes once
    more, the handler of SIGXCPU flushed, or the process was killed outright. *)
Inductive ending := Finished | OutOfTime | Killed.

#[export] Instance ending_eq : EqDecision ending.
Proof. solve_decision. Defined.

Definition child_file (p : plugin) (mutant_name : option string) (es : list event) (e : ending) : option string :=
  let s := collect es (collector_init p mutant_name, None) in
  match e with
  | Finished => snd (flush_file false s)
  | OutOfTime => snd (flush_file true s)
  | Killed => snd s
  end.

(** [_patched_run_tests] of analyze_superfluity.py: the safety net tests run
    first, without the plugin; when they fail the other tests are not run. *)
Definition run_tests (gate_result : Z) (mutant_name : option string) (es : list event) (e : ending) : option string :=
  child_file FullMatrix mutant_name (if gate_result =? 0 then es else []) e.

(** ** KilledByAccumulator *)

Definition entry := list (string * json).

Record accumulator := Accumulator {
  ka_files : gmap Z string;     (* the directory, by process *)
  ka_data : pydict entry;       (* [_data] *)
}.

Definition or_empty_list (v : json) : json := if truthy v then v else JArr [].

(** [append] *)
Definition append (mutant_name : string) (killed_by selected ran partial : json) (killed_during : option json)
    (a : accumulator) : accumulator :=
  let e := [("killed_by", killed_by); ("tests_selected", or_empty_list selected);
            ("tests_ran", or_empty_list ran); ("partial", partial)] ++
           match killed_during with Some t => [("killed_during", t)] | None => [] end in
  Accumulator (ka_files a) (dict_set mutant_name e (ka_data a)).

(** [d.get(k, default_value)] *)
Definition json_get_or (k : string) (default_value : json) (fields : list (string * json)) : json :=
  default default_value (assoc_last k fields).

(** [register_result] up to the bookkeeping of mutmut: the file of the process
    is read and removed; a text that is no JSON is ignored, one that is no
    object raises. *)
Definition register_result (pid : Z) (key : string) (a : accumulator) : (exn + unit) * accumulator :=
  match ka_files a !! pid with
  | None => (inr tt, a)
  | Some text =>
      let unlinked a := Accumulator (delete pid (ka_files a)) (ka_data a) in
      match loads text with
      | None => (inr tt, unlinked a)
      | Some (JObj data) =>
          let killed_by := json_get_or "killed_by" (JArr []) data in
          let tests_selected := json_get_or "tests_selected" (JArr []) data in
          let tests_ran := json_get_or "tests_ran" (JArr []) data in
          let partial := json_get_or "partial" (JBool false) data in
          let killed_during := match json_get_or "killed_during" JNull data with JNull => None | t => Some t end in
          if truthy killed_by || truthy tests_selected then
            (inr tt, unlinked (append key killed_by tests_selected tests_ran partial killed_during a))
          else (inr tt, unlinked a)
      | Some _ => (inl (AttributeError "get"), unlinked a)
      end
  end.

(** ** What reaches the accumulator *)

(** The tests that failed in their call phase, and the tests selected last. *)
Definition failed_test (e : event) : option string :=
  match e with Reported test true true => Some test | _ => None end.
Definition failures (es : list event) : list string := omap failed_test es.
Definition selection (es : list event) : list string :=
  foldl (fun l e => match e with Collected tests => tests | _ => l end) [] es.

(** A file that holds the failures [ks], written for [name]. *)
Definition file_of (name : string) (ks : list string) (f : string) : Prop :=
  exists partial c, f = dumps (payload name partial c) /\ kc_killed_by c = ks.

Lemma write_some partial name c : kc_mutant c = Some name -> kc_killed_by c <> [] \/ partial = true \/ kc_selected c <> [] ->
  write_temp_file partial c = Some (dumps (payload name partial c)).
Proof.
  intros E H. unfold write_temp_file. rewrite E.
  destruct (bool_decide_reflect (kc_killed_by c = [])), (bool_decide_reflect (kc_selected c = [])), partial; cbn; naive_solver.
Qed.

Lemma collect_spec p name es (s := collect es (collector_init p (Some name), None)) :
  kc_mutant (fst s) = Some name /\ kc_killed_by (fst s) = failures es /\ kc_selected (fst s) = selection es /\
  match snd s with None => failures es = [] | Some f => failures es <> [] /\ file_of name (failures es) f end.
Proof.
  subst s. induction es as [|e es IH] using rev_ind; [done|].
  unfold collect, failures, selection in *. rewrite !foldl_app, omap_app.
  destruct (foldl collector_step _ es) as [c f]. destruct IH as (Hm & Hk & Hs & Hf). cbn [fst snd foldl] in *.
  destruct e as [tests|test|test [] []]; cbn; rewrite ?app_nil_r; destruct (kc_plugin c); try (split_and!; [done..|exact Hf]); cbn.
  all: rewrite (write_some false name) by (cbn; auto; left; by destruct (kc_killed_by c)); rewrite Hk.
  all: split_and!; [done..|by destruct (omap _ _)|]; eexists _, _; (split; [reflexivity|by cbn]).
Qed.

Lemma jwf_texts l : forallb jwf (JStr <$> l) = true.
Proof. by induction l. Qed.

Lemma jwf_payload name partial c : jwf (payload name partial c) = true.
Proof.
  unfold payload. cbn. rewrite !jwf_texts. cbn. unfold extra_payload. by destruct (kc_plugin c), (kc_current c).
Qed.

Lemma truthy_texts l : truthy (texts l) = negb (bool_decide (l = [])).
Proof. by destruct l. Qed.

Lemma or_empty_texts l : or_empty_list (texts l) = texts l.
Proof. by destruct l. Qed.

(** The entry of a child that wrote its file in the state [c]. *)
Definition entry_of (partial : bool) (c : collector) : entry :=
  [("killed_by", texts (kc_killed_by c)); ("tests_selected", texts (kc_selected c));
   ("tests_ran", texts (kc_ran c)); ("partial", JBool partial)] ++ extra_payload c.

Lemma register_payload pid key name partial c a :
  ka_files a !! pid = Some (dumps (payload name partial c)) ->
  register_result pid key a =
    (inr tt, Accumulator (delete pid (ka_files a))
       (if bool_decide (kc_killed_by c = []) && bool_decide (kc_selected c = []) then ka_data a
        else dict_set key (entry_of partial c) (ka_data a))).
Proof.
  intros E. unfold register_result. rewrite E, (loads_dumps _ (jwf_payload name partial c)).
  unfold payload, json_get_or, append, entry_of. destruct a as [fs d].
  assert (X : extra_payload c = [] \/ exists t, extra_payload c = [("killed_during", JStr t)]).
  { unfold extra_payload. destruct (kc_plugin c), (kc_current c); eauto. }
  destruct X as [->|[t ->]]; cbn [app assoc_last String.eqb]; cbn -[truthy or_empty_list texts];
    rewrite !truthy_texts, !or_empty_texts; by destruct (bool_decide _), (bool_decide _).
Qed.

Lemma child_file_spec p name es e :
  match child_file p (Some name) es e with
  | None => failures es = [] /\ (selection es = [] \/ e = Killed)
  | Some f => exists partial c, f = dumps (payload name partial c) /\ kc_killed_by c = failures es /\
      (e <> Killed -> kc_selected c = selection es /\ partial = bool_decide (e = OutOfTime)) /\
      (e = Killed -> failures es <> [])
  end.
Proof.
  unfold child_file. destruct (collect_spec p name es) as (Hm & Hk & Hs & Hf).
  destruct (collect es (collector_init p (Some name), None)) as [c f]. cbn [fst snd] in *. destruct e; cbn [flush_file fst snd].
  - unfold write_temp_file. rewrite Hm, Hk, Hs. destruct (bool_decide_reflect (failures es = [])) as [E1|E1]; cbn;
      [destruct (bool_decide_reflect (selection es = [])) as [E2|E2]; cbn|].
    + destruct f; [by destruct Hf|]. auto.
    + exists false, c. by split_and!.
    + exists false, c. by split_and!.
  - rewrite (write_some true name) by auto. exists true, c. by split_and!.
  - destruct f as [f|]; [|auto]. destruct Hf as [Hne (b & c' & -> & Hc)]. exists b, c'. by split_and!.
Qed.

Lemma entry_fields partial c :
  json_get_or "killed_by" JNull (entry_of partial c) = texts (kc_killed_by c) /\
  json_get_or "tests_selected" JNull (entry_of partial c) = texts (kc_selected c) /\
  json_get_or "partial" JNull (entry_of partial c) = JBool partial.
Proof. unfold entry_of, extra_payload, json_get_or. by destruct (kc_plugin c), (kc_current c). Qed.

(** C37. What a child observes is what its parent records.  Whatever events
    pytest reports and however the child ends: when its result is registered,
    the file is gone and the entry of the mutant names the tests that failed
    while they were called, in order, and the tests selected; a child that was
    killed outright leaves the failures it had seen; a child without failures,
    and without a selection or without a last write, leaves no entry and no
    file. *)
Theorem kills_recorded (p : plugin) (name : string) (es : list event) (e : ending) (pid : Z) (key : string)
    (a : accumulator) :
  ka_files a !! pid = None ->
  let a0 := match child_file p (Some name) es e with
            | Some f => Accumulator (<[pid := f]> (ka_files a)) (ka_data a)
            | None => a
            end in
  let a1 := snd (register_result pid key a0) in
  fst (register_result pid key a0) = inr tt /\ ka_files a1 = ka_files a /\
  ((failures es = [] /\ (selection es = [] \/ e = Killed) /\ ka_data a1 = ka_data a) \/
   ((failures es <> [] \/ selection es <> []) /\ exists en, ka_data a1 = dict_set key en (ka_data a) /\
      json_get_or "killed_by" JNull en = texts (failures es) /\
      (e <> Killed -> json_get_or "tests_selected" JNull en = texts (selection es) /\
                      json_get_or "partial" JNull en = JBool (bool_decide (e = OutOfTime))))).
Proof.
  intros Hp. cbn zeta. pose proof (child_file_spec p name es e) as Hc. destruct (child_file p (Some name) es e) as [f|].
  - destruct Hc as (b & c & -> & Hk & Hs & Hne).
    rewrite (register_payload pid key name b c) by (cbn; by rewrite lookup_insert_eq). cbn [ka_files ka_data fst snd].
    split; [done|]. split; [by rewrite delete_insert_id|]. rewrite Hk.
    destruct (bool_decide_reflect (failures es = [])) as [E1|E1]; cbn [andb].
    + assert (He : e <> Killed) by (intros ->; by destruct (Hne eq_refl)). destruct (Hs He) as [Hsel ->]. rewrite Hsel.
      destruct (decide (selection es = [])) as [E2|E2].
      { left. rewrite bool_decide_eq_true_2 by done. auto. }
      rewrite bool_decide_eq_false_2 by done. right. split; [auto|].
      exists (entry_of (bool_decide (e = OutOfTime)) c). split; [done|].
      destruct (entry_fields (bool_decide (e = OutOfTime)) c) as (-> & -> & ->). by rewrite Hk, Hsel, E1.
    + right. split; [auto|]. exists (entry_of b c). split; [done|].
      destruct (entry_fields b c) as (-> & -> & ->). split; [by rewrite Hk|]. intros He. destruct (Hs He) as [-> ->]. done.
  - unfold register_result. rewrite Hp. cbn [fst snd]. split; [done|]. split; [done|]. left. naive_solver.
Qed.

(** A child finds a failure and runs out of time. *)
Definition demo_events : list event :=
  [Collected ["t1"; "t2"; "t3"]; Called "t1"; Reported "t1" true false; Called "t2"; Reported "t2" false false;
   Reported "t2" true true; Called "t3"].

Lemma kills_recorded_witness :
  let f := child_file FirstKiller (Some "m") demo_events OutOfTime in
  fst (register_result 7 "m" (Accumulator (<[7 := default estr f]> ∅) [])) = inr tt.
Proof.
  exact (proj1 (kills_recorded FirstKiller "m" demo_events OutOfTime 7 "m" (Accumulator ∅ []) eq_refl)).
Defined.
