(* ===== verification/Regex.v ===== *)
(** * Regex: the regular expressions of the tooling (Python's re)

    A backtracking matcher for the patterns the scripts use: alternatives in
    order, greedy repetition, word boundaries, the start of the text and one
    group.  It is proved sound and complete for the usual relation of matches,
    so a search fails only where nothing matches.  Texts are sequences of code
    points below 256, with Python's character classes on them; strings'
    methods on the same classes are here as well. *)

From S2P Require Import Prelude Float Text.

Open Scope Z_scope.

(** ** Character classes *)

Definition code (c : ascii) : Z := Z.of_N (N_of_ascii c).
Definition between (lo hi n : Z) : bool := (lo <=? n) && (n <=? hi).

(** [\s], and [str.isspace] *)
Definition is_space (c : ascii) : bool :=
  between 9 13 (code c) || between 28 32 (code c) || (code c =? 133) || (code c =? 160).
(** [\d] *)
Definition is_digit (c : ascii) : bool := between 48 57 (code c).
(** [\w]: alphanumeric, numeric or an underscore *)
Definition is_word (c : ascii) : bool :=
  let n := code c in
  is_digit c || between 65 90 n || between 97 122 n || (n =? 95) ||
  (n =? 170) || (n =? 178) || (n =? 179) || (n =? 181) || between 185 186 n || between 188 190 n ||
  (between 192 255 n && negb (n =? 215) && negb (n =? 247)).

Definition newline : ascii := ascii_of_nat 10.
Definition quote_char : ascii := ascii_of_nat 34.
Definition backslash : ascii := ascii_of_nat 92.

(** ** Patterns *)

Inductive re :=
  | Class (p : ascii -> bool)       (* one character *)
  | Bound                           (* \b *)
  | Start                           (* ^ *)
  | Seq (a b : re)
  | Alt (a b : re)
  | Star (a : re)                   (* greedy *)
  | Nothing                         (* the empty pattern *)
  | Group (a : re).                 (* (...) *)

Definition Lit (c : ascii) : re := Class (Ascii.eqb c).
Fixpoint Word (s : string) : re :=
  match s with EmptyString => Nothing | String c s' => Seq (Lit c) (Word s') end.
Definition Plus (a : re) : re := Seq a (Star a).
Definition Opt (a : re) : re := Alt a Nothing.
(** [.] *)
Definition Any : re := Class (fun c => negb (Ascii.eqb c newline)).
Definition OneOf (s : string) : re := Class (fun c => match String.index 0 (String c EmptyString) s with Some _ => true | None => false end).
Fixpoint Words (ws : list string) : re :=
  match ws with [] => Class (fun _ => false) | [w] => Word w | w :: ws' => Alt (Word w) (Words ws') end.

(** Where a match stands: the position, the character before it, what is
    left, and the bounds of the group. *)
Record point := Point { pt_pos : nat; pt_prev : option ascii; pt_rest : string; pt_group : option (nat * nat) }.

Definition word_before (x : point) : bool := match pt_prev x with Some c => is_word c | None => false end.
Definition word_after (x : point) : bool := match pt_rest x with String c _ => is_word c | EmptyString => false end.
Definition left_at (x : point) : nat := String.length (pt_rest x).
Definition set_group (from : nat) (y : point) : point := Point (pt_pos y) (pt_prev y) (pt_rest y) (Some (from, pt_pos y)).

(** A greedy repetition, tried at most [n] times, each of which consumes. *)
Section Repeat.
Context {A : Type} (step : (point -> option A) -> point -> option A) (k : point -> option A).

Fixpoint star_loop (n : nat) (x : point) : option A :=
  match n with
  | O => k x
  | S n' =>
      match step (fun y => if (left_at y <? left_at x)%nat then star_loop n' y else None) x with
      | Some v => Some v
      | None => k x
      end
  end.
End Repeat.

(** Matching with a continuation; a repetition is tried as often as there are
    characters left, which is enough since it must consume. *)
Fixpoint re_match {A} (r : re) (k : point -> option A) (x : point) {struct r} : option A :=
  match r with
  | Class p =>
      match pt_rest x with
      | String c s => if p c then k (Point (S (pt_pos x)) (Some c) s (pt_group x)) else None
      | EmptyString => None
      end
  | Bound => if xorb (word_before x) (word_after x) then k x else None
  | Start => if (pt_pos x =? 0)%nat then k x else None
  | Seq a b => re_match a (re_match b k) x
  | Alt a b => match re_match a k x with Some v => Some v | None => re_match b k x end
  | Star a => star_loop (re_match a) k (left_at x) x
  | Nothing => k x
  | Group a => re_match a (fun y => k (set_group (pt_pos x) y)) x
  end.

(** [re.match] at a point *)
Definition match_at (r : re) (x : point) : option point := re_match r Some x.

Definition next_point (x : point) : point :=
  match pt_rest x with
  | String c s => Point (S (pt_pos x)) (Some c) s None
  | EmptyString => x
  end.

(** The first match from a point on: its start and its end. *)
Fixpoint search_from (n : nat) (r : re) (x : point) : option (point * point) :=
  match match_at r x with
  | Some y => Some (x, y)
  | None => match n with O => None | S n' => search_from n' r (next_point x) end
  end.

Definition start_of (s : string) : point := Point 0 None s None.
(** [re.search] *)
Definition search (r : re) (s : string) : option (point * point) := search_from (String.length s) r (start_of s).
Definition found (r : re) (s : string) : bool := match search r s with Some _ => true | None => false end.

(** [re.finditer], for a pattern that matches no empty text *)
Fixpoint find_from (n : nat) (r : re) (x : point) : list (point * point) :=
  match n with
  | O => []
  | S n' =>
      match search_from (left_at x) r x with
      | Some (a, b) => (a, b) :: find_from n' r (Point (pt_pos b) (pt_prev b) (pt_rest b) None)
      | None => []
      end
  end.
Definition find_iter (r : re) (s : string) : list (point * point) := find_from (S (String.length s)) r (start_of s).

(** [s[i:j]] *)
Definition substring (i j : nat) (s : string) : string := string_take (j - i) (string_drop i s).
Definition group_of (s : string) (y : point) : string :=
  match pt_group y with Some (i, j) => substring i j s | None => EmptyString end.

(** ** What matches *)

Inductive matches : re -> point -> point -> Prop :=
  | m_class p x c s : pt_rest x = String c s -> p c = true -> matches (Class p) x (Point (S (pt_pos x)) (Some c) s (pt_group x))
  | m_bound x : xorb (word_before x) (word_after x) = true -> matches Bound x x
  | m_start x : pt_pos x = O -> matches Start x x
  | m_seq a b x y z : matches a x y -> matches b y z -> matches (Seq a b) x z
  | m_left a b x y : matches a x y -> matches (Alt a b) x y
  | m_right a b x y : matches b x y -> matches (Alt a b) x y
  | m_done a x : matches (Star a) x x
  | m_more a x y z : matches a x y -> (left_at y < left_at x)%nat -> matches (Star a) y z -> matches (Star a) x z
  | m_nothing x : matches Nothing x x
  | m_group a x y : matches a x y -> matches (Group a) x (set_group (pt_pos x) y).
#[export] Hint Constructors matches : rl.

(** A result comes from a match. *)
Lemma re_match_sound {A} r (k : point -> option A) x v : re_match r k x = Some v -> exists y, matches r x y /\ k y = Some v.
Proof.
  revert k x v. induction r as [p| | |a IHa b IHb|a IHa b IHb|a IHa| |a IHa]; intros k x v.
  - cbn. destruct (pt_rest x) as [|c s] eqn:E; [done|]. destruct (p c) eqn:Ep; [|done]. intros H. eexists. eauto with rl.
  - cbn. destruct (xorb _ _) eqn:E; [|done]. eauto with rl.
  - cbn. destruct (Nat.eqb_spec (pt_pos x) 0); [|done]. eauto with rl.
  - cbn. intros (y & Hy & (z & Hz & Hk)%IHb)%IHa. eauto with rl.
  - cbn. destruct (re_match a k x) as [w|] eqn:E.
    + intros [= ->]. apply IHa in E as (y & Hy & Hk). eauto with rl.
    + intros (y & Hy & Hk)%IHb. eauto with rl.
  - cbn [re_match]. generalize (left_at x) as n. intros n. revert x v. induction n as [|n IHn]; intros x v; cbn [star_loop]; [eauto with rl|].
    destruct (re_match a _ x) as [w|] eqn:E; [|eauto with rl]. intros [= ->].
    apply IHa in E as (y & Hy & Hk). revert Hk.
    destruct (Nat.ltb_spec (left_at y) (left_at x)); [intros Hk|done].
    apply IHn in Hk as (z & Hz & Hk). eauto with rl.
  - cbn. eauto with rl.
  - cbn. intros (y & Hy & Hk)%IHa. eauto with rl.
Qed.

(** A match that the continuation accepts gives a result. *)
Lemma re_match_complete_star {A} r (k : point -> option A) x y :
  matches r x y -> k y <> None ->
  re_match r k x <> None /\ forall a n, r = Star a -> (left_at x <= n)%nat -> star_loop (re_match a) k n x <> None.
Proof.
  intros Hm. revert k. induction Hm as [p x c s E Ep|x Hb|x Hp|a b x y z _ IHa _ IHb|a b x y _ IH|a b x y _ IH|a x|
    a x y z _ IHa Hlt Hz IHz|x|a x y _ IH]; intros k Hk.
  - cbn. by rewrite E, Ep.
  - cbn. by rewrite Hb.
  - cbn. by rewrite Hp.
  - split; [|done]. cbn. apply IHa. by apply IHb.
  - split; [|done]. cbn. destruct (IH k Hk) as [H _]. by destruct (re_match a k x).
  - split; [|done]. cbn. destruct (IH k Hk) as [H _]. by destruct (re_match a k x).
  - assert (H : forall n, star_loop (re_match a) k n x <> None).
    { intros n. destruct n; cbn; [done|]. by destruct (re_match a _ x). }
    split; [apply H|]. by intros a' n [= <-] _.
  - assert (H : forall n, (left_at x <= n)%nat -> star_loop (re_match a) k n x <> None).
    { intros n Hn. destruct n as [|n]; [lia|]. cbn [star_loop].
      destruct (IHa (fun y' => if (left_at y' <? left_at x)%nat then star_loop (re_match a) k n y' else None)) as [H _].
      - rewrite (proj2 (Nat.ltb_lt _ _)) by lia. apply (IHz k Hk); [done|lia].
      - by destruct (re_match a _ x). }
    split; [by apply H|]. by intros a' n [= <-] Hn; apply H.
  - done.
  - split; [|done]. cbn. by apply IH.
Qed.

Lemma match_at_iff r x : match_at r x <> None <-> exists y, matches r x y.
Proof.
  unfold match_at. split.
  - destruct (re_match r Some x) as [v|] eqn:E; [|done]. intros _. apply re_match_sound in E as (y & Hy & _). by exists y.
  - intros (y & Hy). by apply (re_match_complete_star r Some x y Hy).
Qed.

(** ** Searching *)

(** The point [n] characters further on. *)
Fixpoint further (n : nat) (x : point) : point := match n with O => x | S n' => further n' (next_point x) end.

Lemma search_from_some n r x a b :
  search_from n r x = Some (a, b) -> matches r a b /\ exists i, (i <= n)%nat /\ a = further i x /\
    forall j, (j < i)%nat -> forall y, ~ matches r (further j x) y.
Proof.
  revert x. induction n as [|n IH]; intros x; cbn; destruct (match_at r x) as [y|] eqn:E.
  1, 3: intros [= <- <-]; split;
    [apply re_match_sound in E as (y' & Hy & [= <-]); done|exists O; split_and!; [lia|done|intros j Hj; lia]].
  1: done.
  intros (Hm & i & Hi & -> & Hj)%IH. split; [done|]. exists (S i). split_and!; [lia|done|].
  intros [|j] Hlt y Hy; [|by apply (Hj j ltac:(lia) y)].
  assert (Hn : match_at r x <> None) by (apply match_at_iff; by exists y). done.
Qed.

Lemma search_from_none n r x : search_from n r x = None <-> forall i, (i <= n)%nat -> forall y, ~ matches r (further i x) y.
Proof.
  revert x. induction n as [|n IH]; intros x; cbn; destruct (match_at r x) as [y|] eqn:E.
  1, 3: split; [done|]; intros H; exfalso; apply re_match_sound in E as (y' & Hy & _); by apply (H O ltac:(lia) y').
  - split; [|done]. intros _ i Hi y Hy. assert (i = O) as -> by lia.
    assert (Hn : match_at r x <> None) by (apply match_at_iff; by exists y). done.
  - rewrite IH. split.
    + intros H [|i] Hi y Hy; [|by apply (H i ltac:(lia) y)].
      assert (Hn : match_at r x <> None) by (apply match_at_iff; by exists y). done.
    + intros H i Hi y Hy. by apply (H (S i) ltac:(lia) y).
Qed.

(** [re.search] finds the leftmost match, and none exactly when the
    pattern matches nowhere in the text. *)
Theorem search_leftmost (r : re) (s : string) :
  match search r s with
  | Some (a, b) =>
      matches r a b /\ exists i, (i <= String.length s)%nat /\ a = further i (start_of s) /\
        forall j, (j < i)%nat -> forall y, ~ matches r (further j (start_of s)) y
  | None => forall i, (i <= String.length s)%nat -> forall y, ~ matches r (further i (start_of s)) y
  end.
Proof.
  unfold search. destruct (search_from (String.length s) r (start_of s)) as [[a b]|] eqn:E.
  - by apply search_from_some in E.
  - by apply (proj1 (search_from_none _ _ _) E).
Qed.

(** Whether a pattern is found, from a match or from their absence. *)
Lemma found_iff r s : found r s = true <-> exists i y, (i <= String.length s)%nat /\ matches r (further i (start_of s)) y.
Proof.
  unfold found, search. destruct (search_from (String.length s) r (start_of s)) as [[a b]|] eqn:E.
  - apply search_from_some in E as (Hm & i & Hi & -> & _). split; [intros _; by exists i, b|done].
  - rewrite search_from_none in E. split; [done|]. intros (i & y & Hi & Hm). exfalso. by apply (E i Hi y).
Qed.
