(* ===== verification/Mirrors.v ===== *)
(** * Mirrors: names of mutants and their synchronous and asynchronous twins (scripts/classify_mutants.py)

    Mutants carry mangled names; [_shorten_name] makes them readable and
    [_normalize_for_mirror] forgets whether a class is the synchronous or the
    asynchronous one.  [_find_mirrors] groups the mutants of one kind whose
    names then agree and that come from different modules; the text report
    lists each score's mutants as groups followed by the rest.  Names are
    byte strings in UTF-8. *)

From Stdlib Require Import Sorted.
From S2P Require Import Prelude Float Text Json Py Base Distributed Importing Kills.

Open Scope Z_scope.
Open Scope rl_scope.

(** ** Strings *)

(** [s.split(sep)] of a non-empty separator; [skip] characters of a separator
    are still to be passed over. *)
Fixpoint split_on (sep : string) (skip : nat) (s : string) : list string :=
  match s with
  | EmptyString => [estr]
  | String c s' =>
      match skip with
      | S k => split_on sep k s'
      | O =>
          if String.prefix sep s then estr :: split_on sep (String.length sep - 1) s'
          else match split_on sep 0 s' with
               | p :: ps => String c p :: ps
               | [] => [String c estr]
               end
      end
  end.

(** [s.replace(old, new)] *)
Definition replace (old new s : string) : string := String.concat new (split_on old 0 s).

(** [s.split(".", 1)] *)
Fixpoint split_dot (s : string) : option (string * string) :=
  match s with
  | EmptyString => None
  | String c s' =>
      if Ascii.eqb c dot_char then Some (estr, s')
      else match split_dot s' with Some (a, b) => Some (String c a, b) | None => None end
  end.

(** [s[len(prefix):]] where [s.startswith(prefix)] *)
Definition after (prefix s : string) : option string :=
  if String.prefix prefix s then Some (string_drop (String.length prefix) s) else None.

(** [s.rsplit(".", 1)[-1]] *)
Definition last_dotted (s : string) : string := match rsplit s with Some (_, b) => b | None => s end.

(** The separator U+01C1 of mangled names. *)
Definition mangled_bar : string := String (ascii_of_nat 199) (String (ascii_of_nat 129) estr).
Definition placeholder : string := "." +:+ String (ascii_of_nat 1) estr.

(** [_shorten_name] *)
Definition shorten_name (mutation_id : string) : string :=
  let name :=
    match after "redis_rate_limiter." mutation_id, after "celery_rate_limiter." mutation_id with
    | Some n, _ => n
    | None, Some n => n
    | None, None => mutation_id
    end in
  let name := replace (".x" +:+ mangled_bar) placeholder name in
  let name :=
    match split_on placeholder 0 name with
    | [module_path; rest] => last_dotted module_path +:+ "." +:+ rest
    | _ => last_dotted name
    end in
  replace mangled_bar "." name.

(** [_normalize_for_mirror] *)
Definition normalize_for_mirror (short_name : string) : string :=
  let rest := match split_dot short_name with Some (_, b) => b | None => short_name end in
  match after "AbstractAsync" rest, after "Abstract" rest, after "Async" rest with
  | Some r, _, _ => r
  | None, Some r, _ => r
  | None, None, Some r => r
  | None, None, None => rest
  end.

(** ** Classified mutants *)

(** [ClassifiedMutation], with the fields of its diff that the report uses. *)
Record classified := Classified {
  cm_name : string;
  cm_status : string;
  cm_body : string;
  cm_score : Z;
  cm_type : string;
  cm_description : string;
  cm_short_name : string;
}.

Record mirror_group := MirrorGroup { mg_key : string; mg_members : list classified }.

Definition bar : string := "|".
Definition group_key (m : classified) : string :=
  normalize_for_mirror (cm_short_name m) +:+ bar +:+ print_Z (cm_score m) +:+ bar +:+ cm_type m.
Definition module_of (m : classified) : string :=
  match split_dot (cm_short_name m) with Some (a, _) => a | None => cm_short_name m end.

(** The groups under construction: [by_key.setdefault(key, []).append(m)]. *)
Definition by_key (ms : list classified) : pydict (list classified) :=
  foldl (fun d m => dict_alter (fun o => default [] o ++ [m]) (group_key m) d) [] ms.

Definition mirrored_group (members : list classified) : bool :=
  bool_decide (2 <= length members)%nat &&
  bool_decide (2 <= size (list_to_set (module_of <$> members) : gset string))%nat.

(** [_find_mirrors] *)
Definition find_mirrors (ms : list classified) : list mirror_group * gset string :=
  let groups := (fun kv => MirrorGroup (fst kv) (snd kv)) <$> List.filter (fun kv => mirrored_group (snd kv)) (by_key ms) in
  (groups, list_to_set (mjoin ((fun g => cm_name <$> mg_members g) <$> groups))).

(** ** The sections of the text report *)

(** [l.sort(key=...)] is stable. *)
Section Sort.
Context {A : Type} (le : A -> A -> bool).

Fixpoint insert_le (x : A) (l : list A) : list A :=
  match l with
  | [] => [x]
  | y :: l' => if le x y then x :: l else y :: insert_le x l'
  end.
Definition sort_le (l : list A) : list A := foldr insert_le [] l.

Lemma insert_le_perm x l : insert_le x l ≡ₚ x :: l.
Proof. induction l as [|y l IH]; cbn; [done|]. destruct (le x y); [done|]. rewrite IH. apply Permutation_swap. Qed.

Lemma sort_le_perm l : sort_le l ≡ₚ l.
Proof. induction l as [|x l IH]; cbn; [done|]. by rewrite insert_le_perm, IH. Qed.

Lemma sort_le_sorted l :
  (forall a b, le a b = false -> le b a = true) -> (forall a b c, le a b = true -> le b c = true -> le a c = true) ->
  StronglySorted (fun a b => le a b = true) (sort_le l).
Proof.
  intros Htot Htr. induction l as [|x l IH]; cbn; [constructor|]. fold (sort_le l). clear -IH Htot Htr.
  induction IH as [|y l' Hl' IHl Hy]; cbn; [repeat constructor|]. destruct (le x y) eqn:E.
  - constructor; [by constructor|]. constructor; [done|]. eapply Forall_impl; [exact Hy|]. intros z Hz. by eapply Htr.
  - constructor; [done|]. rewrite insert_le_perm. constructor; [by apply Htot|done].
Qed.
End Sort.

(** The key [(-score, short_name)]. *)
Definition ranks_before (a b : classified) : bool :=
  (cm_score b <? cm_score a) || ((cm_score a =? cm_score b) && negb (String.ltb (cm_short_name b) (cm_short_name a))).

Record section := ScoreSection {
  se_score : Z;
  se_count : nat;                    (* the count in its header *)
  se_groups : list mirror_group;
  se_rest : list classified;
}.

(** The section of one score, when there is one. *)
Definition score_section (cs : list classified) (score : Z) : option section :=
  match filter (fun m => cm_score m = score) cs with
  | [] => None
  | (_ :: _) as score_mutations =>
      let '(mirrors, mirrored_names) := find_mirrors cs in
      let groups := List.filter (fun g => match mg_members g with m :: _ => cm_score m =? score | [] => false end) mirrors in
      let non_mirrored := filter (fun m => cm_name m ∉ mirrored_names) score_mutations in
      Some (ScoreSection score (length non_mirrored + sum_list (length ∘ mg_members <$> groups)) groups non_mirrored)
  end.

Definition score_sections (classified_mutants : list classified) : list section :=
  omap (score_section (sort_le ranks_before classified_mutants)) [3; 2; 1; 0].

(** The mutants a section lists, in its order. *)
Definition listed (s : section) : list classified := mjoin (mg_members <$> se_groups s) ++ se_rest s.

(** ** Group keys *)

Definition bar_char : ascii := "|".
Fixpoint barless (s : string) : bool :=
  match s with EmptyString => true | String c s' => negb (Ascii.eqb c bar_char) && barless s' end.

Lemma barless_app s t : barless (s +:+ t) = barless s && barless t.
Proof. induction s as [|c s IH]; cbn; [done|]. rewrite str_app_cons. cbn. by rewrite IH, andb_assoc. Qed.

Lemma barless_print_pad k n acc : barless acc = true -> barless (print_pad k n acc) = true.
Proof.
  revert n acc. induction k as [|k IH]; intros n acc Ha; cbn; [done|]. apply IH. cbn. rewrite Ha, andb_true_r.
  pose proof (mod10 n) as Hm. unfold digit.
  assert (H : (n `mod` 10) ∈ [0; 1; 2; 3; 4; 5; 6; 7; 8; 9]) by (rewrite !elem_of_cons; lia).
  repeat (apply elem_of_cons in H as [->|H]; [done|]). by apply elem_of_nil in H.
Qed.

Lemma barless_print_Z n : barless (print_Z n) = true.
Proof.
  unfold print_Z, print_nat. destruct (n <? 0); [|by apply barless_print_pad]. cbn. by apply barless_print_pad.
Qed.

(** The part after the last bar. *)
Lemma last_bar s s' t t' :
  barless t = true -> barless t' = true -> s +:+ bar +:+ t = s' +:+ bar +:+ t' -> s = s' /\ t = t'.
Proof.
  intros Ht Ht'. revert s'. induction s as [|c s IH]; intros [|c' s'] E.
  - split; [done|]. by injection E.
  - exfalso. change (bar +:+ t = String c' (s' +:+ bar +:+ t')) in E. change (bar +:+ t) with (String bar_char t) in E.
    injection E. intros ->. rewrite !barless_app in Ht. cbn in Ht. rewrite andb_false_r in Ht. done.
  - exfalso. change (String c (s +:+ bar +:+ t) = bar +:+ t') in E. change (bar +:+ t') with (String bar_char t') in E.
    injection E. intros <-. rewrite !barless_app in Ht'. cbn in Ht'. rewrite andb_false_r in Ht'. done.
  - rewrite !str_app_cons in E. injection E as -> E. by apply IH in E as [-> ->].
Qed.

Lemma group_key_inj m m' :
  barless (cm_type m) = true -> barless (cm_type m') = true -> group_key m = group_key m' <->
  normalize_for_mirror (cm_short_name m) = normalize_for_mirror (cm_short_name m') /\ cm_score m = cm_score m' /\
  cm_type m = cm_type m'.
Proof.
  intros Hm Hm'. unfold group_key. split; [|by intros (-> & -> & ->)]. intros E.
  assert (Hassoc : forall a b c, a +:+ bar +:+ b +:+ bar +:+ c = (a +:+ bar +:+ b) +:+ bar +:+ c).
  { intros a b c. by rewrite <- !str_app_assoc. }
  rewrite !Hassoc in E. apply last_bar in E as [E ->]; [|done..].
  apply last_bar in E as [-> E]; [|apply barless_print_Z..]. split_and!; [done| |done].
  pose proof (read_print_Z (cm_score m)) as R. rewrite E, read_print_Z in R. congruence.
Qed.

(** ** The groups *)

(** The mutants with a key. *)
Definition with_key (k : string) (ms : list classified) : list classified := filter (fun m => group_key m = k) ms.

Lemma by_key_find ms k : dict_find k (by_key ms) = match with_key k ms with [] => None | l => Some l end.
Proof.
  unfold by_key, with_key. induction ms as [|m ms IH] using rev_ind; [done|]. rewrite foldl_snoc, filter_app.
  destruct (decide (group_key m = k)) as [<-|Hne].
  - rewrite dict_find_alter, IH, filter_cons_True, filter_nil by done.
    by destruct (filter _ ms) as [|m' l].
  - rewrite dict_find_alter_ne by congruence. rewrite IH, filter_cons_False, filter_nil by done. by rewrite app_nil_r.
Qed.

Lemma by_key_nodup ms : NoDup (fst <$> by_key ms).
Proof. unfold by_key. induction ms as [|m ms IH] using rev_ind; [constructor|]. rewrite foldl_snoc. by apply dict_nodup_alter. Qed.

Lemma by_key_eq ms : by_key ms = (fun k => (k, with_key k ms)) <$> (fst <$> by_key ms).
Proof.
  rewrite <- list_fmap_compose. rewrite <- (list_fmap_id (by_key ms)) at 1. apply list_fmap_ext. intros i [k l] Hi. cbn.
  f_equal. assert (Hf : dict_find k (by_key ms) = Some l).
  { apply dict_find_elem; [apply by_key_nodup|]. by eapply list_elem_of_lookup_2. }
  rewrite by_key_find in Hf. destruct (with_key k ms); congruence.
Qed.

(** The keys of the groups. *)
Definition mirror_keys (ms : list classified) : list string :=
  List.filter (fun k => mirrored_group (with_key k ms)) (fst <$> by_key ms).

Lemma filter_fmap {A B} (f : A -> B) (P : B -> bool) l : List.filter P (f <$> l) = f <$> List.filter (P ∘ f) l.
Proof. induction l as [|x l IH]; cbn; [done|]. rewrite IH. unfold compose. by destruct (P (f x)). Qed.

Lemma find_mirrors_groups ms :
  fst (find_mirrors ms) = (fun k => MirrorGroup k (with_key k ms)) <$> mirror_keys ms.
Proof. unfold find_mirrors. cbn [fst]. rewrite by_key_eq, filter_fmap, <- list_fmap_compose. done. Qed.

Lemma mirror_keys_nodup ms : NoDup (mirror_keys ms).
Proof. apply NoDup_ListNoDup, List.NoDup_filter, NoDup_ListNoDup, by_key_nodup. Qed.

Lemma elem_of_mirror_keys ms k : k ∈ mirror_keys ms <-> mirrored_group (with_key k ms) = true.
Proof.
  unfold mirror_keys. rewrite list_elem_of_In, List.filter_In, <- list_elem_of_In. split; [naive_solver|]. intros H. split; [|done].
  destruct (decide (k ∈ fst <$> by_key ms)) as [|Hn]; [done|]. apply dict_find_none in Hn. rewrite by_key_find in Hn.
  by destruct (with_key k ms).
Qed.

(** A group has two members of different modules. *)
Lemma mirrored_iff l : mirrored_group l = true <-> exists a b, a ∈ l /\ b ∈ l /\ module_of a <> module_of b.
Proof.
  unfold mirrored_group. rewrite andb_true_iff, !bool_decide_eq_true. split.
  - intros [_ Hs]. destruct l as [|a l]; [cbn in Hs; rewrite size_empty in Hs; lia|].
    destruct (decide (Forall (fun b => module_of b = module_of a) l)) as [Hf|Hf].
    + exfalso. assert (list_to_set (module_of <$> a :: l) ⊆ ({[module_of a]} : gset string)) as Hsub.
      { intros x. rewrite elem_of_list_to_set, list_elem_of_fmap, elem_of_singleton. intros (b & -> & Hb).
        apply elem_of_cons in Hb as [->|Hb]; [done|]. rewrite Forall_forall in Hf. by apply Hf. }
      apply subseteq_size in Hsub. rewrite size_singleton in Hsub. lia.
    + apply not_Forall_Exists in Hf; [|intros x; apply _]. apply Exists_exists in Hf as (b & Hb & Hne).
      exists a, b. split; [by left|]. split; [by right|]. cbn in Hne. congruence.
  - intros (a & b & Ha & Hb & Hne). split.
    + destruct l as [|x [|y l]]; [by apply elem_of_nil in Ha| |cbn; lia].
      apply list_elem_of_singleton in Ha, Hb. congruence.
    + assert (({[module_of a; module_of b]} : gset string) ⊆ list_to_set (module_of <$> l)) as Hsub by set_solver.
      apply subseteq_size in Hsub. rewrite size_union, !size_singleton in Hsub by set_solver. lia.
Qed.

Lemma nodup_key {A B} (f : A -> B) l x y : NoDup (f <$> l) -> x ∈ l -> y ∈ l -> f x = f y -> x = y.
Proof.
  induction l as [|z l IH]; cbn; intros Hn Hx Hy E; [by apply elem_of_nil in Hx|]. apply NoDup_cons in Hn as [Hz Hn].
  apply elem_of_cons in Hx as [->|Hx], Hy as [->|Hy]; [done| | |by apply IH].
  - destruct Hz. rewrite E. by apply list_elem_of_fmap_2.
  - destruct Hz. rewrite <- E. by apply list_elem_of_fmap_2.
Qed.

Lemma filter_iff_in {A} (P Q : A -> Prop) `{!forall x, Decision (P x)} `{!forall x, Decision (Q x)} (l : list A) :
  (forall x, x ∈ l -> P x <-> Q x) -> filter P l = filter Q l.
Proof.
  induction l as [|x l IH]; intros HPQ; [done|]. rewrite !filter_cons, IH by (intros y Hy; apply HPQ; by right).
  assert (Hx : P x <-> Q x) by (apply HPQ; left). by repeat case_decide; tauto || done.
Qed.

(** Another mutant of the list is the same up to its module. *)
Definition mirrored_in (ms : list classified) (m : classified) : Prop :=
  exists m', m' ∈ ms /\ group_key m' = group_key m /\ module_of m' <> module_of m.

Lemma mirrored_key_iff ms m : m ∈ ms -> group_key m ∈ mirror_keys ms <-> mirrored_in ms m.
Proof.
  intros Hm. rewrite elem_of_mirror_keys, mirrored_iff. unfold with_key, mirrored_in. setoid_rewrite list_elem_of_filter. split.
  - intros (a & b & [Ka Ha] & [Kb Hb] & Hne).
    destruct (decide (module_of a = module_of m)) as [E|]; [exists b|exists a]; split_and!; congruence || done.
  - intros (m' & Hm' & Hk & Hne). by exists m', m.
Qed.

Lemma mirrored_names_iff ms m :
  NoDup (cm_name <$> ms) -> m ∈ ms -> cm_name m ∈ snd (find_mirrors ms) <-> mirrored_in ms m.
Proof.
  intros Hn Hm. rewrite <- mirrored_key_iff by done.
  change (snd (find_mirrors ms)) with (list_to_set (mjoin ((fun g => cm_name <$> mg_members g) <$> fst (find_mirrors ms))) : gset string).
  rewrite find_mirrors_groups, elem_of_list_to_set, list_elem_of_join. split.
  - intros (l & Hx & (g & -> & (k & -> & Hk)%list_elem_of_fmap)%list_elem_of_fmap). cbn in Hx.
    apply list_elem_of_fmap in Hx as (m' & E & Hm'). cbn in Hm'. apply list_elem_of_filter in Hm' as [<- Hm'].
    assert (m' = m) as -> by (by apply (nodup_key cm_name ms)). done.
  - intros Hk. exists (cm_name <$> with_key (group_key m) ms). split.
    + apply list_elem_of_fmap. exists m. split; [done|]. by apply list_elem_of_filter.
    + apply list_elem_of_fmap. exists (MirrorGroup (group_key m) (with_key (group_key m) ms)). split; [done|].
      apply list_elem_of_fmap. by exists (group_key m).
Qed.

(** ** The sections list every mutant once *)

Lemma list_filter_none {A} (P : A -> Prop) `{!forall x, Decision (P x)} (l : list A) : (forall x, ~ P x) -> filter P l = [].
Proof. intros HP. induction l as [|x l IH]; [done|]. by rewrite filter_cons_False. Qed.

(** Parts of a list by a key, joined. *)
Lemma join_parts {A K} `{EqDecision K} (key : A -> K) (ks : list K) (l : list A) :
  NoDup ks -> mjoin ((fun k => filter (fun x => key x = k) l) <$> ks) ≡ₚ filter (fun x => key x ∈ ks) l.
Proof.
  induction ks as [|k ks IH]; cbn; intros Hn.
  - by rewrite list_filter_none by (intros x; apply not_elem_of_nil).
  - apply NoDup_cons in Hn as [Hk Hn]. rewrite IH by done. clear IH.
    induction l as [|x l IHl]; [done|]. rewrite !filter_cons.
    repeat case_decide; try (exfalso; set_solver).
    + cbn. by rewrite IHl.
    + rewrite <- Permutation_middle. by rewrite IHl.
    + done.
Qed.

Section Sections.
Context (cs : list classified).
Hypothesis names : NoDup (cm_name <$> cs).
Hypothesis types : Forall (fun m => barless (cm_type m) = true) cs.

Definition scored (s : Z) : list classified := filter (fun m => cm_score m = s) cs.

(** The keys of the groups of a score. *)
Definition score_keys (s : Z) : list string :=
  List.filter (fun k => match with_key k cs with m :: _ => cm_score m =? s | [] => false end) (mirror_keys cs).

Lemma score_keys_iff s m : m ∈ cs -> group_key m ∈ score_keys s <-> mirrored_in cs m /\ cm_score m = s.
Proof.
  intros Hm. unfold score_keys. rewrite list_elem_of_In, List.filter_In, <- list_elem_of_In, mirrored_key_iff by done.
  assert (E : (match with_key (group_key m) cs with m' :: _ => cm_score m' =? s | [] => false end) = (cm_score m =? s)).
  { assert (Hin : m ∈ with_key (group_key m) cs) by (by apply list_elem_of_filter).
    destruct (with_key (group_key m) cs) as [|m' l] eqn:El; [by apply elem_of_nil in Hin|].
    assert (Hm' : m' ∈ with_key (group_key m) cs) by (rewrite El; left). apply list_elem_of_filter in Hm' as [Hk Hm'].
    rewrite Forall_forall in types. apply group_key_inj in Hk as (_ & -> & _); [done|by apply types..]. }
  rewrite E. by rewrite Z.eqb_eq.
Qed.

Lemma score_section_spec s x :
  score_section cs s = Some x ->
  se_score x = s /\ se_groups x = (fun k => MirrorGroup k (with_key k cs)) <$> score_keys s /\
  se_rest x = filter (fun m => cm_name m ∉ snd (find_mirrors cs)) (scored s) /\ se_count x = length (listed x).
Proof.
  unfold score_section. fold (scored s). pose proof (find_mirrors_groups cs) as Hg.
  destruct (find_mirrors cs) as [groups names'] eqn:Ef. cbn [fst] in Hg. subst groups.
  destruct (scored s) as [|m0 l] eqn:Es; [done|]. intros [= <-]. unfold listed. cbn [se_score se_groups se_rest se_count snd].
  rewrite filter_fmap. split_and!; try done.
  rewrite length_app, length_join, Nat.add_comm, (list_fmap_compose mg_members length). done.
Qed.

Lemma listed_perm s x : score_section cs s = Some x -> listed x ≡ₚ scored s.
Proof.
  intros (_ & Eg & Er & _)%score_section_spec. unfold listed. rewrite Eg, Er, <- list_fmap_compose.
  unfold compose, with_key. cbn [mg_members]. rewrite (join_parts group_key (score_keys s)) by (apply NoDup_ListNoDup, List.NoDup_filter, NoDup_ListNoDup, mirror_keys_nodup).
  assert (E : filter (fun m => group_key m ∈ score_keys s) cs = filter (fun m => cm_name m ∈ snd (find_mirrors cs)) (scored s)).
  { unfold scored. rewrite list_filter_filter. apply filter_iff_in. intros m Hm.
    rewrite score_keys_iff, mirrored_names_iff by done. tauto. }
  rewrite E. apply filter_app_complement.
Qed.

(** What a section lists in which part. *)
Lemma section_parts s x :
  score_section cs s = Some x ->
  (forall g m, g ∈ se_groups x -> m ∈ mg_members g ->
     group_key m = mg_key g /\ exists m', m' ∈ mg_members g /\ module_of m' <> module_of m) /\
  (forall m, m ∈ se_rest x -> m ∈ cs /\ ~ mirrored_in cs m).
Proof.
  intros (_ & Eg & Er & _)%score_section_spec. rewrite Eg, Er. split.
  - intros g m (k & -> & Hk)%list_elem_of_fmap Hm. cbn in Hm. apply list_elem_of_filter in Hm as [Hkm Hm]. cbn [mg_key mg_members].
    split; [done|]. subst k. apply score_keys_iff in Hk as [(m' & Hm' & Hk' & Hne) _]; [|done].
    exists m'. split; [|done]. by apply list_elem_of_filter.
  - intros m [Hm1 [_ Hm2]%list_elem_of_filter]%list_elem_of_filter. split; [done|]. by rewrite <- mirrored_names_iff.
Qed.
End Sections.

(** The sections together, and their counts. *)
Lemma sections_perm cs :
  NoDup (cm_name <$> cs) -> Forall (fun m => barless (cm_type m) = true) cs ->
  mjoin (listed <$> score_sections cs) ≡ₚ filter (fun m => cm_score m ∈ [3; 2; 1; 0]) cs.
Proof.
  intros Hn Ht. unfold score_sections. set (ms := sort_le ranks_before cs).
  assert (Hp : ms ≡ₚ cs) by apply sort_le_perm.
  assert (Hn' : NoDup (cm_name <$> ms)) by (by rewrite Hp).
  assert (Ht' : Forall (fun m => barless (cm_type m) = true) ms) by (by rewrite Hp).
  rewrite <- Hp, <- (join_parts cm_score [3; 2; 1; 0]) by (by apply (bool_decide_unpack _); vm_compute).
  generalize [3; 2; 1; 0]. intros L. induction L as [|s L IH]; [done|]. cbn. fold (scored ms s).
  destruct (score_section ms s) as [x|] eqn:Ex.
  - cbn. rewrite IH. by rewrite (listed_perm ms Hn' Ht' s x Ex).
  - rewrite IH. unfold score_section in Ex. fold (scored ms s) in Ex. destruct (scored ms s); [done|].
    by destruct (find_mirrors ms).
Qed.

Lemma sections_count cs :
  NoDup (cm_name <$> cs) -> Forall (fun m => barless (cm_type m) = true) cs -> Forall (fun m => cm_score m ∈ [3; 2; 1; 0]) cs ->
  sum_list (se_count <$> score_sections cs) = length cs.
Proof.
  intros Hn Ht Hs.
  assert (E : se_count <$> score_sections cs = length <$> (listed <$> score_sections cs)).
  { rewrite <- list_fmap_compose. apply list_fmap_ext. intros i x Hx%list_elem_of_lookup_2. unfold score_sections in Hx.
    apply list_elem_of_omap in Hx as (s & _ & Ex). by apply score_section_spec in Ex as (_ & _ & _ & ->). }
  rewrite E, <- length_join, (sections_perm cs Hn Ht). f_equal. clear -Hs.
  induction Hs as [|m l Hm _ IH]; [done|]. by rewrite filter_cons_True, IH.
Qed.

(** A section lists the mutants of its score, and there is one for every
    score some mutant has. *)
Lemma sections_listed cs x :
  NoDup (cm_name <$> cs) -> Forall (fun m => barless (cm_type m) = true) cs -> x ∈ score_sections cs ->
  listed x ≡ₚ filter (fun m => cm_score m = se_score x) cs /\ se_count x = length (listed x).
Proof.
  intros Hn Ht (s & _ & Ex)%list_elem_of_omap. set (ms := sort_le ranks_before cs) in *.
  assert (Hp : ms ≡ₚ cs) by apply sort_le_perm.
  pose proof (score_section_spec ms s x Ex) as (Es & _ & _ & Ec). split; [|done].
  rewrite (listed_perm ms) by (by rewrite ?Hp || exact Ex). rewrite Es. unfold scored. by rewrite Hp.
Qed.

Lemma sections_scores cs :
  se_score <$> score_sections cs = filter (fun s => Exists (fun m => cm_score m = s) cs) [3; 2; 1; 0].
Proof.
  unfold score_sections. set (ms := sort_le ranks_before cs). assert (Hp : ms ≡ₚ cs) by apply sort_le_perm.
  generalize [3; 2; 1; 0]. intros L. induction L as [|s L IH]; [done|]. rewrite filter_cons. cbn [omap list_omap].
  assert (Hs : scored ms s = [] <-> ~ Exists (fun m => cm_score m = s) cs).
  { rewrite Exists_exists. split.
    - intros E (m & Hm & Em). assert (Hin : m ∈ scored ms s) by (apply list_elem_of_filter; by rewrite Hp). rewrite E in Hin. by apply elem_of_nil in Hin.
    - intros Hno. destruct (scored ms s) as [|m l] eqn:E; [done|]. destruct Hno. exists m.
      assert (Hin : m ∈ scored ms s) by (rewrite E; left). apply list_elem_of_filter in Hin as [Em Hin]. by rewrite Hp in Hin. }
  destruct (score_section ms s) as [x|] eqn:Ex.
  - pose proof (score_section_spec ms s x Ex) as (Es & _). cbn. rewrite IH, Es, decide_True; [done|].
    apply dec_stable. intros Hno. apply Hs in Hno. unfold score_section in Ex. fold (scored ms s) in Ex. by rewrite Hno in Ex.
  - rewrite IH, decide_False; [done|]. apply Hs. unfold score_section in Ex. fold (scored ms s) in Ex.
    destruct (scored ms s); [done|]. by destruct (find_mirrors ms).
Qed.

(** C39. The text report lists every classified mutant exactly once, in the
    section of its score, and the count in the header of a section is the
    number of its mutants.  The mutants of a group are the same mutation, of
    equal normalised name, score and type, and each has a counterpart in
    another module in its group; a mutant listed alone has no counterpart
    anywhere. *)
Theorem sections_complete (cs : list classified) :
  NoDup (cm_name <$> cs) -> Forall (fun m => barless (cm_type m) = true) cs ->
  mjoin (listed <$> score_sections cs) ≡ₚ filter (fun m => cm_score m ∈ [3; 2; 1; 0]) cs /\
  forall x, x ∈ score_sections cs ->
    listed x ≡ₚ filter (fun m => cm_score m = se_score x) cs /\ se_count x = length (listed x) /\
    (forall g m, g ∈ se_groups x -> m ∈ mg_members g ->
       (forall m', m' ∈ mg_members g -> normalize_for_mirror (cm_short_name m') = normalize_for_mirror (cm_short_name m) /\
          cm_score m' = cm_score m /\ cm_type m' = cm_type m) /\
       exists m', m' ∈ mg_members g /\ module_of m' <> module_of m) /\
    (forall m, m ∈ se_rest x -> forall m', m' ∈ cs -> group_key m' = group_key m -> module_of m' = module_of m).
Proof.
  intros Hn Ht. unfold score_sections. set (ms := sort_le ranks_before cs).
  assert (Hp : ms ≡ₚ cs) by apply sort_le_perm.
  assert (Hn' : NoDup (cm_name <$> ms)) by (by rewrite Hp).
  assert (Ht' : Forall (fun m => barless (cm_type m) = true) ms) by (by rewrite Hp).
  split; [by apply sections_perm|].
  intros x (s & _ & Ex)%list_elem_of_omap. pose proof (score_section_spec ms s x Ex) as (Es & _ & _ & Ec).
  destruct (section_parts ms Hn' Ht' s x Ex) as [Hg Hr]. split_and!; [|done| |].
  - rewrite (listed_perm ms Hn' Ht' s x Ex), Es. unfold scored. by rewrite Hp.
  - intros g m Hgx Hm. destruct (Hg g m Hgx Hm) as [Hk Hex]. split; [|done]. intros m' Hm'.
    destruct (Hg g m' Hgx Hm') as [Hk' _]. rewrite Forall_forall in Ht.
    assert (Hin : forall y, y ∈ mg_members g -> y ∈ cs).
    { intros y Hy. rewrite <- Hp. apply (score_section_spec ms s x) in Ex as (_ & Eg & _). rewrite Eg in Hgx.
      apply list_elem_of_fmap in Hgx as (k & -> & _). by apply list_elem_of_filter in Hy as [_ Hy]. }
    apply group_key_inj; [by apply Ht, Hin..|]. congruence.
  - intros m Hm m' Hm' Hk. destruct (Hr m Hm) as [_ Hno]. destruct (decide (module_of m' = module_of m)) as [|Hne]; [done|].
    destruct Hno. exists m'. by rewrite Hp.
Qed.

(** A pair of twins, a mutant of the same score alone, and a cosmetic one. *)
Definition demo_mutant (id : string) (score : Z) (type : string) : classified :=
  Classified id "survived" estr score type ("in " +:+ id) (shorten_name id).
Definition demo_id (module class_method : string) : string :=
  "redis_rate_limiter.core." +:+ module +:+ ".x" +:+ mangled_bar +:+ class_method.
Definition demo_mutants : list classified :=
  [demo_mutant (demo_id "limiters" ("DrainLoop" +:+ mangled_bar +:+ "wake__mutmut_3")) 2 "operator_swap";
   demo_mutant (demo_id "base" ("Base" +:+ mangled_bar +:+ "start__mutmut_1")) 2 "operator_swap";
   demo_mutant (demo_id "async_limiters" ("AsyncDrainLoop" +:+ mangled_bar +:+ "wake__mutmut_3")) 2 "operator_swap";
   demo_mutant (demo_id "limiters" ("DrainLoop" +:+ mangled_bar +:+ "run__mutmut_2")) 0 "string_xx_wrap"].

Lemma sections_complete_witness :
  (fun x => (se_score x, se_count x, mg_key <$> se_groups x, cm_short_name <$> se_rest x)) <$> score_sections demo_mutants =
    [(2, 3%nat, ["DrainLoop.wake__mutmut_3|2|operator_swap"], ["base.Base.start__mutmut_1"]);
     (0, 1%nat, [], ["limiters.DrainLoop.run__mutmut_2"])] /\
  mjoin (listed <$> score_sections demo_mutants) ≡ₚ filter (fun m => cm_score m ∈ [3; 2; 1; 0]) demo_mutants.
Proof.
  split; [by vm_compute|].
  refine (proj1 (sections_complete demo_mutants _ _)).
  - by apply (bool_decide_unpack _); vm_compute.
  - by apply (bool_decide_unpack _); vm_compute.
Defined.
