(* ===== verification/Report.v ===== *)
(** * Report: the mutation report (scripts/generate_mutmut_report.py)

    The report generator joins what a mutation run left behind, one record per
    mutant, attaches the keys of synchronous and asynchronous twins, counts by
    status, score, file, type and test, and prints the mutants that survived.
    The classification of a mutant is part of its record; reading the files,
    the layout of the text and the JSON encoding are left out. *)

From Stdlib Require Import Sorted.
From S2P Require Import Prelude Float Text Json Py Base Distributed Importing Kills Mirrors.

Open Scope Z_scope.
Open Scope rl_scope.

(** ** Data *)

Record mutant := MutantRecord {
  mr_name : string;
  mr_short_name : string;
  mr_status : string;
  mr_source_file : string;
  mr_duration_seconds : option Q;
  mr_diff : option string;
  mr_line_number : option Z;
  mr_killed_by : list string;
  mr_partial_data : bool;
  mr_killed_during : option string;
  mr_tests_selected : option (list string);
  mr_tests_ran : option (list string);
  mr_classification_score : option Z;
  mr_mutation_type : option string;
  mr_classification_desc : option string;
  mr_is_known_benign : bool;
  mr_benign_reason : option string;
  mr_mirror_key : option string;
}.

(** The metadata of mutmut: name to status, duration and source file. *)
Definition meta := pydict (string * option Q * string).
Definition status_of (kv : string * (string * option Q * string)) : string := let '(_, (status, _, _)) := kv in status.
Definition path_of (kv : string * (string * option Q * string)) : string := let '(_, (_, _, path)) := kv in path.

(** One entry of the killed-by file, a field [None] where it has none. *)
Record kill_entry := KillEntry {
  ke_killed_by : option (list string);
  ke_tests_selected : option (list string);
  ke_tests_ran : option (list string);
  ke_partial : option bool;
  ke_killed_during : option string;
}.

Record kill_data := KillData {
  kd_killed_by : pydict (list string);
  kd_tests_selected : pydict (list string);
  kd_tests_ran : pydict (list string);
  kd_partial : pydict bool;
  kd_killed_during : pydict string;
}.

(** [_parse_killed_by] *)
Definition parse_killed_by (raw : pydict kill_entry) : kill_data :=
  foldl (fun d '(name, value) =>
           KillData (dict_set name (default [] (ke_killed_by value)) (kd_killed_by d))
                    (dict_set name (default [] (ke_tests_selected value)) (kd_tests_selected d))
                    (dict_set name (default [] (ke_tests_ran value)) (kd_tests_ran d))
                    (dict_set name (default false (ke_partial value)) (kd_partial d))
                    (match ke_killed_during value with
                     | Some t => dict_set name t (kd_killed_during d)
                     | None => kd_killed_during d
                     end))
    (KillData [] [] [] [] []) raw.

(** The statistics of mutmut. *)
Record stats := Stats { st_duration_by_test : pydict Q; st_tests_by_function : pydict (list string) }.

(** [_load_all_test_nodeids], of a file that was read *)
Definition all_test_nodeids (s : stats) : gset string :=
  foldl (fun all kv => all ∪ list_to_set (snd kv)) ∅ (st_tests_by_function s).

(** ** Counters *)

(** [Counter], incremented along a list of keys. *)
Definition counter := pydict Z.
Definition count (k : string) (d : counter) : counter := dict_alter (fun o => default 0 o + 1) k d.
Definition counter_of (ks : list string) : counter := foldl (fun d k => count k d) [] ks.
Definition count_of (d : counter) (k : string) : Z := default 0 (dict_find k d).

(** [sorted(d, key=d.get, reverse=True)], with the counts *)
Definition by_count (d : counter) : counter := sort_le (fun a b => snd b <=? snd a) d.

(** [round(x, 2)] and [round(x, 4)]: the nearest decimal, read as a double. *)
Definition round_to `{Rounding} (digits : Z) (x : Q) : Q := rnd (Qrne (x * inject_Z (10 ^ digits)) / inject_Z (10 ^ digits)).

(** ** Mirror keys *)

(** [s or default] *)
Definition or_else (o : option string) (default_value : string) : string :=
  match o with Some (String c s) => String c s | _ => default_value end.

Definition with_mirror_key (k : option string) (r : mutant) : mutant :=
  MutantRecord (mr_name r) (mr_short_name r) (mr_status r) (mr_source_file r) (mr_duration_seconds r) (mr_diff r)
    (mr_line_number r) (mr_killed_by r) (mr_partial_data r) (mr_killed_during r) (mr_tests_selected r) (mr_tests_ran r)
    (mr_classification_score r) (mr_mutation_type r) (mr_classification_desc r) (mr_is_known_benign r)
    (mr_benign_reason r) k.

(** The [ClassifiedMutation] of a record with a score. *)
Definition classified_of (r : mutant) (score : Z) : classified :=
  Classified (mr_name r) (mr_status r) (or_else (mr_diff r) estr) score (or_else (mr_mutation_type r) "unknown")
    (or_else (mr_classification_desc r) estr) (mr_short_name r).

(** The records that take part in the search for mirrors. *)
Definition eligible (r : mutant) : option classified :=
  match mr_classification_score r with
  | Some score => if mr_is_known_benign r then None else Some (classified_of r score)
  | None => None
  end.

(** [_attach_mirror_keys] *)
Definition attach_mirror_keys (records : list mutant) : list mutant :=
  let classified_by_name :=
    foldl (fun d r => match eligible r with Some cm => dict_set (mr_name r) cm d | None => d end) [] records in
  match classified_by_name with
  | [] => records
  | _ :: _ =>
      let mirrored_names := snd (find_mirrors (snd <$> classified_by_name)) in
      (fun r => match dict_find (mr_name r) classified_by_name with
                | Some cm => if bool_decide (mr_name r ∈ mirrored_names) then with_mirror_key (Some (group_key cm)) r else r
                | None => r
                end) <$> records
  end.

(** ** Summaries *)

Record file_summary := FileSummary {
  fs_path : string; fs_total : Z; fs_killed : Z; fs_survived : Z; fs_no_tests : Z; fs_timeout : Z; fs_survival_rate : Q;
}.

Record classification := ClassificationSummary {
  score_0_cosmetic : Z; score_1_argument : Z; score_2_logic : Z; score_3_fork_immune : Z; known_benign : Z;
}.

Record killed_by_summary := KilledBySummary {
  ks_tracked_kills : nat; ks_killing_tests : nat; ks_zero_kill_tests : nat; ks_total_tests : nat;
}.

(** [float("inf")] is [None]. *)
Record test_efficiency := TestEfficiency {
  te_nodeid : string; te_kills : Z; te_unique_kills : Z; te_duration_seconds : Q; te_kills_per_second : option Q;
}.

Section Summaries.
Context {F : Rounding}.

(** [_build_file_summaries] *)
Definition build_file_summaries (all_meta : meta) : list file_summary :=
  let file_totals := counter_of (path_of <$> all_meta) in
  let counted status := counter_of (path_of <$> filter (fun kv => status_of kv = status) all_meta) in
  let file_killed := counted "killed" in
  let file_survived := counted "survived" in
  let file_no_tests := counted "no tests" in
  let file_timeout := counted "timeout" in
  (fun '(path, total) =>
     let killed := count_of file_killed path in
     let non_killed := total - killed in
     let survival_rate := if total =? 0 then 0%Q else round_to 2 ((non_killed ⊘ total) ⊗ 100) in
     FileSummary path total killed (count_of file_survived path) (count_of file_no_tests path)
       (count_of file_timeout path) survival_rate) <$> by_count file_totals.

(** [_build_mutation_type_summary]: the totals and the survivors by type *)
Definition build_mutation_type_summary (records : list mutant) : pydict (Z * Z) :=
  let type_total := counter_of (omap mr_mutation_type records) in
  let type_survived :=
    counter_of (omap mr_mutation_type (filter (fun r => mr_status r = "survived" /\ mr_is_known_benign r = false) records)) in
  (fun '(mtype, total) => (mtype, (total, count_of type_survived mtype))) <$> by_count type_total.

(** The kills of every test, and those no other test shares. *)
Definition kill_counts (killed_by : pydict (list string)) : counter := counter_of (mjoin (snd <$> killed_by)).
Definition unique_kill_counts (killed_by : pydict (list string)) : counter :=
  counter_of (omap (fun kv => match snd kv with [t] => Some t | _ => None end) killed_by).

(** [sort(key=kills_per_second, reverse=True)] *)
Definition faster (a b : test_efficiency) : bool :=
  match te_kills_per_second a, te_kills_per_second b with
  | None, _ => true
  | Some _, None => false
  | Some x, Some y => Qle_bool y x
  end.

(** [_build_test_effectiveness] *)
Definition build_test_effectiveness (killed_by : pydict (list string)) (duration_by_test : pydict Q) : list test_efficiency :=
  let unique := unique_kill_counts killed_by in
  sort_le faster
    ((fun '((test_nodeid, kills) : string * Z) =>
        let duration := default 0%Q (dict_find test_nodeid duration_by_test) in
        let kps := if Qltb 0 duration then Some (inject_Z kills ⊘ duration) else None in
        TestEfficiency test_nodeid kills (count_of unique test_nodeid) (round_to 4 duration) (round_to 2 <$> kps))
     <$> kill_counts killed_by).

(** [re.sub(r"__mutmut_\d+$", "", name)]: what is left of a match at the head,
    where [$] also matches before a final newline *)
Definition mutmut_suffix (s : string) : option string :=
  match after "__mutmut_" s with
  | Some rest =>
      match scan 0 0 rest with
      | (_, S _, EmptyString) => Some estr
      | (_, S _, String c EmptyString) => if Ascii.eqb c (ascii_of_nat 10) then Some (String c estr) else None
      | _ => None
      end
  | None => None
  end.
Fixpoint function_of (name : string) : string :=
  match mutmut_suffix name with
  | Some rest => rest
  | None => match name with EmptyString => estr | String c s => String c (function_of s) end
  end.

(** [_detect_uncovered_functions] *)
Definition detect_uncovered_functions (all_meta : meta) (tests_by_function : pydict (list string)) : list string :=
  let mutated_functions : gset string := list_to_set ((function_of ∘ fst) <$> all_meta) in
  sort_le (fun a b => negb (String.ltb b a))
    (filter (fun fn => dict_find fn tests_by_function = None \/ dict_find fn tests_by_function = Some []) (elements mutated_functions)).

(** The loop over the records that counts the classes. *)
Definition classify_step (c : classification) (r : mutant) : classification :=
  let '(ClassificationSummary c0 c1 c2 c3 b) := c in
  if String.eqb (mr_status r) "killed" then c
  else if mr_is_known_benign r then ClassificationSummary c0 c1 c2 c3 (b + 1)
  else if bool_decide (mr_classification_score r = Some 0) then ClassificationSummary (c0 + 1) c1 c2 c3 b
  else if bool_decide (mr_classification_score r = Some 1) then ClassificationSummary c0 (c1 + 1) c2 c3 b
  else if bool_decide (mr_classification_score r = Some 2) then ClassificationSummary c0 c1 (c2 + 1) c3 b
  else if bool_decide (mr_classification_score r = Some 3) then ClassificationSummary c0 c1 c2 (c3 + 1) b
  else c.

Definition build_killed_by_summary (killed_by : pydict (list string)) (tests : gset string) : option killed_by_summary :=
  match killed_by with
  | [] => None
  | _ :: _ =>
      let killing_tests : gset string := list_to_set (fst <$> kill_counts killed_by) in
      Some (KilledBySummary (length killed_by) (size killing_tests)
              (if bool_decide (tests = ∅) then 0%nat else size (tests ∖ killing_tests)) (size tests))
  end.

(** [UnifiedReport] *)
Record report := UnifiedReport {
  rp_mutation_score : Q;
  rp_total : Z;
  rp_killed : Z;
  rp_survived : Z;
  rp_timeout : Z;
  rp_suspicious : Z;
  rp_no_tests : Z;
  rp_skipped : Z;
  rp_classification : classification;
  rp_killed_by_summary : option killed_by_summary;
  rp_files : list file_summary;
  rp_mutation_type_summary : pydict (Z * Z);
  rp_test_effectiveness : option (list test_efficiency);
  rp_uncovered_functions : list string;
  rp_mutants : list mutant;
}.

(** [_build_report] *)
Definition build_report (records : list mutant) (score : Q) (killed_count total_count : Z)
    (killed_by : pydict (list string)) (tests : gset string) (all_meta : meta) (stats_data : option stats) : report :=
  let status_counts := counter_of (mr_status <$> records) in
  let duration_by_test := match stats_data with Some s => st_duration_by_test s | None => [] end in
  let test_effectiveness :=
    match killed_by, duration_by_test with
    | _ :: _, _ :: _ => Some (build_test_effectiveness killed_by duration_by_test)
    | _, _ => None
    end in
  let tests_by_function := match stats_data with Some s => st_tests_by_function s | None => [] end in
  UnifiedReport (round_to 2 score) total_count killed_count
    (count_of status_counts "survived") (count_of status_counts "timeout") (count_of status_counts "suspicious")
    (count_of status_counts "no tests") (count_of status_counts "skipped")
    (foldl classify_step (ClassificationSummary 0 0 0 0 0) records)
    (build_killed_by_summary killed_by tests) (build_file_summaries all_meta) (build_mutation_type_summary records)
    test_effectiveness (detect_uncovered_functions all_meta tests_by_function) records.

(** The score, from the metadata where the log has none. *)
Definition score_of_meta (all_meta : meta) : Q * Z * Z :=
  let total := Z.of_nat (length all_meta) in
  let killed := Z.of_nat (length (filter (fun kv => status_of kv = "killed") all_meta)) in
  (if total =? 0 then 0%Q else (killed ⊘ total) ⊗ 100, killed, total).
End Summaries.

(** ** The text report *)

(** [_SCORE_LABELS] *)
Definition score_labels : list (Z * string) := [(0, "cosmetic"); (1, "argument"); (2, "logic"); (3, "fork-immune")].

(** The attributes of the classification, for [getattr]. *)
Definition attributes (c : classification) : pydict Z :=
  [("score_0_cosmetic", score_0_cosmetic c); ("score_1_argument", score_1_argument c); ("score_2_logic", score_2_logic c);
   ("score_3_fork_immune", score_3_fork_immune c); ("known_benign", known_benign c)].

(** The lines of the classification: score, label and the count printed. *)
Definition classification_lines (c : classification) : list (Z * string * Z) :=
  (fun '(score_val, label) =>
     (score_val, label, default 0 (dict_find ("score_" +:+ print_Z score_val +:+ "_" +:+ label) (attributes c)))) <$> score_labels.

(** The lists the mutants are sorted into. *)
Record text_parts := TextParts {
  tp_classified : list classified;
  tp_benign : list (classified * string);
  tp_timeouts : list string;
  tp_suspicious : list string;
  tp_no_tests : list string;
}.

(** One record that was not killed. *)
Definition text_step (p : text_parts) (r : mutant) : text_parts :=
  let '(TextParts cs bs ts ss ns) := p in
  if String.eqb (mr_status r) "timeout" then TextParts cs bs (ts ++ [mr_name r]) ss ns
  else if String.eqb (mr_status r) "suspicious" then TextParts cs bs ts (ss ++ [mr_name r]) ns
  else if String.eqb (mr_status r) "no tests" then TextParts cs bs ts ss (ns ++ [mr_name r])
  else match mr_classification_score r with
       | None => p
       | Some score =>
           let cm := classified_of r score in
           let reason := or_else (mr_benign_reason r) estr in
           if mr_is_known_benign r && negb (String.eqb reason estr) then TextParts cs (bs ++ [(cm, reason)]) ts ss ns
           else TextParts (cs ++ [cm]) bs ts ss ns
       end.

Definition text_parts_of (mutants : list mutant) : text_parts :=
  foldl text_step (TextParts [] [] [] [] []) (filter (fun r => mr_status r <> "killed") mutants).

(** The sections of [_format_text_report] that list mutants. *)
Record mutant_listing := MutantListing {
  ml_sections : list section;
  ml_timeouts : list string;
  ml_suspicious : list string;
  ml_no_tests : list string;
  ml_benign : list (classified * string);
}.

Definition list_mutants (mutants : list mutant) : mutant_listing :=
  let p := text_parts_of mutants in
  MutantListing (score_sections (tp_classified p)) (shorten_name <$> tp_timeouts p) (shorten_name <$> tp_suspicious p)
    (shorten_name <$> tp_no_tests p) (tp_benign p).

(** ** Counters count *)

Definition sumZ (l : list Z) : Z := foldr Z.add 0 l.
Definition number {A} (P : A -> Prop) `{!forall x, Decision (P x)} (l : list A) : Z := Z.of_nat (length (filter P l)).

Lemma number_snoc {A} (P : A -> Prop) `{!forall x, Decision (P x)} (l : list A) x :
  number P (l ++ [x]) = number P l + (if decide (P x) then 1 else 0).
Proof. unfold number. rewrite filter_app, length_app, filter_cons, filter_nil. case_decide; cbn; lia. Qed.

Lemma number_perm {A} (P : A -> Prop) `{!forall x, Decision (P x)} (l l' : list A) : l ≡ₚ l' -> number P l = number P l'.
Proof. intros E. unfold number. by rewrite E. Qed.

Lemma count_of_counter ks k : count_of (counter_of ks) k = number (fun x => x = k) ks.
Proof.
  unfold count_of, counter_of. induction ks as [|x ks IH] using rev_ind; [done|]. rewrite foldl_snoc, number_snoc. unfold count at 1.
  destruct (decide (x = k)) as [->|Hne].
  - rewrite <- IH, dict_find_alter. done.
  - rewrite dict_find_alter_ne by congruence. rewrite IH. lia.
Qed.

Lemma counter_nodup ks : NoDup (fst <$> counter_of ks).
Proof.
  unfold counter_of. induction ks as [|x ks IH] using rev_ind; [constructor|]. rewrite foldl_snoc. by apply dict_nodup_alter.
Qed.

Lemma counter_keys ks k : k ∈ fst <$> counter_of ks <-> k ∈ ks.
Proof.
  revert k. unfold counter_of. induction ks as [|x ks IH] using rev_ind; intros k; [done|]. rewrite foldl_snoc. unfold count at 1.
  rewrite dict_keys_alter, !elem_of_app, IH, list_elem_of_singleton. case_decide as Hd.
  - apply IH in Hd. rewrite elem_of_nil. naive_solver.
  - by rewrite list_elem_of_singleton.
Qed.

Lemma counter_elem ks k n : (k, n) ∈ counter_of ks -> n = number (fun x => x = k) ks.
Proof.
  intros Hin. rewrite <- count_of_counter. unfold count_of.
  by rewrite (proj2 (dict_find_elem k n _ (counter_nodup ks)) Hin).
Qed.

Lemma sum_count k d : sumZ (snd <$> count k d) = sumZ (snd <$> d) + 1.
Proof.
  induction d as [|[j v] d IH]; cbn; [done|]. unfold sumZ, count in *. destruct (String.eqb j k); cbn; [lia|]. rewrite IH. lia.
Qed.

Lemma counter_sum ks : sumZ (snd <$> counter_of ks) = Z.of_nat (length ks).
Proof.
  unfold counter_of. induction ks as [|x ks IH] using rev_ind; [done|]. rewrite foldl_snoc, sum_count, IH, length_app. cbn. lia.
Qed.

Lemma sum_perm l l' : l ≡ₚ l' -> sumZ l = sumZ l'.
Proof. unfold sumZ. induction 1; cbn; lia. Qed.

(** What the classification counts. *)
Definition in_class (s : option Z) (r : mutant) : Prop :=
  mr_status r <> "killed" /\ mr_is_known_benign r = false /\ mr_classification_score r = s.
Definition benign_survivor (r : mutant) : Prop := mr_status r <> "killed" /\ mr_is_known_benign r = true.
#[export] Instance in_class_dec s r : Decision (in_class s r) := ltac:(unfold in_class; apply _).
#[export] Instance benign_survivor_dec r : Decision (benign_survivor r) := ltac:(unfold benign_survivor; apply _).

Lemma classes_counted records :
  foldl classify_step (ClassificationSummary 0 0 0 0 0) records =
    ClassificationSummary (number (in_class (Some 0)) records) (number (in_class (Some 1)) records)
      (number (in_class (Some 2)) records) (number (in_class (Some 3)) records) (number benign_survivor records).
Proof.
  induction records as [|r l IH] using rev_ind; [done|]. rewrite foldl_snoc, IH, !number_snoc. clear IH. unfold classify_step.
  destruct (String.eqb_spec (mr_status r) "killed") as [Ek|Ek]; [|destruct (mr_is_known_benign r) eqn:Eb].
  3: repeat case_bool_decide.
  all: f_equal; case_decide as Hd; unfold in_class, benign_survivor in Hd; first [lia|destruct_and?; congruence|destruct Hd; split_and?; congruence].
Qed.

(** ** What the text lists *)

(** Where the text lists a mutant: nowhere when it was killed, by its status,
    among the known benign ones, in the section of its score, or nowhere when
    it has none. *)
Variant place := Scored (s : Z) | Benign | TimedOut | Suspicious | NoTests | Unlisted | Dead.
#[export] Instance place_eq_dec : EqDecision place.
Proof. solve_decision. Defined.

Definition place_of (r : mutant) : place :=
  if String.eqb (mr_status r) "killed" then Dead
  else if String.eqb (mr_status r) "timeout" then TimedOut
  else if String.eqb (mr_status r) "suspicious" then Suspicious
  else if String.eqb (mr_status r) "no tests" then NoTests
  else if mr_is_known_benign r then Benign
  else match mr_classification_score r with Some s => Scored s | None => Unlisted end.
Definition placed (p : place) (l : list mutant) : list mutant := filter (fun r => place_of r = p) l.

(** A mutant known to be benign has a score and a reason. *)
Definition benign_explained (r : mutant) : Prop :=
  mr_is_known_benign r = true -> mr_classification_score r <> None /\ or_else (mr_benign_reason r) estr <> estr.

(** What a section lists of a record. *)
Definition survivor (r : mutant) : option classified :=
  match place_of r with Scored s => Some (classified_of r s) | _ => None end.

Lemma placed_snoc p l r : placed p (l ++ [r]) = placed p l ++ (if decide (place_of r = p) then [r] else []).
Proof. unfold placed. rewrite filter_app, filter_cons, filter_nil. by case_decide. Qed.

Lemma text_fold l :
  Forall (fun r => mr_status r <> "killed") l -> Forall benign_explained l ->
  let p := foldl text_step (TextParts [] [] [] [] []) l in
  tp_classified p = omap survivor l /\ cm_name ∘ fst <$> tp_benign p = mr_name <$> placed Benign l /\
  tp_timeouts p = mr_name <$> placed TimedOut l /\ tp_suspicious p = mr_name <$> placed Suspicious l /\
  tp_no_tests p = mr_name <$> placed NoTests l.
Proof.
  induction l as [|r l IH] using rev_ind; intros Hk Hb; [done|].
  apply Forall_app in Hk as [Hl [Hr _]%Forall_cons]. apply Forall_app in Hb as [Hbl [Hbr _]%Forall_cons].
  rewrite foldl_snoc, omap_app, !placed_snoc, !fmap_app. destruct (IH Hl Hbl) as (E1 & E2 & E3 & E4 & E5). clear IH.
  destruct (foldl text_step (TextParts [] [] [] [] []) l) as [cs bs ts ss ns].
  cbn [tp_classified tp_benign tp_timeouts tp_suspicious tp_no_tests] in *. rewrite <- E2. subst cs ts ss ns. clear E2.
  unfold text_step, survivor, place_of, benign_explained in *. cbn [omap list_omap].
  rewrite (proj2 (String.eqb_neq _ _) Hr). repeat (case_match; [cbn; rewrite ?app_nil_r, ?fmap_app; done|]).
  destruct (mr_is_known_benign r).
  - destruct (Hbr eq_refl) as [Hs Hn]. destruct (mr_classification_score r) as [s|]; [|done].
    rewrite (proj2 (String.eqb_neq _ _) Hn). cbn. by rewrite ?app_nil_r, ?fmap_app.
  - destruct (mr_classification_score r) as [s|]; cbn; by rewrite ?app_nil_r, ?fmap_app.
Qed.

(** The mutants of a score. *)
Lemma survivors_of s l :
  cm_name <$> filter (fun m => cm_score m = s) (omap survivor l) = mr_name <$> placed (Scored s) l.
Proof.
  induction l as [|r l IH]; [done|]. cbn [omap list_omap]. unfold placed. rewrite filter_cons.
  unfold survivor at 1. destruct (place_of r) as [s'| | | | | |]; try done.
  rewrite filter_cons. cbn [cm_score classified_of]. destruct (decide (s' = s)) as [->|Hne].
  - rewrite (decide_True (P := Scored s = Scored s)) by done. cbn [fmap list_fmap]. by rewrite IH.
  - rewrite (decide_False (P := Scored s' = Scored s)) by congruence. done.
Qed.

Lemma survivor_placed s l : Exists (fun m => cm_score m = s) (omap survivor l) <-> Exists (fun r => place_of r = Scored s) l.
Proof.
  rewrite !Exists_exists. split.
  - intros (m & (r & Hr & Hs)%list_elem_of_omap & <-). exists r. split; [done|]. unfold survivor in Hs.
    destruct (place_of r); [|done..]. by injection Hs as <-.
  - intros (r & Hr & Hp). exists (classified_of r s). split; [|done]. apply list_elem_of_omap. exists r. split; [done|].
    unfold survivor. by rewrite Hp.
Qed.

(** The places divide the records. *)
Lemma placed_alive p l : p <> Dead -> placed p (filter (fun r => mr_status r <> "killed") l) = placed p l.
Proof.
  intros Hp. unfold placed. apply list_filter_filter_l. intros r E Hk. apply Hp. rewrite <- E. unfold place_of. by rewrite Hk.
Qed.

Lemma nodup_omap {A B} (f : A -> option B) (n : A -> string) (m : B -> string) (l : list A) :
  (forall x y, f x = Some y -> m y = n x) -> NoDup (n <$> l) -> NoDup (m <$> omap f l).
Proof.
  intros Hf. induction l as [|x l IH]; cbn; intros Hn; [constructor|]. apply NoDup_cons in Hn as [Hx Hn].
  destruct (f x) as [y|] eqn:E; [|by apply IH]. cbn. apply NoDup_cons. split; [|by apply IH].
  intros (y' & Ey & (x' & Hx' & Ef)%list_elem_of_omap)%list_elem_of_fmap. apply Hf in E, Ef. destruct Hx.
  apply list_elem_of_fmap. exists x'. split; [congruence|done].
Qed.

(** ** Mirror keys *)

Lemma classified_map records :
  NoDup (mr_name <$> records) ->
  foldl (fun d r => match eligible r with Some cm => dict_set (mr_name r) cm d | None => d end) [] records =
    omap (fun r => pair (mr_name r) <$> eligible r) records.
Proof.
  induction records as [|r l IH] using rev_ind; intros Hn; [done|]. rewrite fmap_app in Hn.
  apply NoDup_app in Hn as (Hl & Hr & _). rewrite foldl_snoc, omap_app, IH by done. cbn.
  destruct (eligible r) as [cm|]; cbn; [|by rewrite app_nil_r].
  assert (Hk : mr_name r ∉ fst <$> omap (fun r => pair (mr_name r) <$> eligible r) l).
  { intros (x & Ex & (r' & Hr' & Ef)%list_elem_of_omap)%list_elem_of_fmap.
    destruct (eligible r'); [|done]. injection Ef as <-. cbn in Ex.
    apply (Hr (mr_name r)); [|by left]. rewrite Ex. by apply list_elem_of_fmap_2. }
  revert Hk. generalize (omap (fun r => pair (mr_name r) <$> eligible r) l). clear. intros d.
  induction d as [|[k v] d IH]; cbn; intros Hk; [done|]. apply not_elem_of_cons in Hk as [Hne Hk].
  unfold dict_set in *. cbn. destruct (String.eqb_spec k (mr_name r)); [congruence|]. by rewrite IH.
Qed.

Lemma eligible_name r cm : eligible r = Some cm -> cm_name cm = mr_name r.
Proof. unfold eligible. destruct (mr_classification_score r); [|done]. destruct (mr_is_known_benign r); [done|]. by intros [= <-]. Qed.

(** Twins get their key.  After the search every record is as before,
    except that a classified record that is not known to be benign and has a
    counterpart, the same mutation of the same method under another module,
    carries the key it shares with it.  The search looks at all records,
    killed ones too. *)
Theorem mirror_keys_exact (records : list mutant) :
  NoDup (mr_name <$> records) ->
  Forall2 (fun r r' =>
      (exists cm, eligible r = Some cm /\ mirrored_in (omap eligible records) cm /\ r' = with_mirror_key (Some (group_key cm)) r) \/
      ((forall cm, eligible r = Some cm -> ~ mirrored_in (omap eligible records) cm) /\ r' = r))
    records (attach_mirror_keys records).
Proof.
  intros Hn. unfold attach_mirror_keys. rewrite (classified_map records Hn).
  set (d := omap (fun r => pair (mr_name r) <$> eligible r) records).
  assert (Hd : snd <$> d = omap eligible records).
  { unfold d. clear. induction records as [|r l IH]; cbn; [done|]. destruct (eligible r); cbn; by rewrite IH. }
  assert (Hdn : NoDup (fst <$> d)).
  { apply (nodup_omap _ mr_name fst records); [|done]. intros r y. destruct (eligible r); [|done]. by intros [= <-]. }
  assert (Hf : forall r, r ∈ records -> dict_find (mr_name r) d = eligible r).
  { intros r Hr. destruct (eligible r) as [cm|] eqn:E.
    - apply dict_find_elem; [done|]. unfold d. apply list_elem_of_omap. exists r. by rewrite E.
    - apply dict_find_none. intros (x & Ex & (r' & Hr' & Ef)%list_elem_of_omap)%list_elem_of_fmap.
      destruct (eligible r') as [cm|] eqn:E'; [|done]. injection Ef as <-. cbn in Ex.
      assert (r' = r) as -> by (by apply (nodup_key mr_name records)). congruence. }
  assert (Hm : NoDup (cm_name <$> omap eligible records)) by (apply (nodup_omap _ mr_name cm_name); [apply eligible_name|done]).
  rewrite <- Hd in Hm |- *. clearbody d. destruct d as [|kv d'] eqn:Ed.
  - apply Forall2_same_length_lookup. split; [done|]. intros i r r' Hr Hr'. right. split; [|congruence].
    intros cm Hcm. apply list_elem_of_lookup_2 in Hr. specialize (Hf r Hr). rewrite Hcm in Hf. done.
  - rewrite <- Ed in *. clear Ed. apply Forall2_fmap_r, Forall2_same_length_lookup. split; [done|]. intros i r r0 Hr Hr0.
    assert (r0 = r) as -> by congruence. clear Hr0. apply list_elem_of_lookup_2 in Hr. unfold compose. rewrite Hf by done.
    destruct (eligible r) as [cm|] eqn:E; [|by right].
    assert (Hin : cm ∈ snd <$> d) by (rewrite Hd; apply list_elem_of_omap; by exists r).
    rewrite <- (eligible_name _ _ E). pose proof (mirrored_names_iff (snd <$> d) cm Hm Hin) as Hiff.
    case_bool_decide as Hb.
    + left. exists cm. split; [done|]. split; [by apply Hiff|done].
    + right. split; [|done]. intros cm' [= <-]. by rewrite <- Hiff.
Qed.

(** ** The books of the report *)

(** Scores are 0 to 3 and types are words without a bar. *)
Definition well_classified (r : mutant) : Prop :=
  match mr_classification_score r with
  | Some score => score ∈ [3; 2; 1; 0] /\ barless (or_else (mr_mutation_type r) "unknown") = true
  | None => True
  end.

Lemma survivor_fields r cm :
  survivor r = Some cm -> cm_name cm = mr_name r /\
  (well_classified r -> cm_score cm ∈ [3; 2; 1; 0] /\ barless (cm_type cm) = true).
Proof.
  unfold survivor, well_classified, place_of. intros H. repeat case_match; simplify_eq. by split.
Qed.

(** Every survivor is in one class. *)
Lemma class_of_one r :
  well_classified r ->
  (if decide (in_class (Some 0) r) then 1 else 0) + (if decide (in_class (Some 1) r) then 1 else 0) +
  (if decide (in_class (Some 2) r) then 1 else 0) + (if decide (in_class (Some 3) r) then 1 else 0) +
  (if decide (benign_survivor r) then 1 else 0) + (if decide (in_class None r) then 1 else 0) =
  (if decide (mr_status r <> "killed") then 1 else 0).
Proof.
  intros Hr. destruct (decide (mr_status r = "killed")) as [E|E].
  { rewrite !decide_False by (unfold in_class, benign_survivor; tauto). done. }
  rewrite (decide_True (P := mr_status r <> "killed")) by done. destruct (mr_is_known_benign r) eqn:Eb.
  { rewrite (decide_True (P := benign_survivor r)), !decide_False by (unfold in_class, benign_survivor; intuition congruence). done. }
  rewrite (decide_False (P := benign_survivor r)) by (unfold benign_survivor; intuition congruence).
  assert (Hc : forall s, mr_classification_score r = s -> in_class s r) by (unfold in_class; tauto).
  assert (Hc' : forall s, mr_classification_score r <> s -> ~ in_class s r) by (unfold in_class; tauto).
  unfold well_classified in Hr. destruct (mr_classification_score r) as [s|] eqn:Es.
  - destruct Hr as [Hr _]. repeat (apply elem_of_cons in Hr as [->|Hr];
      [match type of Es with _ = Some ?v => rewrite (decide_True (P := in_class (Some v) r)) by (by apply Hc) end;
       rewrite !decide_False by (by apply Hc'); done|]). by apply elem_of_nil in Hr.
  - rewrite (decide_True (P := in_class None r)) by (by apply Hc). rewrite !decide_False by (by apply Hc'). done.
Qed.

Lemma classes_total records :
  Forall well_classified records ->
  number (in_class (Some 0)) records + number (in_class (Some 1)) records + number (in_class (Some 2)) records +
  number (in_class (Some 3)) records + number benign_survivor records + number (in_class None) records =
  number (fun r => mr_status r <> "killed") records.
Proof.
  induction records as [|r l IH] using rev_ind; intros Hw; [done|]. apply Forall_app in Hw as [Hl [Hr _]%Forall_cons].
  rewrite !number_snoc, <- (class_of_one r Hr), <- (IH Hl). lia.
Qed.

Section Books.
Context {F : Rounding}.

(** A file's mutants, and those of a status. *)
Definition in_file (path : string) (kv : string * (string * option Q * string)) : Prop := path_of kv = path.
Definition in_file_with (path status : string) (kv : string * (string * option Q * string)) : Prop :=
  path_of kv = path /\ status_of kv = status.
#[export] Instance in_file_dec p kv : Decision (in_file p kv) := ltac:(unfold in_file; apply _).
#[export] Instance in_file_with_dec p s kv : Decision (in_file_with p s kv) := ltac:(unfold in_file_with; apply _).

Lemma counted_in all_meta path status :
  count_of (counter_of (path_of <$> filter (fun kv => status_of kv = status) all_meta)) path =
    number (in_file_with path status) all_meta.
Proof.
  rewrite count_of_counter. unfold number. f_equal. induction all_meta as [|kv l IH]; [done|]. rewrite !filter_cons.
  destruct (decide (status_of kv = status)) as [Es|Es]; cbn [fmap list_fmap]; rewrite ?filter_cons.
  - repeat case_decide; cbn [length]; unfold in_file_with in *; try lia; exfalso; tauto.
  - rewrite (decide_False (P := in_file_with path status kv)) by (by intros []). done.
Qed.

Lemma file_summary_fields all_meta fs :
  fs ∈ build_file_summaries all_meta ->
  fs_total fs = number (in_file (fs_path fs)) all_meta /\ fs_killed fs = number (in_file_with (fs_path fs) "killed") all_meta /\
  fs_survived fs = number (in_file_with (fs_path fs) "survived") all_meta /\
  fs_no_tests fs = number (in_file_with (fs_path fs) "no tests") all_meta /\
  fs_timeout fs = number (in_file_with (fs_path fs) "timeout") all_meta.
Proof.
  intros ([path total] & -> & Hin)%list_elem_of_fmap. unfold by_count in Hin. rewrite sort_le_perm in Hin.
  apply counter_elem in Hin. cbn [fs_total fs_path fs_killed fs_survived fs_no_tests fs_timeout]. rewrite !counted_in, Hin.
  assert (E : number (fun x => x = path) (path_of <$> all_meta) = number (in_file path) all_meta).
  { unfold number. f_equal. clear. induction all_meta as [|kv l IH]; [done|]. cbn [fmap list_fmap]. rewrite !filter_cons.
    repeat case_decide; cbn [length]; unfold in_file in *; try lia; exfalso; tauto. }
  by rewrite E.
Qed.

Lemma file_summaries_shape all_meta :
  NoDup (fs_path <$> build_file_summaries all_meta) /\
  sumZ (fs_total <$> build_file_summaries all_meta) = Z.of_nat (length all_meta) /\
  StronglySorted (fun a b => fs_total b <= fs_total a) (build_file_summaries all_meta).
Proof.
  unfold build_file_summaries. set (d := counter_of (path_of <$> all_meta)).
  assert (Hp : by_count d ≡ₚ d) by apply sort_le_perm.
  assert (E1 : forall g : string * Z -> file_summary, (forall kv, fs_path (g kv) = fst kv) -> NoDup (fs_path <$> (g <$> by_count d))).
  { intros g Hg. rewrite <- list_fmap_compose, (list_fmap_ext (fs_path ∘ g) fst (by_count d)) by (intros ?? _; apply Hg).
    rewrite Hp. apply counter_nodup. }
  assert (E2 : forall g : string * Z -> file_summary, (forall kv, fs_total (g kv) = snd kv) ->
      sumZ (fs_total <$> (g <$> by_count d)) = Z.of_nat (length all_meta) /\
      StronglySorted (fun a b => fs_total b <= fs_total a) (g <$> by_count d)).
  { intros g Hg. split.
    - rewrite <- list_fmap_compose, (list_fmap_ext (fs_total ∘ g) snd (by_count d)) by (intros ?? _; apply Hg).
      rewrite (sum_perm _ (snd <$> d)) by (by rewrite Hp). unfold d. by rewrite counter_sum, length_fmap.
    - assert (Hs : StronglySorted (fun a b => (snd b <=? snd a) = true) (by_count d)).
      { apply sort_le_sorted; cbn beta; intros *; rewrite ?Z.leb_gt, ?Z.leb_le; lia. }
      clear Hp E1. induction Hs as [|x l Hl IH Hx]; cbn; [constructor|]. constructor; [done|]. apply Forall_fmap.
      eapply Forall_impl; [exact Hx|]. intros y Hy. unfold compose. rewrite !Hg. apply Z.leb_le, Hy. }
  split; [apply E1|apply E2]; by intros [].
Qed.

(** The distribution of the types, titled "non-killed", counts killed mutants
    too: a total is the number of all records of the type, and every mutant
    whose diff was generated has one. *)
Theorem types_count_killed (records : list mutant) (mtype : string) (total survived : Z) :
  (mtype, (total, survived)) ∈ build_mutation_type_summary records ->
  total = number (fun r => mr_mutation_type r = Some mtype) records.
Proof.
  intros ([t n] & [= -> -> _] & Hin)%list_elem_of_fmap. unfold by_count in Hin. rewrite sort_le_perm in Hin.
  apply counter_elem in Hin as ->. unfold number. f_equal. clear. induction records as [|r l IH]; [done|].
  cbn [omap list_omap]. rewrite (filter_cons (fun r => mr_mutation_type r = Some t)). destruct (mr_mutation_type r) as [t'|].
  - rewrite filter_cons. repeat case_decide; cbn [length]; congruence.
  - rewrite decide_False by done. done.
Qed.

(** Tests without kills are meant to be listed, slowest first, but the table
    they are taken from only has tests with kills. *)
Theorem no_zero_kill_tests (killed_by : pydict (list string)) (durations : pydict Q) (te : test_efficiency) :
  te ∈ build_test_effectiveness killed_by durations -> 0 < te_kills te.
Proof.
  unfold build_test_effectiveness. rewrite sort_le_perm. intros ([t n] & -> & Hin)%list_elem_of_fmap. cbn.
  assert (Ht : t ∈ mjoin (snd <$> killed_by)) by (apply counter_keys; by apply (list_elem_of_fmap_2 fst) in Hin).
  apply counter_elem in Hin as ->. unfold number.
  assert (Hf : t ∈ filter (fun x => x = t) (mjoin (snd <$> killed_by))) by (by apply list_elem_of_filter).
  destruct (filter _ _); [by apply elem_of_nil in Hf|cbn; lia].
Qed.

(** The text lists the mutants of every place. *)
Lemma listing_exact (records : list mutant) :
  NoDup (mr_name <$> records) -> Forall well_classified records -> Forall benign_explained records ->
  let ml := list_mutants records in
  se_score <$> ml_sections ml = filter (fun s => Exists (fun r => place_of r = Scored s) records) [3; 2; 1; 0] /\
  (forall x, x ∈ ml_sections ml ->
     cm_name <$> listed x ≡ₚ mr_name <$> placed (Scored (se_score x)) records /\ se_count x = length (listed x)) /\
  cm_name ∘ fst <$> ml_benign ml = mr_name <$> placed Benign records /\
  ml_timeouts ml = shorten_name ∘ mr_name <$> placed TimedOut records /\
  ml_suspicious ml = shorten_name ∘ mr_name <$> placed Suspicious records /\
  ml_no_tests ml = shorten_name ∘ mr_name <$> placed NoTests records.
Proof.
  intros Hn Hw Hb. cbn zeta. unfold list_mutants, text_parts_of. set (alive := filter (fun r => mr_status r <> "killed") records).
  assert (Hin : forall r, r ∈ alive -> r ∈ records) by (by intros r [_ Hr]%list_elem_of_filter).
  assert (Ha : forall p, p <> Dead -> placed p alive = placed p records) by (intros; by apply placed_alive).
  destruct (text_fold alive) as (E1 & E2 & E3 & E4 & E5).
  { apply Forall_forall. by intros r [Hr _]%list_elem_of_filter. }
  { rewrite Forall_forall in Hb. apply Forall_forall. auto. }
  cbn [ml_sections ml_timeouts ml_suspicious ml_no_tests ml_benign]. rewrite E1, E2, E3, E4, E5, !Ha by done.
  assert (Hs : NoDup (cm_name <$> omap survivor alive)).
  { apply (nodup_omap survivor mr_name cm_name); [intros r cm Hs; by apply survivor_fields in Hs as [-> _]|].
    eapply sublist_NoDup; [exact Hn|]. apply fmap_sublist, sublist_filter. }
  assert (Ht : Forall (fun m => barless (cm_type m) = true) (omap survivor alive)).
  { apply Forall_forall. intros cm (r & Hr & Hs')%list_elem_of_omap. apply survivor_fields in Hs' as [_ Hs'].
    rewrite Forall_forall in Hw. by apply Hs', Hw, Hin. }
  split_and!; [| |done| | |]; [| |by rewrite list_fmap_compose..].
  - rewrite sections_scores. apply filter_iff_in. intros s _. rewrite survivor_placed. rewrite !Exists_exists. split.
    + intros (r & Hr & Hp). exists r. auto.
    + intros (r & Hr & Hp). exists r. split; [|done]. apply list_elem_of_filter. split; [|done].
      intros Hk. unfold place_of in Hp. by rewrite Hk in Hp.
  - intros x Hx. destruct (sections_listed _ x Hs Ht Hx) as [Hl Hc]. split; [|done]. by rewrite Hl, survivors_of, Ha.
Qed.
End Books.

(** ** A small run *)

#[local] Existing Instance binary64.

Definition demo_record (id status : string) (killed_by : list string) (score : option Z) (type : option string) : mutant :=
  MutantRecord id (shorten_name id) status "limiters.py" None None None killed_by false None None None score type None false None None.
Definition demo_records : list mutant :=
  [demo_record (demo_id "limiters" ("DrainLoop" +:+ mangled_bar +:+ "wake__mutmut_3")) "survived" [] (Some 2) (Some "operator_swap");
   demo_record (demo_id "async_limiters" ("AsyncDrainLoop" +:+ mangled_bar +:+ "wake__mutmut_3")) "killed" ["t1"] (Some 2) (Some "operator_swap");
   demo_record (demo_id "base" ("Base" +:+ mangled_bar +:+ "start__mutmut_1")) "survived" [] (Some 3) (Some "numeric_increment");
   demo_record (demo_id "base" ("Base" +:+ mangled_bar +:+ "stop__mutmut_1")) "timeout" [] (Some 2) (Some "name_swap")].

Lemma demo_names : NoDup (mr_name <$> demo_records).
Proof. by apply (bool_decide_unpack _); vm_compute. Qed.

(** The survivor carries the key of its killed twin. *)
Lemma mirror_keys_exact_witness :
  mr_mirror_key <$> attach_mirror_keys demo_records =
    [Some "DrainLoop.wake__mutmut_3|2|operator_swap"; Some "DrainLoop.wake__mutmut_3|2|operator_swap"; None; None] /\
  length (attach_mirror_keys demo_records) = 4%nat.
Proof.
  split; [by vm_compute|]. pose proof (mirror_keys_exact demo_records demo_names) as H.
  apply Forall2_length in H. by rewrite <- H.
Defined.

