(* ===== verification/Classify.v ===== *)
(** * Classify: the type and the score of a mutant (scripts/classify_mutants.py)

    From the removed, added and context lines of a diff, and the operator that
    was recorded when the mutant was made, if any, the classifier derives a
    type, a description and a score.  Texts are sequences of code points below
    256. *)

From S2P Require Import Prelude Float Text Json Py Base Distributed Importing Kills Regex Mirrors Report.

Open Scope Z_scope.
Open Scope rl_scope.

(** ** Methods of strings *)

Fixpoint rev_string (s acc : string) : string := match s with EmptyString => acc | String c s' => rev_string s' (String c acc) end.
Fixpoint lstrip (p : ascii -> bool) (s : string) : string :=
  match s with String c s' => if p c then lstrip p s' else s | EmptyString => estr end.
Definition rstrip (p : ascii -> bool) (s : string) : string := rev_string (lstrip p (rev_string s estr)) estr.
(** [s.strip()] *)
Definition strip (s : string) : string := rstrip is_space (lstrip is_space s).
Definition comma : ascii := ",".

Definition ends_with (suffix s : string) : bool := String.eqb (string_drop (String.length s - String.length suffix) s) suffix.

(** [s.replace(old, new, 1)], for an [old] that is not empty *)
Fixpoint replace_first (old new s : string) : string :=
  if String.prefix old s then new +:+ string_drop (String.length old) s
  else match s with EmptyString => estr | String c s' => String c (replace_first old new s') end.

Definition shift_code (d : Z) (c : ascii) : ascii := ascii_of_N (Z.to_N (code c + d)).
Definition lower_char (c : ascii) : ascii :=
  let n := code c in if between 65 90 n || (between 192 222 n && negb (n =? 215)) then shift_code 32 c else c.
Fixpoint map_string (f : ascii -> ascii) (s : string) : string :=
  match s with EmptyString => estr | String c s' => String (f c) (map_string f s') end.
(** [s.lower()] *)
Definition lower : string -> string := map_string lower_char.
(** [s.upper()]; none where a character of the result is not below 256. *)
Fixpoint upper (s : string) : option string :=
  match s with
  | EmptyString => Some estr
  | String c s' =>
      match upper s' with
      | None => None
      | Some t =>
          let n := code c in
          if (n =? 181) || (n =? 255) then None
          else if n =? 223 then Some ("SS" +:+ t)
          else Some (String (if between 97 122 n || (between 224 254 n && negb (n =? 247)) then shift_code (-32) c else c) t)
      end
  end.

(** [s.splitlines()]: the characters that end a line *)
Definition line_end (c : ascii) : bool := between 10 13 (code c) || between 28 30 (code c) || (code c =? 133).
Fixpoint splitlines (s : string) : list string :=
  match s with
  | EmptyString => []
  | String c s' =>
      if line_end c then
        estr :: match s' with
                | String c' s'' => if (code c =? 13) && (code c' =? 10) then splitlines s'' else splitlines s'
                | EmptyString => []
                end
      else match splitlines s' with
           | l :: ls =>
               match s' with
               | String c' _ => String c l :: ls
               | EmptyString => [String c estr]
               end
           | [] => [String c estr]
           end
  end.

(** ** Diffs *)

(** [_extract_diff_lines], and the lines before and after the mutation. *)
Fixpoint in_hunks (in_hunk : bool) (ls : list string) : list string :=
  match ls with
  | [] => []
  | l :: ls' =>
      if String.prefix "@@" l then in_hunks true ls'
      else if in_hunk then l :: in_hunks true ls' else in_hunks false ls'
  end.
Definition hunk_lines (body : string) : list string := in_hunks false (splitlines body).
Definition removed_line (l : string) : bool := String.prefix "-" l && negb (String.prefix "---" l).
Definition added_line (l : string) : bool := String.prefix "+" l && negb (String.prefix "+++" l).
Definition context_line (l : string) : bool := String.prefix " " l.
Definition tails (ls : list string) : list string := string_drop 1 <$> ls.

Definition extract_diff_lines (body : string) : list string * list string * list string :=
  let ls := hunk_lines body in
  (tails (List.filter removed_line ls), tails (List.filter added_line ls), tails (List.filter context_line ls)).

(** The first component of [_split_context_around_mutation]. *)
Fixpoint before_mutation (ls : list string) : list string :=
  match ls with
  | [] => []
  | l :: ls' =>
      if removed_line l || added_line l then []
      else if context_line l then string_drop 1 l :: before_mutation ls' else before_mutation ls'
  end.
Definition context_before (context_lines : list string) (body : string) : list string :=
  if String.eqb body estr then context_lines else before_mutation (hunk_lines body).

(** ** String mutations *)

Definition quoted_pattern : re :=
  Seq (Lit quote_char)
    (Seq (Group (Star (Alt (Class (fun c => negb (Ascii.eqb c quote_char) && negb (Ascii.eqb c backslash)))
                           (Seq (Lit backslash) Any)))) (Lit quote_char)).

(** [_extract_quoted_strings]: content, prefix and suffix *)
Definition extract_quoted_strings (line : string) : list (string * string * string) :=
  omap (fun '(_, y) => match pt_group y with
                       | Some (i, j) => Some (substring i j line, string_take i line, string_drop j line)
                       | None => None
                       end) (find_iter quoted_pattern line).

Inductive string_mutation := XXWrap | Lowercase | Uppercase.
Definition string_mutation_name (m : string_mutation) : string :=
  match m with XXWrap => "xx_wrap" | Lowercase => "lowercase" | Uppercase => "uppercase" end.

Definition string_pair (o n : string * string * string) : option string_mutation :=
  let '(old_str, old_pre, old_suf) := o in
  let '(new_str, new_pre, new_suf) := n in
  if String.eqb old_str new_str then None
  else if negb (String.eqb old_pre new_pre) || negb (String.eqb old_suf new_suf) then None
  else if String.eqb new_str ("XX" +:+ old_str +:+ "XX") then Some XXWrap
  else match old_str with
       | EmptyString => None
       | String c rest =>
           if String.eqb new_str (String (lower_char c) rest) && negb (Ascii.eqb c (lower_char c)) then Some Lowercase
           else if String.eqb new_str (lower old_str) then Some Lowercase
           else if bool_decide (upper old_str = Some new_str) then Some Uppercase
           else None
       end.

Fixpoint first_some {A B} (f : A -> option B) (l : list A) : option B :=
  match l with [] => None | x :: l' => match f x with Some y => Some y | None => first_some f l' end end.

(** [if len(old_lines) != 1 or len(new_lines) != 1: return None] *)
Definition single {A} (old_lines new_lines : list string) (f : string -> string -> option A) : option A :=
  match old_lines, new_lines with
  | [old], [new] => f (strip old) (strip new)
  | _, _ => None
  end.

(** [_detect_string_mutation] *)
Definition detect_string_mutation (old_lines new_lines : list string) : option string_mutation :=
  single old_lines new_lines (fun old new =>
    let old_strings := extract_quoted_strings old in
    let new_strings := extract_quoted_strings new in
    if (length old_strings =? length new_strings)%nat then
      first_some (fun on => string_pair (fst on) (snd on)) (zip old_strings new_strings)
    else None).

(** ** Contexts *)

Definition space : re := Class is_space.
Definition def_signature_pattern : re :=
  Seq Start (Seq (Star space) (Seq (Word "def") (Seq (Plus space) (Seq (Plus (Class is_word)) (Word "("))))).

(** [_is_default_param_mutation] *)
Definition is_default_param_mutation (old_lines new_lines : list string) : bool :=
  match old_lines, new_lines with
  | [old], [new] =>
      found def_signature_pattern old &&
      match String.index 0 "(" old, String.index 0 "(" new with
      | Some i, Some j => String.eqb (string_take i old) (string_take j new) && negb (String.eqb old new)
      | _, _ => false
      end
  | _, _ => false
  end.

Definition logger_pattern : re :=
  Seq (Word "logger.") (Seq (Group (Words ["debug"; "info"; "warning"; "error"; "exception"; "critical"])) (Word "(")).
Definition raise_pattern : re :=
  Alt (Seq Bound (Seq (Word "raise") Bound)) (Alt (Seq Bound (Seq (Word "Exception") Bound)) (Seq Bound (Word "Error("))).
Definition format_spec_pattern : re :=
  Seq (Class (fun c => Ascii.eqb c "'" || Ascii.eqb c quote_char)) (Seq (Star Any) (Seq (Word "%") (OneOf "sdfiexXog"))).
Definition quoted (s : string) : re := Seq (Lit quote_char) (Seq (Word s) (Lit quote_char)).
Definition asgi_body_pattern : re :=
  Seq (quoted "type") (Seq (Star space) (Seq (Word ":") (Seq (Star space) (quoted "http.response.body")))).

(** [_old_is_format_string] *)
Definition old_is_format_string (old_lines : list string) : bool := existsb (found format_spec_pattern) old_lines.
(** [_has_raise_context] *)
Definition has_raise_context (context_lines old_lines : list string) : bool := existsb (found raise_pattern) (context_lines ++ old_lines).

(** [_is_byte_string_mutation] *)
Definition is_byte_string_mutation (old_line new_line : string) : bool :=
  let old_strings := extract_quoted_strings (strip old_line) in
  let new_strings := extract_quoted_strings (strip new_line) in
  (length old_strings =? length new_strings)%nat &&
  existsb (fun on => let '((old_str, old_pre, _), (new_str, _, _)) := on in
                     negb (String.eqb old_str new_str) && ends_with (String "b" (String quote_char estr)) old_pre)
    (zip old_strings new_strings).

(** [_has_asgi_body_context] *)
Definition has_asgi_body_context (context_lines old_lines new_lines : list string) : bool :=
  existsb (found asgi_body_pattern) (context_lines ++ old_lines) &&
  match old_lines, new_lines with [old], [new] => is_byte_string_mutation old new | _, _ => false end.

(** [_has_logger_format_context] *)
Definition has_logger_format_context (context_lines old_lines : list string) (body : string) : bool :=
  existsb (found format_spec_pattern) (context_before context_lines body ++ old_lines) &&
  existsb (fun line => let stripped := strip line in ends_with "," stripped || ends_with ")" stripped) old_lines.

(** [_is_exc_info_swap] *)
Definition is_exc_info_swap (old_lines : list string) : bool := existsb (contains "exc_info=") old_lines.

(** The level of the first logger call in a line. *)
Definition level_in (line : string) : option string :=
  match search logger_pattern line with Some (_, y) => Some (group_of line y) | None => None end.
(** [_get_logger_level] *)
Definition get_logger_level (context_lines old_lines : list string) (body : string) : option string :=
  first_some level_in (old_lines ++ context_before context_lines body).

(** ** The detectors *)

Definition arrow (a b : string) : string := a +:+ "  ->  " +:+ b.

(** [_detect_argument_removal] *)
Definition detect_argument_removal (old_lines new_lines : list string) : option string :=
  if (length old_lines <=? length new_lines)%nat then None
  else
    let removed_content := (fun line => strip (rstrip (Ascii.eqb comma) (strip line))) <$> old_lines in
    match List.filter (fun r => negb (String.eqb r estr) && negb (String.eqb r ")")) removed_content with
    | [] => None
    | r :: _ => Some ("removed " +:+ r +:+ " argument")
    end.

(** [_OPERATOR_PAIRS] *)
Definition operator_pairs : list (string * string) :=
  [("<", "<="); ("<=", "<"); (">", ">="); (">=", ">"); ("==", "!="); ("!=", "=="); ("+", "-"); ("-", "+"); ("*", "/"); ("/", "*");
   ("//", "/"); ("%", "/"); ("**", "*"); ("&", "|"); ("|", "&"); ("^", "&"); ("<<", ">>"); (">>", "<<"); ("and", "or"); ("or", "and");
   ("+=", "-="); ("-=", "+="); ("*=", "/="); ("/=", "*="); ("//=", "/="); ("%=", "/="); ("<<=", ">>="); (">>=", "<<=");
   ("is not", "is"); ("is", "is not"); ("not in", "in"); ("in", "not in")].

(** [_detect_operator_swap] *)
Definition detect_operator_swap (old_lines new_lines : list string) : option string :=
  single old_lines new_lines (fun old new =>
    first_some (fun '(old_op, new_op) =>
                  if String.eqb (replace_first old_op new_op old) new && negb (String.eqb old new)
                  then Some (arrow old_op new_op) else None) operator_pairs).

Definition digits : re := Plus (Class is_digit).
Definition number_pattern : re := Seq Bound (Seq (Group (Seq digits (Opt (Seq (Word ".") digits)))) Bound).
Definition find_numbers (line : string) : list string := (fun '(_, y) => group_of line y) <$> find_iter number_pattern line.

Section Rounded.
Context {F : Rounding}.

(** [float(s)] of an integer or decimal literal *)
Definition float_of (s : string) : Q :=
  let '(n, _, rest) := scan 0 0 s in
  match rest with
  | String _ frac => let '(m, k, _) := scan n 0 frac in rnd (inject_Z m / inject_Z (10 ^ Z.of_nat k))
  | EmptyString => rnd (inject_Z n)
  end.

(** [_detect_numeric_increment] *)
Definition detect_numeric_increment (old_lines new_lines : list string) : option string :=
  single old_lines new_lines (fun old new =>
    let old_nums := find_numbers old in
    let new_nums := find_numbers new in
    if (length old_nums =? length new_nums)%nat then
      match List.filter (fun '(o, n) => negb (String.eqb o n) && Qeq_bool (float_of n) (float_of o ⊕ 1)) (zip old_nums new_nums) with
      | [(o, n)] => Some (arrow o n)
      | _ => None
      end
    else None).
End Rounded.

Definition none_pattern : re := Seq Bound (Seq (Word "None") Bound).

(** [_detect_value_to_none] *)
Definition detect_value_to_none (old_lines new_lines : list string) : option string :=
  single old_lines new_lines (fun old new =>
    if negb (contains "None" new) || contains "None" old then None
    else first_some (fun '(a, b) =>
           let prefix := string_take (pt_pos a) new in
           let suffix := string_drop (pt_pos b) new in
           if String.prefix prefix old && ends_with suffix old then
             let replaced := substring (String.length prefix) (String.length old - String.length suffix) old in
             if String.eqb (strip replaced) estr then None else Some (arrow (strip replaced) "None")
           else None) (find_iter none_pattern new)).

(** [_detect_boolean_swap] *)
Definition detect_boolean_swap (old_lines new_lines : list string) : option string :=
  single old_lines new_lines (fun old new =>
    if String.eqb (replace_first "True" "False" old) new && contains "True" old then Some (arrow "True" "False")
    else if String.eqb (replace_first "False" "True" old) new && contains "False" old then Some (arrow "False" "True")
    else None).

(** [_detect_keyword_swap] *)
Definition detect_keyword_swap (old_lines new_lines : list string) : option string :=
  single old_lines new_lines (fun old new =>
    first_some (fun '(old_kw, new_kw) => if String.eqb (replace_first old_kw new_kw old) new then Some (arrow old_kw new_kw) else None)
      [("break", "return"); ("continue", "break")]).

(** [_detect_unary_removal] *)
Definition detect_unary_removal (old_lines new_lines : list string) : option string :=
  single old_lines new_lines (fun old new =>
    if String.eqb (replace_first "not " estr old) new && contains "not " old then Some "removed 'not' operator"
    else if String.eqb (replace_first "~" estr old) new && contains "~" old then Some "removed '~' operator"
    else None).

(** [_detect_augmented_to_simple] *)
Definition detect_augmented_to_simple (old_lines new_lines : list string) : option string :=
  single old_lines new_lines (fun old new =>
    first_some (fun op => if contains op old && String.eqb (replace_first op "=" old) new then Some (arrow op "=") else None)
      ["+="; "-="; "*="; "/="; "//="; "%="; "**="; "&="; "|="; "^="; "<<="; ">>="]).

Definition method_pairs : list (string * string) :=
  [("lower", "upper"); ("upper", "lower"); ("lstrip", "rstrip"); ("rstrip", "lstrip"); ("find", "rfind"); ("rfind", "find");
   ("ljust", "rjust"); ("rjust", "ljust"); ("index", "rindex"); ("rindex", "index"); ("removeprefix", "removesuffix");
   ("removesuffix", "removeprefix"); ("partition", "rpartition"); ("rpartition", "partition"); ("split", "rsplit"); ("rsplit", "split")].

(** [_detect_string_method_swap] *)
Definition detect_string_method_swap (old_lines new_lines : list string) : option string :=
  single old_lines new_lines (fun old new =>
    first_some (fun '(old_method, new_method) =>
                  let call m := "." +:+ m +:+ "(" in
                  if contains (call old_method) old && String.eqb (replace_first (call old_method) (call new_method) old) new
                  then Some (arrow ("." +:+ old_method +:+ "()") ("." +:+ new_method +:+ "()")) else None) method_pairs).

(** ** Type, description and score *)

(** [MutationDiff] and [MutationKind]; of the latter the fields that are used. *)
Record mutation_diff := MutationDiff {
  md_body : string; md_old_lines : list string; md_new_lines : list string; md_context_lines : list string;
}.
Record mutation_kind := MutationKind { mk_operator : option string; mk_is_default_param : bool }.

(** [_OPERATOR_TO_TYPE] *)
Definition operator_to_type : pydict string :=
  [("operator_number", "numeric_increment"); ("operator_swap_op", "operator_swap"); ("operator_arg_removal", "argument_removal");
   ("operator_remove_unary_ops", "unary_removal"); ("operator_augmented_assignment", "augmented_assignment");
   ("operator_symmetric_string_methods_swap", "string_method_swap"); ("operator_unsymmetrical_string_methods_swap", "string_method_swap");
   ("operator_keywords", "keyword_swap"); ("operator_dict_arguments", "dict_keyword_xx_wrap"); ("operator_lambda", "lambda_body");
   ("operator_match", "match_case_drop")].

Definition first_line (empty : string) (ls : list string) : string := match ls with l :: _ => strip l | [] => empty end.
(** The first lines of both sides, [(empty)] where there are none. *)
Definition both_lines (diff : mutation_diff) : string :=
  arrow (first_line "(empty)" (md_old_lines diff)) (first_line "(empty)" (md_new_lines diff)).

(** [_fallback_desc] *)
Definition fallback_desc (diff : mutation_diff) : string :=
  let old := md_old_lines diff in
  let new := md_new_lines diff in
  if (1 <? length old)%nat || (1 <? length new)%nat
  then print_Z (Z.of_nat (length old)) +:+ " line(s) removed, " +:+ print_Z (Z.of_nat (length new)) +:+ " line(s) added"
  else both_lines diff.

Definition or_fallback (diff : mutation_diff) (d : option string) : string := or_else d (fallback_desc diff).

Section Cascade.
Context {F : Rounding}.

(** [_describe] *)
Definition describe (diff : mutation_diff) (mutation_type : string) : string :=
  let old := md_old_lines diff in
  let new := md_new_lines diff in
  if String.eqb mutation_type "argument_removal" then or_fallback diff (detect_argument_removal old new)
  else if String.eqb mutation_type "operator_swap" then or_fallback diff (detect_operator_swap old new)
  else if String.eqb mutation_type "string_method_swap" then or_fallback diff (detect_string_method_swap old new)
  else if String.eqb mutation_type "unary_removal" then or_fallback diff (detect_unary_removal old new)
  else if String.eqb mutation_type "augmented_assignment" then or_fallback diff (detect_augmented_to_simple old new)
  else if String.eqb mutation_type "keyword_swap" then or_fallback diff (detect_keyword_swap old new)
  else if String.eqb mutation_type "numeric_increment" then or_fallback diff (detect_numeric_increment old new)
  else if String.prefix "string_" mutation_type then arrow (first_line estr old) (first_line estr new)
  else fallback_desc diff.

(** [_resolve_type_from_diff] *)
Definition detectors : list (string * (list string -> list string -> option string)) :=
  [("argument_removal", detect_argument_removal); ("operator_swap", detect_operator_swap); ("boolean_swap", detect_boolean_swap);
   ("keyword_swap", detect_keyword_swap); ("unary_removal", detect_unary_removal); ("augmented_assignment", detect_augmented_to_simple);
   ("string_method_swap", detect_string_method_swap); ("value_to_none", detect_value_to_none);
   ("numeric_increment", detect_numeric_increment)].
Definition resolve_type_from_diff (diff : mutation_diff) : string * string :=
  let old := md_old_lines diff in
  let new := md_new_lines diff in
  match detect_string_mutation old new with
  | Some m => ("string_" +:+ string_mutation_name m, arrow (first_line estr old) (first_line estr new))
  | None =>
      match first_some (fun '(mutation_type, detect) => pair mutation_type <$> detect old new) detectors with
      | Some r => r
      | None => ("unknown", fallback_desc diff)
      end
  end.

(** [_resolve_type] *)
Definition resolve_type (diff : mutation_diff) (captured : option mutation_kind) : string * string :=
  let old := md_old_lines diff in
  let new := md_new_lines diff in
  match or_else (captured ≫= mk_operator) estr with
  | EmptyString => resolve_type_from_diff diff
  | op =>
      match dict_find op operator_to_type with
      | Some mutation_type => (mutation_type, describe diff mutation_type)
      | None =>
          if String.eqb op "operator_string" then
            let mutation_type :=
              match detect_string_mutation old new with
              | Some m => "string_" +:+ string_mutation_name m
              | None => "string_unknown"
              end in
            (mutation_type, describe diff mutation_type)
          else if String.eqb op "operator_name" then
            match detect_boolean_swap old new with
            | Some bool_desc => ("boolean_swap", bool_desc)
            | None => ("name_swap", fallback_desc diff)
            end
          else if String.eqb op "operator_assignment" then
            match detect_value_to_none old new with
            | Some none_desc => ("value_to_none", none_desc)
            | None => ("value_to_empty_string", fallback_desc diff)
            end
          else resolve_type_from_diff diff
      end
  end.

(** The rules for a value replaced by [None] near a logger. *)
Definition none_in_logger (diff : mutation_diff) : option string :=
  let old := md_old_lines diff in
  match detect_value_to_none old (md_new_lines diff) with
  | None => None
  | Some none_desc =>
      match get_logger_level (md_context_lines diff) old (md_body diff) with
      | Some level =>
          if old_is_format_string old then Some ("format string  ->  None on logger." +:+ level)
          else Some (none_desc +:+ " (logger." +:+ level +:+ " argument)")
      | None =>
          if has_logger_format_context (md_context_lines diff) old (md_body diff)
          then Some (none_desc +:+ " (logger format argument)") else None
      end
  end.

(** [_score] *)
Definition score (diff : mutation_diff) (mutation_type : string) (captured : option mutation_kind) (base_description : string) : Z * string :=
  let old := md_old_lines diff in
  let new := md_new_lines diff in
  let ctx := md_context_lines diff in
  let body := md_body diff in
  if match captured with Some c => mk_is_default_param c | None => is_default_param_mutation old new end then (3, both_lines diff)
  else if String.prefix "string_" mutation_type && negb (String.eqb mutation_type "string_unknown") then
    let readable := replace "_" " " (string_drop (String.length "string_") mutation_type) in
    match (if old_is_format_string old then get_logger_level ctx old body else None) with
    | Some level => (0, readable +:+ " on logger." +:+ level +:+ " format string")
    | None =>
        if has_raise_context ctx old then (0, readable +:+ " on error message")
        else if has_asgi_body_context ctx old new then (0, readable +:+ " on ASGI response body text")
        else if has_logger_format_context ctx old body then (0, readable +:+ " on logger format argument")
        else (2, base_description)
    end
  else if String.eqb mutation_type "boolean_swap" && is_exc_info_swap old then (0, "exc_info boolean swap (cosmetic)")
  else match none_in_logger diff with
       | Some d => (0, d)
       | None => if String.eqb mutation_type "argument_removal" then (1, base_description) else (2, base_description)
       end.

(** [_classify] *)
Definition classify_mutant (diff : mutation_diff) (captured : option mutation_kind) : Z * string * string :=
  let '(mutation_type, base_description) := resolve_type diff captured in
  let '(s, description) := score diff mutation_type captured base_description in
  (s, mutation_type, description).
End Cascade.

(** ** Every score and type is one the report knows *)

Lemma first_some_elem {A B} (f : A -> option B) l y : first_some f l = Some y -> exists x, x ∈ l /\ f x = Some y.
Proof.
  induction l as [|x l IH]; cbn; [done|]. destruct (f x) as [z|] eqn:E.
  - intros [= ->]. exists x. split; [by left|done].
  - intros (x' & Hx & Hf)%IH. exists x'. split; [by right|done].
Qed.

Lemma dict_find_in {A} k (v : A) d : dict_find k d = Some v -> (k, v) ∈ d.
Proof.
  induction d as [|[j u] d IH]; cbn; [done|]. destruct (String.eqb_spec j k) as [->|]; [intros [= ->]; by left|]. intros H. right. by apply IH.
Qed.

Section Range.
Context {F : Rounding}.

Lemma type_from_diff diff : barless (fst (resolve_type_from_diff diff)) = true.
Proof.
  unfold resolve_type_from_diff. destruct (detect_string_mutation _ _) as [[]|]; [done..|].
  destruct (first_some _ detectors) as [[t d]|] eqn:E; [|done]. apply first_some_elem in E as ([t' f] & Hin & Hf).
  destruct (f _ _); [|done]. cbn in Hf. injection Hf as <- _. unfold detectors in Hin. cbn [fst].
  repeat (apply elem_of_cons in Hin as [Hin|Hin]; [by injection Hin as -> _|]). by apply elem_of_nil in Hin.
Qed.

Lemma type_barless diff captured : barless (fst (resolve_type diff captured)) = true.
Proof.
  unfold resolve_type. destruct (or_else _ _) as [|c op]; [apply type_from_diff|].
  destruct (dict_find (String c op) operator_to_type) as [t|] eqn:E.
  - apply dict_find_in in E. cbn [fst]. assert (H : Forall (fun kv => barless (snd kv) = true) operator_to_type) by (repeat constructor).
    rewrite Forall_forall in H. by apply (H _ E).
  - destruct (String.eqb _ "operator_string"); [by destruct (detect_string_mutation _ _) as [[]|]|].
    destruct (String.eqb _ "operator_name"); [by destruct (detect_boolean_swap _ _)|].
    destruct (String.eqb _ "operator_assignment"); [by destruct (detect_value_to_none _ _)|apply type_from_diff].
Qed.

Lemma score_range diff t captured d : fst (score diff t captured d) ∈ [3; 2; 1; 0].
Proof.
  unfold score. destruct (match captured with Some _ => _ | None => _ end); [by left|].
  destruct (_ && negb (String.eqb t "string_unknown")).
  - destruct (if old_is_format_string _ then _ else None); [by repeat constructor|].
    destruct (has_raise_context _ _); [by repeat constructor|]. destruct (has_asgi_body_context _ _ _); [by repeat constructor|].
    destruct (has_logger_format_context _ _ _); by repeat constructor.
  - destruct (_ && is_exc_info_swap _); [by repeat constructor|]. destruct (none_in_logger diff); [by repeat constructor|].
    destruct (String.eqb t _); by repeat constructor.
Qed.

Lemma classify_range diff captured :
  let '(s, t, _) := classify_mutant diff captured in s ∈ [3; 2; 1; 0] /\ barless t = true.
Proof.
  unfold classify_mutant. pose proof (type_barless diff captured) as Ht. destruct (resolve_type diff captured) as [t d].
  pose proof (score_range diff t captured d) as Hs. by destruct (score diff t captured d).
Qed.
End Range.

(** ** Misplaced scores *)

(** A string method swap is taken for a mutation of a string, since its type
    begins alike: with a raise in sight it counts as cosmetic. *)
Theorem method_swap_cosmetic {F : Rounding} (diff : mutation_diff) (d : string) :
  resolve_type diff None = ("string_method_swap", d) ->
  is_default_param_mutation (md_old_lines diff) (md_new_lines diff) = false ->
  old_is_format_string (md_old_lines diff) = false ->
  has_raise_context (md_context_lines diff) (md_old_lines diff) = true ->
  classify_mutant diff None = (0, "string_method_swap", "method swap on error message").
Proof. intros Hr Hd Hf Hc. unfold classify_mutant. rewrite Hr. unfold score. rewrite Hd, Hf, Hc. by vm_compute. Qed.

Lemma method_swap_cosmetic_witness :
  classify_mutant (F := binary64) (MutationDiff estr ["    key = key.lower()"] ["    key = key.upper()"] ["        raise KeyError(key)"]) None =
    (0, "string_method_swap", "method swap on error message").
Proof. apply (method_swap_cosmetic (F := binary64) _ ".lower()  ->  .upper()"); by vm_compute. Defined.

(** The pattern for exception constructors asks for a word boundary before
    [Error], so it sees none of those that are called so. *)
Definition constructors : list string :=
  ["ValueError("; "RuntimeError("; "TypeError("; "KeyError("; "NotImplementedError("; "TimeoutError("].
Lemma constructors_unseen : existsb (found raise_pattern) constructors = false.
Proof. by vm_compute. Qed.

(** ** Reading back a diff *)

Inductive line_tag := Removed | Added | Context.
#[export] Instance line_tag_eq : EqDecision line_tag := ltac:(solve_decision).
Definition tag_char (t : line_tag) : ascii := match t with Removed => "-" | Added => "+" | Context => " " end.
Definition render_line (l : line_tag * string) : string := String (tag_char (fst l)) (snd l).

(** A unified diff: lines before the first hunk, then each hunk's header and
    lines, joined by newlines. *)
Definition unified (headers : list string) (hunks : list (string * list (line_tag * string))) : string :=
  String.concat (String newline estr) (headers ++ mjoin ((fun h => fst h :: (render_line <$> snd h)) <$> hunks)).
Definition of_tag (t : line_tag) (hunks : list (string * list (line_tag * string))) : list string :=
  snd <$> filter (fun l => fst l = t) (mjoin (snd <$> hunks)).

Fixpoint clean (s : string) : bool := match s with EmptyString => true | String c s' => negb (line_end c) && clean s' end.
(** A removed line must not begin with two more dashes, nor an added one with
    two more pluses: it would read as the header of a file. *)
Definition readable (l : line_tag * string) : bool :=
  clean (snd l) &&
  match fst l with
  | Removed => negb (String.prefix "--" (snd l))
  | Added => negb (String.prefix "++" (snd l))
  | Context => true
  end.

Lemma splitlines_line l rest : clean l = true -> splitlines (l +:+ String newline rest) = l :: splitlines rest.
Proof.
  induction l as [|c l IH]; intros Hl.
  - rewrite str_app_nil_l. cbn. by destruct rest.
  - cbn in Hl. apply andb_true_iff in Hl as [Hc Hl]. apply negb_true_iff in Hc. rewrite str_app_cons. cbn [splitlines]. rewrite Hc, IH by done.
    destruct l; [by rewrite str_app_nil_l|by rewrite str_app_cons].
Qed.

Lemma splitlines_last l : clean l = true -> l <> estr -> splitlines l = [l].
Proof.
  induction l as [|c l IH]; intros Hl Hne; [done|]. cbn in Hl. apply andb_true_iff in Hl as [Hc Hl]. apply negb_true_iff in Hc.
  cbn [splitlines]. rewrite Hc. destruct l as [|c' l']; [done|]. by rewrite IH.
Qed.

Lemma splitlines_concat ls :
  Forall (fun l => clean l = true /\ l <> estr) ls -> splitlines (String.concat (String newline estr) ls) = ls.
Proof.
  induction 1 as [|l ls [Hl Hne] Hls IH]; [done|]. destruct ls as [|l' ls]; [by apply splitlines_last|].
  change (String.concat (String newline estr) (l :: l' :: ls)) with
    (l +:+ String newline estr +:+ String.concat (String newline estr) (l' :: ls)).
  rewrite str_app_cons, str_app_nil_l, splitlines_line by done. by rewrite IH.
Qed.

Lemma in_hunks_rendered ls rest : in_hunks true ((render_line <$> ls) ++ rest) = (render_line <$> ls) ++ in_hunks true rest.
Proof. induction ls as [|[t s] ls IH]; cbn [fmap list_fmap app]; [done|]. cbn. rewrite <- IH. by destruct t. Qed.

Lemma in_hunks_unified hunks b :
  Forall (fun h => String.prefix "@@" (fst h) = true) hunks ->
  in_hunks b (mjoin ((fun h => fst h :: (render_line <$> snd h)) <$> hunks)) = render_line <$> mjoin (snd <$> hunks).
Proof.
  intros H. revert b. induction H as [|h hunks Hh _ IH]; intros b; [done|]. cbn [fmap list_fmap mjoin list_join app in_hunks]. rewrite Hh.
  rewrite in_hunks_rendered, fmap_app. by rewrite IH.
Qed.

Lemma in_hunks_headers headers rest :
  Forall (fun l => String.prefix "@@" l = false) headers -> in_hunks false (headers ++ rest) = in_hunks false rest.
Proof. induction 1 as [|l ls Hl _ IH]; [done|]. cbn [app in_hunks]. by rewrite Hl. Qed.

(** The kind of a rendered line. *)
Lemma rendered_kind l :
  readable l = true ->
  removed_line (render_line l) = bool_decide (fst l = Removed) /\ added_line (render_line l) = bool_decide (fst l = Added) /\
  context_line (render_line l) = bool_decide (fst l = Context).
Proof.
  destruct l as [t s]. unfold readable. rewrite andb_true_iff. cbn [fst snd]. intros [_ H].
  unfold removed_line, added_line, context_line, render_line. cbn [fst snd]. rewrite !prefix_cons.
  assert (Hp : String.prefix estr s = true) by (by destruct s). rewrite !Hp. destruct t; [apply negb_true_iff in H as ->..|]; by split_and!.
Qed.

Lemma kept_lines (keep : string -> bool) t ls :
  Forall (fun l => keep (render_line l) = bool_decide (fst l = t)) ls ->
  tails (List.filter keep (render_line <$> ls)) = snd <$> filter (fun l => fst l = t) ls.
Proof.
  unfold tails. induction 1 as [|[t' s] ls Hl _ IH]; [done|]. cbn [fmap list_fmap List.filter]. rewrite filter_cons. cbn in Hl. cbn [fst].
  rewrite Hl. case_bool_decide as Hd; [rewrite decide_True by done|rewrite decide_False by done].
  - cbn [fmap list_fmap]. f_equal. exact IH.
  - exact IH.
Qed.

(** A diff is read back.  From the text of a unified diff the removed, the
    added and the context lines of all hunks are recovered, in order, and
    nothing of the file headers, provided no line of the file begins with two
    more of its mark. *)
Theorem diff_roundtrip (headers : list string) (hunks : list (string * list (line_tag * string))) :
  Forall (fun l => clean l = true /\ l <> estr /\ String.prefix "@@" l = false) headers ->
  Forall (fun h => clean (fst h) = true /\ String.prefix "@@" (fst h) = true /\ Forall (fun l => readable l = true) (snd h)) hunks ->
  extract_diff_lines (unified headers hunks) = (of_tag Removed hunks, of_tag Added hunks, of_tag Context hunks).
Proof.
  intros Hh Hk. unfold extract_diff_lines, hunk_lines, unified. rewrite splitlines_concat.
  - rewrite in_hunks_headers by (eapply Forall_impl; [exact Hh|]; by intros l (_ & _ & H)).
    rewrite in_hunks_unified by (eapply Forall_impl; [exact Hk|]; by intros h (_ & H & _)).
    assert (Hr : Forall (fun l => readable l = true) (mjoin (snd <$> hunks))).
    { apply Forall_join, Forall_fmap. eapply Forall_impl; [exact Hk|]. by intros h (_ & _ & H). }
    unfold of_tag. f_equal; [f_equal|]; apply kept_lines; (eapply Forall_impl; [exact Hr|]); intros l Hl; by apply rendered_kind.
  - apply Forall_app. split; [eapply Forall_impl; [exact Hh|]; by intros l (H1 & H2 & _)|].
    apply Forall_join, Forall_fmap. eapply Forall_impl; [exact Hk|]. intros [h ls] (H1 & H2 & H3). cbn in *. constructor.
    + split; [done|]. by intros ->.
    + apply Forall_fmap. eapply Forall_impl; [exact H3|]. intros [t s] Hs. unfold readable in Hs. apply andb_true_iff in Hs as [Hs _].
      cbn in *. split; [|done]. by destruct t.
Qed.

(** A removed line that begins with two dashes is taken for the header of a
    file and lost. *)
Lemma diff_roundtrip_witness :
  extract_diff_lines (unified ["--- a.py"; "+++ a.py"] [("@@ -1 +1 @@", [(Context, "if x:"); (Removed, "  y = 1"); (Added, "  y = 2")])]) =
    (["  y = 1"], ["  y = 2"], ["if x:"]) /\
  extract_diff_lines (unified [] [("@@ -1 +1 @@", [(Removed, "-- note"); (Added, "-- XXnoteXX")])]) = ([], ["-- XXnoteXX"], []).
Proof.
  split; [|by vm_compute].
  rewrite (diff_roundtrip ["--- a.py"; "+++ a.py"] [("@@ -1 +1 @@", [(Context, "if x:"); (Removed, "  y = 1"); (Added, "  y = 2")])]);
    [by vm_compute|repeat constructor; done|repeat constructor; done].
Defined.
