(* ===== verification/Run.v ===== *)
(** * Run: the report of a mutation run (scripts/generate_mutmut_report.py)

    [_build_records] joins the metadata of the mutants with their diffs, their
    kills and the recorded operators, classifies every diff and looks it up
    in the list of mutants known to be benign; [main] attaches the keys of
    twins and builds the report.  The report accounts for every mutant, whatever
    the run left behind. *)

From Stdlib Require Import Sorted.
From S2P Require Import Prelude Float Text Json Py Base Distributed Importing Kills Regex Mirrors Report Classify.

Open Scope Z_scope.
Open Scope rl_scope.

(** ** Known benign mutants *)

Definition dq : string := String quote_char estr.

(** [_KNOWN_BENIGN]: part of the short name, part of the description, reason *)
Definition known_benign_table : list (string * string * string) :=
  let same_wake := "when target equals _next_wake, the assignment writes the same value back; the wake time does not change" in
  let same_wait := "when remaining equals zero, wait(timeout=0) returns immediately and the next iteration falls through to drain unchanged" in
  [("DrainLoop.wake", "<  ->  <=", same_wake); ("AsyncDrainLoop._wake_async", "<  ->  <=", same_wake);
   ("DrainLoop._run", ">  ->  >=", same_wait); ("AsyncDrainLoop._run", ">  ->  >=", same_wait);
   ("TaskLifecycle.__init__",
    "self._thread: Optional[Thread] = None  ->  self._thread: Optional[Thread] = " +:+ dq +:+ dq,
    "both None and empty string are falsy; the only check is `if self._thread and self._thread.is_alive()` which short-circuits identically for both");
   ("_calculate_token_recovery_delay", "<=  ->  <",
    "when wait_ms equals zero, the fallthrough path returns 0 / 1000.0 = 0.0, identical to the early return of 0.0");
   ("_calculate_token_recovery_delay", ">=  ->  >",
    "when val_current equals limit, the primary decay formula computes reset_in_ms / 1000.0, identical to the fallback return value");
   ("schedule_task", "redis.set(inflight_key, " +:+ dq +:+ "1" +:+ dq,
    "the inflight key value is never read back; only the key's existence matters (NX flag). any non-empty string is equivalent to " +:+
      dq +:+ "1" +:+ dq);
   ("schedule_task", "max_age or " +:+ dq +:+ dq,
    "passed to the Lua script as ARGV[3]; tonumber(" +:+ dq +:+ dq +:+ ") and tonumber(" +:+ dq +:+ "XXXX" +:+ dq +:+
      ") both return nil, so the max_age override branch is skipped identically");
   ("HeartbeatScheduler._renew_one", "==  ->  !=",
    "inverts the kill/warn branch; reliably caught by test_heartbeat_failure_kill_mode_terminates_worker but the mutated process " +:+
      "occasionally receives SIGTERM before pytest can report the failure, causing a suspicious classification instead of killed")].

(** [_match_known_benign] *)
Definition match_known_benign (short_name description : string) : option string :=
  first_some (fun '(method_pattern, desc_pattern, reason) =>
                if contains method_pattern short_name && contains desc_pattern description then Some reason else None) known_benign_table.

(** ** Records *)

(** A generated diff: its text, and the removed, added and context lines. *)
Record generated := Generated { gd_text : string; gd_old : list string; gd_new : list string; gd_context : list string }.

Definition hunk_line_pattern : re := Seq (Word "@@ -") (Group digits).
(** [_extract_line_number] *)
Definition extract_line_number (diff_text : string) : option Z :=
  match search hunk_line_pattern diff_text with
  | Some (_, y) => let '(n, _, _) := scan 0 0 (group_of diff_text y) in Some n
  | None => None
  end.

Section Records.
Context {F : Rounding}.

(** One iteration of [_build_records]. *)
Definition build_record (diffs : pydict generated) (kd : kill_data) (mutation_types : pydict mutation_kind)
    (kv : string * (string * option Q * string)) : mutant :=
  let '(name, (status, duration, source_path)) := kv in
  let short_name := shorten_name name in
  let record diff line s mtype desc benign reason :=
    MutantRecord name short_name status source_path duration diff line (default [] (dict_find name (kd_killed_by kd)))
      (default false (dict_find name (kd_partial kd))) (dict_find name (kd_killed_during kd))
      (dict_find name (kd_tests_selected kd)) (dict_find name (kd_tests_ran kd)) s mtype desc benign reason None in
  match dict_find name diffs with
  | None => record None None None None None false None
  | Some d =>
      let line := extract_line_number (gd_text d) in
      match gd_old d, gd_new d with
      | [], [] => record (Some (gd_text d)) line None None None false None
      | _, _ =>
          let '(s, mtype, description) :=
            classify_mutant (MutationDiff (gd_text d) (gd_old d) (gd_new d) (gd_context d)) (dict_find name mutation_types) in
          let reason := match_known_benign short_name description in
          record (Some (gd_text d)) line (Some s) (Some mtype) (Some description) (bool_decide (reason <> None)) reason
      end
  end.

(** [_build_records] *)
Definition build_records (all_meta : meta) (diffs : pydict generated) (kd : kill_data) (mutation_types : pydict mutation_kind) : list mutant :=
  build_record diffs kd mutation_types <$> all_meta.

(** The report of [main], from the metadata, the generated diffs, the recorded
    kills and operators, the statistics, and the score of the log. *)
Definition main_report (all_meta : meta) (diffs : pydict generated) (raw : pydict kill_entry)
    (mutation_types : pydict mutation_kind) (stats_data : option stats) (log_score : option (Q * Z * Z)) : report :=
  let kd := parse_killed_by raw in
  let tests := match stats_data with Some s => all_test_nodeids s | None => ∅ end in
  let '(s, killed_count, total_count) := default (score_of_meta all_meta) log_score in
  build_report (attach_mirror_keys (build_records all_meta diffs kd mutation_types)) s killed_count total_count
    (kd_killed_by kd) tests all_meta stats_data.
End Records.

(** ** The records of a run *)

Section Run.
Context {F : Rounding}.

Lemma benign_reason short description reason : match_known_benign short description = Some reason -> or_else (Some reason) estr <> estr.
Proof.
  assert (Ht : Forall (fun '(_, _, r) => or_else (Some r) estr <> estr) known_benign_table) by (repeat constructor; by vm_compute).
  unfold match_known_benign. induction Ht as [|[[m d] r] l Hr _ IH]; [done|]. cbn [first_some].
  destruct (contains m short && contains d description); [by intros [= <-]|exact IH].
Qed.

(** What a record keeps of its entry in the metadata, and what holds of its
    classification. *)
Definition records_entry (kv : string * (string * option Q * string)) (r : mutant) : Prop :=
  mr_name r = fst kv /\ mr_status r = status_of kv /\ well_classified r /\ benign_explained r.

Lemma record_fields diffs kd types kv : records_entry kv (build_record diffs kd types kv).
Proof.
  destruct kv as [name [[status duration] path]]. unfold build_record, status_of. cbv zeta. destruct (dict_find name diffs) as [d|]; [|done].
  pose proof (classify_range (MutationDiff (gd_text d) (gd_old d) (gd_new d) (gd_context d)) (dict_find name types)) as Hc.
  destruct (classify_mutant _ _) as [[s t] desc]. destruct Hc as [Hs Ht].
  pose proof (benign_reason (shorten_name name) desc) as Hb.
  destruct (gd_old d), (gd_new d); (split_and!; [done|done|by destruct t|]); try done;
    unfold benign_explained; cbn [mr_is_known_benign mr_classification_score mr_benign_reason];
    intros Hk%bool_decide_eq_true; (split; [done|]); destruct (match_known_benign _ _) as [r|]; (done || by apply Hb).
Qed.

Lemma attached records :
  Forall2 (fun r r' => r' = r \/ exists k, r' = with_mirror_key k r) records (attach_mirror_keys records).
Proof.
  unfold attach_mirror_keys. cbv zeta.
  match goal with |- Forall2 _ _ (match ?m with [] => _ | _ => _ end) => destruct m as [|kv d] end.
  - induction records; constructor; eauto.
  - apply Forall2_fmap_r, Forall_Forall2_diag, Forall_forall. intros r _. unfold compose.
    destruct (dict_find (mr_name r) (kv :: d)); [|by left]. case_bool_decide; eauto.
Qed.

(** The records of a run. *)
Definition run_records (all_meta : meta) diffs raw types : list mutant :=
  attach_mirror_keys (build_records all_meta diffs (parse_killed_by raw) types).

Lemma run_records_spec all_meta diffs raw types : Forall2 records_entry all_meta (run_records all_meta diffs raw types).
Proof.
  unfold run_records, build_records. set (kd := parse_killed_by raw).
  pose proof (attached (build_record diffs kd types <$> all_meta)) as H. apply Forall2_fmap_l in H.
  eapply Forall2_impl; [exact H|]. intros kv r Hr. unfold compose in Hr.
  pose proof (record_fields diffs kd types kv) as Hk. by destruct Hr as [->|[k ->]].
Qed.

Lemma number_forall2 {A B} (P : A -> Prop) (Q : B -> Prop) `{!forall x, Decision (P x)} `{!forall x, Decision (Q x)} l l' :
  Forall2 (fun x y => P x <-> Q y) l l' -> number P l = number Q l'.
Proof.
  unfold number. induction 1 as [|x y l l' HPQ _ IH]; [done|]. rewrite !filter_cons.
  destruct (decide (P x)); [rewrite decide_True by tauto|rewrite decide_False by tauto]; cbn [length]; lia.
Qed.

(** The keys of a dictionary. *)
Definition keys {A} (d : list (string * A)) : list string := fst <$> d.

Lemma records_agree all_meta rs :
  Forall2 records_entry all_meta rs ->
  mr_name <$> rs = keys all_meta /\ mr_status <$> rs = status_of <$> all_meta /\ Forall well_classified rs /\ Forall benign_explained rs.
Proof.
  induction 1 as [|kv r l l' (E1 & E2 & E3 & E4) _ (I1 & I2 & I3 & I4)]; [by repeat constructor|].
  cbn. rewrite E1, E2, I1, I2. split_and!; [done|done|by constructor|by constructor].
Qed.

Lemma placed_status p st all_meta rs :
  (forall r, place_of r = p <-> mr_status r = st) -> Forall2 records_entry all_meta rs ->
  mr_name <$> placed p rs = fst <$> filter (fun kv => status_of kv = st) all_meta.
Proof.
  intros Hp. unfold placed. induction 1 as [|kv r l l' (E1 & E2 & _) _ IH]; [done|]. rewrite !filter_cons.
  destruct (decide (place_of r = p)) as [E|E]; rewrite Hp, E2 in E.
  - rewrite decide_True by done. cbn. by rewrite E1, IH.
  - by rewrite decide_False.
Qed.

Lemma place_status r :
  (place_of r = TimedOut <-> mr_status r = "timeout") /\ (place_of r = Suspicious <-> mr_status r = "suspicious") /\
  (place_of r = NoTests <-> mr_status r = "no tests").
Proof.
  unfold place_of. repeat match goal with |- context [String.eqb ?a ?b] => destruct (String.eqb_spec a b) as [->|?] end;
    split_and!; split; intros H; try done; repeat case_match; done.
Qed.

(** C40. The report of a run accounts for every mutant.  Whatever diffs,
    kills, operators and statistics a run left behind: the report has one
    record per mutant, with its status.  The text lists every mutant in the one
    place that [place_of] gives it: a killed one nowhere, those that timed out,
    were suspicious or have no tests in the list of their status, and any other
    among the known benign ones, in the section of its score, whose header
    counts it, or, when it has no diff or one without a change, nowhere; no
    list has anything else, and none a mutant twice.  Each of the five classes
    counts exactly its own mutants, each of the counts by status is that of the
    metadata, and so are the totals when the log has no score.  The files are
    listed in descending order, each once, with exact counts for each status,
    and count every mutant once.  The printed classification, however, shows
    zero fork-immune mutants whatever their number: the label of score 3 does
    not spell the name of its field. *)
Theorem main_report_accounts (all_meta : meta) (diffs : pydict generated) (raw : pydict kill_entry)
    (types : pydict mutation_kind) (stats_data : option stats) (log_score : option (Q * Z * Z)) :
  NoDup (keys all_meta) ->
  let rp := main_report all_meta diffs raw types stats_data log_score in
  let rs := rp_mutants rp in
  let ml := list_mutants rs in
  let c := rp_classification rp in
  let with_status st := filter (fun kv => status_of kv = st) all_meta in
  let status_count st := Z.of_nat (length (with_status st)) in
  (mr_name <$> rs = keys all_meta /\ mr_status <$> rs = status_of <$> all_meta) /\
  (se_score <$> ml_sections ml = filter (fun s => Exists (fun r => place_of r = Scored s) rs) [3; 2; 1; 0] /\
   (forall x, x ∈ ml_sections ml ->
      cm_name <$> listed x ≡ₚ mr_name <$> placed (Scored (se_score x)) rs /\ se_count x = length (placed (Scored (se_score x)) rs)) /\
   cm_name ∘ fst <$> ml_benign ml = mr_name <$> placed Benign rs /\
   ml_timeouts ml = shorten_name ∘ fst <$> with_status "timeout" /\
   ml_suspicious ml = shorten_name ∘ fst <$> with_status "suspicious" /\
   ml_no_tests ml = shorten_name ∘ fst <$> with_status "no tests") /\
  (c = ClassificationSummary (number (in_class (Some 0)) rs) (number (in_class (Some 1)) rs) (number (in_class (Some 2)) rs)
         (number (in_class (Some 3)) rs) (number benign_survivor rs) /\
   score_0_cosmetic c + score_1_argument c + score_2_logic c + score_3_fork_immune c + known_benign c +
     number (in_class None) rs = number (fun kv => status_of kv <> "killed") all_meta /\
   classification_lines c =
     [(0, "cosmetic", score_0_cosmetic c); (1, "argument", score_1_argument c); (2, "logic", score_2_logic c); (3, "fork-immune", 0)]) /\
  (rp_survived rp = status_count "survived" /\ rp_timeout rp = status_count "timeout" /\
   rp_suspicious rp = status_count "suspicious" /\ rp_no_tests rp = status_count "no tests" /\ rp_skipped rp = status_count "skipped" /\
   (log_score = None -> rp_killed rp = status_count "killed" /\ rp_total rp = Z.of_nat (length all_meta)) /\
   (forall s k t, log_score = Some (s, k, t) -> rp_killed rp = k /\ rp_total rp = t)) /\
  NoDup (fs_path <$> rp_files rp) /\ sumZ (fs_total <$> rp_files rp) = Z.of_nat (length all_meta) /\
  StronglySorted (fun a b => fs_total b <= fs_total a) (rp_files rp) /\
  forall fs, fs ∈ rp_files rp ->
    fs_total fs = number (in_file (fs_path fs)) all_meta /\ fs_killed fs = number (in_file_with (fs_path fs) "killed") all_meta /\
    fs_survived fs = number (in_file_with (fs_path fs) "survived") all_meta /\
    fs_no_tests fs = number (in_file_with (fs_path fs) "no tests") all_meta /\
    fs_timeout fs = number (in_file_with (fs_path fs) "timeout") all_meta.
Proof.
  intros Hn. cbn zeta. unfold main_report. fold (run_records all_meta diffs raw types).
  pose proof (run_records_spec all_meta diffs raw types) as Hr. set (rs := run_records all_meta diffs raw types) in *.
  destruct (default (score_of_meta all_meta) log_score) as [[s k] t] eqn:El. unfold build_report.
  cbn [rp_mutants rp_classification rp_survived rp_timeout rp_suspicious rp_no_tests rp_skipped rp_killed rp_total rp_files].
  destruct (records_agree _ _ Hr) as (En & Es & Hw & Hb). rewrite <- En in Hn.
  destruct (listing_exact rs Hn Hw Hb) as (L1 & L2 & L3 & L4 & L5 & L6). cbn zeta in *.
  assert (Hc : forall st, count_of (counter_of (mr_status <$> rs)) st = Z.of_nat (length (filter (fun kv => status_of kv = st) all_meta))).
  { intros st. rewrite count_of_counter, Es. apply number_forall2, Forall2_fmap_l, Forall_Forall2_diag, Forall_forall. by intros kv _. }
  split; [done|]. split; [|split; [|split; [|pose proof (file_summaries_shape all_meta) as (F1 & F2 & F3); split_and!; try done; apply file_summary_fields]]].
  - split_and!; [done| |done| | |].
    + intros x Hx. destruct (L2 x Hx) as [E ->]. split; [done|]. apply Permutation_length in E. by rewrite !length_fmap in E.
    + by rewrite L4, !list_fmap_compose, (placed_status _ _ _ _ (fun r => proj1 (place_status r)) Hr).
    + by rewrite L5, !list_fmap_compose, (placed_status _ _ _ _ (fun r => proj1 (proj2 (place_status r))) Hr).
    + by rewrite L6, !list_fmap_compose, (placed_status _ _ _ _ (fun r => proj2 (proj2 (place_status r))) Hr).
  - rewrite classes_counted. cbn [score_0_cosmetic score_1_argument score_2_logic score_3_fork_immune known_benign].
    split_and!; [done| |done]. rewrite (classes_total rs Hw). symmetry. apply number_forall2.
    eapply Forall2_impl; [exact Hr|]. intros kv r (_ & -> & _). done.
  - rewrite !Hc. split_and!; try done.
    + intros ->. cbn in El. unfold score_of_meta in El. by injection El as _ <- <-.
    + intros s' k' t' ->. by injection El as _ <- <-.
Qed.
End Run.

(** A mutant of a default parameter and one that timed out: the report
    counts the first, the printed line does not. *)
Definition demo_run : meta :=
  [("redis_rate_limiter.core.base.x_start__mutmut_1", ("survived", None, "base.py"));
   ("redis_rate_limiter.core.base.x_start__mutmut_2", ("timeout", None, "base.py"))].
Definition demo_diffs : pydict generated :=
  [("redis_rate_limiter.core.base.x_start__mutmut_1", Generated "@@ -1 +1 @@" ["def f(a=0):"] ["def f(a=1):"] [])].

Lemma main_report_accounts_witness :
  let rp := main_report (F := binary64) demo_run demo_diffs [] [] None None in
  mr_name <$> rp_mutants rp = keys demo_run /\ place_of <$> rp_mutants rp = [Scored 3; TimedOut] /\
  ml_timeouts (list_mutants (rp_mutants rp)) = ["x_start__mutmut_2"] /\ rp_timeout rp = 1 /\ rp_suspicious rp = 0 /\
  score_3_fork_immune (rp_classification rp) = 1 /\ last (classification_lines (rp_classification rp)) = Some (3, "fork-immune", 0).
Proof.
  assert (Hn : NoDup (keys demo_run)) by (apply (bool_decide_unpack _); by vm_compute).
  pose proof (main_report_accounts (F := binary64) demo_run demo_diffs [] [] None None Hn) as H.
  cbn zeta in H. destruct H as ((Hm & _) & (_ & _ & _ & Ht & _) & (_ & _ & Hl) & (_ & Hc & Hs & _) & _).
  split; [exact Hm|]. split; [by vm_compute|]. rewrite Ht, Hc, Hs, Hl.
  split; [by vm_compute|]. split; [by vm_compute|]. split; [by vm_compute|]. split; [by vm_compute|reflexivity].
Defined.
