(* ===== verification/Superfluity.v ===== *)
(** * Superfluity: tests that kill nothing of their own (scripts/analyze_superfluity.py)

    The analysis groups the tests that kill some mutant by their class and
    reports a test whose mutants are a strict part of those of another test of
    its class; the batch mode runs it for every test file and merges the
    reports.  The reports say which tests could be deleted: what they promise
    is that deleting all of them loses no kill. *)

From S2P Require Import Prelude Float Text Json Py Base Distributed Importing Kills.

Open Scope Z_scope.
Open Scope rl_scope.

(** ** Names *)

(** [nodeid.split("::")] *)
Fixpoint split_colons (s : string) : list string :=
  match s with
  | EmptyString => [estr]
  | String a s' =>
      match s' with
      | String b s'' =>
          if Ascii.eqb a ":" && Ascii.eqb b ":" then estr :: split_colons s''
          else match split_colons s' with p :: ps => String a p :: ps | [] => [String a estr] end
      | EmptyString => [String a estr]
      end
  end.

(** [_extract_test_class] *)
Definition extract_test_class (nodeid : string) : option string :=
  match split_colons nodeid with
  | _ :: c :: _ :: _ => Some c
  | _ => None
  end.

Definition module_level : string := "<module-level>".
Definition class_of (nodeid : string) : string := default module_level (extract_test_class nodeid).

(** ** The analysis *)

Definition kill_map := pydict (gset string).

(** [entry.get("killed_by", [])], when it is a list *)
Definition killers (e : entry) : list json :=
  match json_get_or "killed_by" (JArr []) e with JArr l => l | _ => [] end.

Definition add_kill (mutant test : string) : pydict kill_map -> pydict kill_map :=
  dict_alter (fun m => dict_alter (fun s => default ∅ s ∪ {[mutant]}) test (default [] m)) (class_of test).

(** The loop over the killers of one mutant; [.split] of what is no text
    raises. *)
Fixpoint add_killers (mutant : string) (ks : list json) (maps : pydict kill_map) : exn + pydict kill_map :=
  match ks with
  | [] => inr maps
  | JStr test :: ks' => add_killers mutant ks' (add_kill mutant test maps)
  | _ :: _ => inl (AttributeError "split")
  end.

Fixpoint class_kill_maps (data : pydict entry) (maps : pydict kill_map) : exn + pydict kill_map :=
  match data with
  | [] => inr maps
  | (mutant, e) :: data' =>
      match add_killers mutant (killers e) maps with
      | inl x => inl x
      | inr maps' => class_kill_maps data' maps'
      end
  end.

Record subsumption := Subsumption {
  su_test : string; su_kills : nat; su_by : string; su_by_kills : nat;
}.

Record class_result := ClassResult {
  cr_total_tests : nat;
  cr_total_kills : nat;
  cr_superfluous : list subsumption;   (* the key is there when it is not empty *)
  cr_zero_kill : list string;          (* likewise *)
}.

(** The inner loop of test [i] with kills [kills_a]. *)
Definition subsumer (i : nat) (kills_a : gset string) (tests : kill_map) : option (nat * (string * gset string)) :=
  List.find (fun '(j, (_, kills_b)) => negb (Nat.eqb i j) && negb (bool_decide (kills_b = ∅)) && bool_decide (kills_a ⊂ kills_b))
    (imap pair tests).

Definition class_step (tests : kill_map) (acc : list subsumption * list string) (ia : nat * (string * gset string)) :
    list subsumption * list string :=
  let '(superfluous, zero_kill) := acc in
  let '(i, (test_a, kills_a)) := ia in
  if bool_decide (kills_a = ∅) then (superfluous, zero_kill ++ [test_a])
  else match subsumer i kills_a tests with
       | Some (_, (test_b, kills_b)) => (superfluous ++ [Subsumption test_a (size kills_a) test_b (size kills_b)], zero_kill)
       | None => acc
       end.

Definition analyze_class (tests : kill_map) : class_result :=
  let '(superfluous, zero_kill) := foldl (class_step tests) ([], []) (imap pair tests) in
  ClassResult (length tests) (sum_list (size ∘ snd <$> tests)) superfluous zero_kill.

(** [sorted(d.items())]; the keys are distinct, so only they are compared. *)
Fixpoint insert_item {A} (k : string) (v : A) (d : pydict A) : pydict A :=
  match d with
  | [] => [(k, v)]
  | (k', v') :: d' => if String.ltb k k' then (k, v) :: d else (k', v') :: insert_item k v d'
  end.
Definition sorted_items {A} (d : pydict A) : pydict A := foldr (fun kv => insert_item (fst kv) (snd kv)) [] d.

Record analysis := Analysis {
  an_total_classes : nat;
  an_total_superfluous : nat;
  an_classes : pydict class_result;
}.

(** [_analyze_superfluity] *)
Definition analyze_superfluity (data : pydict entry) : exn + analysis :=
  match class_kill_maps data [] with
  | inl e => inl e
  | inr maps =>
      let classes := (fun '(c, m) => (c, analyze_class m)) <$> sorted_items maps in
      inr (Analysis (length classes) (sum_list ((fun '(_, r) => length (cr_superfluous r)) <$> classes)) classes)
  end.

(** ** Batch mode *)

(** [Path(path).stem] *)
Fixpoint last_part (s : string) : string :=
  match s with
  | EmptyString => estr
  | String _ s' => if contains "/" s then last_part s' else s
  end.
Definition path_stem (path : string) : string :=
  let name := last_part path in
  match rsplit name with
  | None | Some (EmptyString, _) | Some (_, EmptyString) => name
  | Some (stem, _) => stem
  end.

(** The directory of per-file reports, by file name. *)
Definition reports := pydict analysis.
Definition report_name (test_stem : string) : string := "superfluity-" +:+ test_stem +:+ ".json".

(** [_run_single] in its process: mutation testing of the file leaves data, or
    none, in which case the process exits before it writes; the return code. *)
Definition run_single (outcome : option (pydict entry)) (test_file : string) (dir : reports) : bool * reports :=
  match outcome with
  | None | Some [] => (false, dir)
  | Some data =>
      match analyze_superfluity data with
      | inl _ => (false, dir)
      | inr a => (true, dict_set (report_name (path_stem test_file)) a dir)
      end
  end.

(** [removeprefix] *)
Fixpoint removeprefix (prefix s : string) : string :=
  match prefix, s with
  | EmptyString, _ => s
  | String a p, String b s' => if Ascii.eqb a b && String.prefix p s' then removeprefix p s' else s
  | _, EmptyString => s
  end.

(** [_merge_reports] *)
Definition merge_step (acc : pydict class_result * nat) (report : string * analysis) : pydict class_result * nat :=
  let source_file := removeprefix "superfluity-" (path_stem (fst report)) in
  foldl (fun '(classes, total) '(class_name, r) =>
           (dict_set (source_file +:+ "::" +:+ class_name) r classes, (total + length (cr_superfluous r))%nat))
    acc (an_classes (snd report)).

Definition merge_reports (dir : reports) : analysis :=
  let '(classes, total) := foldl merge_step ([], 0%nat) (sorted_items dir) in
  Analysis (length classes) total classes.

(** One file of [_run_all]. *)
Definition run_file (outcome : string -> option (pydict entry)) (acc : list string * reports) (f : string) :
    list string * reports :=
  let '(failed, dir) := acc in
  let '(ok, dir') := run_single (outcome f) f dir in
  (if ok then failed else failed ++ [f], dir').

(** [_run_all] over the files discovered: the failed ones and the report. *)
Definition run_all (outcome : string -> option (pydict entry)) (test_files : list string) (before : reports) :
    list string * analysis :=
  let '(failed, dir) := foldl (run_file outcome) ([], before) test_files in
  (failed, merge_reports dir).

(** ** The maps *)

(** The test [t] kills the mutant [m]. *)
Definition kills (data : pydict entry) (m t : string) : Prop := exists e, (m, e) ∈ data /\ JStr t ∈ killers e.

(** The pairs of a mutant and a killer, in the order of the loops. *)
Definition pairs (data : pydict entry) : list (string * string) :=
  mjoin ((fun '(m, e) => (fun t => (m, t)) <$> omap jstr (killers e)) <$> data).

Definition kills_in (ps : list (string * string)) (t : string) : gset string :=
  list_to_set (fst <$> filter (fun p => snd p = t) ps).

Lemma elem_of_pairs data m t : (m, t) ∈ pairs data <-> kills data m t.
Proof.
  unfold pairs, kills. rewrite list_elem_of_join. split.
  - intros (l & Hl & Hin). apply list_elem_of_fmap in Hin as ([m' e] & -> & Hin).
    apply list_elem_of_fmap in Hl as (t' & [= <- <-] & Ht). apply list_elem_of_omap in Ht as (v & Hv & Hs).
    destruct v; try done. injection Hs as ->. by exists e.
  - intros (e & Hin & Ht). eexists. split; [|apply list_elem_of_fmap; exists (m, e); split; [reflexivity|done]].
    apply list_elem_of_fmap. exists t. split; [done|]. apply list_elem_of_omap. by exists (JStr t).
Qed.

Lemma elem_of_kills_in ps m t : m ∈ kills_in ps t <-> (m, t) ∈ ps.
Proof.
  unfold kills_in. rewrite elem_of_list_to_set, list_elem_of_fmap. split.
  - intros ([m' t'] & -> & [Ht Hin]%list_elem_of_filter). cbn in *. by subst.
  - intros Hin. exists (m, t). split; [done|]. by apply list_elem_of_filter.
Qed.

Lemma add_killers_pairs m ks maps maps' :
  add_killers m ks maps = inr maps' -> maps' = foldl (fun s t => add_kill m t s) maps (omap jstr ks).
Proof. revert maps. induction ks as [|[] ks IH]; intros maps; cbn; [by intros [= <-]|done..| |done|done]. apply IH. Qed.

Lemma maps_of_pairs data maps maps' :
  class_kill_maps data maps = inr maps' -> maps' = foldl (fun s p => add_kill (fst p) (snd p) s) maps (pairs data).
Proof.
  revert maps. induction data as [|[m e] data IH]; intros maps; cbn; [by intros [= <-]|].
  destruct (add_killers m (killers e) maps) as [x|maps1] eqn:E; [done|]. intros H. rewrite (IH _ H).
  unfold pairs. cbn. rewrite foldl_app. f_equal. rewrite (add_killers_pairs _ _ _ _ E), foldl_fmap. done.
Qed.

Definition find2 (c t : string) (maps : pydict kill_map) : option (gset string) := dict_find c maps ≫= dict_find t.

Lemma find2_add m t0 c t maps :
  find2 c t (add_kill m t0 maps) =
    if decide (c = class_of t0 /\ t = t0) then Some (default ∅ (find2 c t maps) ∪ {[m]}) else find2 c t maps.
Proof.
  unfold find2, add_kill. destruct (decide (c = class_of t0)) as [->|Hc].
  - rewrite dict_find_alter. cbn. destruct (decide (t = t0)) as [->|Ht].
    + rewrite decide_True by done. rewrite dict_find_alter. by destruct (dict_find (class_of t0) maps).
    + rewrite decide_False by naive_solver. rewrite dict_find_alter_ne by done. by destruct (dict_find (class_of t0) maps).
  - rewrite decide_False by naive_solver. by rewrite dict_find_alter_ne.
Qed.

Lemma kills_in_snoc ps m t0 t : kills_in (ps ++ [(m, t0)]) t = kills_in ps t ∪ (if decide (t = t0) then {[m]} else ∅).
Proof.
  apply set_eq. intros x. rewrite elem_of_kills_in, elem_of_app, list_elem_of_singleton, elem_of_union, elem_of_kills_in.
  case_decide; set_solver.
Qed.

Definition maps_of (ps : list (string * string)) : pydict kill_map := foldl (fun s p => add_kill (fst p) (snd p) s) [] ps.

Lemma maps_spec ps c t :
  find2 c t (maps_of ps) = if decide (c = class_of t /\ kills_in ps t <> ∅) then Some (kills_in ps t) else None.
Proof.
  unfold maps_of. induction ps as [|[m t0] ps IH] using rev_ind.
  - rewrite decide_False; [done|]. by intros [_ ?].
  - rewrite foldl_snoc, find2_add, IH, kills_in_snoc. cbn [fst snd].
    destruct (decide (c = class_of t0 /\ t = t0)) as [[-> ->]|Hne].
    + rewrite (decide_True (P := t0 = t0)) by done.
      assert (Hne : kills_in ps t0 ∪ {[m]} <> ∅) by (intros E; apply (not_elem_of_empty (C := gset string) m); rewrite <- E; set_solver).
      rewrite (decide_True (P := class_of t0 = class_of t0 /\ kills_in ps t0 ∪ {[m]} <> ∅)) by done. f_equal.
      destruct (decide (_ /\ _)) as [_|Hn]; [done|]. cbn.
      destruct (decide (kills_in ps t0 = ∅)) as [->|]; [done|]. by destruct Hn.
    + destruct (decide (t = t0)) as [->|Ht]; [|by rewrite (right_id_L ∅ (∪))].
      rewrite !decide_False by naive_solver. done.
Qed.

(** Keys are distinct, and no class is empty. *)
Lemma maps_wf ps :
  NoDup (fst <$> maps_of ps) /\ forall c km, dict_find c (maps_of ps) = Some km -> NoDup (fst <$> km).
Proof.
  unfold maps_of. induction ps as [|[m t0] ps IH] using rev_ind; [split; [apply NoDup_nil_2|by intros c km ?]|].
  destruct IH as [IH1 IH2]. rewrite foldl_snoc. unfold add_kill. cbn [fst snd]. split; [by apply dict_nodup_alter|].
  intros c km. destruct (decide (c = class_of t0)) as [->|Hc].
  - rewrite dict_find_alter. intros [= <-]. apply dict_nodup_alter.
    destruct (dict_find (class_of t0) _) as [km'|] eqn:E; [by apply (IH2 (class_of t0))|constructor].
  - rewrite dict_find_alter_ne by done. apply IH2.
Qed.

Lemma insert_item_perm {A} k (v : A) d : insert_item k v d ≡ₚ (k, v) :: d.
Proof. induction d as [|[k' v'] d IH]; cbn; [done|]. destruct (String.ltb k k'); [done|]. rewrite IH. apply Permutation_swap. Qed.

Lemma sorted_items_perm {A} (d : pydict A) : sorted_items d ≡ₚ d.
Proof. induction d as [|[k v] d IH]; cbn; [done|]. by rewrite insert_item_perm, IH. Qed.

(** The classes of an analysis. *)
Lemma analysis_classes data a c r :
  analyze_superfluity data = inr a -> (c, r) ∈ an_classes a ->
  exists km, r = analyze_class km /\ NoDup (fst <$> km) /\
    forall t K, (t, K) ∈ km <-> c = class_of t /\ K = kills_in (pairs data) t /\ K <> ∅.
Proof.
  unfold analyze_superfluity. destruct (class_kill_maps data []) as [e|maps] eqn:E; [done|]. intros [= <-]. cbn [an_classes].
  apply maps_of_pairs in E. fold (maps_of (pairs data)) in E. subst maps. destruct (maps_wf (pairs data)) as [W1 W2].
  intros ([c' km] & [= <- ->] & Hin)%list_elem_of_fmap. rewrite sorted_items_perm in Hin.
  apply dict_find_elem in Hin; [|done]. pose proof (W2 _ _ Hin) as Hnd. exists km. split; [done|]. split; [done|].
  intros t K. rewrite <- dict_find_elem by done. pose proof (maps_spec (pairs data) c t) as Hs.
  unfold find2 in Hs. rewrite Hin in Hs. cbn in Hs. rewrite Hs. case_decide; naive_solver.
Qed.

(** ** One class *)

Definition report_of (km : kill_map) (ia : nat * (string * gset string)) : option subsumption :=
  let '(i, (test_a, kills_a)) := ia in
  if bool_decide (kills_a = ∅) then None
  else match subsumer i kills_a km with
       | Some (_, (test_b, kills_b)) => Some (Subsumption test_a (size kills_a) test_b (size kills_b))
       | None => None
       end.

Lemma class_fold km l acc :
  foldl (class_step km) acc l =
    (fst acc ++ omap (report_of km) l,
     snd acc ++ omap (fun '(_, (t, K)) => if bool_decide (K = ∅) then Some t else None) l).
Proof.
  revert acc. induction l as [|[i [t K]] l IH]; intros [su z]; cbn; [by rewrite !app_nil_r|].
  rewrite IH. unfold class_step, report_of. case_bool_decide; cbn; [by rewrite <- app_assoc|].
  destruct (subsumer i K km) as [[j [b Kb]]|]; cbn; [by rewrite <- app_assoc|done].
Qed.

Lemma analyze_class_eq km :
  analyze_class km = ClassResult (length km) (sum_list (size ∘ snd <$> km)) (omap (report_of km) (imap pair km))
    (omap (fun '(_, (t, K)) => if bool_decide (K = ∅) then Some t else None) (imap pair km)).
Proof. unfold analyze_class. by rewrite class_fold. Qed.

Lemma elem_of_imap_pair {A} (l : list A) i x : (i, x) ∈ imap pair l <-> l !! i = Some x.
Proof.
  rewrite list_elem_of_lookup. split.
  - intros [j Hj]. rewrite list_lookup_imap in Hj. destruct (l !! j) eqn:E; [|done]. cbn in Hj. by injection Hj as <- <-.
  - intros E. exists i. by rewrite list_lookup_imap, E.
Qed.

Lemma subsumer_some i Ka km j b Kb :
  subsumer i Ka km = Some (j, (b, Kb)) -> (b, Kb) ∈ km /\ Ka ⊂ Kb.
Proof.
  unfold subsumer. intros H. apply List.find_some in H as [Hin H]. apply list_elem_of_In, elem_of_imap_pair in Hin.
  split; [by eapply list_elem_of_lookup_2|]. apply andb_true_iff in H as [_ H]. by apply bool_decide_eq_true in H.
Qed.

Lemma subsumer_none i Ka km a b Kb :
  km !! i = Some (a, Ka) -> subsumer i Ka km = None -> (b, Kb) ∈ km -> Ka ⊂ Kb -> False.
Proof.
  unfold subsumer. intros Hi H Hb Hsub. apply list_elem_of_lookup in Hb as [j Hj].
  assert (Hin : (j, (b, Kb)) ∈ imap pair km) by by apply elem_of_imap_pair.
  apply list_elem_of_In in Hin. apply (List.find_none _ _ H) in Hin. cbn in Hin.
  rewrite (bool_decide_eq_true_2 (Ka ⊂ Kb)), andb_true_r in Hin by done.
  apply andb_false_iff in Hin as [Hin|Hin].
  - apply negb_false_iff, Nat.eqb_eq in Hin as ->. pose proof (eq_trans (eq_sym Hi) Hj) as E. injection E as _ <-. by destruct (irreflexivity (⊂) Ka).
  - apply negb_false_iff, bool_decide_eq_true in Hin as ->. destruct Hsub as [Hs1 Hs2]. apply Hs2. set_solver.
Qed.

(** The reports of a class, as a relation. *)
Lemma elem_of_reports km x :
  x ∈ cr_superfluous (analyze_class km) ->
  exists Ka Kb, (su_test x, Ka) ∈ km /\ (su_by x, Kb) ∈ km /\ Ka ⊂ Kb /\ su_kills x = size Ka /\ su_by_kills x = size Kb.
Proof.
  rewrite analyze_class_eq. cbn [cr_superfluous]. intros ([i [a Ka]] & Hin & Hr)%list_elem_of_omap.
  apply elem_of_imap_pair in Hin. unfold report_of in Hr. case_bool_decide; [done|].
  destruct (subsumer i Ka km) as [[j [b Kb]]|] eqn:E; [|done]. injection Hr as <-. apply subsumer_some in E as [Hb Hsub].
  exists Ka, Kb. cbn. split_and!; try done. by eapply list_elem_of_lookup_2.
Qed.

Lemma reported km a Ka b Kb :
  (a, Ka) ∈ km -> (b, Kb) ∈ km -> Ka <> ∅ -> Ka ⊂ Kb -> a ∈ (su_test <$> cr_superfluous (analyze_class km)).
Proof.
  intros [i Hi]%list_elem_of_lookup Hb Hne Hsub. rewrite analyze_class_eq. cbn [cr_superfluous].
  destruct (subsumer i Ka km) as [[j [b' Kb']]|] eqn:E.
  - apply list_elem_of_fmap. exists (Subsumption a (size Ka) b' (size Kb')). split; [done|].
    apply list_elem_of_omap. exists (i, (a, Ka)). split; [by apply elem_of_imap_pair|].
    unfold report_of. rewrite bool_decide_eq_false_2 by done. by rewrite E.
  - exfalso. by eapply subsumer_none.
Qed.

(** Above every test there is one that nothing subsumes. *)
Lemma maximal_above (km : kill_map) a Ka :
  (a, Ka) ∈ km -> exists b Kb, (b, Kb) ∈ km /\ Ka ⊆ Kb /\ forall c Kc, (c, Kc) ∈ km -> ~ Kb ⊂ Kc.
Proof.
  set (U := ⋃ (snd <$> km) : gset string).
  assert (HU : forall b Kb, (b, Kb) ∈ km -> Kb ⊆ U).
  { intros b Kb Hin x Hx. apply elem_of_union_list. exists Kb. split; [|done]. apply list_elem_of_fmap. by exists (b, Kb). }
  remember (size U - size Ka)%nat as n eqn:En. revert a Ka En.
  induction (lt_wf n) as [n _ IH]. intros a Ka -> Ha.
  destruct (decide (Exists (fun ck => Ka ⊂ snd ck) km)) as [He|He].
  - apply Exists_exists in He as ([c Kc] & Hc & Hsub). cbn in Hsub.
    pose proof (subset_size _ _ Hsub). pose proof (subseteq_size _ _ (HU _ _ Hc)).
    destruct (IH (size U - size Kc)%nat ltac:(lia) c Kc eq_refl Hc) as (b & Kb & Hb & Hs & Hmax).
    exists b, Kb. split; [done|]. split; [|done]. etrans; [apply Hsub|done].
  - exists a, Ka. split; [done|]. split; [done|]. intros c Kc Hc Hsub. apply He, Exists_exists. by exists (c, Kc).
Qed.

(** A test that kills something is a test of its class in the analysis. *)
Lemma class_analysed data a m t :
  analyze_superfluity data = inr a -> kills data m t -> exists r, (class_of t, r) ∈ an_classes a.
Proof.
  unfold analyze_superfluity. destruct (class_kill_maps data []) as [e|maps] eqn:E; [done|]. intros [= <-] Hk. cbn [an_classes].
  apply maps_of_pairs in E. fold (maps_of (pairs data)) in E. subst maps.
  pose proof (maps_spec (pairs data) (class_of t) t) as Hs. rewrite decide_True in Hs.
  - unfold find2 in Hs. destruct (dict_find (class_of t) _) as [km|] eqn:Ed; [|done]. exists (analyze_class km).
    apply list_elem_of_fmap. exists (class_of t, km). split; [done|]. rewrite sorted_items_perm.
    by apply dict_find_elem; [apply maps_wf|].
  - split; [done|]. intros E. apply (not_elem_of_empty (C := gset string) m). rewrite <- E. by apply elem_of_kills_in, elem_of_pairs.
Qed.

Lemma kills_set data m t : m ∈ kills_in (pairs data) t <-> kills data m t.
Proof. by rewrite elem_of_kills_in, elem_of_pairs. Qed.

(** C36. Deleting every reported test loses no kill.  Whatever the data of a
    mutation run, each mutant that some test kills is still killed by a test of
    the same class that the analysis does not report, although the reports of a
    class may subsume each other in chains. *)
Theorem deletion_keeps_kills (data : pydict entry) (a : analysis) (m t : string) :
  analyze_superfluity data = inr a -> kills data m t ->
  exists r t', (class_of t, r) ∈ an_classes a /\ class_of t' = class_of t /\ kills data m t' /\
    t' ∉ (su_test <$> cr_superfluous r).
Proof.
  intros Ha Hk. destruct (class_analysed data a m t Ha Hk) as (r & Hr).
  destruct (analysis_classes data a _ r Ha Hr) as (km & -> & Hnd & Hkm).
  assert (Ht : (t, kills_in (pairs data) t) ∈ km).
  { apply Hkm. split_and!; try done. intros E. apply kills_set in Hk. rewrite E in Hk. by apply not_elem_of_empty in Hk. }
  destruct (maximal_above km t _ Ht) as (b & Kb & Hb & Hs & Hmax). pose proof Hb as (Hc & -> & Hne)%Hkm.
  exists (analyze_class km), b. split; [done|]. split; [done|]. split; [by apply kills_set, Hs, kills_set|].
  intros (x & -> & Hx)%list_elem_of_fmap. destruct (elem_of_reports km x Hx) as (Ka & Kc & Hxa & Hxc & Hsub & _).
  apply Hkm in Hxa as (_ & -> & _). by apply (Hmax _ _ Hxc).
Qed.

(** What is reported, and what is not.  A test is reported in a class
    exactly when it kills something and another test of the class kills all
    of that and more; and no test is ever reported to kill nothing, since a
    test without kills never enters the maps. *)
Theorem superfluity_exact (data : pydict entry) (a : analysis) (c : string) (r : class_result) (t : string) :
  analyze_superfluity data = inr a -> (c, r) ∈ an_classes a ->
  (t ∈ (su_test <$> cr_superfluous r) <->
     class_of t = c /\ (exists m, kills data m t) /\
     exists t', class_of t' = c /\ (forall m, kills data m t -> kills data m t') /\
       exists m, kills data m t' /\ ~ kills data m t) /\
  cr_zero_kill r = [].
Proof.
  intros Ha Hr. destruct (analysis_classes data a c r Ha Hr) as (km & -> & Hnd & Hkm). split; [split|].
  - intros (x & -> & Hx)%list_elem_of_fmap.
    destruct (elem_of_reports km x Hx) as (Ka & Kb & [Ca [-> Na]]%Hkm & [Cb [-> Nb]]%Hkm & Hsub & _).
    pose proof Hsub as [Hs1 _].
    split; [done|]. split; [apply set_choose_L in Na as [m Hm]; exists m; by apply kills_set|].
    exists (su_by x). split; [done|]. split; [intros m Hm; by apply kills_set, Hs1, kills_set|].
    apply non_empty_difference_L, set_choose_L in Hsub as (m & [Hm Hn]%elem_of_difference). exists m. rewrite <- !kills_set. by split.
  - intros (Hc & [m Hm] & t' & Hc' & Hsub & m' & Hm' & Hn).
    apply kills_set in Hm, Hm'. rewrite <- kills_set in Hn.
    assert (N : forall x y, x ∈ kills_in (pairs data) y -> kills_in (pairs data) y <> ∅).
    { intros x y Hx E. rewrite E in Hx. by apply not_elem_of_empty in Hx. }
    apply (reported km t (kills_in (pairs data) t) t' (kills_in (pairs data) t')).
    + apply Hkm. split_and!; eauto.
    + apply Hkm. split_and!; eauto.
    + eauto.
    + split; [|set_solver]. intros x Hx. by apply kills_set, Hsub, kills_set.
  - rewrite analyze_class_eq. cbn [cr_zero_kill]. apply elem_of_nil_inv. intros x ([i [t0 K]] & Hin & Hx)%list_elem_of_omap.
    apply elem_of_imap_pair in Hin. apply list_elem_of_lookup_2 in Hin. apply Hkm in Hin as (_ & _ & HK).
    by rewrite bool_decide_eq_false_2 in Hx.
Qed.

(** ** Batches *)

(** Directories that differ in the report [k] only. *)
Inductive alike (k : string) : reports -> reports -> Prop :=
  | alike_here v v' l : alike k ((k, v) :: l) ((k, v') :: l)
  | alike_there i x d d' : i <> k -> alike k d d' -> alike k ((i, x) :: d) ((i, x) :: d').

Lemma alike_two k a a' d : alike k (dict_set k a d) (dict_set k a' d).
Proof.
  unfold dict_set. induction d as [|[i x] d IH]; cbn; [constructor|].
  destruct (String.eqb_spec i k) as [->|]; [constructor|]. by constructor.
Qed.

Lemma alike_over k a d d' : alike k d d' -> dict_set k a d = dict_set k a d'.
Proof.
  unfold dict_set. induction 1 as [v v' l|i x d d' Hne _ IH]; cbn; [by rewrite String.eqb_refl|].
  destruct (String.eqb_spec i k); [done|]. by rewrite IH.
Qed.

Lemma alike_set k j a d d' : j <> k -> alike k d d' -> alike k (dict_set j a d) (dict_set j a d').
Proof.
  unfold dict_set. intros Hj. induction 1 as [v v' l|i x d d' Hne Ha IH]; cbn.
  - destruct (String.eqb_spec k j); [congruence|]. constructor.
  - destruct (String.eqb_spec i j) as [->|]; by constructor.
Qed.

(** A run writes a report that does not depend on the directory, or none. *)
Lemma run_single_cases o f :
  (exists a, forall d, run_single o f d = (true, dict_set (report_name (path_stem f)) a d)) \/
  forall d, run_single o f d = (false, d).
Proof.
  destruct o as [[|e data]|]; [auto| |auto]. unfold run_single. destruct (analyze_superfluity (e :: data)); eauto.
Qed.

Lemma run_files_alike k outcome fs d d' failed :
  alike k d d' \/ d = d' ->
  let x := foldl (run_file outcome) (failed, d) fs in
  let y := foldl (run_file outcome) (failed, d') fs in
  fst x = fst y /\ (alike k (snd x) (snd y) \/ snd x = snd y).
Proof.
  revert d d' failed. induction fs as [|f fs IH]; intros d d' failed Ha; [done|]. cbn.
  destruct (run_single_cases (outcome f) f) as [[a E]|E]; rewrite !E; apply IH; [|done].
  destruct Ha as [Ha| ->]; [|auto]. destruct (decide (report_name (path_stem f) = k)) as [<-|Hne].
  - right. by apply alike_over.
  - left. by apply alike_set.
Qed.

Lemma run_files_ext outcome outcome' fs acc :
  Forall (fun f => outcome f = outcome' f) fs ->
  foldl (run_file outcome) acc fs = foldl (run_file outcome') acc fs.
Proof. intros H. revert acc. induction H as [|f fs E _ IH]; intros [failed d]; [done|]. cbn. by rewrite E, IH. Qed.

(** Two test files of the same name in different directories share one report
    file, and the second run overwrites the first: whatever the first file's
    tests kill, the project-wide report is the same. *)
Theorem same_stem_lost (outcome outcome' : string -> option (pydict entry)) (l1 l2 l3 : list string)
    (f1 f2 : string) (before : reports) :
  path_stem f1 = path_stem f2 ->
  (forall f, f <> f1 -> outcome f = outcome' f) -> f1 ∉ l1 ++ l2 ++ f2 :: l3 ->
  fst (run_single (outcome f1) f1 before) = true -> fst (run_single (outcome' f1) f1 before) = true ->
  fst (run_single (outcome f2) f2 before) = true ->
  run_all outcome (l1 ++ f1 :: l2 ++ f2 :: l3) before = run_all outcome' (l1 ++ f1 :: l2 ++ f2 :: l3) before.
Proof.
  intros Es Eo Hn O1 O1' O2.
  assert (Hall : forall l, f1 ∉ l -> Forall (fun f => outcome f = outcome' f) l).
  { intros l Hl. apply Forall_forall. intros f Hf. apply Eo. by intros ->. }
  rewrite !not_elem_of_app, not_elem_of_cons in Hn. destruct Hn as (N1 & N2 & N12 & N3).
  assert (Hw : forall o f, fst (run_single o f before) = true ->
    exists a, forall d, run_single o f d = (true, dict_set (report_name (path_stem f)) a d)).
  { intros o f H. destruct (run_single_cases o f) as [?|E]; [done|]. by rewrite E in H. }
  destruct (Hw _ _ O1) as [a1 E1], (Hw _ _ O1') as [a1' E1'], (Hw _ _ O2) as [a2 E2]. clear Hw.
  unfold run_all. rewrite !foldl_app. cbn [foldl].
  rewrite <- (run_files_ext outcome outcome' l1) by auto.
  destruct (foldl (run_file outcome) ([], before) l1) as [failed d]. cbn [run_file]. rewrite E1, E1'.
  rewrite !foldl_app. cbn [foldl]. rewrite <- (run_files_ext outcome outcome' l2) by auto.
  destruct (run_files_alike (report_name (path_stem f1)) outcome l2 _ _ failed
    (or_introl (alike_two (report_name (path_stem f1)) a1 a1' d))) as [Ef Ed].
  destruct (foldl _ _ l2) as [g1 d1], (foldl _ _ l2) as [g2 d2]. cbn [fst snd] in Ef, Ed. subst g2.
  cbn [run_file]. rewrite <- (Eo f2) by done. rewrite !E2, <- Es.
  assert (dict_set (report_name (path_stem f1)) a2 d1 = dict_set (report_name (path_stem f1)) a2 d2) as ->.
  { destruct Ed as [Ed| ->]; [by apply alike_over|done]. }
  rewrite (run_files_ext outcome outcome' l3) by auto. done.
Qed.

(** ** A concrete run *)

Definition demo_entry (killed_by : list string) : entry := [("killed_by", texts killed_by)].

(** Three tests of one class: the kills of the first are among those of the
    second, and those among the third's. *)
Definition demo_data : pydict entry :=
  [("m1", demo_entry ["f.py::TestA::one"; "f.py::TestA::two"; "f.py::TestA::three"]);
   ("m2", demo_entry ["f.py::TestA::two"; "f.py::TestA::three"]);
   ("m3", demo_entry ["f.py::TestA::three"; "f.py::alone"])].

Definition demo_report : class_result :=
  ClassResult 3 6 [Subsumption "f.py::TestA::one" 1 "f.py::TestA::two" 2;
                   Subsumption "f.py::TestA::two" 2 "f.py::TestA::three" 3] [].

Definition demo_analysis : analysis :=
  Analysis 2 2 [("<module-level>", ClassResult 1 1 [] []); ("TestA", demo_report)].

Lemma demo_analyzed : analyze_superfluity demo_data = inr demo_analysis.
Proof. by vm_compute. Qed.

Lemma demo_kill : kills demo_data "m1" "f.py::TestA::one".
Proof. eexists. split; [left|left]. Qed.

Lemma deletion_keeps_kills_witness :
  exists r t', ("TestA", r) ∈ an_classes demo_analysis /\ kills demo_data "m1" t' /\ t' ∉ (su_test <$> cr_superfluous r).
Proof.
  destruct (deletion_keeps_kills demo_data demo_analysis "m1" "f.py::TestA::one" demo_analyzed demo_kill)
    as (r & t' & Hr & _ & Hk & Hn).
  exists r, t'. split; [exact Hr|]. by split.
Defined.

Lemma superfluity_exact_witness :
  exists t', class_of t' = "TestA" /\ (forall m, kills demo_data m "f.py::TestA::one" -> kills demo_data m t').
Proof.
  assert (Hr : ("TestA", demo_report) ∈ an_classes demo_analysis) by (right; left).
  destruct (superfluity_exact demo_data demo_analysis "TestA" demo_report "f.py::TestA::one" demo_analyzed Hr) as [[H _] _].
  destruct H as (_ & _ & t' & Hc & Hs & _); [left|]. by exists t'.
Defined.

(** Two test files of the repository. *)
Lemma same_stem_lost_witness :
  let files := ["tests/contracts/test_rate_limiter.py"; "tests/implementations/test_rate_limiter.py"] in
  let outcome d f := if String.eqb f "tests/contracts/test_rate_limiter.py" then Some d else Some [("m9", demo_entry ["g.py::t"])] in
  run_all (outcome demo_data) files [] = run_all (outcome [("m1", demo_entry [])]) files [].
Proof.
  apply (same_stem_lost _ _ [] [] [] "tests/contracts/test_rate_limiter.py" "tests/implementations/test_rate_limiter.py").
  - by vm_compute.
  - intros f Hf. destruct (String.eqb_spec f "tests/contracts/test_rate_limiter.py"); [done|reflexivity].
  - by apply (bool_decide_unpack _).
  - by vm_compute.
  - by vm_compute.
  - by vm_compute.
Defined.
