(* ===== verification/Timeline.v ===== *)
(** * Timeline: which tests ran at the same time (scripts/generate_mutmut_report.py)

    The report rebuilds, from the events the test processes logged, the
    interval each test ran in ([_build_test_intervals]) and lists the pairs of
    tests of different processes that overlapped
    ([_detect_cross_pid_overlaps]), sweeping over the intervals in the order
    of their starts. *)

From Stdlib Require Import Sorted.
From S2P Require Import Prelude Float Text Json.

Open Scope Z_scope.
Open Scope rl_scope.

(** ** Sorting by a float key *)

(** [l.sort(key=f)] is stable. *)
Section Sort.
Context {A : Type} (f : A -> Q).

Fixpoint insert_by (x : A) (l : list A) : list A :=
  match l with
  | [] => [x]
  | y :: l' => if Qle_bool (f x) (f y) then x :: l else y :: insert_by x l'
  end.
Definition sort_by (l : list A) : list A := foldr insert_by [] l.

Lemma insert_by_perm x l : insert_by x l ≡ₚ x :: l.
Proof. induction l as [|y l IH]; cbn; [done|]. destruct (Qle_bool _ _); [done|]. rewrite IH. apply Permutation_swap. Qed.

Lemma sort_by_perm l : sort_by l ≡ₚ l.
Proof. induction l as [|x l IH]; cbn; [done|]. by rewrite insert_by_perm, IH. Qed.

Definition ascending : list A -> Prop := StronglySorted (fun x y => (f x <= f y)%Q).

Lemma insert_by_sorted x l : ascending l -> ascending (insert_by x l).
Proof.
  intros Hl. induction Hl as [|y l Hl IH Hy]; cbn; [repeat constructor|]. destruct (Qle_bool (f x) (f y)) eqn:E.
  - apply Qle_bool_iff in E. constructor; [by constructor|]. constructor; [done|].
    eapply Forall_impl; [exact Hy|]. intros z Hz. cbn in Hz. lra.
  - constructor; [done|]. rewrite insert_by_perm. constructor; [|done].
    destruct (Qlt_le_dec (f y) (f x)) as [H|H]; [lra|]. apply Qle_bool_iff in H. congruence.
Qed.

Lemma sort_by_sorted l : ascending (sort_by l).
Proof. induction l as [|x l IH]; cbn; [constructor|by apply insert_by_sorted]. Qed.

(** Sorting what is sorted changes nothing. *)
Lemma sort_by_id l : ascending l -> sort_by l = l.
Proof.
  induction 1 as [|x l Hl IH Hx]; cbn; [done|]. unfold sort_by in *. cbn. rewrite IH. destruct l as [|y l]; [done|]. cbn.
  apply Forall_cons in Hx as [Hx _]. by apply Qle_bool_iff in Hx as ->.
Qed.
End Sort.

(** ** Events and intervals *)

Record tevent := TEvent {
  te_pid : Z; te_kind : string; te_nodeid : option string; te_mutant : string; te_mono : Q; te_ts : Q;
}.

Inductive end_kind := EndCompleted | EndParentKilled | EndLastHeartbeat | NoEnd.

Record interval := Interval {
  iv_pid : Z; iv_mutant : string; iv_nodeid : option string;
  iv_start : Q; iv_start_ts : Q; iv_end : Q; iv_end_ts : Q; iv_kind : end_kind;
  iv_duration_ms : Q; iv_last_heartbeat : option Q;
}.

Section Intervals.
Context {F : Rounding}.

(** The inner loop: the end, the last heartbeat, and the events from where it
    stopped. *)
Fixpoint scan_test (nodeid : option string) (hb : option tevent) (evs : list tevent) :
    option tevent * option tevent * list tevent :=
  match evs with
  | [] => (None, hb, [])
  | later :: more =>
      let same := bool_decide (te_nodeid later = nodeid) in
      if same && String.eqb (te_kind later) "end" then (Some later, hb, evs)
      else
        let hb' := if same && String.eqb (te_kind later) "heartbeat" then Some later else hb in
        if String.eqb (te_kind later) "start" && negb same then (None, hb', evs)
        else scan_test nodeid hb' more
  end.

Definition interval_of (kill : option tevent) (ev : tevent) (end_event hb : option tevent) : interval :=
  let '(e, k) :=
    match end_event, kill, hb with
    | Some e, _, _ => (e, EndCompleted)
    | None, Some e, _ => (e, EndParentKilled)
    | None, None, Some e => (e, EndLastHeartbeat)
    | None, None, None => (ev, NoEnd)
    end in
  Interval (te_pid ev) (te_mutant ev) (te_nodeid ev) (te_mono ev) (te_ts ev) (te_mono e) (te_ts e) k
    ((te_mono e ⊖ te_mono ev) ⊗ 1000) (te_mono <$> hb).

(** The outer loop; an event is looked at a second time at most as the end or
    the start the inner loop stopped at, so its length is fuel enough. *)
Fixpoint walk (fuel : nat) (kill : option tevent) (evs : list tevent) : list interval :=
  match fuel, evs with
  | O, _ | _, [] => []
  | S n, ev :: rest =>
      if String.eqb (te_kind ev) "start" then
        let '(end_event, hb, rest') := scan_test (te_nodeid ev) None rest in
        interval_of kill ev end_event hb :: walk n kill rest'
      else walk n kill rest
  end.

(** The last [process_killed] of a process *)
Definition kill_event (evs : list tevent) : option tevent :=
  List.find (fun e => String.eqb (te_kind e) "process_killed") (rev evs).

Definition of_process (evs : list tevent) (pid : Z) : list interval :=
  let pid_events := sort_by te_mono (filter (fun e => te_pid e = pid) evs) in
  walk (length pid_events) (kill_event pid_events) pid_events.

(** The processes in the order of their first event. *)
Definition pids (evs : list tevent) : list Z :=
  foldl (fun l e => if bool_decide (te_pid e ∈ l) then l else l ++ [te_pid e]) [] evs.

(** [_build_test_intervals] *)
Definition build_test_intervals (evs : list tevent) : list interval :=
  sort_by iv_start (mjoin (of_process evs <$> pids evs)).

(** ** Overlaps *)

Record overlap := Overlap {
  ov_a_pid : Z; ov_a_mutant : string; ov_a_nodeid : option string;
  ov_b_pid : Z; ov_b_mutant : string; ov_b_nodeid : option string; ov_ms : Q;
}.

Definition overlap_of (a b : interval) : overlap :=
  let overlap_start := fmax (iv_start a) (iv_start b) in
  let overlap_end := fmin (iv_end a) (iv_end b) in
  Overlap (iv_pid a) (iv_mutant a) (iv_nodeid a) (iv_pid b) (iv_mutant b) (iv_nodeid b)
    ((overlap_end ⊖ overlap_start) ⊗ 1000).

(** The inner loop, which stops at the first interval that starts too late. *)
Fixpoint sweep (a : interval) (l : list interval) : list overlap :=
  match l with
  | [] => []
  | b :: l' =>
      if Qle_bool (iv_end a) (iv_start b) then []
      else if iv_pid a =? iv_pid b then sweep a l'
      else overlap_of a b :: sweep a l'
  end.

Fixpoint sweep_all (l : list interval) : list overlap :=
  match l with [] => [] | a :: l' => sweep a l' ++ sweep_all l' end.

(** [_detect_cross_pid_overlaps] *)
Definition detect_cross_pid_overlaps (records : list interval) : list overlap :=
  sweep_all (sort_by iv_start records).

(** ** The sweep misses nothing *)

(** Every pair of the list, in its order. *)
Fixpoint all_pairs {A} (l : list A) : list (A * A) :=
  match l with [] => [] | a :: l' => (pair a <$> l') ++ all_pairs l' end.

(** They run in different processes and one starts before the other ends. *)
Definition meets (p : interval * interval) : bool :=
  negb (iv_pid (fst p) =? iv_pid (snd p)) && negb (Qle_bool (iv_end (fst p)) (iv_start (snd p))).

Lemma sweep_late a l : Forall (fun b => (iv_end a <= iv_start b)%Q) l -> List.filter meets (pair a <$> l) = [].
Proof.
  induction 1 as [|b l Hb _ IH]; cbn; [done|]. unfold meets. cbn [fst snd]. apply Qle_bool_iff in Hb as ->.
  by rewrite andb_false_r.
Qed.

Lemma sweep_eq a l : ascending iv_start l ->
  sweep a l = (fun p => overlap_of (fst p) (snd p)) <$> List.filter meets (pair a <$> l).
Proof.
  induction 1 as [|b l Hl IH Hb]; cbn; [done|]. unfold meets at 1. cbn [fst snd].
  destruct (Qle_bool (iv_end a) (iv_start b)) eqn:E.
  - rewrite andb_false_r. apply Qle_bool_iff in E. rewrite sweep_late; [done|].
    eapply Forall_impl; [exact Hb|]. intros c Hc. cbn in Hc. lra.
  - rewrite andb_true_r. destruct (iv_pid a =? iv_pid b); cbn; by rewrite IH.
Qed.

(** C38. The sweep finds every overlap.  It lists exactly the pairs of
    intervals of different processes of which the second, in the order of the
    starts, begins before the first ends, each pair once, in that order; that
    it stops early loses none. *)
Theorem overlaps_exact (records : list interval) :
  detect_cross_pid_overlaps records =
    (fun p => overlap_of (fst p) (snd p)) <$> List.filter meets (all_pairs (sort_by iv_start records)).
Proof.
  unfold detect_cross_pid_overlaps. pose proof (sort_by_sorted iv_start records) as Hs.
  induction Hs as [|a l Hl IH Ha]; cbn; [done|]. by rewrite List.filter_app, fmap_app, <- IH, sweep_eq.
Qed.

(** ** Every start has its interval *)

Definition is_start (e : tevent) : bool := String.eqb (te_kind e) "start".
Definition starts (evs : list tevent) : list tevent := List.filter is_start evs.

(** No test is started twice in a row. *)
Fixpoint alternating (l : list tevent) : Prop :=
  match l with
  | a :: l' => match l' with b :: _ => te_nodeid a <> te_nodeid b | [] => True end /\ alternating l'
  | [] => True
  end.

(** What an interval says of the event it begins with. *)
Definition begins (e : tevent) : Z * string * option string * Q := (te_pid e, te_mutant e, te_nodeid e, te_mono e).
Definition begun (r : interval) : Z * string * option string * Q := (iv_pid r, iv_mutant r, iv_nodeid r, iv_start r).

Lemma begun_of kill ev e hb : begun (interval_of kill ev e hb) = begins ev.
Proof. unfold interval_of. by destruct e, kill, hb. Qed.

Lemma scan_rest nd hb evs :
  let '(_, _, rest) := scan_test nd hb evs in
  (length rest <= length evs)%nat /\
  (match starts evs with b :: _ => nd <> te_nodeid b | [] => True end -> starts rest = starts evs).
Proof.
  revert hb. induction evs as [|e evs IH]; intros hb; cbn [scan_test]; [done|].
  destruct (_ && String.eqb (te_kind e) "end"); [by split|].
  destruct (String.eqb (te_kind e) "start" && _) eqn:Es; [by split|].
  match goal with |- context [scan_test nd ?h evs] => specialize (IH h); destruct (scan_test nd h evs) as [[x y] rest] end.
  destruct IH as [IH1 IH2]. split; [cbn; lia|]. cbn [starts List.filter]. fold (starts evs). change (is_start e) with (String.eqb (te_kind e) "start").
  destruct (String.eqb (te_kind e) "start"); [|exact IH2]. cbn in Es. apply negb_false_iff, bool_decide_eq_true in Es.
  by intros Hne; destruct Hne.
Qed.

Lemma walk_starts n kill evs :
  (length evs <= n)%nat -> alternating (starts evs) -> begun <$> walk n kill evs = begins <$> starts evs.
Proof.
  revert evs. induction n as [|n IH]; intros [|ev rest]; cbn [walk]; try (cbn; lia || done).
  intros Hn Ha. cbn [length] in Hn. cbn [starts List.filter] in *. fold (starts rest) in *. unfold is_start in *.
  destruct (String.eqb (te_kind ev) "start"); [|apply IH; [lia|done]].
  destruct Ha as [Hne Ha]. pose proof (scan_rest (te_nodeid ev) None rest) as Hs.
  destruct (scan_test (te_nodeid ev) None rest) as [[e hb] rest']. destruct Hs as [Hl Hs]. specialize (Hs Hne).
  cbn. rewrite begun_of. f_equal. rewrite IH; [by rewrite Hs|lia|by rewrite Hs].
Qed.

Lemma pids_spec evs l :
  NoDup l ->
  let ps := foldl (fun l e => if bool_decide (te_pid e ∈ l) then l else l ++ [te_pid e]) l evs in
  NoDup ps /\ forall p, p ∈ ps <-> p ∈ l \/ p ∈ te_pid <$> evs.
Proof.
  revert l. induction evs as [|e evs IH]; intros l Hl; cbn.
  { split; [done|]. intros p. split; [auto|]. by intros [?|?%elem_of_nil]. }
  case_bool_decide as Hin.
  - destruct (IH l Hl) as [H1 H2]. split; [done|]. intros p. rewrite H2, elem_of_cons. naive_solver.
  - destruct (IH (l ++ [te_pid e])) as [H1 H2].
    { apply NoDup_app. split; [done|]. split; [|apply NoDup_singleton]. by intros x Hx ->%list_elem_of_singleton. }
    split; [done|]. intros p. rewrite H2, elem_of_app, list_elem_of_singleton, elem_of_cons. naive_solver.
Qed.

#[local] Instance starts_perm : Proper ((≡ₚ) ==> (≡ₚ)) starts.
Proof.
  unfold starts. induction 1 as [|x l l' _ IH|x y l|l l2 l3 _ IH1 _ IH2]; cbn; [done| | |by etrans].
  - destruct (is_start x); by rewrite IH.
  - destruct (is_start x), (is_start y); done || apply Permutation_swap.
Qed.

Lemma partition_perm ps (evs : list tevent) :
  NoDup ps -> (forall e, e ∈ evs -> te_pid e ∈ ps) -> mjoin ((fun p => filter (fun e => te_pid e = p) evs) <$> ps) ≡ₚ evs.
Proof.
  revert evs. induction ps as [|p ps IH]; intros evs Hnd Hall; cbn.
  { destruct evs as [|e evs]; [done|]. by specialize (Hall e (list_elem_of_here _ _)) as ?%elem_of_nil. }
  apply NoDup_cons in Hnd as [Hp Hnd].
  etrans; [|apply (filter_app_complement (fun e => te_pid e = p))]. f_equiv.
  etrans; [|apply (IH (filter (fun e => te_pid e <> p) evs) Hnd)].
  - apply reflexive_eq. f_equal. apply list_fmap_ext. intros i q Hq. apply list_elem_of_lookup_2 in Hq.
    rewrite list_filter_filter. apply list_filter_iff. intros e. split; [|naive_solver]. intros ->. split; [done|]. by intros ->.
  - intros e [Hne Hin]%list_elem_of_filter. apply Hall in Hin. by apply elem_of_cons in Hin as [?|?].
Qed.

Lemma join_perm {A B} (f g : A -> list B) l :
  (forall x, x ∈ l -> f x ≡ₚ g x) -> mjoin (f <$> l) ≡ₚ mjoin (g <$> l).
Proof.
  induction l as [|x l IH]; cbn; intros H; [done|]. f_equiv; [apply H; left|]. apply IH. intros y Hy. apply H. by right.
Qed.

(** Each start has its interval.  When no process starts the same test
    twice in a row, the intervals are those of the start events, one each,
    with the process, mutant, test and time of the event, and they come in the
    order of the starts; the loops of each process terminate within as many
    steps as it has events. *)
Theorem starts_have_intervals (evs : list tevent) :
  (forall pid, alternating (starts (sort_by te_mono (filter (fun e => te_pid e = pid) evs)))) ->
  (begun <$> build_test_intervals evs) ≡ₚ (begins <$> starts evs) /\
  ascending iv_start (build_test_intervals evs) /\
  forall kill l k, alternating (starts l) -> begun <$> walk (length l + k) kill l = begun <$> walk (length l) kill l.
Proof.
  intros Ha. split; [|split].
  - unfold build_test_intervals. rewrite (fmap_Permutation _ _ _ (sort_by_perm iv_start _)).
    destruct (pids_spec evs [] NoDup_nil_2) as [Hnd Hp]. fold (pids evs) in Hnd, Hp.
    assert (E : begun <$> mjoin (of_process evs <$> pids evs) =
                mjoin ((fun p => begins <$> starts (sort_by te_mono (filter (fun e => te_pid e = p) evs))) <$> pids evs)).
    { clear Hnd Hp. induction (pids evs) as [|p ps IH]; [done|]. cbn. rewrite fmap_app.
      unfold of_process at 1. rewrite walk_starts; [|done|apply Ha]. f_equal. apply IH. }
    rewrite E. clear E. etrans.
    { apply (join_perm _ (fun p => begins <$> starts (filter (fun e => te_pid e = p) evs))).
      intros p _. apply fmap_Permutation, starts_perm, sort_by_perm. }
    etrans; [|apply fmap_Permutation, starts_perm, (partition_perm (pids evs) evs Hnd)].
    + clear Hnd Hp. induction (pids evs) as [|p ps IH]; [done|]. cbn. unfold starts at 2.
      rewrite List.filter_app, fmap_app. by f_equiv.
    + intros e He. apply Hp. right. apply list_elem_of_fmap. by exists e.
  - apply sort_by_sorted.
  - intros kill l k Hl. rewrite !walk_starts; (done || lia).
Qed.
End Intervals.

(** ** Concrete runs *)

#[local] Existing Instance binary64.

Definition at_ (pid : Z) (kind mutant : string) (test : string) (t : Z) : tevent :=
  TEvent pid kind (Some test) mutant (inject_Z t) (inject_Z (1700000000 + t)).

(** Two processes; the second is killed by its parent. *)
Definition demo_timeline : list tevent :=
  [at_ 1 "start" "m1" "a" 0; at_ 2 "start" "m2" "a" 1; at_ 1 "end" "m1" "a" 2; at_ 1 "start" "m1" "b" 2;
   at_ 2 "heartbeat" "m2" "a" 3; TEvent 2 "process_killed" None "m2" 4 (inject_Z 1700000004); at_ 1 "end" "m1" "b" 5].

Lemma demo_alternating pid :
  alternating (starts (sort_by te_mono (filter (fun e => te_pid e = pid) demo_timeline))).
Proof.
  destruct (decide (pid = 1)) as [->|H1]; [by vm_compute|]. destruct (decide (pid = 2)) as [->|H2]; [by vm_compute|].
  unfold demo_timeline, at_. by rewrite !filter_cons_False by (cbn; congruence).
Qed.

Lemma starts_have_intervals_witness :
  (begun <$> build_test_intervals demo_timeline) ≡ₚ (begins <$> starts demo_timeline) /\
  length (detect_cross_pid_overlaps (build_test_intervals demo_timeline)) = 2%nat.
Proof. split; [exact (proj1 (starts_have_intervals demo_timeline demo_alternating))|by vm_compute]. Defined.

(** A start is swallowed.  The number of a killed process is used again, and
    the next process begins with the test the first was killed in: one
    interval is reported for two starts, of the first mutant, from the first
    start to the end the second process logged. *)
Theorem restart_swallowed :
  let evs := [at_ 7 "start" "m1" "a" 0; TEvent 7 "process_killed" None "m1" 3 0; at_ 7 "start" "m2" "a" 100;
              at_ 7 "end" "m2" "a" 101] in
  length (starts evs) = 2%nat /\
  (fun r => (iv_mutant r, iv_kind r, Qred (iv_duration_ms r))) <$> build_test_intervals evs =
    [("m1", EndCompleted, inject_Z 101000)].
Proof. by vm_compute. Qed.
